(** * Archivist Magika ingestion pipeline: a shallow embedding and its properties

    The development follows the Python sources of the repository:

    - [am_common.py]            : the dataset store ([DatasetIO]) and its helpers,
    - [am_structural_robust.py] : retry policy, blank-page detector, text extraction chain,
    - [am_extended.py]          : text analysis, duplicate detection, continuity audit,
    - [run_mvp.py]              : the stage orchestrator.

    Part I holds the definitions, module by module in the order of the source
    files, the later modules taking up what the earlier ones leave of a file;
    Part II holds the theorems.  Python [str] values that carry page text are sequences of Unicode
    code points ([text]); identifiers that the sources spell in ASCII (stage names)
    are Rocq strings. *)

From Stdlib Require Import ZArith NArith QArith Qminmax Qpower List String Ascii Bool Lia Arith.
From Stdlib Require Import Permutation Sorted.
Import ListNotations.

Set Implicit Arguments.
Set Warnings "-register-all".

(* ================================================================== *)
(** * Part I. Definitions                                              *)
(* ================================================================== *)

(** ** Python built-ins used by the sources *)

Module Py.

Local Open Scope N_scope.

(** A Python [str]: a sequence of Unicode code points. *)
Definition text : Type := list N.

(** The bytes of a Rocq string literal, and the text they spell in UTF-8: the
    way the literals of the sources are written down in this file. *)
Definition bytes_of_string (s : string) : list N :=
  List.map N_of_ascii (list_ascii_of_string s).

Fixpoint utf8_decode (b : list N) : text :=
  match b with
  | [] => []
  | b0 :: r0 =>
      if b0 <? 128 then b0 :: utf8_decode r0
      else if b0 <? 224 then
        match r0 with
        | b1 :: r1 => ((b0 mod 32) * 64 + b1 mod 64) :: utf8_decode r1
        | _ => []
        end
      else if b0 <? 240 then
        match r0 with
        | b1 :: b2 :: r2 =>
            ((b0 mod 16) * 4096 + (b1 mod 64) * 64 + b2 mod 64) :: utf8_decode r2
        | _ => []
        end
      else
        match r0 with
        | b1 :: b2 :: b3 :: r3 =>
            ((b0 mod 8) * 262144 + (b1 mod 64) * 4096 + (b2 mod 64) * 64 + b3 mod 64)
              :: utf8_decode r3
        | _ => []
        end
  end.

Definition u (s : string) : text := utf8_decode (bytes_of_string s).

(** [str.encode('utf-8')]. *)
Definition utf8_encode_char (c : N) : list N :=
  if c <? 128 then [c]
  else if c <? 2048 then [192 + c / 64; 128 + c mod 64]
  else if c <? 65536 then [224 + c / 4096; 128 + (c / 64) mod 64; 128 + c mod 64]
  else [240 + c / 262144; 128 + (c / 4096) mod 64; 128 + (c / 64) mod 64; 128 + c mod 64].

Definition utf8_encode (t : text) : list N := flat_map utf8_encode_char t.

(** [len]. *)
Definition len (t : text) : Z := Z.of_nat (List.length t).

(** Equality of two [str] values. *)
Fixpoint text_eqb (a b : text) : bool :=
  match a, b with
  | [], [] => true
  | x :: a', y :: b' => (x =? y) && text_eqb a' b'
  | _, _ => false
  end.

(** [a < b] on [str]: lexicographic on code points. *)
Fixpoint text_ltb (a b : text) : bool :=
  match a, b with
  | _, [] => false
  | [], _ :: _ => true
  | x :: a', y :: b' => (x <? y) || ((x =? y) && text_ltb a' b')
  end.

(** [str.isspace] on one code point: the characters [str.strip] and
    [str.split] treat as whitespace. *)
Definition is_space (c : N) : bool :=
  ((9 <=? c) && (c <=? 13)) || ((28 <=? c) && (c <=? 32)) || (c =? 133) || (c =? 160)
  || (c =? 5760) || ((8192 <=? c) && (c <=? 8202)) || (c =? 8232) || (c =? 8233)
  || (c =? 8239) || (c =? 8287) || (c =? 12288).

Fixpoint lstrip (t : text) : text :=
  match t with
  | [] => []
  | c :: t' => if is_space c then lstrip t' else t
  end.

Definition rstrip (t : text) : text := rev (lstrip (rev t)).

(** [str.strip()]. *)
Definition strip (t : text) : text := rstrip (lstrip t).

(** [str.split()] without arguments: the maximal runs of non-whitespace. *)
Fixpoint split_ws_aux (cur : text) (t : text) : list text :=
  match t with
  | [] => match cur with [] => [] | _ => [rev cur] end
  | c :: t' =>
      if is_space c then
        match cur with
        | [] => split_ws_aux [] t'
        | _ => rev cur :: split_ws_aux [] t'
        end
      else split_ws_aux (c :: cur) t'
  end.

Definition split_ws (t : text) : list text := split_ws_aux [] t.

(** [sep.join(parts)]. *)
Fixpoint join (sep : text) (parts : list text) : text :=
  match parts with
  | [] => []
  | [p] => p
  | p :: ps => p ++ sep ++ join sep ps
  end.

(** [s.startswith(p)]. *)
Fixpoint starts_with (p s : text) : bool :=
  match p, s with
  | [], _ => true
  | _ :: _, [] => false
  | a :: p', b :: s' => (a =? b) && starts_with p' s'
  end.

(** [s.split(sep, 1)] for a non-empty [sep]: [Some (before, after)] around the
    first occurrence of [sep], [None] when [sep] does not occur (Python then
    returns the one-element list). *)
Fixpoint split1 (sep s : text) {struct s} : option (text * text) :=
  if starts_with sep s then Some ([], skipn (List.length sep) s)
  else match s with
       | [] => None
       | c :: s' =>
           match split1 sep s' with
           | Some (before, after) => Some (c :: before, after)
           | None => None
           end
       end.

(** [sep in s]. *)
Definition contains (sep s : text) : bool :=
  match split1 sep s with Some _ => true | None => false end.

(** The line boundaries of [str.splitlines]. *)
Definition is_linebreak (c : N) : bool :=
  ((10 <=? c) && (c <=? 13)) || ((28 <=? c) && (c <=? 30)) || (c =? 133)
  || (c =? 8232) || (c =? 8233).

(** [str.splitlines()]: a carriage return followed by a line feed is one
    boundary; a final boundary opens no empty line. *)
Fixpoint splitlines (s : text) : list text :=
  match s with
  | [] => []
  | c :: s' =>
      if is_linebreak c then
        [] :: match s' with
              | c' :: s'' => if (c =? 13) && (c' =? 10) then splitlines s''
                             else splitlines s'
              | [] => []
              end
      else match splitlines s' with
           | [] => [[c]]
           | l :: ls => (c :: l) :: ls
           end
  end.

(** [str.lower()] on one code point, for the alphabets the sources name
    (ASCII, Latin-1, Cyrillic); other code points are left as they are. *)
Definition lower_char (c : N) : N :=
  if (65 <=? c) && (c <=? 90) then c + 32
  else if (192 <=? c) && (c <=? 222) && negb (c =? 215) then c + 32
  else if (1024 <=? c) && (c <=? 1039) then c + 80
  else if (1040 <=? c) && (c <=? 1071) then c + 32
  else c.

Definition lower (t : text) : text := List.map lower_char t.

(** Decimal digits of a natural number, as [str(n)] prints them. *)
Fixpoint digits_aux (fuel : nat) (n : N) (acc : text) : text :=
  match fuel with
  | O => acc
  | S fuel' =>
      let acc' := (48 + n mod 10) :: acc in
      if n / 10 =? 0 then acc' else digits_aux fuel' (n / 10) acc'
  end.

Definition str_of_N (n : N) : text := digits_aux (S (N.to_nat (N.log2 n))) n [].

(** [str(z)] for a Python [int]. *)
Definition str_of_Z (z : Z) : text :=
  match z with
  | Z0 => [48]
  | Zpos p => str_of_N (Npos p)
  | Zneg p => 45 :: str_of_N (Npos p)
  end.

(** [round(x, 3)] on the rational a float denotes: to the nearest multiple of
    1/1000, a tie going to the even one.  A float has one representation, so
    the result is kept in lowest terms. *)
Definition round3 (q : Q) : Q :=
  let n := (Qnum q * 1000)%Z in
  let d := Zpos (Qden q) in
  let fl := (n / d)%Z in
  let r := (n mod d)%Z in
  let k := if (2 * r <? d)%Z then fl
           else if (d <? 2 * r)%Z then (fl + 1)%Z
           else if Z.even fl then fl else (fl + 1)%Z in
  Qred (Qmake k 1000).

(** [a < b] on floats. *)
Definition Qltb (a b : Q) : bool := negb (Qle_bool b a).

End Py.

(** ** hashlib : the two digests the sources call *)

Module Hashlib.

Local Open Scope N_scope.

Definition mask32 : N := 4294967295.
Definition add32 (a b : N) : N := (a + b) mod 4294967296.
Definition not32 (x : N) : N := N.lxor x mask32.
Definition rotl32 (n x : N) : N :=
  N.land (N.lor (N.shiftl x n) (N.shiftr x (32 - n))) mask32.
Definition rotr32 (n x : N) : N :=
  N.land (N.lor (N.shiftr x n) (N.shiftl x (32 - n))) mask32.

(** Message padding: the byte 0x80, zero bytes up to 56 modulo 64, and the bit
    length on eight bytes ([big_endian] for SHA-256, little-endian for MD5). *)
Definition length_bytes (big_endian : bool) (bits : N) : list N :=
  let le := List.map (fun i => (N.shiftr bits (8 * N.of_nat i)) mod 256) (seq 0 8) in
  if big_endian then rev le else le.

Definition pad (big_endian : bool) (msg : list N) : list N :=
  let n := N.of_nat (List.length msg) in
  let zeros := (64 + 55 - n mod 64) mod 64 in
  msg ++ [128] ++ repeat 0 (N.to_nat zeros) ++ length_bytes big_endian (8 * n).

Fixpoint chunks (fuel size : nat) (l : list N) : list (list N) :=
  match fuel with
  | O => []
  | S fuel' =>
      match l with
      | [] => []
      | _ => firstn size l :: chunks fuel' size (skipn size l)
      end
  end.

Definition blocks (l : list N) : list (list N) := chunks (List.length l) 64 l.

Definition word_be (b : list N) : N :=
  fold_left (fun acc x => acc * 256 + x) b 0.
Definition word_le (b : list N) : N := word_be (rev b).
Definition bytes_be (w : N) : list N :=
  [N.shiftr w 24 mod 256; N.shiftr w 16 mod 256; N.shiftr w 8 mod 256; w mod 256].
Definition bytes_le (w : N) : list N := rev (bytes_be w).

Definition hex_digit (d : N) : N := if d <? 10 then 48 + d else 87 + d.
Definition hex_of_bytes (b : list N) : Py.text :=
  flat_map (fun x => [hex_digit (x / 16); hex_digit (x mod 16)]) b.

(** *** SHA-256 *)

Definition K256 : list N :=
  [
   1116352408; 1899447441; 3049323471; 3921009573; 961987163; 1508970993;
   2453635748; 2870763221; 3624381080; 310598401; 607225278; 1426881987;
   1925078388; 2162078206; 2614888103; 3248222580; 3835390401; 4022224774;
   264347078; 604807628; 770255983; 1249150122; 1555081692; 1996064986;
   2554220882; 2821834349; 2952996808; 3210313671; 3336571891; 3584528711;
   113926993; 338241895; 666307205; 773529912; 1294757372; 1396182291;
   1695183700; 1986661051; 2177026350; 2456956037; 2730485921; 2820302411;
   3259730800; 3345764771; 3516065817; 3600352804; 4094571909; 275423344;
   430227734; 506948616; 659060556; 883997877; 958139571; 1322822218;
   1537002063; 1747873779; 1955562222; 2024104815; 2227730452; 2361852424;
   2428436474; 2756734187; 3204031479; 3329325298 ].

Definition H256 : list N :=
  [
   1779033703; 3144134277; 1013904242; 2773480762; 1359893119; 2600822924;
   528734635; 1541459225 ].

Definition bsig0 x := N.lxor (N.lxor (rotr32 2 x) (rotr32 13 x)) (rotr32 22 x).
Definition bsig1 x := N.lxor (N.lxor (rotr32 6 x) (rotr32 11 x)) (rotr32 25 x).
Definition ssig0 x := N.lxor (N.lxor (rotr32 7 x) (rotr32 18 x)) (N.shiftr x 3).
Definition ssig1 x := N.lxor (N.lxor (rotr32 17 x) (rotr32 19 x)) (N.shiftr x 10).
Definition ch x y z := N.lxor (N.land x y) (N.land (not32 x) z).
Definition maj x y z := N.lxor (N.lxor (N.land x y) (N.land x z)) (N.land y z).

Fixpoint extend_schedule (k : nat) (w : list N) : list N :=
  match k with
  | O => w
  | S k' =>
      let n := List.length w in
      let at_ (back : nat) := nth (n - back) w 0 in
      extend_schedule k'
        (w ++ [add32 (add32 (add32 (ssig1 (at_ 2%nat)) (at_ 7%nat)) (ssig0 (at_ 15%nat)))
                     (at_ 16%nat)])
  end.

Definition schedule256 (block : list N) : list N :=
  extend_schedule 48 (List.map word_be (chunks 16 4 block)).

Definition round256 (st : list N) (kw : N * N) : list N :=
  match st with
  | [a; b; c; d; e; f; g; h] =>
      let t1 := add32 (add32 (add32 (add32 h (bsig1 e)) (ch e f g)) (fst kw)) (snd kw) in
      let t2 := add32 (bsig0 a) (maj a b c) in
      [add32 t1 t2; a; b; c; add32 d t1; e; f; g]
  | _ => st
  end.

Definition compress256 (h : list N) (block : list N) : list N :=
  List.map (fun p => add32 (fst p) (snd p))
    (combine h (fold_left round256 (combine K256 (schedule256 block)) h)).

Definition sha256_digest (msg : list N) : list N :=
  flat_map bytes_be (fold_left compress256 (blocks (pad true msg)) H256).

(** [hashlib.sha256(data).hexdigest()]. *)
Definition sha256_hexdigest (msg : list N) : Py.text := hex_of_bytes (sha256_digest msg).

(** *** MD5 *)

Definition T5 : list N :=
  [
   3614090360; 3905402710; 606105819; 3250441966; 4118548399; 1200080426;
   2821735955; 4249261313; 1770035416; 2336552879; 4294925233; 2304563134;
   1804603682; 4254626195; 2792965006; 1236535329; 4129170786; 3225465664;
   643717713; 3921069994; 3593408605; 38016083; 3634488961; 3889429448;
   568446438; 3275163606; 4107603335; 1163531501; 2850285829; 4243563512;
   1735328473; 2368359562; 4294588738; 2272392833; 1839030562; 4259657740;
   2763975236; 1272893353; 4139469664; 3200236656; 681279174; 3936430074;
   3572445317; 76029189; 3654602809; 3873151461; 530742520; 3299628645;
   4096336452; 1126891415; 2878612391; 4237533241; 1700485571; 2399980690;
   4293915773; 2240044497; 1873313359; 4264355552; 2734768916; 1309151649;
   4149444226; 3174756917; 718787259; 3951481745 ].

Definition S5 : list N :=
  [ 7; 12; 17; 22; 7; 12; 17; 22; 7; 12; 17; 22; 7; 12; 17; 22;
    5; 9; 14; 20; 5; 9; 14; 20; 5; 9; 14; 20; 5; 9; 14; 20;
    4; 11; 16; 23; 4; 11; 16; 23; 4; 11; 16; 23; 4; 11; 16; 23;
    6; 10; 15; 21; 6; 10; 15; 21; 6; 10; 15; 21; 6; 10; 15; 21 ].

Definition A5 : list N := [1732584193; 4023233417; 2562383102; 271733878].

Definition round5 (m : list N) (st : list N) (i : nat) : list N :=
  match st with
  | [a; b; c; d] =>
      let i' := N.of_nat i in
      let '(f, g) :=
        if i' <? 16 then (N.lor (N.land b c) (N.land (not32 b) d), i')
        else if i' <? 32 then (N.lor (N.land d b) (N.land (not32 d) c), (5 * i' + 1) mod 16)
        else if i' <? 48 then (N.lxor (N.lxor b c) d, (3 * i' + 5) mod 16)
        else (N.lxor c (N.lor b (not32 d)), (7 * i') mod 16) in
      let f' := add32 (add32 (add32 f a) (nth i T5 0)) (nth (N.to_nat g) m 0) in
      [d; add32 b (rotl32 (nth i S5 0) f'); b; c]
  | _ => st
  end.

Definition compress5 (h : list N) (block : list N) : list N :=
  let m := List.map word_le (chunks 16 4 block) in
  List.map (fun p => add32 (fst p) (snd p))
    (combine h (fold_left (round5 m) (seq 0 64) h)).

Definition md5_digest (msg : list N) : list N :=
  flat_map bytes_le (fold_left compress5 (blocks (pad false msg)) A5).

(** [hashlib.md5(data).hexdigest()]. *)
Definition md5_hexdigest (msg : list N) : Py.text := hex_of_bytes (md5_digest msg).

End Hashlib.

(** ** json : values, [json.dumps(_, ensure_ascii=False)] and [json.loads] *)

Module Json.

Import Py.
Local Open Scope N_scope.

(** The JSON values of the model.  Python floats are left out: the numbers of a
    value are integers. *)
Inductive value : Type :=
| JNull
| JBool (b : bool)
| JInt (z : Z)
| JStr (s : text)
| JList (l : list value)
| JDict (d : list (text * value)).

(** A Python [dict] with [str] keys: insertion-ordered, one entry per key. *)
Definition dict : Type := list (text * value).

(** [d.get(k)]. *)
Fixpoint dict_get (k : text) (d : dict) : option value :=
  match d with
  | [] => None
  | (k', v) :: d' => if text_eqb k k' then Some v else dict_get k d'
  end.

(** [k in d]. *)
Definition dict_has (k : text) (d : dict) : bool :=
  match dict_get k d with Some _ => true | None => false end.

(** [d[k] = v]: an existing key keeps its place. *)
Fixpoint dict_set (k : text) (v : value) (d : dict) : dict :=
  match d with
  | [] => [(k, v)]
  | (k', v') :: d' =>
      if text_eqb k k' then (k, v) :: d' else (k', v') :: dict_set k v d'
  end.

(** [d[k] = d.get(k, v)]. *)
Definition dict_set_default (k : text) (v : value) (d : dict) : dict :=
  match dict_get k d with
  | Some v' => dict_set k v' d
  | None => dict_set k v d
  end.

(** [d.update(e)]. *)
Definition dict_update (d e : dict) : dict :=
  fold_left (fun acc kv => dict_set (fst kv) (snd kv) acc) e d.

(** *** Encoding *)

Definition hex4 (c : N) : text :=
  List.map Hashlib.hex_digit [c / 4096 mod 16; c / 256 mod 16; c / 16 mod 16; c mod 16].

(** One character of a string literal, as [json.encoder] writes it when
    [ensure_ascii] is false: the quote, the backslash and the control
    characters below U+0020 are escaped, everything else is written as it is. *)
Definition escape_char (c : N) : text :=
  if c =? 34 then [92; 34]
  else if c =? 92 then [92; 92]
  else if c =? 10 then [92; 110]
  else if c =? 13 then [92; 114]
  else if c =? 9 then [92; 116]
  else if c =? 8 then [92; 98]
  else if c =? 12 then [92; 102]
  else if c <? 32 then [92; 117] ++ hex4 c
  else [c].

Definition quote (s : text) : text := [34] ++ flat_map escape_char s ++ [34].

(** [json.dumps(v, ensure_ascii=False)], with the default separators. *)
Fixpoint dumps (v : value) : text :=
  match v with
  | JNull => u "null"
  | JBool true => u "true"
  | JBool false => u "false"
  | JInt z => str_of_Z z
  | JStr s => quote s
  | JList l => [91] ++ join (u ", ") (List.map dumps l) ++ [93]
  | JDict d =>
      [123]
      ++ join (u ", ") (List.map (fun kv => quote (fst kv) ++ u ": " ++ dumps (snd kv)) d)
      ++ [125]
  end.

(** *** Decoding *)

(** The result of a decoding step: a value and the rest of the input, a
    [JSONDecodeError], or a number with a fraction or an exponent (a float,
    which the model does not represent). *)
Inductive parsed (A : Type) : Type :=
| POk (a : A) (rest : text)
| PError
| PFloat.
Arguments PError {A}.
Arguments PFloat {A}.

Definition pbind {A B : Type} (p : parsed A) (k : A -> text -> parsed B) : parsed B :=
  match p with
  | POk a rest => k a rest
  | PError => PError
  | PFloat => PFloat
  end.

(** JSON whitespace: space, tab, line feed, carriage return. *)
Definition json_ws (c : N) : bool := (c =? 32) || (c =? 9) || (c =? 10) || (c =? 13).

Fixpoint skip_ws (s : text) : text :=
  match s with
  | c :: s' => if json_ws c then skip_ws s' else s
  | [] => []
  end.

Definition hex_value (c : N) : option N :=
  if (48 <=? c) && (c <=? 57) then Some (c - 48)
  else if (97 <=? c) && (c <=? 102) then Some (c - 87)
  else if (65 <=? c) && (c <=? 70) then Some (c - 55)
  else None.

Definition unescape (c : N) : option N :=
  if c =? 34 then Some 34 else if c =? 92 then Some 92 else if c =? 47 then Some 47
  else if c =? 98 then Some 8 else if c =? 102 then Some 12 else if c =? 110 then Some 10
  else if c =? 114 then Some 13 else if c =? 116 then Some 9 else None.

(** The characters of a string literal after its opening quote. *)
Fixpoint parse_chars (s : text) : parsed text :=
  match s with
  | [] => PError
  | c :: r =>
      if c =? 34 then POk [] r
      else if c =? 92 then
        match r with
        | e :: r' =>
            if e =? 117 then
              match r' with
              | h1 :: h2 :: h3 :: h4 :: r'' =>
                  match hex_value h1, hex_value h2, hex_value h3, hex_value h4 with
                  | Some a, Some b, Some c', Some d =>
                      pbind (parse_chars r'')
                            (fun t rest => POk (a * 4096 + b * 256 + c' * 16 + d :: t) rest)
                  | _, _, _, _ => PError
                  end
              | _ => PError
              end
            else
              match unescape e with
              | Some ch => pbind (parse_chars r') (fun t rest => POk (ch :: t) rest)
              | None => PError
              end
        | [] => PError
        end
      else if c <? 32 then PError
      else pbind (parse_chars r) (fun t rest => POk (c :: t) rest)
  end.

(** An escaped surrogate pair denotes one code point. *)
Fixpoint join_surrogates (t : text) : text :=
  match t with
  | hi :: t' =>
      match t' with
      | lo :: t'' =>
          if (55296 <=? hi) && (hi <=? 56319) && (56320 <=? lo) && (lo <=? 57343)
          then (65536 + (hi - 55296) * 1024 + (lo - 56320)) :: join_surrogates t''
          else hi :: join_surrogates t'
      | [] => [hi]
      end
  | [] => []
  end.

Definition parse_string (s : text) : parsed text :=
  pbind (parse_chars s) (fun t rest => POk (join_surrogates t) rest).

Definition is_digit (c : N) : bool := (48 <=? c) && (c <=? 57).

Fixpoint take_digits (s : text) : text * text :=
  match s with
  | c :: r => if is_digit c then let '(ds, rest) := take_digits r in (c :: ds, rest)
              else ([], s)
  | [] => ([], [])
  end.

Definition digits_value (ds : text) : Z :=
  fold_left (fun acc c => (acc * 10 + Z.of_N (c - 48))%Z) ds 0%Z.

(** A number: an optional minus sign, then [0] or a digit string without a
    leading zero; a fraction or an exponent makes it a float. *)
Definition parse_number (s : text) : parsed value :=
  let '(neg, s1) := match s with
                    | c :: r => if c =? 45 then (true, r) else (false, s)
                    | [] => (false, s)
                    end in
  match s1 with
  | c :: r =>
      if is_digit c then
        let '(ds, rest) := if c =? 48 then ([c], r) else take_digits s1 in
        match rest with
        | c' :: _ =>
            if (c' =? 46) || (c' =? 101) || (c' =? 69) then PFloat
            else POk (JInt (if neg then - digits_value ds else digits_value ds)%Z) rest
        | [] => POk (JInt (if neg then - digits_value ds else digits_value ds)%Z) rest
        end
      else if neg && starts_with (u "Infinity") s1 then PFloat
      else PError
  | [] => PError
  end.

(** [dict(pairs)]: a repeated key keeps its first place and its last value. *)
Definition dict_of_pairs (pairs : list (text * value)) : dict :=
  fold_left (fun acc kv => dict_set (fst kv) (snd kv) acc) pairs [].

(** The decoder proper.  [fuel] bounds the nesting and the number of items;
    the length of the input is always enough. *)
Fixpoint parse_value (fuel : nat) (s : text) {struct fuel} : parsed value :=
  match fuel with
  | O => PError
  | S fuel' =>
      match s with
      | [] => PError
      | c :: r =>
          if c =? 34 then pbind (parse_string r) (fun t rest => POk (JStr t) rest)
          else if c =? 123 then
            match skip_ws r with
            | c' :: r' =>
                if c' =? 125 then POk (JDict []) r'
                else pbind (parse_members fuel' (c' :: r'))
                           (fun ps rest => POk (JDict (dict_of_pairs ps)) rest)
            | [] => PError
            end
          else if c =? 91 then
            match skip_ws r with
            | c' :: r' =>
                if c' =? 93 then POk (JList []) r'
                else pbind (parse_elements fuel' (c' :: r'))
                           (fun vs rest => POk (JList vs) rest)
            | [] => PError
            end
          else if starts_with (u "null") s then POk JNull (skipn 4 s)
          else if starts_with (u "true") s then POk (JBool true) (skipn 4 s)
          else if starts_with (u "false") s then POk (JBool false) (skipn 5 s)
          else if starts_with (u "NaN") s then PFloat
          else if starts_with (u "Infinity") s then PFloat
          else parse_number s
      end
  end

(** The items of an array, from the first one to the closing bracket. *)
with parse_elements (fuel : nat) (s : text) {struct fuel} : parsed (list value) :=
  match fuel with
  | O => PError
  | S fuel' =>
      pbind (parse_value fuel' s) (fun v rest =>
        match skip_ws rest with
        | c :: r =>
            if c =? 44 then
              pbind (parse_elements fuel' (skip_ws r)) (fun vs rest' => POk (v :: vs) rest')
            else if c =? 93 then POk [v] r
            else PError
        | [] => PError
        end)
  end

(** The members of an object, from the first key to the closing brace. *)
with parse_members (fuel : nat) (s : text) {struct fuel} : parsed (list (text * value)) :=
  match fuel with
  | O => PError
  | S fuel' =>
      match s with
      | c :: r =>
          if c =? 34 then
            pbind (parse_string r) (fun k rest =>
              match skip_ws rest with
              | c1 :: r1 =>
                  if c1 =? 58 then
                    pbind (parse_value fuel' (skip_ws r1)) (fun v rest1 =>
                      match skip_ws rest1 with
                      | c2 :: r2 =>
                          if c2 =? 44 then
                            pbind (parse_members fuel' (skip_ws r2))
                                  (fun ps rest2 => POk ((k, v) :: ps) rest2)
                          else if c2 =? 125 then POk [(k, v)] r2
                          else PError
                      | [] => PError
                      end)
                  else PError
              | [] => PError
              end)
          else PError
      | [] => PError
      end
  end.

(** The outcome of [json.loads]. *)
Inductive loaded : Type :=
| Loaded (v : value)
| JSONDecodeError
| FloatOutsideModel.

(** [json.loads(s)]: one value between optional whitespace, and nothing else. *)
Definition loads (s : text) : loaded :=
  match parse_value (S (List.length s)) (skip_ws s) with
  | POk v rest => match skip_ws rest with
                  | [] => Loaded v
                  | _ => JSONDecodeError
                  end
  | PError => JSONDecodeError
  | PFloat => FloatOutsideModel
  end.

(** *** The values the decoder gives back *)

(** UTF-8 encodes no surrogate code point: a [str] that holds one cannot be
    written to a file opened with [encoding='utf-8']. *)
Definition is_surrogate (c : N) : bool := (55296 <=? c) && (c <=? 57343).

Definition plain_text (t : text) : bool := forallb (fun c => negb (is_surrogate c)) t.

Fixpoint unique_keys (ks : list text) : bool :=
  match ks with
  | [] => true
  | k :: ks' => negb (existsb (text_eqb k) ks') && unique_keys ks'
  end.

(** A value as Python holds it and UTF-8 can carry it: one entry per key in
    every dictionary, no surrogate in any key or string. *)
Fixpoint well_formed (v : value) : bool :=
  match v with
  | JStr s => plain_text s
  | JList l => forallb well_formed l
  | JDict d =>
      forallb (fun kv => plain_text (fst kv) && well_formed (snd kv)) d
      && unique_keys (List.map fst d)
  | _ => true
  end.

(** The fuel the decoder uses on the text of a value. *)
Fixpoint size (v : value) : nat :=
  match v with
  | JList l => S (list_sum (List.map (fun x => S (size x)) l))
  | JDict d => S (list_sum (List.map (fun kv => S (size (snd kv))) d))
  | _ => 1
  end.

(** What follows a value inside an array or an object, or nothing. *)
Definition stops (rest : text) : Prop :=
  match rest with
  | [] => True
  | c :: _ => c = 44 \/ c = 93 \/ c = 125
  end.

(** One member of an object, as [dumps] writes it. *)
Definition member (kv : text * value) : text := quote (fst kv) ++ u ": " ++ dumps (snd kv).

Definition member_ok (kv : text * value) : bool :=
  plain_text (fst kv) && well_formed (snd kv).

Definition elements_fuel (l : list value) : nat :=
  list_sum (List.map (fun x => S (size x)) l).

Definition members_fuel (d : dict) : nat :=
  list_sum (List.map (fun kv => S (size (snd kv))) d).

(** The characters an encoded value can begin with. *)
Definition opens (c : N) : bool :=
  (c =? 110) || (c =? 116) || (c =? 102) || is_digit c || (c =? 45)
  || (c =? 34) || (c =? 91) || (c =? 123).

(** What follows an item of an array or an object: the closing character, or
    a comma, a space and the items left. *)
Definition after_item (close : N) (more : list text) (rest : text) : text :=
  match more with
  | [] => close :: rest
  | _ :: _ => 44 :: 32 :: join (u ", ") more ++ close :: rest
  end.

(** What may follow a number: anything but a digit, a point and an exponent. *)
Definition follows (rest : text) : Prop :=
  match rest with
  | [] => True
  | c :: _ => is_digit c = false /\ (c =? 46) || (c =? 101) || (c =? 69) = false
  end.

(** One step of [digits_value]. *)
Definition digit_step (acc : Z) (c : N) : Z := (acc * 10 + Z.of_N (c - 48))%Z.

End Json.

(** ** am_common.py : the dataset store *)

Module Common.

Import Py Json.
Local Open Scope string_scope.
Local Open Scope list_scope.

Definition VERSION : text := u "2.0.0".
Definition PRODUCT_NAME : text := u "archivist magika".

Definition DATASET_BEGIN : text := u "===DATASET_BEGIN===".
Definition DATASET_END : text := u "===DATASET_END===".

Definition HEADER_ID : text := u "__header__".
Definition AUDIT_ID : text := u "__audit__".
Definition FOOTER_ID : text := u "__footer__".

Definition REQUIRED_FIELDS : list (text * list text) :=
  [ (u "structural", [u "segment_id"; u "segment"; u "page_num"]);
    (u "structured", [u "segment_id"; u "segment"; u "page_num"; u "chapter_title";
                      u "section_title"]);
    (u "summarized", [u "segment_id"; u "segment"; u "page_num"; u "l1_summary";
                      u "l2_summary"]);
    (u "extended", [u "segment_id"; u "segment"; u "page_num"; u "prev_page"; u "next_page"]);
    (u "final", [u "segment_id"; u "segment"; u "page_num"]);
    (u "chunks", [u "chunk_id"; u "text"; u "tokens"; u "metadata"]) ].

(** [manifest_sha256]: SHA-256 over every line, each followed by a line feed. *)
Definition manifest_sha256 (lines : list text) : text :=
  Hashlib.sha256_hexdigest (flat_map (fun line => utf8_encode line ++ [10%N]) lines).

Module DatasetIO.

(** [REQUIRED_FIELDS.get(stage, ["segment_id", "segment"])]; [stage] is [None]
    by default. *)
Fixpoint lookup_fields (stage : text) (table : list (text * list text)) : option (list text) :=
  match table with
  | [] => None
  | (k, v) :: table' => if text_eqb stage k then Some v else lookup_fields stage table'
  end.

Definition required_fields_for (stage : option text) : list text :=
  match stage with
  | Some st =>
      match lookup_fields st REQUIRED_FIELDS with
      | Some fs => fs
      | None => [u "segment_id"; u "segment"]
      end
  | None => [u "segment_id"; u "segment"]
  end.

(** [sid in [HEADER_ID, AUDIT_ID, FOOTER_ID]]. *)
Definition is_reserved (sid : value) : bool :=
  match sid with
  | JStr t => text_eqb t HEADER_ID || text_eqb t AUDIT_ID || text_eqb t FOOTER_ID
  | _ => false
  end.

(** The error messages of one card, [i] being its index. *)
Definition card_errors (required_fields : list text) (i : nat) (card : dict) : list text :=
  flat_map (fun field =>
              if dict_has field card then []
              else [u "Card " ++ str_of_N (N.of_nat i) ++ u ": missing required field '"
                      ++ field ++ u "'"])
           required_fields
  ++ match dict_get (u "segment_id") card with
     | Some sid =>
         if is_reserved sid then
           [u "Card " ++ str_of_N (N.of_nat i) ++ u ": invalid segment_id '"
              ++ match sid with JStr t => t | _ => [] end ++ u "' (reserved)"]
         else []
     | None => []
     end.

Fixpoint cards_errors (required_fields : list text) (i : nat) (cards : list dict) : list text :=
  match cards with
  | [] => []
  | card :: cards' =>
      card_errors required_fields i card ++ cards_errors required_fields (S i) cards'
  end.

(** The header part: of the three fields the loop visits, only ['book'] can
    pass the outer test, and it reports when ['title'] is missing as well. *)
Definition header_errors (header : dict) : list text :=
  match header with
  | [] => [u "Missing header"]
  | _ =>
      flat_map (fun field =>
                  if negb (dict_has field header)
                     && (text_eqb field (u "book") && negb (dict_has (u "title") header))
                  then
                    if negb (dict_has (u "book") header) && negb (dict_has (u "title") header)
                    then [u "Header missing both 'book' and 'title'"]
                    else []
                  else [])
               [u "book"; u "title"; u "source_file"]
  end.

(** [DatasetIO.validate_structure]. *)
Definition validate_structure (header : dict) (cards : list dict) (stage : option text)
  : list text :=
  header_errors header
  ++ match cards with
     | [] => [u "No cards found"]
     | _ => cards_errors (required_fields_for stage) 0 cards
     end.

(** The file [save] writes: the begin marker, the body lines, the footer line
    and the end marker, each closed by a line feed. *)
Definition render (lines : list text) (footer_line : text) : text :=
  DATASET_BEGIN ++ [10%N]
  ++ flat_map (fun line => line ++ [10%N]) lines
  ++ footer_line ++ [10%N]
  ++ DATASET_END ++ [10%N].

(** The header as [save] stamps it; [now] is what [utc_now_iso()] returns. *)
Definition stamp_header (now : text) (header : dict) : dict :=
  dict_set_default (u "created_at") (JStr now)
    (dict_set_default (u "product") (JStr PRODUCT_NAME)
       (dict_set_default (u "version") (JStr VERSION)
          (dict_set (u "segment_id") (JStr HEADER_ID) header))).

Definition stamp_audit (now : text) (audit : dict) : dict :=
  dict_set_default (u "created_at") (JStr now)
    (dict_set (u "segment_id") (JStr AUDIT_ID) audit).

(** The body lines of the file, in write order: header, cards, audit. *)
Definition body_lines (now_header now_audit : text) (header : dict) (cards : list dict)
    (audit : option dict) : list text :=
  [dumps (JDict (stamp_header now_header header))]
  ++ List.map (fun card => dumps (JDict card)) cards
  ++ match audit with
     | Some a => [dumps (JDict (stamp_audit now_audit a))]
     | None => []
     end.

Definition footer_data (mf now : text) (card_count : nat) : dict :=
  [ (u "segment_id", JStr FOOTER_ID);
    (u "manifest_sha256", JStr mf);
    (u "created_at", JStr now);
    (u "version", JStr VERSION);
    (u "product", JStr PRODUCT_NAME);
    (u "card_count", JInt (Z.of_nat card_count)) ].

(** What [save] leaves behind: the content of the file, and the dictionaries it
    updated in place. *)
Record saved : Type := {
  file_content : text;
  header_after : dict;
  audit_after : option dict;
  footer_after : dict
}.

(** [DatasetIO.save].  The three [now_] arguments are the values of the
    [utc_now_iso()] calls; [inl errors] is the [ValueError] raised when the
    requested validation finds errors. *)
Definition save (now_header now_audit now_footer : text)
    (header : dict) (cards : list dict) (audit footer : option dict) (validate : bool)
  : list text + saved :=
  let errors := if validate then validate_structure header cards None else [] in
  match errors with
  | _ :: _ => inl errors
  | [] =>
      let lines := body_lines now_header now_audit header cards audit in
      let mf := manifest_sha256 lines in
      let data := footer_data mf now_footer (List.length cards) in
      let footer' := match footer with
                     | Some f => dict_update f data
                     | None => data
                     end in
      inr {| file_content := render lines (dumps (JDict footer'));
             header_after := stamp_header now_header header;
             audit_after := option_map (stamp_audit now_audit) audit;
             footer_after := footer' |}
  end.

(** [Path.read_text] opens the file with universal newlines: a carriage return,
    alone or before a line feed, is read as a line feed. *)
Fixpoint universal_newlines (s : text) : text :=
  match s with
  | [] => []
  | c :: s' =>
      if (c =? 13)%N then
        10%N :: match s' with
                | c' :: s'' => if (c' =? 10)%N then universal_newlines s''
                               else universal_newlines s'
                | [] => []
                end
      else c :: universal_newlines s'
  end.

Inductive load_error : Type :=
| FileNotFoundError
| ValueError_missing_markers
(** a body line decodes to a JSON value that is not an object: [obj.get] fails *)
| AttributeError
(** a float in the file, or a [segment_id] that is not a string among the
    cards to sort: Python goes on, the model does not follow it there *)
| OutsideModel.

(** The four dictionaries [load] fills while it reads the body. *)
Record loaded_dataset : Type := {
  l_header : dict;
  l_cards : list dict;
  l_audit : dict;
  l_footer : dict
}.

(** One turn of the parsing loop. *)
Definition load_line (acc : loaded_dataset) (line : text) : load_error + loaded_dataset :=
  match strip line with
  | [] => inr acc
  | _ =>
      match loads line with
      | JSONDecodeError => inr acc (* a warning is logged, the line is skipped *)
      | FloatOutsideModel => inl OutsideModel
      | Loaded (JDict obj) =>
          match dict_get (u "segment_id") obj with
          | Some (JStr sid) =>
              if text_eqb sid HEADER_ID then
                inr {| l_header := obj; l_cards := l_cards acc;
                       l_audit := l_audit acc; l_footer := l_footer acc |}
              else if text_eqb sid AUDIT_ID then
                inr {| l_header := l_header acc; l_cards := l_cards acc;
                       l_audit := obj; l_footer := l_footer acc |}
              else if text_eqb sid FOOTER_ID then
                inr {| l_header := l_header acc; l_cards := l_cards acc;
                       l_audit := l_audit acc; l_footer := obj |}
              else
                inr {| l_header := l_header acc; l_cards := l_cards acc ++ [obj];
                       l_audit := l_audit acc; l_footer := l_footer acc |}
          | _ =>
              inr {| l_header := l_header acc; l_cards := l_cards acc ++ [obj];
                     l_audit := l_audit acc; l_footer := l_footer acc |}
          end
      | Loaded _ => inl AttributeError
      end
  end.

Fixpoint load_lines (acc : loaded_dataset) (body : list text) : load_error + loaded_dataset :=
  match body with
  | [] => inr acc
  | line :: body' =>
      match load_line acc line with
      | inl e => inl e
      | inr acc' => load_lines acc' body'
      end
  end.

(** The key [cards.sort] compares: [c.get('segment_id', '')]. *)
Definition sort_key (c : dict) : option text :=
  match dict_get (u "segment_id") c with
  | None => Some []
  | Some (JStr t) => Some t
  | Some _ => None
  end.

Definition key_of (c : dict) : text :=
  match sort_key c with Some t => t | None => [] end.

(** [list.sort] is stable: a card goes before the first card of the sorted
    rest whose key is not smaller than its own. *)
Fixpoint insert_card (c : dict) (sorted : list dict) : list dict :=
  match sorted with
  | [] => [c]
  | c' :: rest =>
      if text_ltb (key_of c') (key_of c) then c' :: insert_card c rest
      else c :: sorted
  end.

Fixpoint sort_cards (cards : list dict) : list dict :=
  match cards with
  | [] => []
  | c :: cards' => insert_card c (sort_cards cards')
  end.

(** [DatasetIO.load]; [file] is [None] when the path does not exist, and the
    decoded content of the file otherwise.  The [validate] flag only logs
    warnings and is left out.  Nothing here reads [manifest_sha256]. *)
Definition load (file : option text) : load_error + loaded_dataset :=
  match file with
  | None => inl FileNotFoundError
  | Some content =>
      let raw := universal_newlines content in
      match split1 DATASET_BEGIN raw with
      | None => inl ValueError_missing_markers
      | Some (_, after_begin) =>
          if negb (contains DATASET_END raw) then inl ValueError_missing_markers
          else
            let inner := match split1 DATASET_END after_begin with
                         | Some (before_end, _) => before_end
                         | None => after_begin
                         end in
            let body := splitlines (strip inner) in
            match load_lines {| l_header := []; l_cards := []; l_audit := []; l_footer := [] |}
                             body with
            | inl e => inl e
            | inr d =>
                if forallb (fun c => match sort_key c with Some _ => true | None => false end)
                           (l_cards d)
                then inr {| l_header := l_header d; l_cards := sort_cards (l_cards d);
                            l_audit := l_audit d; l_footer := l_footer d |}
                else inl OutsideModel
            end
      end
  end.

(** What the round trip needs of a dictionary that [save] writes on a line of
    its own: the line holds no line boundary of [str.splitlines] and no end
    marker, and the dictionary is well formed, so that UTF-8 carries the line
    and [json.loads] reads the dictionary back from it. *)
Definition clean_line (line : text) : bool :=
  forallb (fun c => negb (is_linebreak c)) line && negb (contains DATASET_END line).

Definition storable (d : dict) : Prop :=
  clean_line (dumps (JDict d)) = true /\ well_formed (JDict d) = true.

(** A card that [load] files under the cards and can sort: its [segment_id] is
    absent, or a string other than the three reserved ones. *)
Definition plain_id (card : dict) : bool :=
  match dict_get (u "segment_id") card with
  | None => true
  | Some (JStr t) => negb (is_reserved (JStr t))
  | Some _ => false
  end.


End DatasetIO.

End Common.

(** ** am_structural_robust.py : retry policy, blank pages, extraction chain *)

Module Structural.

Import Py.
Local Open Scope list_scope.

(** [class ExtractionMethod(Enum)] and the [.value] of each member. *)
Inductive ExtractionMethod : Type := PDFMINER | PDFPLUMBER | PYPDF2 | OCR | NONE.

Definition method_value (m : ExtractionMethod) : text :=
  match m with
  | PDFMINER => u "pdfminer"
  | PDFPLUMBER => u "pdfplumber"
  | PYPDF2 => u "pypdf2"
  | OCR => u "ocr"
  | NONE => u "none"
  end.

Definition method_eqb (a b : ExtractionMethod) : bool :=
  match a, b with
  | PDFMINER, PDFMINER | PDFPLUMBER, PDFPLUMBER | PYPDF2, PYPDF2 | OCR, OCR | NONE, NONE => true
  | _, _ => false
  end.

(** [class RetryConfig].  Delays are Python floats; the values involved (powers
    of two and ten) are exact, and the model keeps them as rationals. *)
Module RetryConfig.

Definition MAX_RETRIES : nat := 3.
Definition INITIAL_DELAY : Q := 1.
Definition BACKOFF_FACTOR : Q := 2.
Definition MAX_DELAY : Q := 10.

Definition get_delay (attempt : Z) : Q :=
  Qmin (INITIAL_DELAY * BACKOFF_FACTOR ^ attempt) MAX_DELAY.

End RetryConfig.

(** [class BlankPageDetector]: the three settings read from the configuration. *)
Record BlankPageDetector : Type := {
  min_chars_ocr : Z;
  min_chars_valid : Z;
  skip_front_matter : bool
}.

(** The values [config.get] falls back to. *)
Definition default_detector : BlankPageDetector :=
  {| min_chars_ocr := 50; min_chars_valid := 10; skip_front_matter := true |}.

Definition is_truly_blank (self : BlankPageDetector) (t : text) (page_num : Z) : bool :=
  let text_len := len (strip t) in
  if (text_len =? 0)%Z then true
  else if skip_front_matter self && (page_num <=? 5)%Z && (text_len <? 20)%Z then true
  else if (text_len <? min_chars_valid self)%Z then true
  else false.

Definition needs_ocr (self : BlankPageDetector) (t : text) (page_num : Z) : bool :=
  if is_truly_blank self t page_num then false
  else (len (strip t) <? min_chars_ocr self)%Z.

(** The names under which [TextExtractorChain.__init__] registers its
    strategies, and [ExtractionMethod[name.upper()]]. *)
Inductive extractor : Type := Pdfminer | Pdfplumber | Pypdf2 | Ocr.

Definition is_ocr (n : extractor) : bool :=
  match n with Ocr => true | _ => false end.

Definition extractor_eqb (a b : extractor) : bool :=
  match a, b with
  | Pdfminer, Pdfminer | Pdfplumber, Pdfplumber | Pypdf2, Pypdf2 | Ocr, Ocr => true
  | _, _ => false
  end.

Definition method_of (n : extractor) : ExtractionMethod :=
  match n with
  | Pdfminer => PDFMINER
  | Pdfplumber => PDFPLUMBER
  | Pypdf2 => PYPDF2
  | Ocr => OCR
  end.

(** The chain [__init__] builds from what could be imported and from
    [ocr_config['enabled']]; [None] is its [RuntimeError]. *)
Definition build_chain (pdfminer_available pdfplumber_available pypdf2_available
                        ocr_available ocr_enabled : bool) : option (list extractor) :=
  let chain :=
    (if pdfminer_available then [Pdfminer] else [])
    ++ (if pdfplumber_available then [Pdfplumber] else [])
    ++ (if pypdf2_available then [Pypdf2] else [])
    ++ (if ocr_available && ocr_enabled then [Ocr] else []) in
  match chain with
  | [] => None
  | _ => Some chain
  end.

(** What one call of a strategy does: raise, or return a result.  A result is
    falsy ([None]) or a pair of a text and an optional confidence. *)
Inductive call_outcome : Type :=
| Raises
| Returns (result : option (text * option Q)).

(** What [extract] does to the outside world, in order. *)
Inductive event : Type :=
| Call (n : extractor)
| Sleep (delay : Q).

Definition is_call_of (n : extractor) (e : event) : bool :=
  match e with
  | Call m => extractor_eqb n m
  | Sleep _ => false
  end.

(** How often strategy [n] has been called in a trace. *)
Definition calls_of (n : extractor) (tr : list event) : nat :=
  List.length (filter (is_call_of n) tr).

Section Extract.

(** [TextNormalizer.normalize] followed by [remove_common_watermarks]: they rest
    on [unicodedata] and on the [re] engine, which are no part of the
    repository, and the chain only looks at the length of what they return. *)
Variable normalize_text : text -> text.

(** The strategies on the page at hand: [behaviour n k] is what the call
    number [k] (from 0) of strategy [n] does. *)
Variable behaviour : extractor -> nat -> call_outcome.

Variable blank_detector : BlankPageDetector.
Variable extractors : list extractor.
Variable page_num : Z.

(** [extractor_func(pdf_path, page_num)], logged. *)
Definition call (n : extractor) (tr : list event) : call_outcome * list event :=
  (behaviour n (calls_of n tr), tr ++ [Call n]).

(** [_try_non_ocr_preview], walking the chain from [chain]. *)
Fixpoint preview_from (chain : list extractor) (tr : list event) : text * list event :=
  match chain with
  | [] => ([], tr)
  | n :: chain' =>
      if is_ocr n then preview_from chain' tr
      else
        let '(o, tr1) := call n tr in
        match o with
        | Returns (Some (t, _)) => (t, tr1)
        | Returns None => preview_from chain' tr1
        | Raises => preview_from chain' tr1
        end
  end.

Definition _try_non_ocr_preview (tr : list event) : text * list event :=
  preview_from extractors tr.

Definition extraction : Type := (text * ExtractionMethod * option Q)%type.

(** [for attempt in range(MAX_RETRIES)] for one strategy, [left] attempts from
    [attempt] on: [Some] is the accepted result ([return]); [None] means the
    chain goes on to the next strategy, after an empty result ([break]) or
    after the last attempt raised. *)
Fixpoint retry_loop (n : extractor) (left : nat) (attempt : Z) (tr : list event)
  : option extraction * list event :=
  match left with
  | O => (None, tr)
  | S left' =>
      let '(o, tr1) := call n tr in
      match o with
      | Returns (Some (t, confidence)) =>
          let t' := match t with [] => t | _ => normalize_text t end in
          match t' with
          | [] => (None, tr1)
          | _ => if (10 <=? len (strip t'))%Z then (Some (t', method_of n, confidence), tr1)
                 else (None, tr1)
          end
      | Returns None => (None, tr1)
      | Raises =>
          if (attempt <? Z.of_nat RetryConfig.MAX_RETRIES - 1)%Z
          then retry_loop n left' (attempt + 1)%Z (tr1 ++ [Sleep (RetryConfig.get_delay attempt)])
          else retry_loop n left' (attempt + 1)%Z tr1
      end
  end.

Definition try_with_retry (n : extractor) (tr : list event) : option extraction * list event :=
  retry_loop n RetryConfig.MAX_RETRIES 0%Z tr.

(** [TextExtractorChain.extract], walking the chain from [chain]. *)
Fixpoint extract_from (chain : list extractor) (tr : list event) : extraction * list event :=
  match chain with
  | [] => (([], NONE, None), tr)
  | n :: chain' =>
      let go (tr0 : list event) :=
        match try_with_retry n tr0 with
        | (Some r, tr') => (r, tr')
        | (None, tr') => extract_from chain' tr'
        end in
      if is_ocr n then
        let '(text_preview, tr1) := _try_non_ocr_preview tr in
        if negb (needs_ocr blank_detector text_preview page_num) then
          match text_preview with
          | [] => (([], NONE, None), tr1)
          | _ => ((text_preview, PDFPLUMBER, None), tr1)
          end
        else go tr1
      else go tr
  end.

Definition extract : extraction * list event := extract_from extractors [].

(** Strategy [n] raises at every call from the trace [tr] on. *)
Definition raises_from (n : extractor) (tr : list event) : Prop :=
  forall k, (calls_of n tr <= k)%nat -> behaviour n k = Raises.

(** What the retry loop does with a strategy that keeps raising: three calls,
    and a sleep between two consecutive calls. *)
Definition retry_events (n : extractor) : list event :=
  [Call n; Sleep (RetryConfig.get_delay 0); Call n; Sleep (RetryConfig.get_delay 1); Call n].

(** The call at hand returns, and what it returns is not accepted: a falsy
    result, an empty text, or a text whose normal form is empty or shorter than
    ten characters once stripped. *)
Definition rejected_result (o : call_outcome) : bool :=
  match o with
  | Raises => false
  | Returns None => true
  | Returns (Some ([], _)) => true
  | Returns (Some (t, _)) =>
      match normalize_text t with
      | [] => true
      | t' => (len (strip t') <? 10)%Z
      end
  end.

(** Every strategy of [chain] is tried from [tr] on and none is accepted: the
    walk reaches the end of the chain. *)
Fixpoint all_rejected (chain : list extractor) (tr : list event) : bool :=
  match chain with
  | [] => true
  | n :: chain' =>
      let tr0 := if is_ocr n then snd (_try_non_ocr_preview tr) else tr in
      (if is_ocr n
       then needs_ocr blank_detector (fst (_try_non_ocr_preview tr)) page_num
       else true)
      && match try_with_retry n tr0 with
         | (Some _, _) => false
         | (None, tr') => all_rejected chain' tr'
         end
  end.

End Extract.

(** A result that names a strategy, as opposed to the ["", NONE, None] of a
    page left without text. *)
Definition accepted (r : text * ExtractionMethod * option Q) : bool :=
  negb (method_eqb (snd (fst r)) NONE).

(** A chain without the OCR strategy. *)
Definition no_ocr (chain : list extractor) : bool :=
  forallb (fun n => negb (is_ocr n)) chain.

(** [f"{z:05d}"]. *)
Definition format_05d (z : Z) : text :=
  let pad (width : nat) (digits : text) :=
    repeat 48%N (width - List.length digits) ++ digits in
  match z with
  | Zneg p => 45%N :: pad 4%nat (str_of_Z (Zpos p))
  | _ => pad 5%nat (str_of_Z z)
  end.

Section PageCard.

(** A table as [TableExtractorChain.extract] returns it; [_process_page] only
    counts them and stores them. *)
Variable table : Type.

(** The page card, a dictionary literal in the source: a field that the
    literal may leave out is an option. *)
Record card : Type := {
  segment_id : text;
  card_page_num : Z;
  segment : text;
  source_file : text;
  extraction_method : text;
  ocr_used : bool;
  has_table : bool;
  ocr_confidence : option Q;
  tables : option (list table);
  table_count : option Z;
  error : option bool
}.

(** [_process_page], from the results of the two chains on the page. *)
Definition _process_page (file_name : text) (page_num : Z)
    (extracted : text * ExtractionMethod * option Q) (tabs : list table) : card :=
  let '(t, method, confidence) := extracted in
  {| segment_id := format_05d (page_num + 1);
     card_page_num := page_num + 1;
     segment := t;
     source_file := file_name;
     extraction_method := method_value method;
     ocr_used := method_eqb method OCR;
     has_table := (0 <? List.length tabs)%nat;
     ocr_confidence := if method_eqb method OCR then option_map round3 confidence else None;
     tables := match tabs with [] => None | _ => Some tabs end;
     table_count := match tabs with [] => None | _ => Some (Z.of_nat (List.length tabs)) end;
     error := None |}.

(** [_create_error_card], used by [process_pdf] when [_process_page] raises. *)
Definition _create_error_card (page_num : Z) (file_name : text) : card :=
  {| segment_id := format_05d (page_num + 1);
     card_page_num := page_num + 1;
     segment := [];
     source_file := file_name;
     extraction_method := u "none";
     ocr_used := false;
     has_table := false;
     ocr_confidence := None;
     tables := None;
     table_count := None;
     error := Some true |}.

(** The card [process_pdf] appends for one page: the card of [_process_page]
    on whatever the text chain does there, or the error card. *)
Inductive page_card (file_name : text) (page_num : Z) : card -> Prop :=
| processed_card :
    forall normalize_text behaviour blank_detector extractors tabs,
      page_card file_name page_num
        (_process_page file_name page_num
           (fst (extract normalize_text behaviour blank_detector extractors page_num)) tabs)
| failed_card :
    page_card file_name page_num (_create_error_card page_num file_name).

End PageCard.

End Structural.

(** ** am_extended.py : text analysis, duplicate detection, continuity audit *)

Module Extended.

Import Py.
Local Open Scope list_scope.

(** [WORD_RE = re.compile(r'[A-Za-zА-Яа-я0-9]{2,}')]. *)
Definition is_word_char (c : N) : bool :=
  (((65 <=? c) && (c <=? 90)) || ((97 <=? c) && (c <=? 122))
   || ((1040 <=? c) && (c <=? 1071)) || ((1072 <=? c) && (c <=? 1103))
   || ((48 <=? c) && (c <=? 57)))%N.

(** [WORD_RE.findall]: the maximal runs of word characters, those of at least
    two characters.  [cur] is the run being read, last character first. *)
Definition close_run (cur : text) : list text :=
  match cur with
  | _ :: _ :: _ => [rev cur]
  | _ => []
  end.

Fixpoint findall_words (cur : text) (t : text) : list text :=
  match t with
  | [] => close_run cur
  | c :: t' =>
      if is_word_char c then findall_words (c :: cur) t'
      else close_run cur ++ findall_words [] t'
  end.

Definition STOP_WORDS : list text :=
  List.map u
    [ "a"; "an"; "the"; "and"; "or"; "for"; "to"; "of"; "in"; "on"; "at"; "by"; "as"; "is";
      "are"; "was"; "were"; "be"; "been"; "being";
      "this"; "that"; "those"; "these"; "with"; "from"; "into"; "over"; "under"; "about";
      "across"; "between";
      "among"; "through"; "during"; "before"; "after"; "above"; "below"; "not"; "no"; "nor";
      "so"; "such"; "it";
      "its"; "their"; "our"; "your"; "my"; "we"; "you"; "they"; "he"; "she"; "his"; "her";
      "them"; "us";
      "и"; "в"; "во"; "не"; "на"; "но"; "а"; "к"; "ко"; "от"; "до"; "по"; "за"; "из"; "у";
      "о"; "об"; "при"; "над"; "под"; "для"; "без";
      "между"; "как"; "так"; "же"; "уже"; "ещё"; "еще"; "или"; "либо"; "это"; "эти"; "эта";
      "этот"; "кто"; "что"; "где";
      "когда"; "чем"; "чтобы"; "который"; "которая"; "которые"; "бы"; "то"; "все"; "всё"
    ]%string.

(** [w in words]. *)
Definition mem (w : text) (words : list text) : bool := existsb (text_eqb w) words.

Module TextAnalyzer.

Definition tokenize (t : text) : list text :=
  filter (fun w => negb (mem w STOP_WORDS)) (findall_words [] (lower t)).

(** [set(tokens)], as the list of its distinct members. *)
Fixpoint to_set (tokens : list text) : list text :=
  match tokens with
  | [] => []
  | w :: tokens' => if mem w tokens' then to_set tokens' else w :: to_set tokens'
  end.

(** [jaccard_similarity]; the quotient of two integers is a float, kept as the
    rational in lowest terms. *)
Definition jaccard_similarity (tokens_a tokens_b : list text) : Q :=
  match tokens_a, tokens_b with
  | [], [] => 1
  | [], _ :: _ => 0
  | _ :: _, [] => 0
  | _, _ =>
      let set_a := to_set tokens_a in
      let set_b := to_set tokens_b in
      let intersection := List.length (filter (fun w => mem w set_b) set_a) in
      let union := List.length (to_set (set_a ++ set_b)) in
      if (0 <? union)%nat
      then Qred (Qmake (Z.of_nat intersection) (Pos.of_nat union))
      else 0
  end.

(** [text_hash]: MD5 of the lowercased text with its whitespace collapsed. *)
Definition normalized (t : text) : text := join (u " ") (split_ws (lower t)).

Definition text_hash (t : text) : text :=
  Hashlib.md5_hexdigest (utf8_encode (normalized t)).

End TextAnalyzer.

(** A card as this stage reads and updates it: the keys the stage touches, each
    an option (a key may be absent), and the rest of the dictionary. *)
Record card : Type := {
  page_num : option Z;
  segment : option text;
  is_duplicate : option bool;
  duplicate_of : option Z;
  flags : option Json.dict;
  other_fields : Json.dict
}.

(** [card.get('segment', '')] and [card.get('page_num', 0)]. *)
Definition get_segment (c : card) : text :=
  match segment c with Some t => t | None => [] end.
Definition get_page_num (c : card) : Z :=
  match page_num c with Some n => n | None => 0%Z end.

(** One duplicate group; [similarity] is the float 1.0 and ['type'] is
    ['exact'] for every group the detector builds. *)
Record dup_group : Type := {
  pages : list Z;
  similarity : Q;
  group_type : text
}.

Module DuplicateDetector.

(** [seen_hashes]: an insertion-ordered dictionary from hash to page numbers. *)
Fixpoint record_page (h : text) (p : Z) (seen : list (text * list Z)) : list (text * list Z) :=
  match seen with
  | [] => [(h, [p])]
  | (h', ps) :: seen' =>
      if text_eqb h h' then (h', ps ++ [p]) :: seen'
      else (h', ps) :: record_page h p seen'
  end.

(** The first pass over the cards. *)
Definition first_pass (cards : list card) : list (text * list Z) :=
  fold_left
    (fun seen c =>
       let t := get_segment c in
       if (len (strip t) <? 50)%Z then seen
       else record_page (TextAnalyzer.text_hash t) (get_page_num c) seen)
    cards [].

(** The pages [seen_hashes] lists under the hash [h] ([[]] for a hash that is
    no key), and the pages of the cards that are long enough and hash to [h]. *)
Fixpoint find_pages (h : text) (seen : list (text * list Z)) : list Z :=
  match seen with
  | [] => []
  | (h', ps) :: seen' => if text_eqb h h' then ps else find_pages h seen'
  end.

Definition long_enough (c : card) : bool :=
  negb (len (strip (get_segment c)) <? 50)%Z.

Definition pages_for (h : text) (cards : list card) : list Z :=
  List.map get_page_num
    (filter (fun c => long_enough c && text_eqb (TextAnalyzer.text_hash (get_segment c)) h)
            cards).

(** [sorted(pages)] on integers. *)
Fixpoint insert_page (p : Z) (sorted : list Z) : list Z :=
  match sorted with
  | [] => [p]
  | q :: rest => if (q <? p)%Z then q :: insert_page p rest else p :: sorted
  end.

Definition sorted_pages (ps : list Z) : list Z := fold_right insert_page [] ps.

Definition detect_duplicates (cards : list card) : list dup_group :=
  flat_map
    (fun entry =>
       if (1 <? List.length (snd entry))%nat
       then [{| pages := sorted_pages (snd entry); similarity := 1; group_type := u "exact" |}]
       else [])
    (first_pass cards).

(** [duplicate_pages]: every page of a group but its first. *)
Definition duplicate_pages (duplicates : list dup_group) : list Z :=
  flat_map (fun g => tl (pages g)) duplicates.

Definition mem_page (p : Z) (ps : list Z) : bool := existsb (Z.eqb p) ps.

(** The inner loop of the marking pass: the first page of the first group
    that lists [p]. *)
Fixpoint canonical_of (p : Z) (duplicates : list dup_group) : option Z :=
  match duplicates with
  | [] => None
  | g :: rest =>
      if mem_page p (pages g) then hd_error (pages g) else canonical_of p rest
  end.

Definition mark_card (duplicates : list dup_group) (c : card) : card :=
  if mem_page (get_page_num c) (duplicate_pages duplicates) then
    {| page_num := page_num c;
       segment := segment c;
       is_duplicate := Some true;
       duplicate_of := match canonical_of (get_page_num c) duplicates with
                       | Some first => Some first
                       | None => duplicate_of c
                       end;
       flags := flags c;
       other_fields := other_fields c |}
  else c.

(** [mark_duplicates]: the cards after the in-place update, and the count. *)
Definition mark_duplicates (cards : list card) (duplicates : list dup_group)
  : list card * nat :=
  (List.map (mark_card duplicates) cards,
   List.length (filter (fun c => mem_page (get_page_num c) (duplicate_pages duplicates)) cards)).

End DuplicateDetector.

Module ContinuityAuditor.

Import TextAnalyzer.

(** One entry of the report's ['gaps']; [prev_card.get('page_num')] is [None]
    when the key is absent. *)
Record gap_info : Type := {
  from_page : option Z;
  to_page : option Z;
  overlap : Q
}.

(** The two lists the loop appends to. *)
Record audit_state : Type := {
  gaps : list gap_info;
  overlaps : list Q
}.

(** [curr_card.get('is_duplicate', False)] as a condition. *)
Definition marked_duplicate (c : card) : bool :=
  match is_duplicate c with Some b => b | None => false end.

(** [curr_card.setdefault('flags', {})['continuity_gap'] = True]. *)
Definition flag_gap (c : card) : card :=
  {| page_num := page_num c;
     segment := segment c;
     is_duplicate := is_duplicate c;
     duplicate_of := duplicate_of c;
     flags := Some (Json.dict_set (u "continuity_gap") (Json.JBool true)
                      (match flags c with Some f => f | None => [] end));
     other_fields := other_fields c |}.

(** The body of the loop for the pair [(prev_card, curr_card)]: the current
    card after the turn, and the two lists. *)
Definition audit_pair (overlap_threshold : Q) (prev_card curr_card : card) (st : audit_state)
  : card * audit_state :=
  if marked_duplicate curr_card then (curr_card, st)
  else
    let prev_tokens := tokenize (get_segment prev_card) in
    let curr_tokens := tokenize (get_segment curr_card) in
    match prev_tokens, curr_tokens with
    | _ :: _, _ :: _ =>
        let sim := jaccard_similarity prev_tokens curr_tokens in
        if Qltb sim overlap_threshold then
          (flag_gap curr_card,
           {| gaps := gaps st ++ [{| from_page := page_num prev_card;
                                     to_page := page_num curr_card;
                                     overlap := round3 sim |}];
              overlaps := overlaps st ++ [sim] |})
        else (curr_card, {| gaps := gaps st; overlaps := overlaps st ++ [sim] |})
    | _, _ => (curr_card, st)
    end.

(** [for i in range(1, len(cards))]: [prev_card] is [cards[i - 1]] as the
    previous turn left it. *)
Fixpoint audit_loop (overlap_threshold : Q) (prev_card : card) (rest : list card)
    (st : audit_state) : list card * audit_state :=
  match rest with
  | [] => ([], st)
  | curr_card :: rest' =>
      let '(curr', st') := audit_pair overlap_threshold prev_card curr_card st in
      let '(out, st'') := audit_loop overlap_threshold curr' rest' st' in
      (curr' :: out, st'')
  end.

Record report : Type := {
  r_gaps : list gap_info;
  gap_count : nat;
  gap_ratio : Q;
  avg_overlap : Q;
  threshold : Q
}.

Definition Qsum (l : list Q) : Q := fold_left Qplus l 0.

Definition make_report (overlap_threshold : Q) (n_cards : nat) (st : audit_state) : report :=
  {| r_gaps := gaps st;
     gap_count := List.length (gaps st);
     gap_ratio := Qred (Qmake (Z.of_nat (List.length (gaps st)))
                              (Pos.of_nat (Nat.max 1 (n_cards - 1))));
     avg_overlap := match overlaps st with
                    | [] => 0
                    | _ => round3 (Qsum (overlaps st)
                                   / inject_Z (Z.of_nat (List.length (overlaps st))))
                    end;
     threshold := overlap_threshold |}.

(** [audit_continuity]: the report, and the cards after the in-place flags. *)
Definition audit_continuity (overlap_threshold : Q) (cards : list card)
  : report * list card :=
  match cards with
  | [] => (make_report overlap_threshold 0 {| gaps := []; overlaps := [] |}, [])
  | first :: rest =>
      let '(out, st) := audit_loop overlap_threshold first rest {| gaps := []; overlaps := [] |} in
      (make_report overlap_threshold (List.length cards) st, first :: out)
  end.

End ContinuityAuditor.

End Extended.

(** ** run_mvp.py : the stage orchestrator *)

Module Orchestrator.

Local Open Scope string_scope.
Local Open Scope list_scope.

(** [class PipelineStage]. *)
Definition STRUCTURAL : string := "structural".
Definition STRUCTURE_DETECT : string := "structure_detect".
Definition SUMMARIZE : string := "summarize".
Definition EXTENDED : string := "extended".
Definition FINALIZE : string := "finalize".
Definition CHUNK : string := "chunk".
Definition EMBED : string := "embed".

Definition ALL : list string :=
  [STRUCTURAL; STRUCTURE_DETECT; SUMMARIZE; EXTENDED; FINALIZE; CHUNK; EMBED].

(** [list.index]: position of the first occurrence, [None] for Python's [ValueError]. *)
Fixpoint index_of (x : string) (l : list string) : option nat :=
  match l with
  | [] => None
  | y :: l' => if String.eqb x y then Some 0%nat
               else option_map S (index_of x l')
  end.

(** [_get_stage_sequence]: [ALL[start_idx:end_idx + 1]], or [None] for the
    [ValueError] raised on an unknown stage or on [start_idx > end_idx]. *)
Definition _get_stage_sequence (start end_ : string) : option (list string) :=
  match index_of start ALL, index_of end_ ALL with
  | Some start_idx, Some end_idx =>
      if (end_idx <? start_idx)%nat then None
      else Some (firstn (end_idx + 1 - start_idx) (skipn start_idx ALL))
  | _, _ => None
  end.

(** [_is_critical_stage]: membership in [{STRUCTURAL, FINALIZE}]. *)
Definition _is_critical_stage (stage : string) : bool :=
  existsb (String.eqb stage) [STRUCTURAL; FINALIZE].

Section RunSingle.

(** Paths are opaque to the orchestrator. *)
Variable path : Type.

(** What [_run_stage stage current_input] does: return the new output path, or
    raise (the exception's message is kept). *)
Inductive stage_outcome : Type :=
| StageOk (output : path)
| StageRaises (msg : string).

(** What [_validate_output stage stage_result] does: return the validation
    dictionary (its ['valid'] flag and ['error_count']), or raise. *)
Inductive validation_outcome : Type :=
| Validated (valid : bool) (error_count : Z)
| ValidationRaises.

Variable _run_stage : string -> path -> stage_outcome.
Variable _validate_output : string -> path -> validation_outcome.
(** The orchestrator's [validate_stages] and [dry_run] flags. *)
Variable validate_stages : bool.
Variable dry_run : bool.

(** One entry of [results['stages']]. *)
Inductive stage_record : Type :=
| RecSuccess (output : path)
| RecFailed (error : string).

(** The [results] dictionary of [run_single], together with the loop variable
    [current_input] and a ghost log of the [_run_stage] invocations made so far. *)
Record run_state : Type := {
  current_input : path;
  stages_done : list (string * stage_record);
  errors : list (string * string);
  warnings : list (string * Z);
  invocations : list (string * path)
}.

(** [d[k] = v] on an insertion-ordered dictionary. *)
Fixpoint dict_set {V : Type} (k : string) (v : V) (d : list (string * V)) : list (string * V) :=
  match d with
  | [] => [(k, v)]
  | (k', v') :: d' => if String.eqb k k' then (k, v) :: d' else (k', v') :: dict_set k v d'
  end.

(** The [try] branch of the loop body after a successful [_run_stage]. *)
Definition on_success (stage : string) (out : path) (st : run_state) : run_state :=
  let warns :=
    if validate_stages && negb (String.eqb stage EMBED) then
      match _validate_output stage out with
      | Validated false error_count => warnings st ++ [(stage, error_count)]
      | Validated true _ => warnings st
      | ValidationRaises => warnings st
      end
    else warnings st in
  {| current_input := out;
     stages_done := dict_set stage (RecSuccess out) (stages_done st);
     errors := errors st;
     warnings := warns;
     invocations := invocations st ++ [(stage, current_input st)] |}.

(** The [except] branch of the loop body, before the critical-stage test. *)
Definition on_failure (stage : string) (msg : string) (st : run_state) : run_state :=
  {| current_input := current_input st;
     stages_done := dict_set stage (RecFailed msg) (stages_done st);
     errors := errors st ++ [(stage, msg)];
     warnings := warnings st;
     invocations := invocations st ++ [(stage, current_input st)] |}.

(** [for stage in stages: ...] of [run_single]. *)
Fixpoint run_stages (stages : list string) (st : run_state) : run_state :=
  match stages with
  | [] => st
  | stage :: rest =>
      match _run_stage stage (current_input st) with
      | StageOk out => run_stages rest (on_success stage out st)
      | StageRaises msg =>
          let st' := on_failure stage msg st in
          if _is_critical_stage stage then st' (* break *)
          else run_stages rest st'
      end
  end.

Inductive final_status : Type := Completed | Partial | Failed.

Definition determine_status (stages : list string) (st : run_state) : final_status :=
  match errors st with
  | [] => Completed
  | _ => if (List.length (errors st) <? List.length stages)%nat then Partial else Failed
  end.

Inductive run_result : Type :=
| ResDryRun (stages_planned : list string)
| ResRun (status : final_status) (final : run_state).

Definition initial_state (input_path : path) : run_state :=
  {| current_input := input_path; stages_done := []; errors := [];
     warnings := []; invocations := [] |}.

(** [run_single]; [None] is the [ValueError] of [_get_stage_sequence]. *)
Definition run_single (input_path : path) (start_stage end_stage : string)
  : option run_result :=
  match _get_stage_sequence start_stage end_stage with
  | None => None
  | Some stages =>
      if dry_run then Some (ResDryRun stages)
      else
        let st := run_stages stages (initial_state input_path) in
        Some (ResRun (determine_status stages st) st)
  end.

(** The input the loop hands to the stage that follows [pre]: the output of the
    last stage of [pre] that succeeded, or [input] when none did. *)
Fixpoint best_input (pre : list string) (input : path) : path :=
  match pre with
  | [] => input
  | s :: pre' =>
      match _run_stage s input with
      | StageOk out => best_input pre' out
      | StageRaises _ => best_input pre' input
      end
  end.

(** Stage [s] raises when it is run on [input]. *)
Definition stage_fails_on (input : path) (s : string) : Prop :=
  exists msg, _run_stage s input = StageRaises msg.

(** No critical stage of [pre] fails when the loop runs [pre] from [input]. *)
Fixpoint survives (pre : list string) (input : path) : bool :=
  match pre with
  | [] => true
  | s :: pre' =>
      match _run_stage s input with
      | StageOk out => survives pre' out
      | StageRaises _ => negb (_is_critical_stage s) && survives pre' input
      end
  end.

End RunSingle.

Arguments StageRaises {path} msg.

End Orchestrator.

(** ** am_common.py, continued : text helpers, configuration, validators, merging *)

Module CommonLib.

Import Py Json Common Common.DatasetIO.
Local Open Scope list_scope.

(** [text[:k]]: a negative [k] counts from the end of the text. *)
Definition slice_to (k : Z) (t : text) : text :=
  if (k <? 0)%Z then firstn (Z.to_nat (len t + k)) t else firstn (Z.to_nat k) t.

(** [truncate_text]. *)
Definition truncate_text (t : text) (max_length : Z) (suffix : text) : text :=
  if (len t <=? max_length)%Z then t
  else slice_to (max_length - len suffix) t ++ suffix.

Module ConfigLoader.

(** [s.split(sep)] for a one-character [sep]: the part before the first
    separator, and the parts after it. *)
Fixpoint split_parts (sep : N) (s : text) : text * list text :=
  match s with
  | [] => ([], [])
  | c :: s' =>
      let '(p, ps) := split_parts sep s' in
      if (c =? sep)%N then ([], p :: ps) else (c :: p, ps)
  end.

Definition split (sep : N) (s : text) : list text :=
  let '(p, ps) := split_parts sep s in p :: ps.

(** The loop of [get]: [Some] is the value reached, [None] stands for
    [return default]. *)
Fixpoint descend (keys : list text) (v : value) : option value :=
  match keys with
  | [] => Some v
  | key :: keys' =>
      match v with
      | JDict d =>
          match dict_get key d with
          | Some v' => descend keys' v'
          | None => None
          end
      | _ => None
      end
  end.

(** [ConfigLoader.get], on the configuration once loaded. *)
Definition get (config : value) (key_path : text) (default : value) : value :=
  match descend (split 46%N key_path) config with
  | Some v => v
  | None => default
  end.

(** [get_stage_config]: [self.get(f'pipeline.{stage}', {})]. *)
Definition get_stage_config (config : value) (stage : text) : value :=
  get config (u "pipeline." ++ stage) (JDict []).

End ConfigLoader.

Module Validators.

(** [type(v)] as an f-string prints it. *)
Definition type_repr (v : value) : text :=
  u "<class '"
  ++ match v with
     | JNull => u "NoneType"
     | JBool _ => u "bool"
     | JInt _ => u "int"
     | JStr _ => u "str"
     | JList _ => u "list"
     | JDict _ => u "dict"
     end
  ++ u "'>".

(** [isinstance(v, int)]: a [bool] is an [int]. *)
Definition is_int (v : value) : bool :=
  match v with JInt _ | JBool _ => true | _ => false end.

Definition is_str (v : value) : bool :=
  match v with JStr _ => true | _ => false end.

(** [Validators.validate_card]. *)
Definition validate_card (card : dict) (stage : text) : list text :=
  flat_map (fun field =>
              if dict_has field card then []
              else [u "Missing required field: " ++ field])
           (required_fields_for (Some stage))
  ++ match dict_get (u "page_num") card with
     | Some v => if is_int v then []
                 else [u "Invalid type for page_num: expected int, got " ++ type_repr v]
     | None => []
     end
  ++ match dict_get (u "segment") card with
     | Some v => if is_str v then []
                 else [u "Invalid type for segment: expected str, got " ++ type_repr v]
     | None => []
     end.

(** [Validators.is_valid_segment_id]. *)
Definition is_valid_segment_id (segment_id : text) : bool :=
  match segment_id with
  | [] => false
  | _ => negb (is_reserved (JStr segment_id))
  end.

End Validators.

(** One entry of the list [merge_datasets] takes: [(path, header, cards, audit,
    footer)]; [path] is what [str(p)] prints. *)
Record dataset : Type := {
  d_path : text;
  d_header : dict;
  d_cards : list dict;
  d_audit : dict;
  d_footer : dict
}.

Inductive merge_result : Type :=
| IndexError
| Merged (result : list text + saved).

(** The header [merge_datasets] hands to [save]. *)
Definition merged_header (now_merged : text) (datasets : list dataset) (merge_headers : bool)
    (base : dataset) : dict :=
  if merge_headers then
    dict_set (u "merged_at") (JStr now_merged)
      (dict_set (u "merged_from") (JList (List.map (fun d => JStr (d_path d)) datasets))
         (d_header base))
  else d_header base.

(** [DatasetIO.merge_datasets]; [now_merged] is the value of its own
    [utc_now_iso()] call, the other three are those of [save]. *)
Definition merge_datasets (now_merged now_header now_audit now_footer : text)
    (datasets : list dataset) (merge_headers : bool) : merge_result :=
  let all_cards := flat_map d_cards datasets in
  match datasets with
  | [] => IndexError
  | base :: _ =>
      Merged (save now_header now_audit now_footer
                (merged_header now_merged datasets merge_headers base)
                all_cards None None true)
  end.


(** The keys [save] writes into the header and into the footer. *)
Definition header_stamps : list text :=
  [u "segment_id"; u "version"; u "product"; u "created_at"].

Definition footer_stamps : list text :=
  [u "segment_id"; u "manifest_sha256"; u "created_at"; u "version"; u "product";
   u "card_count"].

End CommonLib.

(** ** run_mvp.py, continued : what a run leaves behind, and [run_batch] *)

Module Pipeline.

Import Orchestrator.
Local Open Scope string_scope.
Local Open Scope list_scope.

Section Runs.

Variable path : Type.

(** Two states of the loop of [run_single] that differ in their warnings at
    most. *)
Definition same_run (a b : run_state path) : Prop :=
  current_input a = current_input b
  /\ stages_done a = stages_done b
  /\ errors a = errors b
  /\ invocations a = invocations b.

Variable _run_stage : string -> path -> stage_outcome path.
Variable _validate_output : string -> path -> validation_outcome.
Variable validate_stages : bool.
Variable dry_run : bool.

(** A stage of the list raises when the loop reaches it. *)
Fixpoint some_stage_fails (stages : list string) (input : path) : bool :=
  match stages with
  | [] => false
  | s :: stages' =>
      match _run_stage s input with
      | StageOk out => some_stage_fails stages' out
      | StageRaises _ => true
      end
  end.

(** Why a file is on the [failed] list of [run_batch]: [run_single] returned
    with the status ['failed'] and these errors, or an exception reached the
    [except] clause of the loop. *)
Inductive failure : Type :=
| FailedRun (errors : list (string * string))
| Raised.

(** The [results] dictionary of [run_batch]; its ['status'] is always
    ['completed']. *)
Record batch_results : Type := {
  total_files : nat;
  processed : list path;
  failed : list (path * failure);
  partial : list (path * list (string * string))
}.

Inductive batch_result : Type :=
| NoInputFiles
| BatchDryRun (files : list path)
| BatchDone (results : batch_results).

(** The loop over the input files.  Inside it [dry_run] is false (a dry run has
    returned before).  A result without the key ['errors'] would raise in the
    last branch and be handled like any exception. *)
Fixpoint batch_loop (continue_on_error : bool) (start_stage end_stage : string)
    (files : list path) (acc : batch_results) : batch_results :=
  match files with
  | [] => acc
  | f :: files' =>
      let raised :=
        let acc' := {| total_files := total_files acc; processed := processed acc;
                       failed := failed acc ++ [(f, Raised)]; partial := partial acc |} in
        if continue_on_error
        then batch_loop continue_on_error start_stage end_stage files' acc'
        else acc' in
      match run_single _run_stage _validate_output validate_stages false
                       f start_stage end_stage with
      | Some (ResRun Completed _) =>
          batch_loop continue_on_error start_stage end_stage files'
            {| total_files := total_files acc; processed := processed acc ++ [f];
               failed := failed acc; partial := partial acc |}
      | Some (ResRun Partial st) =>
          batch_loop continue_on_error start_stage end_stage files'
            {| total_files := total_files acc; processed := processed acc;
               failed := failed acc; partial := partial acc ++ [(f, errors st)] |}
      | Some (ResRun Failed st) =>
          batch_loop continue_on_error start_stage end_stage files'
            {| total_files := total_files acc; processed := processed acc;
               failed := failed acc ++ [(f, FailedRun (errors st))];
               partial := partial acc |}
      | Some (ResDryRun _ _) => raised
      | None => raised
      end
  end.

(** [run_batch]; [input_files] is [sorted(input_dir.glob(pattern))]. *)
Definition run_batch (input_files : list path) (start_stage end_stage : string)
    (continue_on_error : bool) : batch_result :=
  match input_files with
  | [] => NoInputFiles
  | _ =>
      if dry_run then BatchDryRun input_files
      else BatchDone (batch_loop continue_on_error start_stage end_stage input_files
                        {| total_files := List.length input_files; processed := [];
                           failed := []; partial := [] |})
  end.

(** The files [run_batch] has put on one of its three lists. *)
Definition accounted (r : batch_results) : list path :=
  processed r ++ List.map fst (partial r) ++ List.map fst (failed r).

End Runs.

End Pipeline.

(** ** am_structural_robust.py, continued : the cost of a page, tables, the page loop *)

Module Processor.

Import Py Json Common Common.DatasetIO Structural.
Local Open Scope list_scope.

Definition VERSION : text := u "2.0.0".
Definition PRODUCT_NAME : text := u "archivist magika".

(** *** What a walk of the text chain costs *)

Definition is_call (e : event) : bool :=
  match e with Call _ => true | Sleep _ => false end.

(** The strategy calls of a trace, and the seconds it sleeps. *)
Definition call_count (tr : list event) : nat := List.length (filter is_call tr).

Fixpoint total_sleep (tr : list event) : Q :=
  match tr with
  | [] => 0
  | Sleep d :: tr' => d + total_sleep tr'
  | Call _ :: tr' => total_sleep tr'
  end.

Definition natives (chain : list extractor) : list extractor :=
  filter (fun n => negb (is_ocr n)) chain.

Definition ocr_entries (chain : list extractor) : list extractor := filter is_ocr chain.

(** The seconds the retry loop may sleep in [left] attempts from [attempt] on. *)
Fixpoint sleep_budget (left : nat) (attempt : Z) : Q :=
  match left with
  | O => 0
  | S left' =>
      (if (attempt <? Z.of_nat RetryConfig.MAX_RETRIES - 1)%Z
       then RetryConfig.get_delay attempt else 0)
      + sleep_budget left' (attempt + 1)
  end.

(** *** [TableExtractorChain] *)

Section Tables.

Variable table : Type.

(** What one call of a table extractor does: raise, or return a list. *)
Inductive table_outcome : Type :=
| TablesRaise
| TablesReturn (tables : list table).

Inductive table_event : Type :=
| TableCall
| TableSleep (delay : Q).

Definition table_calls (tr : list table_event) : nat :=
  List.length (filter (fun e => match e with TableCall => true | TableSleep _ => false end) tr).

(** The settings [extract] reads: [enabled], and whether pdfplumber, the one
    extractor of the chain, could be imported. *)
Record TableExtractorChain : Type := {
  enabled : bool;
  pdfplumber_available : bool
}.

(** The call number [k] (from 0) of [_extract_pdfplumber] on the page. *)
Variable table_behaviour : nat -> table_outcome.

(** [for attempt in range(MAX_RETRIES)] for the extractor: [Some] is the
    [return tables] of a non-empty answer, [None] leaves the loop. *)
Fixpoint table_retry (left : nat) (attempt : Z) (tr : list table_event)
  : option (list table) * list table_event :=
  match left with
  | O => (None, tr)
  | S left' =>
      let tr1 := tr ++ [TableCall] in
      match table_behaviour (table_calls tr) with
      | TablesReturn (t :: ts) => (Some (t :: ts), tr1)
      | TablesReturn [] => (None, tr1)
      | TablesRaise =>
          if (attempt <? Z.of_nat RetryConfig.MAX_RETRIES - 1)%Z
          then table_retry left' (attempt + 1)%Z
                 (tr1 ++ [TableSleep (RetryConfig.get_delay attempt)])
          else table_retry left' (attempt + 1)%Z tr1
      end
  end.

(** [TableExtractorChain.extract]. *)
Definition extract_tables (self : TableExtractorChain) : list table * list table_event :=
  if negb (enabled self) || negb (pdfplumber_available self) then ([], [])
  else
    match table_retry RetryConfig.MAX_RETRIES 0%Z [] with
    | (Some tables, tr) => (tables, tr)
    | (None, tr) => ([], tr)
    end.

End Tables.

Arguments TablesRaise {table}.

(** *** The page loop of [process_pdf] and its audit *)

Section Pages.

Variable table : Type.

(** What [_process_page] does on a page: raise, or build the card from what the
    two chains returned. *)
Inductive page_outcome : Type :=
| PageRaises
| PageDone (extracted : extraction) (tabs : list table).

(** [extraction_stats]; [methods] counts the pages per method name. *)
Record extraction_stats : Type := {
  success : nat;
  failed : nat;
  stats_ocr_used : nat;
  tables_found : nat;
  methods : list (text * nat)
}.

(** [d[k] = d.get(k, 0) + 1]. *)
Fixpoint bump (k : text) (d : list (text * nat)) : list (text * nat) :=
  match d with
  | [] => [(k, 1%nat)]
  | (k', n) :: d' => if text_eqb k k' then (k', S n) :: d' else (k', n) :: bump k d'
  end.

Definition initial_stats : extraction_stats :=
  {| success := 0; failed := 0; stats_ocr_used := 0; tables_found := 0; methods := [] |}.

(** The update of the statistics after a page that went through. *)
Definition count_page (extracted : extraction) (tabs : list table) (st : extraction_stats)
  : extraction_stats :=
  let method := snd (fst extracted) in
  {| success := S (success st);
     failed := failed st;
     stats_ocr_used := if method_eqb method OCR then S (stats_ocr_used st)
                       else stats_ocr_used st;
     tables_found := tables_found st + List.length tabs;
     methods := if method_eqb method NONE then methods st
                else bump (method_value method) (methods st) |}.

(** [for page_num in range(total_pages)], from page [page_num] on; the list
    holds what [_process_page] does on each of the pages left. *)
Fixpoint process_pages (file_name : text) (page_num : Z) (pages : list page_outcome)
    (cards : list (card table)) (st : extraction_stats)
  : list (card table) * extraction_stats :=
  match pages with
  | [] => (cards, st)
  | PageDone extracted tabs :: pages' =>
      process_pages file_name (page_num + 1) pages'
        (cards ++ [_process_page file_name page_num extracted tabs])
        (count_page extracted tabs st)
  | PageRaises :: pages' =>
      process_pages file_name (page_num + 1) pages'
        (cards ++ [_create_error_card table page_num file_name])
        {| success := success st; failed := S (failed st);
           stats_ocr_used := stats_ocr_used st; tables_found := tables_found st;
           methods := methods st |}
  end.

(** The dictionary [_build_audit] returns. *)
Record audit : Type := {
  a_segment_id : text;
  total_cards : nat;
  success_pages : nat;
  failed_pages : nat;
  empty_pages : nat;
  error_pages : nat;
  extraction_methods : list (text * nat);
  ocr_used_count : nat;
  ocr_avg_confidence : Q;
  tables_extracted : nat;
  a_stage : text;
  a_version : text;
  a_created_at : text
}.

Definition count (P : card table -> bool) (cards : list (card table)) : nat :=
  List.length (filter P cards).

(** [c.get('error', False)] as a condition. *)
Definition has_error (c : card table) : bool :=
  match error c with Some b => b | None => false end.

(** A card that names a method. *)
Definition names_method (c : card table) : bool :=
  negb (text_eqb (extraction_method c) (u "none")).

Definition _build_audit (now : text) (cards : list (card table)) (st : extraction_stats)
  : audit :=
  let ocr_confidences :=
    List.map (fun c => match ocr_confidence c with Some q => q | None => 0 end)
             (filter (fun c => ocr_used c) cards) in
  let avg_ocr :=
    match ocr_confidences with
    | [] => 0
    | _ => fold_left Qplus ocr_confidences 0
           / inject_Z (Z.of_nat (List.length ocr_confidences))
    end in
  {| a_segment_id := u "__audit__";
     total_cards := List.length cards;
     success_pages := success st;
     failed_pages := failed st;
     empty_pages := count (fun c => (len (strip (segment c)) <? 50)%Z) cards;
     error_pages := count has_error cards;
     extraction_methods := methods st;
     ocr_used_count := stats_ocr_used st;
     ocr_avg_confidence := round3 avg_ocr;
     tables_extracted := tables_found st;
     a_stage := u "structural";
     a_version := VERSION;
     a_created_at := now |}.

End Pages.

Arguments PageRaises {table}.

(** *** The error dataset *)

(** [_build_footer]; [now] is what [utc_now_iso()] returns. *)
Definition _build_footer (now : text) : dict :=
  [ (u "segment_id", JStr (u "__footer__"));
    (u "created_at", JStr now);
    (u "version", JStr VERSION);
    (u "product", JStr (PRODUCT_NAME ++ u " " ++ VERSION)) ].

(** The six [utc_now_iso()] values of [_create_error_dataset], in call order:
    the header's, the audit's and the footer's, then the three of [save]. *)
Record clock : Type := {
  t_header : text;
  t_audit : text;
  t_footer : text;
  t_save_header : text;
  t_save_audit : text;
  t_save_footer : text
}.

Definition error_header (stem name error_msg now : text) : dict :=
  [ (u "segment_id", JStr (u "__header__"));
    (u "book", JStr stem);
    (u "title", JStr stem);
    (u "source_file", JStr name);
    (u "total_cards", JInt 0);
    (u "error", JStr error_msg);
    (u "stage", JStr (u "structural"));
    (u "version", JStr VERSION);
    (u "created_at", JStr now) ].

Definition error_audit (error_msg now : text) : dict :=
  [ (u "segment_id", JStr (u "__audit__"));
    (u "error", JStr error_msg);
    (u "version", JStr VERSION);
    (u "created_at", JStr now) ].

(** [_create_error_dataset], through [_save_dataset]: [stem] and [name] are
    [pdf_path.stem] and [pdf_path.name]; the result is what [DatasetIO.save]
    leaves at the output path. *)
Definition _create_error_dataset (stem name error_msg : text) (t : clock)
  : list text + saved :=
  save (t_save_header t) (t_save_audit t) (t_save_footer t)
       (error_header stem name error_msg (t_header t)) []
       (Some (error_audit error_msg (t_audit t)))
       (Some (_build_footer (t_footer t))) false.

End Processor.

(** ** am_extended.py, continued : the stage around the detectors *)

Module ExtendedStage.

Import Py Json Common Common.DatasetIO Extended.
Local Open Scope list_scope.

(** *** Navigation links *)

(** [card.get(k)]: [None] for a key that is absent. *)
Definition get_or_none (k : text) (card : dict) : value :=
  match dict_get k card with Some v => v | None => JNull end.

(** The dictionary a link holds: the page number and the identifier of the
    card it points to. *)
Definition link_to (card : dict) : value :=
  JDict [ (u "page_num", get_or_none (u "page_num") card);
          (u "segment_id", get_or_none (u "segment_id") card) ].

(** [cards[i] = card], for an index of the list. *)
Fixpoint replace_at (i : nat) (card : dict) (cards : list dict) : list dict :=
  match cards, i with
  | [], _ => []
  | _ :: rest, O => card :: rest
  | c :: rest, S i' => c :: replace_at i' card rest
  end.

(** One turn of the loop of [_add_navigation_links]: the cards are updated in
    place, so the turn reads the list as the turns before it left it. *)
Definition link_card (cards : list dict) (i : nat) : list dict :=
  match nth_error cards i with
  | None => cards
  | Some card =>
      let card1 :=
        if (0 <? i)%nat then
          match nth_error cards (i - 1) with
          | Some prev_card => dict_set (u "prev_page") (link_to prev_card) card
          | None => card
          end
        else card in
      let card2 :=
        if (i <? List.length cards - 1)%nat then
          match nth_error cards (i + 1) with
          | Some next_card => dict_set (u "next_page") (link_to next_card) card1
          | None => card1
          end
        else card1 in
      replace_at i card2 cards
  end.

(** [_add_navigation_links]: the cards after the loop. *)
Definition _add_navigation_links (cards : list dict) : list dict :=
  fold_left link_card (seq 0 (List.length cards)) cards.

(** What the loop leaves of the card at index [i], in terms of the cards as
    they were. *)
Definition linked (cards : list dict) (i : nat) (card : dict) : dict :=
  let card1 := match i with
               | O => card
               | S j => match nth_error cards j with
                        | Some prev_card => dict_set (u "prev_page") (link_to prev_card) card
                        | None => card
                        end
               end in
  match nth_error cards (S i) with
  | Some next_card => dict_set (u "next_page") (link_to next_card) card1
  | None => card1
  end.

(** [len(d['pages'])]. *)
Definition len_pages (d : dup_group) : Z := Z.of_nat (List.length (pages d)).

(** *** Key terms *)

(** [freq[token] = freq.get(token, 0) + 1] on the insertion-ordered dictionary
    of the counts. *)
Fixpoint bump (token : text) (freq : list (text * nat)) : list (text * nat) :=
  match freq with
  | [] => [(token, 1%nat)]
  | (k, n) :: freq' =>
      if text_eqb token k then (k, S n) :: freq' else (k, n) :: bump token freq'
  end.

(** The counting loop: only the tokens of more than three characters count. *)
Definition count_terms (tokens : list text) : list (text * nat) :=
  fold_left (fun freq token => if (3 <? len token)%Z then bump token freq else freq)
            tokens [].

(** [sorted(freq.items(), key=lambda x: x[1], reverse=True)]: the sort is
    stable, also in reverse, so an item goes before the first item of the
    sorted rest whose count is not greater than its own. *)
Fixpoint insert_term (x : text * nat) (sorted : list (text * nat)) : list (text * nat) :=
  match sorted with
  | [] => [x]
  | y :: rest =>
      if (snd x <? snd y)%nat then y :: insert_term x rest else x :: sorted
  end.

Definition sort_terms (items : list (text * nat)) : list (text * nat) :=
  fold_right insert_term [] items.

(** [freq.get(w, 0)]. *)
Fixpoint freq_get (w : text) (freq : list (text * nat)) : nat :=
  match freq with
  | [] => 0
  | (k, n) :: freq' => if text_eqb w k then n else freq_get w freq'
  end.

(** [ExtendedFieldsExtractor._extract_key_terms]. *)
Definition _extract_key_terms (t : text) : list text :=
  let tokens := TextAnalyzer.tokenize t in
  let freq := count_terms tokens in
  let sorted_terms := sort_terms freq in
  List.map fst (filter (fun item => (1 <? snd item)%nat) (firstn 10 sorted_terms)).

(** How often a token stands in a list. *)
Definition occurrences (w : text) (tokens : list text) : nat :=
  List.length (filter (text_eqb w) tokens).

(** *** The answer of the language model *)

(** [d.get(k, default)]. *)
Definition get_default (k : text) (default : value) (d : dict) : value :=
  match dict_get k d with Some v => v | None => default end.

(** [data.get(k, {})] as the object the next lines call [.get] on: [None] when
    the value under [k] is no object, and the first [.get] on it raises
    [AttributeError]. *)
Definition section_of (k : text) (data : dict) : option dict :=
  match dict_get k data with
  | None => Some []
  | Some (JDict d) => Some d
  | Some _ => None
  end.

(** [_flatten_lm_response]; [None] is the [AttributeError].  The argument is
    what [_parse_json_response] returned, an object or, from its last
    [json.loads], any other value. *)
Definition _flatten_lm_response (response : value) : option dict :=
  match response with
  | JDict data =>
      match section_of (u "entities") data with
      | None => None
      | Some entities =>
          match section_of (u "technical_content") data with
          | None => None
          | Some technical =>
              match section_of (u "actionable_content") data with
              | None => None
              | Some actionable =>
                  match section_of (u "business_content") data with
                  | None => None
                  | Some business =>
                      Some
                        [ (u "content_type", get_or_none (u "content_type") data);
                          (u "domain", get_or_none (u "domain") data);
                          (u "complexity", get_or_none (u "complexity") data);
                          (u "companies", get_default (u "companies") (JList []) entities);
                          (u "people", get_default (u "people") (JList []) entities);
                          (u "products", get_default (u "products") (JList []) entities);
                          (u "technologies",
                           get_default (u "technologies") (JList []) entities);
                          (u "frameworks", get_default (u "frameworks") (JList []) entities);
                          (u "methodologies",
                           get_default (u "methodologies") (JList []) entities);
                          (u "has_code", get_default (u "has_code") (JBool false) technical);
                          (u "programming_languages",
                           get_default (u "programming_languages") (JList []) technical);
                          (u "has_formulas",
                           get_default (u "has_formulas") (JBool false) technical);
                          (u "has_diagram",
                           get_default (u "has_diagram") (JBool false) technical);
                          (u "has_best_practices",
                           get_default (u "has_best_practices") (JBool false) actionable);
                          (u "has_antipatterns",
                           get_default (u "has_antipatterns") (JBool false) actionable);
                          (u "has_instructions",
                           get_default (u "has_instructions") (JBool false) actionable);
                          (u "has_metrics",
                           get_default (u "has_metrics") (JBool false) business);
                          (u "metrics", get_default (u "metrics") (JList []) business);
                          (u "has_case_study",
                           get_default (u "has_case_study") (JBool false) business);
                          (u "case_study_company",
                           get_or_none (u "case_study_company") business);
                          (u "tools_mentioned",
                           get_default (u "tools_mentioned") (JList []) data);
                          (u "topics", get_default (u "topics") (JList []) data);
                          (u "key_concepts", get_default (u "key_concepts") (JList []) data);
                          (u "problem_statement", get_or_none (u "problem_statement") data);
                          (u "solution_approach", get_or_none (u "solution_approach") data) ]
                  end
              end
          end
      end
  | _ => None
  end.

(** The sections of the answer, and the keys of the flat dictionary. *)
Definition SECTIONS : list text :=
  [u "entities"; u "technical_content"; u "actionable_content"; u "business_content"].

Definition FLAT_KEYS : list text :=
  List.map u
    [ "content_type"; "domain"; "complexity"; "companies"; "people"; "products";
      "technologies"; "frameworks"; "methodologies"; "has_code";
      "programming_languages"; "has_formulas"; "has_diagram"; "has_best_practices";
      "has_antipatterns"; "has_instructions"; "has_metrics"; "metrics";
      "has_case_study"; "case_study_company"; "tools_mentioned"; "topics";
      "key_concepts"; "problem_statement"; "solution_approach" ]%string.

(** *** The audit of the stage *)

Definition VERSION : text := u "2.0.0".

(** The dictionary [_build_audit] returns; [continuity] is [None] for the
    empty dictionary the stage passes when the continuity audit is disabled. *)
Record stage_audit : Type := {
  total_cards : nat;
  duplicate_groups : nat;
  duplicate_pages : Z;
  continuity : option ContinuityAuditor.report;
  extended_fields_extracted : nat;
  extraction_coverage : Q;
  a_stage : text;
  a_version : text;
  a_created_at : text
}.

(** [ExtendedProcessor._build_audit]; [now] is what [utc_now_iso()] returns. *)
Definition _build_audit (now : text) (cards : list card) (duplicates : list dup_group)
    (continuity_report : option ContinuityAuditor.report) (extracted_count : nat)
  : stage_audit :=
  {| total_cards := List.length cards;
     duplicate_groups := List.length duplicates;
     duplicate_pages :=
       fold_left Z.add (List.map (fun d => (len_pages d - 1)%Z) duplicates) 0%Z;
     continuity := continuity_report;
     extended_fields_extracted := extracted_count;
     extraction_coverage :=
       match cards with
       | [] => 0
       | _ => Qred (Qmake (Z.of_nat extracted_count) (Pos.of_nat (List.length cards)))
       end;
     a_stage := u "extended";
     a_version := VERSION;
     a_created_at := now |}.

End ExtendedStage.

(** ** Sample inputs *)

Module Scenarios.

Import Py.
Local Open Scope string_scope.
Local Open Scope list_scope.

(** *** Pages for the extraction chain *)

(** The two normalization passes leave a text of plain ASCII words without a
    watermark as it is; the sample pages below hold such texts only. *)
Definition plain_normalizer (t : text) : text := t.

Definition chain_natives : list Structural.extractor :=
  [Structural.Pdfminer; Structural.Pdfplumber; Structural.Pypdf2].
Definition chain_full : list Structural.extractor :=
  [Structural.Pdfminer; Structural.Pdfplumber; Structural.Pypdf2; Structural.Ocr].


(** A damaged page: every library raises at every call. *)
Definition damaged_page (n : Structural.extractor) (k : nat) : Structural.call_outcome :=
  Structural.Raises.

(** A page without a text layer: the native libraries return the empty text,
    OCR would read a sentence. *)
Definition scanned_page (n : Structural.extractor) (k : nat) : Structural.call_outcome :=
  match n with
  | Structural.Ocr =>
      Structural.Returns (Some (u "Scanned text that only OCR can read.", Some (9 # 10)))
  | _ => Structural.Returns (Some ([], None))
  end.

(** A page with a short native text of thirty characters. *)
Definition short_page (n : Structural.extractor) (k : nat) : Structural.call_outcome :=
  match n with
  | Structural.Ocr => Structural.Raises
  | _ => Structural.Returns (Some (u "A short line of thirty chars..", None))
  end.

(** A page whose native text is too short to be accepted (nine characters)
    but long enough, past the front matter, not to count as blank under a
    detector with [min_chars_valid = 5]. *)
Definition faint_page (n : Structural.extractor) (k : nat) : Structural.call_outcome :=
  match n with
  | Structural.Ocr =>
      Structural.Returns (Some (u "Scanned text that only OCR can read.", Some (9 # 10)))
  | _ => Structural.Returns (Some (u "Chapter 1", None))
  end.

Definition lenient_detector : Structural.BlankPageDetector :=
  {| Structural.min_chars_ocr := 50;
     Structural.min_chars_valid := 5;
     Structural.skip_front_matter := true |}.

(** *** A run of the orchestrator *)

(** Paths are numbered; every stage writes the next file, except that the
    structure detection raises. *)
Definition flaky_pipeline (stage : string) (input : nat) : Orchestrator.stage_outcome nat :=
  if String.eqb stage Orchestrator.STRUCTURE_DETECT
  then Orchestrator.StageRaises "no chapters found"
  else Orchestrator.StageOk (S input).

Definition quiet_validator (stage : string) (output : nat) : Orchestrator.validation_outcome :=
  Orchestrator.Validated true 0.

(** *** Card sets for the dataset store *)

Definition sample_header : Json.dict :=
  [ (u "book", Json.JStr (u "test_book")); (u "title", Json.JStr (u "Test Book")) ].

Definition sample_card (sid body : string) (page : Z) : Json.dict :=
  [ (u "segment_id", Json.JStr (u sid)); (u "segment", Json.JStr (u body));
    (u "page_num", Json.JInt page) ].

(** Two cards under one [segment_id]. *)
Definition cards_same_id : list Json.dict :=
  [ sample_card "00001" "First segment" 1; sample_card "00001" "Second segment" 2 ].

(** A card that takes the audit record's identifier. *)
Definition cards_reserved_id : list Json.dict :=
  [ sample_card "00001" "First segment" 1; sample_card "__audit__" "Second segment" 2 ].

(** *** Pages for the duplicate detector and the continuity audit *)

Definition page (n : Z) (body : string) : Extended.card :=
  {| Extended.page_num := Some n;
     Extended.segment := Some (u body);
     Extended.is_duplicate := None;
     Extended.duplicate_of := None;
     Extended.flags := None;
     Extended.other_fields := [] |}.

Definition fox_text : string :=
  "The quick brown fox jumps over the lazy dog and keeps running far away".
(** The same words in other case and spacing. *)
Definition fox_text_respaced : string :=
  "the  QUICK brown fox jumps over the lazy dog and keeps running   far away ".
Definition sea_text : string :=
  "Waves roll against harbour walls while gulls circle above silent trawlers".

(** A book of three pages, the second a copy of the first; and two cards that
    carry the same page number, as after merging the datasets of two books. *)
Definition book_with_copy : list Extended.card :=
  [ page 1 fox_text; page 2 fox_text_respaced; page 3 sea_text ].

Definition same_page_twice : list Extended.card :=
  [ page 1 fox_text; page 1 fox_text_respaced ].

(** *** Datasets on disk *)

Definition stamp : text := u "2025-01-01T00:00:00Z".

Definition sample_audit : Json.dict := [ (u "stage", Json.JStr (u "test")) ].

(** Two cards in the order of their identifiers, and the same two the other
    way round. *)
Definition cards_in_order : list Json.dict :=
  [ sample_card "00001" "First segment" 1; sample_card "00002" "Second segment" 2 ].



(** What [save] writes for a card list, and [stamp] for every clock reading. *)
Definition written (cards : list Json.dict) : Common.DatasetIO.saved :=
  match Common.DatasetIO.save stamp stamp stamp sample_header cards (Some sample_audit)
          None true with
  | inr s => s
  | inl _ =>
      {| Common.DatasetIO.file_content := [];
         Common.DatasetIO.header_after := [];
         Common.DatasetIO.audit_after := None;
         Common.DatasetIO.footer_after := [] |}
  end.



End Scenarios.

(* ================================================================== *)
(** * Part II. Theorems                                                *)
(* ================================================================== *)

(** ** The stage orchestrator *)

Section OrchestratorFacts.

Import Orchestrator.

Variable path : Type.
Variable _run_stage : string -> path -> stage_outcome path.
Variable _validate_output : string -> path -> validation_outcome.
Variable validate_stages : bool.

Abbreviation run := (run_stages _run_stage _validate_output validate_stages).
Abbreviation ok_step := (on_success _validate_output validate_stages).
Abbreviation best := (best_input _run_stage).
Abbreviation alive := (survives _run_stage).
Abbreviation fails_on := (stage_fails_on _run_stage).

Lemma is_critical_iff (stage : string) :
  _is_critical_stage stage = true <-> stage = STRUCTURAL \/ stage = FINALIZE.
Proof.
  unfold _is_critical_stage; simpl.
  rewrite !orb_true_iff, !String.eqb_eq.
  intuition discriminate.
Qed.

Lemma current_input_on_failure (s msg : string) (st : run_state path) :
  current_input (on_failure s msg st) = current_input st.
Proof. reflexivity. Qed.

Lemma current_input_on_success (s : string) (out : path) (st : run_state path) :
  current_input (ok_step s out st) = out.
Proof. reflexivity. Qed.

(** As long as no critical stage fails, the loop over [pre ++ rest] is the loop
    over [rest] started where the loop over [pre] ends. *)
Lemma run_stages_app (pre rest : list string) :
  forall st : run_state path,
    alive pre (current_input st) = true ->
    run (pre ++ rest) st = run rest (run pre st).
Proof.
  induction pre as [|s pre IH]; intros st Hlive; simpl in *.
  - reflexivity.
  - destruct (_run_stage s (current_input st)) as [out|msg].
    + apply IH. exact Hlive.
    + apply andb_true_iff in Hlive as [Hcrit Hlive].
      apply negb_true_iff in Hcrit. rewrite Hcrit.
      apply IH. exact Hlive.
Qed.

Lemma current_input_run (pre : list string) :
  forall st : run_state path,
    alive pre (current_input st) = true ->
    current_input (run pre st) = best pre (current_input st).
Proof.
  induction pre as [|s pre IH]; intros st Hlive; simpl in *.
  - reflexivity.
  - destruct (_run_stage s (current_input st)) as [out|msg].
    + rewrite IH by exact Hlive. reflexivity.
    + apply andb_true_iff in Hlive as [Hcrit Hlive].
      apply negb_true_iff in Hcrit. rewrite Hcrit.
      rewrite IH by exact Hlive. reflexivity.
Qed.

Lemma best_input_snoc (pre : list string) (s : string) :
  forall input : path,
    best (pre ++ [s]) input =
    match _run_stage s (best pre input) with
    | StageOk out => out
    | StageRaises _ => best pre input
    end.
Proof.
  induction pre as [|s0 pre IH]; intros input; simpl.
  - destruct (_run_stage s input); reflexivity.
  - destruct (_run_stage s0 input); apply IH.
Qed.

(** [best_input] is the output of the last stage that succeeded, every later
    stage having failed on that very input; or the original input when no
    stage succeeded. *)
Lemma best_input_is_last_success (pre : list string) (input : path) :
  (best pre input = input /\ Forall (fails_on input) pre)
  \/ (exists pre1 s0 pre2 out,
         pre = pre1 ++ s0 :: pre2
         /\ _run_stage s0 (best pre1 input) = StageOk out
         /\ Forall (fails_on out) pre2
         /\ best pre input = out).
Proof.
  induction pre as [|s pre IH] using rev_ind.
  - left. split; [reflexivity | constructor].
  - rewrite best_input_snoc.
    destruct (_run_stage s (best pre input)) as [out|msg] eqn:Hs.
    + right. exists pre, s, [], out. repeat split; auto.
    + destruct IH as [[Hb Hall] | (pre1 & s0 & pre2 & out & Hpre & Hok & Hall & Hb)].
      * left. split; [exact Hb|].
        apply Forall_app. split; [exact Hall|].
        constructor; [|constructor]. exists msg. rewrite <- Hb. exact Hs.
      * right. exists pre1, s0, (pre2 ++ [s]), out. repeat split; auto.
        -- rewrite Hpre, <- app_assoc. reflexivity.
        -- apply Forall_app. split; [exact Hall|].
           constructor; [|constructor]. exists msg. rewrite <- Hb. exact Hs.
Qed.

(** The log of invocations only grows. *)
Lemma invocations_run_prefix (stages : list string) :
  forall st : run_state path,
    exists more, invocations (run stages st) = invocations st ++ more.
Proof.
  induction stages as [|s stages IH]; intros st; simpl.
  - exists []. now rewrite app_nil_r.
  - destruct (_run_stage s (current_input st)) as [out|msg].
    + destruct (IH (ok_step s out st)) as [more Hm].
      exists ((s, current_input st) :: more). rewrite Hm. simpl.
      now rewrite <- app_assoc.
    + destruct (_is_critical_stage s).
      * exists [(s, current_input st)]. reflexivity.
      * destruct (IH (on_failure s msg st)) as [more Hm].
        exists ((s, current_input st) :: more). rewrite Hm. simpl.
        now rewrite <- app_assoc.
Qed.

(** C6. In [run_single]'s loop over [pre ++ s :: post], let the loop reach [s]
    (no critical stage of [pre] failed) and let [s] fail.  The input [s] was
    given is the output of the last stage that succeeded before it (the
    original input when none did).  If [s] is [structural] or [finalize], the
    loop stops there: the failure is recorded and no stage of [post] is
    invoked.  Otherwise the failure is recorded, the loop goes on with [post],
    and the next stage is invoked on the same input [s] was given. *)
Theorem run_single_failure_semantics
    (pre post : list string) (s msg : string) (st : run_state path) :
  alive pre (current_input st) = true ->
  _run_stage s (best pre (current_input st)) = StageRaises msg ->
  let reached := run pre st in
  let given := best pre (current_input st) in
  let recorded := on_failure s msg reached in
  current_input reached = given
  /\ ((given = current_input st /\ Forall (fails_on (current_input st)) pre)
      \/ exists pre1 s0 pre2,
           pre = pre1 ++ s0 :: pre2
           /\ _run_stage s0 (best pre1 (current_input st)) = StageOk given
           /\ Forall (fails_on given) pre2)
  /\ (_is_critical_stage s = true <-> s = STRUCTURAL \/ s = FINALIZE)
  /\ errors recorded = errors reached ++ [(s, msg)]
  /\ invocations recorded = invocations reached ++ [(s, given)]
  /\ (_is_critical_stage s = true -> run (pre ++ s :: post) st = recorded)
  /\ (_is_critical_stage s = false ->
      run (pre ++ s :: post) st = run post recorded
      /\ current_input recorded = given
      /\ forall next post',
           post = next :: post' ->
           exists more,
             invocations (run (pre ++ s :: post) st)
             = invocations reached ++ [(s, given); (next, given)] ++ more).
Proof.
  intros Hlive Hfail reached given recorded.
  assert (Hcur : current_input reached = given)
    by (apply current_input_run; exact Hlive).
  assert (Hstep : run (pre ++ s :: post) st = run (s :: post) reached)
    by (apply run_stages_app; exact Hlive).
  split; [exact Hcur|].
  split.
  { destruct (best_input_is_last_success pre (current_input st))
      as [[Hb Hall] | (pre1 & s0 & pre2 & out & Hpre & Hok & Hall & Hb)].
    - left. split; assumption.
    - right. exists pre1, s0, pre2. subst given. rewrite Hb. auto. }
  split; [apply is_critical_iff|].
  split; [reflexivity|].
  split; [unfold recorded; simpl; now rewrite Hcur|].
  split.
  - intros Hcrit. rewrite Hstep. simpl.
    rewrite Hcur. unfold given. rewrite Hfail, Hcrit. reflexivity.
  - intros Hcrit.
    assert (Hgo : run (pre ++ s :: post) st = run post recorded).
    { rewrite Hstep. simpl. rewrite Hcur. unfold given.
      rewrite Hfail, Hcrit. reflexivity. }
    split; [exact Hgo|].
    split; [exact Hcur|].
    intros next post' ->. rewrite Hgo. simpl. rewrite ?Hcur.
    destruct (_run_stage next given) as [out|msg'].
    + destruct (invocations_run_prefix post' (ok_step next out recorded)) as [more Hm].
      exists more. rewrite Hm. simpl. rewrite ?Hcur.
      rewrite <- !app_assoc. reflexivity.
    + destruct (_is_critical_stage next).
      * exists []. simpl. rewrite ?Hcur. rewrite <- !app_assoc. reflexivity.
      * destruct (invocations_run_prefix post' (on_failure next msg' recorded)) as [more Hm].
        exists more. rewrite Hm. simpl. rewrite ?Hcur.
        rewrite <- !app_assoc. reflexivity.
Qed.

End OrchestratorFacts.

(** ** Retry policy, blank pages and the extraction chain *)

Section StructuralFacts.

Import Structural.

Lemma get_delay_monotone (a b : Z) :
  (a <= b)%Z -> RetryConfig.get_delay a <= RetryConfig.get_delay b.
Proof.
  intros Hab. unfold RetryConfig.get_delay.
  apply Q.min_le_compat_r.
  unfold RetryConfig.INITIAL_DELAY. rewrite !Qmult_1_l.
  apply Qpower_le_compat_l; [exact Hab | discriminate].
Qed.

Lemma get_delay_capped (a : Z) : RetryConfig.get_delay a <= RetryConfig.MAX_DELAY.
Proof. unfold RetryConfig.get_delay. apply Q.le_min_r. Qed.

Lemma extractor_eqb_refl (n : extractor) : extractor_eqb n n = true.
Proof. destruct n; reflexivity. Qed.

Lemma extractor_eqb_eq (n m : extractor) : extractor_eqb n m = true <-> n = m.
Proof. destruct n, m; simpl; split; intros H; try reflexivity; discriminate. Qed.

Lemma calls_of_app (n : extractor) (a b : list event) :
  calls_of n (a ++ b) = (calls_of n a + calls_of n b)%nat.
Proof. unfold calls_of. rewrite filter_app, length_app. reflexivity. Qed.

Lemma calls_of_call (n m : extractor) (tr : list event) :
  calls_of n (tr ++ [Call m]) = (calls_of n tr + if extractor_eqb n m then 1 else 0)%nat.
Proof.
  rewrite calls_of_app. unfold calls_of at 2. simpl.
  destruct (extractor_eqb n m); reflexivity.
Qed.

Lemma calls_of_sleep (n : extractor) (tr : list event) (d : Q) :
  calls_of n (tr ++ [Sleep d]) = calls_of n tr.
Proof. rewrite calls_of_app. unfold calls_of at 2. simpl. lia. Qed.

Variable normalize_text : Py.text -> Py.text.
Variable behaviour : extractor -> nat -> call_outcome.
Variable blank_detector : BlankPageDetector.
Variable extractors : list extractor.
Variable page_num : Z.

Abbreviation retry := (retry_loop normalize_text behaviour).
Abbreviation attempt_all := (try_with_retry normalize_text behaviour).
Abbreviation walk := (extract_from normalize_text behaviour blank_detector extractors page_num).
Abbreviation preview := (_try_non_ocr_preview behaviour extractors).
Abbreviation keeps_raising := (raises_from behaviour).

(** One turn of the retry loop when the call raises. *)
Lemma retry_loop_raises (n : extractor) (left : nat) (attempt : Z) (tr : list event) :
  behaviour n (calls_of n tr) = Raises ->
  retry n (S left) attempt tr =
  if (attempt <? Z.of_nat RetryConfig.MAX_RETRIES - 1)%Z
  then retry n left (attempt + 1)%Z (tr ++ [Call n] ++ [Sleep (RetryConfig.get_delay attempt)])
  else retry n left (attempt + 1)%Z (tr ++ [Call n]).
Proof.
  intros H. cbn [retry_loop]. unfold call. rewrite H.
  destruct (attempt <? Z.of_nat RetryConfig.MAX_RETRIES - 1)%Z;
    rewrite <- ?app_assoc; reflexivity.
Qed.

Lemma keeps_raising_later (n : extractor) (tr more : list event) :
  keeps_raising n tr -> keeps_raising n (tr ++ more).
Proof.
  intros H k Hk. apply H. rewrite calls_of_app in Hk. lia.
Qed.

(** A strategy that keeps raising is called three times, with a sleep of
    [get_delay 0] and one of [get_delay 1] in between, and is not accepted. *)
Lemma try_with_retry_raising (n : extractor) (tr : list event) :
  keeps_raising n tr ->
  attempt_all n tr = (None, tr ++ retry_events n).
Proof.
  intros H. unfold try_with_retry, RetryConfig.MAX_RETRIES.
  rewrite retry_loop_raises by (apply H; lia).
  change (0 <? Z.of_nat RetryConfig.MAX_RETRIES - 1)%Z with true. cbv iota.
  rewrite retry_loop_raises
    by (apply H; rewrite ?calls_of_app; lia).
  change (0 + 1 <? Z.of_nat RetryConfig.MAX_RETRIES - 1)%Z with true. cbv iota.
  rewrite retry_loop_raises
    by (apply H; rewrite ?calls_of_app; lia).
  change (0 + 1 + 1 <? Z.of_nat RetryConfig.MAX_RETRIES - 1)%Z with false. cbv iota.
  cbn [retry_loop]. unfold retry_events.
  rewrite <- !app_assoc. reflexivity.
Qed.

(** A call that returns is never repeated: the loop makes that one call. *)
Lemma try_with_retry_returns (n : extractor) (tr : list event)
    (result : option (Py.text * option Q)) :
  behaviour n (calls_of n tr) = Returns result ->
  snd (attempt_all n tr) = tr ++ [Call n].
Proof.
  intros H. unfold try_with_retry, RetryConfig.MAX_RETRIES.
  cbn [retry_loop]. unfold call. rewrite H.
  destruct result as [[t c]|]; [|reflexivity].
  destruct (match t with [] => t | _ :: _ => normalize_text t end); [reflexivity|].
  destruct (10 <=? Py.len (Py.strip (n0 :: t0)))%Z; reflexivity.
Qed.

(** What the retry loop can return, and what it logs. *)
Lemma retry_loop_accepts (n : extractor) (left : nat) :
  forall (attempt : Z) (tr tr' : list event) (r : extraction),
    retry n left attempt tr = (Some r, tr') ->
    fst (fst r) <> [] /\ snd (fst r) = method_of n.
Proof.
  induction left as [|left IH]; intros attempt tr tr' r H; cbn [retry_loop] in H.
  - discriminate.
  - unfold call in H.
    destruct (behaviour n (calls_of n tr)) as [|[[t c]|]].
    + destruct (attempt <? Z.of_nat RetryConfig.MAX_RETRIES - 1)%Z;
        apply IH in H; exact H.
    + destruct (match t with [] => t | _ :: _ => normalize_text t end) as [|x t'];
        [discriminate|].
      destruct (10 <=? Py.len (Py.strip (x :: t')))%Z; [|discriminate].
      injection H as <- _. simpl. split; [discriminate | reflexivity].
    + discriminate.
Qed.

Lemma retry_loop_trace (n : extractor) (left : nat) :
  forall (attempt : Z) (tr : list event),
    exists more,
      snd (retry n left attempt tr) = tr ++ more
      /\ forall m, m <> n -> calls_of m more = 0%nat.
Proof.
  induction left as [|left IH]; intros attempt tr; cbn [retry_loop].
  - exists []. split; [now rewrite app_nil_r | reflexivity].
  - unfold call.
    assert (Hone : forall m, m <> n -> calls_of m [Call n] = 0%nat).
    { intros m Hm. unfold calls_of. simpl.
      destruct (extractor_eqb m n) eqn:E; [|reflexivity].
      apply extractor_eqb_eq in E. contradiction. }
    destruct (behaviour n (calls_of n tr)) as [|[[t c]|]].
    + destruct (attempt <? Z.of_nat RetryConfig.MAX_RETRIES - 1)%Z.
      * destruct (IH (attempt + 1)%Z
                     ((tr ++ [Call n]) ++ [Sleep (RetryConfig.get_delay attempt)]))
          as (more & Hm & Hc).
        exists ([Call n] ++ [Sleep (RetryConfig.get_delay attempt)] ++ more).
        split; [rewrite Hm; now rewrite <- !app_assoc|].
        intros m Hne. rewrite !calls_of_app, Hone, Hc by exact Hne. reflexivity.
      * destruct (IH (attempt + 1)%Z (tr ++ [Call n])) as (more & Hm & Hc).
        exists ([Call n] ++ more).
        split; [rewrite Hm; now rewrite <- !app_assoc|].
        intros m Hne. rewrite !calls_of_app, Hone, Hc by exact Hne. reflexivity.
    + exists [Call n]. split; [|exact Hone].
      destruct (match t with [] => t | _ :: _ => normalize_text t end) as [|x t'];
        [reflexivity|].
      destruct (10 <=? Py.len (Py.strip (x :: t')))%Z; reflexivity.
    + exists [Call n]. split; [reflexivity | exact Hone].
Qed.

(** The loop calls its strategy at least once. *)
Lemma retry_loop_calls (n : extractor) (left : nat) (attempt : Z) (tr : list event) :
  (calls_of n tr < calls_of n (snd (retry n (S left) attempt tr)))%nat.
Proof.
  cbn [retry_loop]. unfold call.
  assert (Hone : calls_of n (tr ++ [Call n]) = S (calls_of n tr))
    by (rewrite calls_of_call, extractor_eqb_refl; lia).
  destruct (behaviour n (calls_of n tr)) as [|[[t c]|]].
  - destruct (attempt <? Z.of_nat RetryConfig.MAX_RETRIES - 1)%Z;
      match goal with
      | |- context [retry_loop _ _ n left ?a ?t] =>
          destruct (retry_loop_trace n left a t) as (more & Hm & _); rewrite Hm
      end;
      rewrite !calls_of_app; rewrite calls_of_app in Hone; lia.
  - destruct (match t with [] => t | _ :: _ => normalize_text t end) as [|x t'];
      [simpl; lia|].
    destruct (10 <=? Py.len (Py.strip (x :: t')))%Z; simpl; lia.
  - simpl. lia.
Qed.

Lemma try_with_retry_calls (n : extractor) (tr : list event) :
  (calls_of n tr < calls_of n (snd (attempt_all n tr)))%nat.
Proof. unfold try_with_retry. apply retry_loop_calls. Qed.

(** The preview never calls the OCR strategy. *)
Lemma preview_from_no_ocr (chain : list extractor) :
  forall tr : list event,
    calls_of Ocr (snd (preview_from behaviour chain tr)) = calls_of Ocr tr.
Proof.
  induction chain as [|n chain IH]; intros tr; cbn [preview_from].
  - reflexivity.
  - destruct (is_ocr n) eqn:En; [apply IH|].
    unfold call.
    assert (Hc : calls_of Ocr (tr ++ [Call n]) = calls_of Ocr tr).
    { rewrite calls_of_call. destruct n; simpl in *; try discriminate; lia. }
    destruct (behaviour n (calls_of n tr)) as [|[[t c]|]].
    + rewrite IH. exact Hc.
    + exact Hc.
    + rewrite IH. exact Hc.
Qed.

Lemma is_ocr_iff (n : extractor) : is_ocr n = true <-> n = Ocr.
Proof. destruct n; simpl; split; intros H; try reflexivity; discriminate. Qed.

(** The two shapes of one turn of the chain walk. *)
Lemma walk_cons_native (n : extractor) (rest : list extractor) (tr : list event) :
  is_ocr n = false ->
  walk (n :: rest) tr =
  match attempt_all n tr with
  | (Some r, tr') => (r, tr')
  | (None, tr') => walk rest tr'
  end.
Proof. intros H. cbn [extract_from]. rewrite H. reflexivity. Qed.

Lemma walk_cons_ocr (rest : list extractor) (tr : list event) :
  walk (Ocr :: rest) tr =
  if needs_ocr blank_detector (fst (preview tr)) page_num then
    match attempt_all Ocr (snd (preview tr)) with
    | (Some r, tr') => (r, tr')
    | (None, tr') => walk rest tr'
    end
  else
    (match fst (preview tr) with
     | [] => ([], NONE, None)
     | _ => (fst (preview tr), PDFPLUMBER, None)
     end, snd (preview tr)).
Proof.
  cbn [extract_from is_ocr].
  destruct (preview tr) as [pv tr1]. cbn [fst snd].
  destruct (needs_ocr blank_detector pv page_num); cbn [negb].
  - reflexivity.
  - destruct pv; reflexivity.
Qed.

(** Every result of the walk is either the empty result or an accepted one,
    and an accepted result carries a text that is not empty. *)
Lemma walk_result (chain : list extractor) :
  forall tr : list event,
    fst (walk chain tr) = ([], NONE, None)
    \/ (fst (fst (fst (walk chain tr))) <> [] /\ accepted (fst (walk chain tr)) = true).
Proof.
  induction chain as [|n chain IH]; intros tr.
  - left. reflexivity.
  - destruct (is_ocr n) eqn:En.
    + apply is_ocr_iff in En. subst n. rewrite walk_cons_ocr.
      destruct (needs_ocr blank_detector (fst (preview tr)) page_num).
      * destruct (attempt_all Ocr (snd (preview tr))) as [[r|] tr'] eqn:Er.
        -- right. apply retry_loop_accepts in Er as [Ht Hm].
           cbn [fst]. split; [exact Ht|]. unfold accepted. rewrite Hm. reflexivity.
        -- apply IH.
      * destruct (fst (preview tr)) as [|c pv]; [left; reflexivity|].
        right. cbn. split; [discriminate | reflexivity].
    + rewrite walk_cons_native by exact En.
      destruct (attempt_all n tr) as [[r|] tr'] eqn:Er.
      * right. apply retry_loop_accepts in Er as [Ht Hm].
        cbn [fst]. split; [exact Ht|]. unfold accepted. rewrite Hm.
        destruct n; reflexivity.
      * apply IH.
Qed.

(** A chain of native strategies followed by more: the walk stops at the first
    accepted result, and goes on with the rest otherwise. *)
Lemma walk_app (pre rest : list extractor) :
  no_ocr pre = true ->
  forall tr : list event,
    walk (pre ++ rest) tr =
    if accepted (fst (walk pre tr)) then walk pre tr else walk rest (snd (walk pre tr)).
Proof.
  induction pre as [|n pre IH]; intros Hno tr.
  - reflexivity.
  - cbn [no_ocr forallb] in Hno. apply andb_true_iff in Hno as [Hn Hno].
    apply negb_true_iff in Hn.
    rewrite <- app_comm_cons, !walk_cons_native by exact Hn.
    destruct (attempt_all n tr) as [[r|] tr'] eqn:Er.
    + apply retry_loop_accepts in Er as [_ Hm].
      unfold accepted. cbn [fst]. rewrite Hm. destruct n; reflexivity.
    + apply IH. exact Hno.
Qed.

Lemma walk_native_no_ocr_call (pre : list extractor) :
  no_ocr pre = true ->
  forall tr : list event, calls_of Ocr (snd (walk pre tr)) = calls_of Ocr tr.
Proof.
  induction pre as [|n pre IH]; intros Hno tr.
  - reflexivity.
  - cbn [no_ocr forallb] in Hno. apply andb_true_iff in Hno as [Hn Hno].
    apply negb_true_iff in Hn.
    rewrite walk_cons_native by exact Hn.
    assert (Hne : Ocr <> n) by (intros <-; discriminate).
    destruct (retry_loop_trace n RetryConfig.MAX_RETRIES 0%Z tr) as (more & Hm & Hc).
    fold (attempt_all n tr) in Hm.
    destruct (attempt_all n tr) as [[r|] tr'] eqn:Er; cbn [snd] in *; subst tr'.
    + rewrite calls_of_app, Hc by exact Hne. lia.
    + rewrite IH by exact Hno. rewrite calls_of_app, Hc by exact Hne. lia.
Qed.

Lemma keeps_raising_after_preview (tr : list event) :
  keeps_raising Ocr tr -> keeps_raising Ocr (snd (preview tr)).
Proof.
  intros H k Hk. apply H.
  unfold _try_non_ocr_preview in Hk. rewrite preview_from_no_ocr in Hk. exact Hk.
Qed.

(** The chains [__init__] can build: native strategies, then OCR at most once. *)
Lemma build_chain_shape (a b c d e : bool) (chain : list extractor) :
  build_chain a b c d e = Some chain ->
  let natives := filter (fun n => negb (is_ocr n)) chain in
  no_ocr natives = true
  /\ ((chain = natives ++ [Ocr] /\ In Ocr chain)
      \/ (chain = natives /\ ~ In Ocr chain)).
Proof.
  destruct a, b, c, d, e; cbn; intros H; try discriminate;
    injection H as <-; cbn; (split; [reflexivity|]);
    solve [ left; split; [reflexivity | tauto]
          | right; split; [reflexivity | intuition discriminate] ].
Qed.

Lemma needs_ocr_iff (t : Py.text) :
  needs_ocr blank_detector t page_num = true
  <-> (Py.len (Py.strip t) < min_chars_ocr blank_detector)%Z
      /\ is_truly_blank blank_detector t page_num = false.
Proof.
  unfold needs_ocr.
  destruct (is_truly_blank blank_detector t page_num).
  - split; [discriminate | intros [_ H]; discriminate].
  - rewrite Z.ltb_lt. tauto.
Qed.

(** What one turn at the OCR strategy logs. *)
Lemma walk_ocr_calls (tr : list event) :
  if needs_ocr blank_detector (fst (preview tr)) page_num
  then (calls_of Ocr tr < calls_of Ocr (snd (walk [Ocr] tr)))%nat
  else calls_of Ocr (snd (walk [Ocr] tr)) = calls_of Ocr tr.
Proof.
  rewrite walk_cons_ocr.
  pose proof (preview_from_no_ocr extractors tr) as Hpv.
  fold (preview tr) in Hpv.
  destruct (needs_ocr blank_detector (fst (preview tr)) page_num).
  - pose proof (try_with_retry_calls Ocr (snd (preview tr))) as Hc.
    destruct (attempt_all Ocr (snd (preview tr))) as [[r|] tr'];
      cbn [extract_from snd] in *; lia.
  - cbn [snd]. exact Hpv.
Qed.

(** C4, as the code has it.  On a chain built by [__init__], let [walked] be the
    walk over the native strategies and [pv] the preview taken where the walk
    reaches OCR.  OCR is invoked exactly when it is in the chain, no native
    result was accepted, and [needs_ocr] holds of the preview: its stripped
    length is below [min_chars_ocr] and the page is not truly blank.  So a
    preview at or above the threshold never leads to OCR. *)
Theorem ocr_escalation (a b c d e : bool) :
  build_chain a b c d e = Some extractors ->
  let natives := filter (fun n => negb (is_ocr n)) extractors in
  let walked := walk natives [] in
  let pv := fst (preview (snd walked)) in
  let out := extract normalize_text behaviour blank_detector extractors page_num in
  ((0 < calls_of Ocr (snd out))%nat
   <-> In Ocr extractors
       /\ accepted (fst walked) = false
       /\ needs_ocr blank_detector pv page_num = true)
  /\ (needs_ocr blank_detector pv page_num = true
      <-> (Py.len (Py.strip pv) < min_chars_ocr blank_detector)%Z
          /\ is_truly_blank blank_detector pv page_num = false)
  /\ ((min_chars_ocr blank_detector <= Py.len (Py.strip pv))%Z ->
      calls_of Ocr (snd out) = 0%nat).
Proof.
  intros Hchain natives walked pv out.
  destruct (build_chain_shape _ _ _ _ _ Hchain) as [Hno Hshape].
  fold natives in Hno, Hshape.
  assert (Hwalked : calls_of Ocr (snd walked) = 0%nat)
    by (unfold walked; rewrite walk_native_no_ocr_call by exact Hno; reflexivity).
  assert (Hiff : (0 < calls_of Ocr (snd out))%nat
                 <-> In Ocr extractors
                     /\ accepted (fst walked) = false
                     /\ needs_ocr blank_detector pv page_num = true).
  { destruct Hshape as [[Heq Hin] | [Heq Hnin]].
    - assert (Hout : out = if accepted (fst walked) then walked
                           else walk [Ocr] (snd walked)).
      { unfold out, extract. rewrite Heq at 2. apply walk_app. exact Hno. }
      rewrite Hout.
      pose proof (walk_ocr_calls (snd walked)) as Hocr. fold pv in Hocr.
      destruct (accepted (fst walked)).
      + rewrite Hwalked. split; [lia | intros (_ & Hf & _); discriminate].
      + destruct (needs_ocr blank_detector pv page_num).
        * split; [auto | intros _; lia].
        * rewrite Hocr, Hwalked. split; [lia | intros (_ & _ & Hf); discriminate].
    - assert (Hout : out = walked).
      { unfold out, extract, walked. rewrite <- Heq. reflexivity. }
      rewrite Hout, Hwalked. split; [lia | intros (Hin & _); contradiction]. }
  split; [exact Hiff|].
  split; [apply needs_ocr_iff|].
  intros Hlen.
  destruct (calls_of Ocr (snd out)) eqn:Hcalls; [reflexivity|].
  assert (Hpos : (0 < S n)%nat) by lia.
  apply Hiff in Hpos as (_ & _ & Hneed).
  apply needs_ocr_iff in Hneed as [Hlt _]. lia.
Qed.

(** The chains [__init__] can build name no strategy twice. *)
Lemma build_chain_NoDup (a b c d e : bool) (chain : list extractor) :
  build_chain a b c d e = Some chain -> NoDup chain.
Proof.
  destruct a, b, c, d, e; cbn; intros H; try discriminate;
    injection H as <-; repeat constructor; cbn; intuition discriminate.
Qed.

(** The walk over native strategies calls none but its own. *)
Lemma walk_skips (n : extractor) (pre : list extractor) :
  no_ocr pre = true -> ~ In n pre ->
  forall tr : list event, calls_of n (snd (walk pre tr)) = calls_of n tr.
Proof.
  induction pre as [|m pre IH]; intros Hno Hout tr.
  - reflexivity.
  - cbn [no_ocr forallb] in Hno. apply andb_true_iff in Hno as [Hm Hno].
    apply negb_true_iff in Hm.
    rewrite walk_cons_native by exact Hm.
    assert (Hne : n <> m) by (intros ->; apply Hout; now left).
    destruct (retry_loop_trace m RetryConfig.MAX_RETRIES 0%Z tr) as (more & Hmore & Hc).
    fold (attempt_all m tr) in Hmore.
    destruct (attempt_all m tr) as [[r|] tr'] eqn:Er; cbn [snd] in *; subst tr'.
    + rewrite calls_of_app, Hc by exact Hne. lia.
    + rewrite IH by (try exact Hno; intros Hin; apply Hout; now right).
      rewrite calls_of_app, Hc by exact Hne. lia.
Qed.

(** What the walk over native strategies costs a strategy that raises at every
    call: its three attempts when the walk reaches it, nothing otherwise. *)
Lemma walk_raising (n : extractor) (pre : list extractor) :
  (forall k, behaviour n k = Raises) ->
  no_ocr pre = true -> NoDup pre ->
  forall tr : list event,
    let calls := calls_of n (snd (walk pre tr)) in
    (calls = calls_of n tr \/ calls = (calls_of n tr + 3)%nat)
    /\ (In n pre -> accepted (fst (walk pre tr)) = false -> calls = (calls_of n tr + 3)%nat)
    /\ (hd_error pre = Some n -> calls = (calls_of n tr + 3)%nat)
    /\ (~ In n pre -> calls = calls_of n tr).
Proof.
  intros Hraise. induction pre as [|m pre IH]; intros Hno Hnd tr; cbv zeta.
  - cbn [extract_from snd In hd_error]. repeat split; try tauto; try discriminate.
  - cbn [no_ocr forallb] in Hno. apply andb_true_iff in Hno as [Hm Hno].
    apply negb_true_iff in Hm.
    inversion Hnd as [|? ? Hfresh Hnd']; subst.
    rewrite walk_cons_native by exact Hm.
    destruct (extractor_eqb n m) eqn:Enm.
    + apply extractor_eqb_eq in Enm. subst m.
      rewrite try_with_retry_raising by (intros k _; apply Hraise).
      assert (Hthree : calls_of n (snd (walk pre (tr ++ retry_events n)))
                       = (calls_of n tr + 3)%nat).
      { rewrite walk_skips by assumption.
        rewrite calls_of_app. unfold retry_events, calls_of at 2. simpl.
        rewrite extractor_eqb_refl. reflexivity. }
      repeat split; auto. intros Hout. exfalso. apply Hout. now left.
    + assert (Hne : n <> m).
      { intros ->. rewrite extractor_eqb_refl in Enm. discriminate. }
      destruct (retry_loop_trace m RetryConfig.MAX_RETRIES 0%Z tr) as (more & Hmore & Hc).
      fold (attempt_all m tr) in Hmore.
      destruct (attempt_all m tr) as [[r|] tr'] eqn:Er; cbn [snd] in Hmore; subst tr'.
      * assert (Hsame : calls_of n (tr ++ more) = calls_of n tr)
          by (rewrite calls_of_app, Hc by exact Hne; lia).
        apply retry_loop_accepts in Er as [_ Hmethod].
        assert (Hacc : accepted r = true).
        { unfold accepted. rewrite Hmethod. destruct m; reflexivity. }
        cbn [fst snd]. repeat split.
        -- now left.
        -- intros _ Hf. rewrite Hacc in Hf. discriminate.
        -- intros [= ->]. contradiction.
        -- intros _. exact Hsame.
      * assert (Hsame : calls_of n (tr ++ more) = calls_of n tr)
          by (rewrite calls_of_app, Hc by exact Hne; lia).
        destruct (IH Hno Hnd' (tr ++ more)) as (H1 & H2 & _ & H4).
        cbv zeta in H1, H2, H4. rewrite Hsame in H1, H2, H4.
        repeat split.
        -- exact H1.
        -- intros [-> | Hin] Hf; [contradiction | now apply H2].
        -- intros [= ->]. contradiction.
        -- intros Hout. apply H4. intros Hin. apply Hout. now right.
Qed.

(** The preview calls a native strategy once at most, and no other one. *)
Lemma preview_skips (n : extractor) (chain : list extractor) :
  ~ In n chain ->
  forall tr : list event,
    calls_of n (snd (preview_from behaviour chain tr)) = calls_of n tr.
Proof.
  induction chain as [|m chain IH]; intros Hout tr; cbn [preview_from].
  - reflexivity.
  - assert (Hrest : ~ In n chain) by (intros Hin; apply Hout; now right).
    destruct (is_ocr m); [now apply IH|].
    unfold call.
    assert (Hc : calls_of n (tr ++ [Call m]) = calls_of n tr).
    { rewrite calls_of_call. destruct (extractor_eqb n m) eqn:E; [|lia].
      apply extractor_eqb_eq in E. subst m. exfalso. apply Hout. now left. }
    destruct (behaviour m (calls_of m tr)) as [|[[t c]|]];
      cbn [snd]; rewrite ?IH by exact Hrest; exact Hc.
Qed.

Lemma preview_once (n : extractor) (chain : list extractor) :
  NoDup chain ->
  forall tr : list event,
    (calls_of n tr <= calls_of n (snd (preview_from behaviour chain tr))
     <= calls_of n tr + 1)%nat.
Proof.
  induction chain as [|m chain IH]; intros Hnd tr; cbn [preview_from].
  - cbn [snd]. lia.
  - inversion Hnd as [|? ? Hfresh Hnd']; subst.
    destruct (is_ocr m); [now apply IH|].
    unfold call.
    pose proof (calls_of_call n m tr) as Hc.
    assert (Hgo : (calls_of n tr
                   <= calls_of n (snd (preview_from behaviour chain (tr ++ [Call m])))
                   <= calls_of n tr + 1)%nat).
    { destruct (extractor_eqb n m) eqn:E.
      - apply extractor_eqb_eq in E. subst m.
        rewrite preview_skips by exact Hfresh. lia.
      - specialize (IH Hnd' (tr ++ [Call m])). lia. }
    destruct (behaviour m (calls_of m tr)) as [|[[t c]|]]; cbn [snd];
      try exact Hgo.
    destruct (extractor_eqb n m); lia.
Qed.

(** C7, as the code has it, for a strategy [n] that raises at every call, on a
    chain [__init__] builds.  Wherever the walk of [extract] reaches [n], the
    retry loop calls it exactly [MAX_RETRIES] times, sleeps [get_delay attempt]
    between two consecutive calls (the delays are [min(INITIAL_DELAY *
    BACKOFF_FACTOR^attempt, MAX_DELAY)], never decrease and never exceed
    [MAX_DELAY]) and hands over to the next strategy; for OCR the walk first
    takes the preview, and enters the loop only when [needs_ocr] holds of it.
    A call that returns, whatever it returns, is not repeated by the loop.
    Over [extract] as a whole [n] is called 0, 3 or 4 times: the fourth call,
    which only a native strategy on a chain with OCR can get, is the one of
    [_try_non_ocr_preview]; the first strategy of the chain, when it is a
    native one, is called at least 3 times, and a strategy that is not in the
    chain is never called. *)
Theorem raising_strategy_attempts (a b c d e : bool) (n : extractor) :
  build_chain a b c d e = Some extractors ->
  (forall k, behaviour n k = Raises) ->
  let out := extract normalize_text behaviour blank_detector extractors page_num in
  (forall (rest : list extractor) (tr : list event),
      attempt_all n tr = (None, tr ++ retry_events n)
      /\ calls_of n (tr ++ retry_events n) = (calls_of n tr + RetryConfig.MAX_RETRIES)%nat
      /\ (is_ocr n = false -> walk (n :: rest) tr = walk rest (tr ++ retry_events n))
      /\ (is_ocr n = true ->
          walk (n :: rest) tr
          = if needs_ocr blank_detector (fst (preview tr)) page_num
            then walk rest (snd (preview tr) ++ retry_events n)
            else (match fst (preview tr) with
                  | [] => ([], NONE, None)
                  | _ => (fst (preview tr), PDFPLUMBER, None)
                  end, snd (preview tr))))
  /\ retry_events n =
     [Call n;
      Sleep (Qmin (RetryConfig.INITIAL_DELAY * RetryConfig.BACKOFF_FACTOR ^ 0)
                  RetryConfig.MAX_DELAY);
      Call n;
      Sleep (Qmin (RetryConfig.INITIAL_DELAY * RetryConfig.BACKOFF_FACTOR ^ 1)
                  RetryConfig.MAX_DELAY);
      Call n]
  /\ (forall x y : Z, (x <= y)%Z -> RetryConfig.get_delay x <= RetryConfig.get_delay y)
  /\ (forall x : Z, RetryConfig.get_delay x <= RetryConfig.MAX_DELAY)
  /\ (forall (m : extractor) (tr0 : list event) (result : option (Py.text * option Q)),
        behaviour m (calls_of m tr0) = Returns result ->
        snd (attempt_all m tr0) = tr0 ++ [Call m])
  /\ (calls_of n (snd out) = 0 \/ calls_of n (snd out) = 3 \/ calls_of n (snd out) = 4)%nat
  /\ (calls_of n (snd out) = 4%nat -> is_ocr n = false /\ In Ocr extractors)
  /\ (hd_error extractors = Some n -> is_ocr n = false -> (3 <= calls_of n (snd out))%nat)
  /\ (~ In n extractors -> calls_of n (snd out) = 0%nat).
Proof.
  intros Hchain Hraise out.
  assert (Hkeeps : forall tr, keeps_raising n tr) by (intros tr k _; apply Hraise).
  split.
  { intros rest tr.
    split; [apply try_with_retry_raising, Hkeeps|].
    split.
    { unfold retry_events, RetryConfig.MAX_RETRIES.
      rewrite calls_of_app. unfold calls_of at 2. simpl.
      rewrite extractor_eqb_refl. reflexivity. }
    split.
    - intros Hn. rewrite walk_cons_native by exact Hn.
      rewrite try_with_retry_raising by apply Hkeeps. reflexivity.
    - intros Hn. apply is_ocr_iff in Hn. subst n.
      rewrite walk_cons_ocr.
      destruct (needs_ocr blank_detector (fst (preview tr)) page_num); [|reflexivity].
      rewrite try_with_retry_raising by apply Hkeeps. reflexivity. }
  split; [reflexivity|].
  split; [exact get_delay_monotone|].
  split; [exact get_delay_capped|].
  split; [intros m tr0 result Hret; exact (try_with_retry_returns _ Hret)|].
  destruct (build_chain_shape _ _ _ _ _ Hchain) as [Hno Hshape].
  pose proof (build_chain_NoDup _ _ _ _ _ Hchain) as Hnd.
  set (natives := filter (fun m => negb (is_ocr m)) extractors) in *.
  assert (Hndn : NoDup natives) by (apply NoDup_filter; exact Hnd).
  destruct (@walk_raising n natives Hraise Hno Hndn []) as (W1 & W2 & W3 & W4).
  cbv zeta in W1, W2, W3, W4.
  change (calls_of n []) with 0%nat in W1, W2, W3, W4. cbn [Nat.add] in W1, W2, W3.
  set (walked := walk natives []) in *.
  assert (Hnative_in : is_ocr n = false -> In n extractors -> In n natives).
  { intros Hn Hin. apply filter_In. split; [exact Hin | now rewrite Hn]. }
  assert (Hnative_hd : is_ocr n = false -> hd_error extractors = Some n ->
                       hd_error natives = Some n).
  { intros Hn Hhd. unfold natives. destruct extractors as [|x l]; [discriminate|].
    injection Hhd as ->. cbn [filter]. rewrite Hn. reflexivity. }
  destruct Hshape as [[Heq Hin] | [Heq Hnin]].
  - assert (Hout : out = if accepted (fst walked) then walked
                         else walk [Ocr] (snd walked)).
    { unfold out, extract. rewrite Heq at 2. apply walk_app. exact Hno. }
    assert (Hocr_walked : calls_of Ocr (snd walked) = 0%nat)
      by (unfold walked; rewrite walk_native_no_ocr_call by exact Hno; reflexivity).
    destruct (accepted (fst walked)) eqn:Eacc.
    + rewrite Hout.
      split; [destruct W1 as [-> | ->]; auto|].
      split; [intros H4; destruct W1 as [W | W]; rewrite W in H4; discriminate|].
      split; [intros Hhd Hn; rewrite (W3 (Hnative_hd Hn Hhd)); lia|].
      intros Hout_chain. apply W4. intros Hin'. apply Hout_chain.
      apply filter_In in Hin'. tauto.
    + pose proof (@preview_once n extractors Hnd (snd walked)) as Hpv.
      fold (preview (snd walked)) in Hpv.
      assert (Htrace : calls_of n (snd out)
                       = if is_ocr n
                         then if needs_ocr blank_detector (fst (preview (snd walked))) page_num
                              then 3%nat else 0%nat
                         else calls_of n (snd (preview (snd walked)))).
      { rewrite Hout, walk_cons_ocr.
        destruct (is_ocr n) eqn:En.
        - apply is_ocr_iff in En. subst n.
          pose proof (preview_from_no_ocr extractors (snd walked)) as Hp0.
          fold (preview (snd walked)) in Hp0.
          destruct (needs_ocr blank_detector (fst (preview (snd walked))) page_num).
          + rewrite try_with_retry_raising by apply Hkeeps.
            cbn [extract_from snd]. rewrite calls_of_app, Hp0, Hocr_walked.
            reflexivity.
          + cbn [snd]. rewrite Hp0. exact Hocr_walked.
        - assert (Hne : n <> Ocr) by (intros ->; discriminate).
          destruct (needs_ocr blank_detector (fst (preview (snd walked))) page_num);
            [|reflexivity].
          destruct (retry_loop_trace Ocr RetryConfig.MAX_RETRIES 0%Z
                      (snd (preview (snd walked)))) as (more & Hmore & Hc).
          fold (attempt_all Ocr (snd (preview (snd walked)))) in Hmore.
          destruct (attempt_all Ocr (snd (preview (snd walked)))) as [[r|] tr'];
            cbn [extract_from snd] in *; subst tr';
            rewrite calls_of_app, Hc by exact Hne; lia. }
      destruct (is_ocr n) eqn:En.
      * rewrite Htrace.
        destruct (needs_ocr blank_detector (fst (preview (snd walked))) page_num).
        -- split; [auto|]. split; [discriminate|]. split; [discriminate|].
           intros Hout_chain. exfalso. apply Hout_chain.
           apply is_ocr_iff in En. subst n. exact Hin.
        -- split; [auto|]. split; [discriminate|]. split; [discriminate|].
           reflexivity.
      * rewrite Htrace.
        assert (Hdec : In n extractors \/ ~ In n extractors).
        { destruct (existsb (extractor_eqb n) extractors) eqn:Ex.
          - left. apply existsb_exists in Ex as (x & Hx & He).
            apply extractor_eqb_eq in He. rewrite He. exact Hx.
          - right. intros Hin'.
            assert (Ht : existsb (extractor_eqb n) extractors = true)
              by (apply existsb_exists; exists n; split;
                  [exact Hin' | apply extractor_eqb_refl]).
            rewrite Ht in Ex. discriminate. }
        destruct Hdec as [Hin_n | Hout_n].
        -- pose proof (W2 (Hnative_in eq_refl Hin_n) eq_refl) as W.
           split; [lia|]. split; [intros _; split; [reflexivity | exact Hin]|].
           split; [intros _ _; lia | intros Hc; contradiction].
        -- assert (Hzero : calls_of n (snd walked) = 0%nat).
           { apply W4. intros Hin'. apply Hout_n. apply filter_In in Hin'. tauto. }
           assert (Hp : calls_of n (snd (preview (snd walked))) = 0%nat).
           { unfold _try_non_ocr_preview. rewrite preview_skips by exact Hout_n.
             exact Hzero. }
           rewrite Hp. split; [auto|]. split; [discriminate|].
           split; [|reflexivity].
           intros Hhd _. exfalso. apply Hout_n.
           destruct extractors as [|x l]; [discriminate|].
           injection Hhd as ->. now left.
  - assert (Hout : out = walked).
    { unfold out, extract, walked. rewrite <- Heq. reflexivity. }
    rewrite Hout.
    split; [destruct W1 as [-> | ->]; auto|].
    split; [intros H4; destruct W1 as [W | W]; rewrite W in H4; discriminate|].
    split; [intros Hhd Hn; rewrite (W3 (Hnative_hd Hn Hhd)); lia|].
    intros Hout_chain. apply W4. intros Hin'. apply Hout_chain.
    apply filter_In in Hin'. tauto.
Qed.

(** When every strategy is tried and none is accepted, the walk ends with the
    empty result. *)
Lemma all_rejected_result (chain : list extractor) :
  forall tr : list event,
    all_rejected normalize_text behaviour blank_detector extractors page_num chain tr = true ->
    fst (walk chain tr) = ([], NONE, None).
Proof.
  induction chain as [|n chain IH]; intros tr H.
  - reflexivity.
  - cbn [all_rejected] in H. apply andb_true_iff in H as [Hneed H].
    destruct (is_ocr n) eqn:En.
    + apply is_ocr_iff in En. subst n. rewrite walk_cons_ocr, Hneed.
      destruct (attempt_all Ocr (snd (preview tr))) as [[r|] tr']; [discriminate|].
      apply IH. exact H.
    + rewrite walk_cons_native by exact En.
      destruct (attempt_all n tr) as [[r|] tr']; [discriminate|].
      apply IH. exact H.
Qed.

End StructuralFacts.

Section PageCardFacts.

Import Structural.

Lemma method_value_none (m : ExtractionMethod) :
  method_value m = Py.u "none" <-> m = NONE.
Proof.
  destruct m; split; intros H; try reflexivity; try discriminate H;
    vm_compute in H; discriminate H.
Qed.

Lemma accepted_not_none (r : extraction) :
  accepted r = true -> snd (fst r) <> NONE.
Proof.
  unfold accepted. intros H Hn. rewrite Hn in H. discriminate H.
Qed.

Variable table : Type.

(** C2, as the code has it.  When every strategy of the chain is tried and none
    is accepted, the card of [_process_page] has the empty text and the method
    ["none"], is not an OCR card, and has no [error] key.  In every card
    [process_pdf] appends, the method is ["none"] exactly when the text is
    empty; [error] is either absent or true, and a card with [error] true (the
    card built after [_process_page] raised) has the method ["none"] and the
    empty text. *)
Theorem exhausted_page_card
    (normalize_text : Py.text -> Py.text) (behaviour : extractor -> nat -> call_outcome)
    (blank_detector : BlankPageDetector) (extractors : list extractor)
    (page_num : Z) (file_name : Py.text) (tabs : list table) :
  (all_rejected normalize_text behaviour blank_detector extractors page_num extractors []
   = true ->
   let c := _process_page file_name page_num
              (fst (extract normalize_text behaviour blank_detector extractors page_num))
              tabs in
   segment c = [] /\ extraction_method c = Py.u "none"
   /\ ocr_used c = false /\ error c = None)
  /\ (forall c : card table,
        page_card file_name page_num c ->
        (extraction_method c = Py.u "none" <-> segment c = [])
        /\ (error c = Some true -> extraction_method c = Py.u "none" /\ segment c = [])
        /\ (error c = None \/ error c = Some true)).
Proof.
  split.
  - intros Hall c. subst c. unfold extract.
    rewrite (all_rejected_result _ _ _ _ _ _ _ Hall).
    cbn. repeat split; reflexivity.
  - intros c Hc. destruct Hc as [nt bh bd chain tabs'|].
    + unfold extract.
      destruct (walk_result nt bh bd chain page_num chain []) as [Hr | [Ht Ha]].
      * rewrite Hr. cbn. repeat split; auto; discriminate.
      * destruct (fst (extract_from nt bh bd chain page_num chain [])) as [[t m] q].
        cbn in Ht, Ha |- *. apply accepted_not_none in Ha. cbn in Ha.
        repeat split; auto; try discriminate.
        -- intros Hm. apply method_value_none in Hm. contradiction.
        -- intros Hs. contradiction.
    + cbn. repeat split; auto.
Qed.

End PageCardFacts.

(** The witnesses and the concrete cases of the extraction chain. *)

Lemma raising_strategy_attempts_witness :
  Structural.build_chain true true true true true = Some Scenarios.chain_full
  /\ (forall k, Scenarios.damaged_page Structural.Pdfminer k = Structural.Raises)
  /\ Structural.try_with_retry Scenarios.plain_normalizer Scenarios.damaged_page
       Structural.Pdfminer []
     = (None, Structural.retry_events Structural.Pdfminer)
  /\ (3 <= Structural.calls_of Structural.Pdfminer
             (snd (Structural.extract Scenarios.plain_normalizer Scenarios.damaged_page
                     Structural.default_detector Scenarios.chain_full 10)))%nat.
Proof.
  assert (Hraise : forall k, Scenarios.damaged_page Structural.Pdfminer k
                             = Structural.Raises) by reflexivity.
  pose proof (@raising_strategy_attempts Scenarios.plain_normalizer Scenarios.damaged_page
                Structural.default_detector Scenarios.chain_full 10%Z
                true true true true true Structural.Pdfminer eq_refl Hraise) as H.
  cbv zeta in H.
  destruct H as (Hloop & _ & _ & _ & _ & _ & _ & Hhead & _).
  split; [reflexivity|]. split; [exact Hraise|].
  split; [exact (proj1 (Hloop [] []))|].
  apply Hhead; reflexivity.
Defined.

Lemma ocr_escalation_witness :
  Structural.build_chain true true true true true = Some Scenarios.chain_full
  /\ (0 < Structural.calls_of Structural.Ocr
            (snd (Structural.extract Scenarios.plain_normalizer Scenarios.faint_page
                    Scenarios.lenient_detector Scenarios.chain_full 10)))%nat.
Proof.
  split; [reflexivity|].
  apply (proj1 (@ocr_escalation Scenarios.plain_normalizer Scenarios.faint_page
                  Scenarios.lenient_detector Scenarios.chain_full 10%Z
                  true true true true true eq_refl)).
  repeat split.
  - right. right. right. left. reflexivity.
Defined.

Lemma exhausted_page_card_witness :
  Structural.all_rejected Scenarios.plain_normalizer Scenarios.damaged_page
    Structural.default_detector Scenarios.chain_natives 0 Scenarios.chain_natives [] = true
  /\ Structural.error
       (Structural._process_page (Py.u "book.pdf") 0
          (fst (Structural.extract Scenarios.plain_normalizer Scenarios.damaged_page
                  Structural.default_detector Scenarios.chain_natives 0))
          (@nil unit)) = None.
Proof.
  split; [reflexivity|].
  apply (proj1 (@exhausted_page_card unit Scenarios.plain_normalizer Scenarios.damaged_page
                  Structural.default_detector Scenarios.chain_natives 0%Z
                  (Py.u "book.pdf") [])).
  reflexivity.
Defined.

(** C2, the claim as stated fails: with OCR not installed and a page on which
    every library raises at every call, all three strategies are exhausted
    (three attempts each), and the card has the empty text and the method
    ["none"] but no [error] key; it is a card without an error whose method is
    ["none"]. *)
Lemma exhausted_card_has_no_error_flag :
  let out := Structural.extract Scenarios.plain_normalizer Scenarios.damaged_page
               Structural.default_detector Scenarios.chain_natives 0 in
  let c := Structural._process_page (Py.u "book.pdf") 0 (fst out) (@nil unit) in
  Structural.build_chain true true true false true = Some Scenarios.chain_natives
  /\ snd out = Structural.retry_events Structural.Pdfminer
               ++ Structural.retry_events Structural.Pdfplumber
               ++ Structural.retry_events Structural.Pypdf2
  /\ Structural.segment c = []
  /\ Structural.extraction_method c = Py.u "none"
  /\ Structural.error c = None
  /\ Structural.error c <> Some true.
Proof.
  cbv zeta. repeat split; try reflexivity. discriminate.
Qed.

(** C4, the claim as stated fails.  On a scanned page (the native libraries
    return the empty text) the preview has length 0, below the threshold of 50,
    and the page counts as truly blank: OCR is not invoked.  On a page with a
    native text of thirty characters the first strategy is accepted at once and
    OCR is not invoked either, although thirty is below the threshold. *)
Lemma ocr_not_invoked_below_threshold :
  let scanned := Structural.extract Scenarios.plain_normalizer Scenarios.scanned_page
                   Structural.default_detector Scenarios.chain_full 10 in
  let short := Structural.extract Scenarios.plain_normalizer Scenarios.short_page
                 Structural.default_detector Scenarios.chain_full 10 in
  Structural.build_chain true true true true true = Some Scenarios.chain_full
  /\ (Py.len (Py.strip (fst (Structural._try_non_ocr_preview Scenarios.scanned_page
                               Scenarios.chain_full [])))
      < Structural.min_chars_ocr Structural.default_detector)%Z
  /\ Structural.calls_of Structural.Ocr (snd scanned) = 0%nat
  /\ fst scanned = ([], Structural.NONE, None)
  /\ (Py.len (Py.strip (fst (Structural._try_non_ocr_preview Scenarios.short_page
                               Scenarios.chain_full [])))
      < Structural.min_chars_ocr Structural.default_detector)%Z
  /\ Structural.calls_of Structural.Ocr (snd short) = 0%nat.
Proof.
  cbv zeta. repeat split.
Qed.

(** C7, the claim as stated fails.  On a damaged page every strategy raises at
    every call.  With all four strategies installed, the retry loop calls each
    native strategy three times; the walk then reaches OCR and takes the
    preview, which calls each native strategy a fourth time; the preview is
    empty, the page counts as blank, and OCR, which would raise as well, is not
    called at all.  Neither count is [MAX_RETRIES]. *)
Lemma raising_strategy_not_called_three_times :
  let out := Structural.extract Scenarios.plain_normalizer Scenarios.damaged_page
               Structural.default_detector Scenarios.chain_full 10 in
  Structural.build_chain true true true true true = Some Scenarios.chain_full
  /\ (forall n k, Scenarios.damaged_page n k = Structural.Raises)
  /\ Structural.calls_of Structural.Pdfminer (snd out) = 4%nat
  /\ Structural.calls_of Structural.Pdfplumber (snd out) = 4%nat
  /\ Structural.calls_of Structural.Pypdf2 (snd out) = 4%nat
  /\ Structural.calls_of Structural.Ocr (snd out) = 0%nat
  /\ Structural.calls_of Structural.Pdfminer (snd out) <> Structural.RetryConfig.MAX_RETRIES
  /\ Structural.calls_of Structural.Ocr (snd out) <> Structural.RetryConfig.MAX_RETRIES.
Proof.
  cbv zeta. repeat split; try reflexivity; vm_compute; discriminate.
Qed.


Lemma run_single_failure_semantics_witness :
  Orchestrator.survives Scenarios.flaky_pipeline [Orchestrator.STRUCTURAL] 0%nat = true
  /\ Scenarios.flaky_pipeline Orchestrator.STRUCTURE_DETECT
       (Orchestrator.best_input Scenarios.flaky_pipeline [Orchestrator.STRUCTURAL] 0%nat)
     = Orchestrator.StageRaises "no chapters found"%string
  /\ Orchestrator.invocations
       (Orchestrator.run_stages Scenarios.flaky_pipeline Scenarios.quiet_validator true
          [Orchestrator.STRUCTURAL; Orchestrator.STRUCTURE_DETECT; Orchestrator.SUMMARIZE]
          (Orchestrator.initial_state 0%nat))
     = [(Orchestrator.STRUCTURAL, 0%nat); (Orchestrator.STRUCTURE_DETECT, 1%nat);
        (Orchestrator.SUMMARIZE, 1%nat)].
Proof.
  split; [reflexivity|]. split; [reflexivity|].
  destruct (@run_single_failure_semantics nat Scenarios.flaky_pipeline
              Scenarios.quiet_validator true
              [Orchestrator.STRUCTURAL] [Orchestrator.SUMMARIZE]
              Orchestrator.STRUCTURE_DETECT "no chapters found"%string
              (Orchestrator.initial_state 0%nat) eq_refl eq_refl)
    as (_ & _ & _ & _ & _ & _ & Hgo).
  destruct (Hgo eq_refl) as (Hrun & _ & _).
  change ([Orchestrator.STRUCTURAL; Orchestrator.STRUCTURE_DETECT; Orchestrator.SUMMARIZE])
    with ([Orchestrator.STRUCTURAL]
            ++ Orchestrator.STRUCTURE_DETECT :: [Orchestrator.SUMMARIZE]).
  rewrite Hrun. reflexivity.
Defined.

(** ** Strings and dictionaries *)

Section PyFacts.

Import Py.

Lemma text_eqb_eq (a : text) : forall b : text, text_eqb a b = true <-> a = b.
Proof.
  induction a as [|x a IH]; intros [|y b]; simpl; split; intros H;
    try reflexivity; try discriminate.
  - apply andb_true_iff in H as [Hx Ha].
    apply N.eqb_eq in Hx. apply IH in Ha. now subst.
  - injection H as -> ->. rewrite N.eqb_refl. now apply IH.
Qed.

Lemma text_eqb_refl (a : text) : text_eqb a a = true.
Proof. now apply text_eqb_eq. Qed.

Lemma text_eqb_neq (a b : text) : text_eqb a b = false <-> a <> b.
Proof.
  split.
  - intros H Heq. apply text_eqb_eq in Heq. rewrite Heq in H. discriminate.
  - intros H. destruct (text_eqb a b) eqn:E; [|reflexivity].
    apply text_eqb_eq in E. contradiction.
Qed.

Lemma text_eq_dec (a b : text) : {a = b} + {a <> b}.
Proof.
  destruct (text_eqb a b) eqn:E.
  - left. now apply text_eqb_eq.
  - right. now apply text_eqb_neq.
Qed.

End PyFacts.

(** ** The dataset store: [validate_structure] *)

Section ValidateFacts.

Import Py Json Common Common.DatasetIO.

(** Whether a card is reported does not depend on its index. *)
Lemma card_errors_nil_index (fields : list text) (i j : nat) (card : dict) :
  card_errors fields i card = [] -> card_errors fields j card = [].
Proof.
  unfold card_errors. intros H.
  apply app_eq_nil in H as [Hf Hs].
  assert (Hf' : flat_map
                  (fun field =>
                     if dict_has field card then []
                     else [(u "Card " ++ str_of_N (N.of_nat j)
                              ++ u ": missing required field '" ++ field ++ u "'")%list])
                  fields = []).
  { clear Hs. induction fields as [|f fields IH]; [reflexivity|].
    simpl in Hf |- *. destruct (dict_has f card).
    - simpl in Hf |- *. apply IH. exact Hf.
    - discriminate Hf. }
  rewrite Hf'. simpl.
  destruct (dict_get (u "segment_id") card) as [sid|]; [|reflexivity].
  destruct (is_reserved sid); [discriminate Hs | reflexivity].
Qed.

Lemma cards_errors_app (fields : list text) (a b : list dict) :
  forall i : nat,
    cards_errors fields i (a ++ b)
    = (cards_errors fields i a ++ cards_errors fields (i + List.length a) b)%list.
Proof.
  induction a as [|c a IH]; intros i; simpl.
  - now rewrite Nat.add_0_r.
  - rewrite IH, <- app_assoc.
    replace (S i + List.length a)%nat with (i + S (List.length a))%nat by lia.
    reflexivity.
Qed.

Lemma cards_errors_nil_index (fields : list text) (cards : list dict) :
  forall i j : nat, cards_errors fields i cards = [] -> cards_errors fields j cards = [].
Proof.
  induction cards as [|c cards IH]; intros i j H; simpl in *.
  - reflexivity.
  - apply app_eq_nil in H as [Hc Hr].
    rewrite (card_errors_nil_index _ _ j _ Hc), (IH _ (S j) Hr). reflexivity.
Qed.

Lemma cards_errors_forall (fields : list text) (cards : list dict) :
  forall i : nat,
    cards_errors fields i cards = [] ->
    Forall (fun card => card_errors fields 0 card = []) cards.
Proof.
  induction cards as [|c cards IH]; intros i H; simpl in *.
  - constructor.
  - apply app_eq_nil in H as [Hc Hr]. constructor.
    + exact (card_errors_nil_index _ _ 0 _ Hc).
    + exact (IH _ Hr).
Qed.

Lemma forall_cards_errors (fields : list text) (cards : list dict) :
  Forall (fun card => card_errors fields 0 card = []) cards ->
  forall i : nat, cards_errors fields i cards = [].
Proof.
  induction 1 as [|c cards Hc _ IH]; intros i; simpl.
  - reflexivity.
  - rewrite (card_errors_nil_index _ _ i _ Hc), IH. reflexivity.
Qed.

(** A card with a reserved [segment_id] is reported. *)
Lemma reserved_card_reported (fields : list text) (cards : list dict) (card : dict)
    (sid : value) :
  In card cards ->
  dict_get (u "segment_id") card = Some sid ->
  is_reserved sid = true ->
  forall i : nat, cards_errors fields i cards <> [].
Proof.
  intros Hin Hget Hres.
  induction cards as [|c cards IH]; intros i; [contradiction|].
  simpl. destruct Hin as [-> | Hin].
  - unfold card_errors. rewrite Hget, Hres.
    intros H. apply app_eq_nil in H as [H _]. apply app_eq_nil in H as [_ H].
    discriminate H.
  - intros H. apply app_eq_nil in H as [_ H]. exact (IH Hin _ H).
Qed.

(** C3, as the code has it.  [validate_structure] reports every card set that
    holds a card whose [segment_id] is one of the three reserved identifiers.
    It compares no two cards: the list of errors is empty exactly when the
    header passes, there is a card, and every card taken alone has the required
    fields and no reserved [segment_id]; so a card set that passes still passes
    when every card is repeated, and a duplicate [segment_id] is never
    reported. *)
Theorem validate_structure_rejects_reserved
    (header : dict) (cards : list dict) (stage : option text) :
  (forall (card : dict) (sid : text),
      In card cards ->
      dict_get (u "segment_id") card = Some (JStr sid) ->
      sid = HEADER_ID \/ sid = AUDIT_ID \/ sid = FOOTER_ID ->
      validate_structure header cards stage <> [])
  /\ (validate_structure header cards stage = [] ->
      validate_structure header (cards ++ cards) stage = [])
  /\ (validate_structure header cards stage = []
      <-> header_errors header = [] /\ cards <> []
          /\ Forall (fun card => card_errors (required_fields_for stage) 0 card = []) cards).
Proof.
  split; [|split].
  - intros card sid Hin Hget Hsid.
    assert (Hres : is_reserved (JStr sid) = true).
    { simpl. destruct Hsid as [-> | [-> | ->]];
        rewrite text_eqb_refl, ?orb_true_r; reflexivity. }
    unfold validate_structure. intros H.
    apply app_eq_nil in H as [_ H].
    destruct cards as [|c cards]; [contradiction|].
    exact (reserved_card_reported _ _ _ Hin Hget Hres _ H).
  - unfold validate_structure. intros H.
    apply app_eq_nil in H as [Hh Hc]. rewrite Hh. simpl.
    destruct cards as [|c cards]; [discriminate Hc|].
    change ((c :: cards) ++ c :: cards)%list with (c :: (cards ++ c :: cards))%list.
    change (c :: (cards ++ c :: cards))%list with ((c :: cards) ++ (c :: cards))%list.
    remember (c :: cards) as cs eqn:Hcs.
    assert (Hne : (cs ++ cs)%list <> []) by (subst cs; discriminate).
    destruct (cs ++ cs)%list as [|c' rest] eqn:Happ; [contradiction|].
    rewrite <- Happ, cards_errors_app.
    assert (Hcs' : cards_errors (required_fields_for stage) 0 cs = [])
      by (subst cs; exact Hc).
    rewrite Hcs'. simpl.
    exact (cards_errors_nil_index _ _ 0 _ Hcs').
  - unfold validate_structure. split.
    + intros H. apply app_eq_nil in H as [Hh Hc].
      split; [exact Hh|].
      destruct cards as [|c cards]; [discriminate Hc|].
      split; [discriminate|].
      apply cards_errors_forall with (i := 0%nat). exact Hc.
    + intros (Hh & Hne & Hall). rewrite Hh. simpl.
      destruct cards as [|c cards]; [contradiction|].
      apply forall_cards_errors. exact Hall.
Qed.

End ValidateFacts.

Lemma validate_structure_rejects_reserved_witness :
  In (Scenarios.sample_card "__audit__" "Second segment" 2) Scenarios.cards_reserved_id
  /\ Json.dict_get (Py.u "segment_id") (Scenarios.sample_card "__audit__" "Second segment" 2)
     = Some (Json.JStr Common.AUDIT_ID)
  /\ Common.DatasetIO.validate_structure Scenarios.sample_header Scenarios.cards_reserved_id None
     <> [].
Proof.
  assert (Hin : In (Scenarios.sample_card "__audit__" "Second segment" 2)
                   Scenarios.cards_reserved_id) by (right; left; reflexivity).
  split; [exact Hin|]. split; [reflexivity|].
  exact (proj1 (validate_structure_rejects_reserved Scenarios.sample_header
                  Scenarios.cards_reserved_id None)
               _ _ Hin eq_refl (or_intror (or_introl eq_refl))).
Defined.

(** C3, the claim as stated fails: two cards with the [segment_id] ["00001"],
    each with the fields required, pass [validate_structure] without an error. *)
Lemma duplicate_segment_id_passes :
  Json.dict_get (Py.u "segment_id") (nth 0 Scenarios.cards_same_id [])
  = Json.dict_get (Py.u "segment_id") (nth 1 Scenarios.cards_same_id [])
  /\ Json.dict_get (Py.u "segment_id") (nth 0 Scenarios.cards_same_id [])
     = Some (Json.JStr (Py.u "00001"))
  /\ Common.DatasetIO.validate_structure Scenarios.sample_header Scenarios.cards_same_id None
     = [].
Proof.
  repeat split.
Qed.

(** ** Text analysis and the continuity audit *)

Section AnalyzerFacts.

Import Py Extended Extended.TextAnalyzer.

Lemma mem_In (w : text) (words : list text) : mem w words = true <-> In w words.
Proof.
  unfold mem. rewrite existsb_exists. split.
  - intros (x & Hin & Heq). apply text_eqb_eq in Heq. now subst.
  - intros Hin. exists w. split; [exact Hin | apply text_eqb_refl].
Qed.

Lemma mem_false (w : text) (words : list text) : mem w words = false <-> ~ In w words.
Proof.
  rewrite <- mem_In. destruct (mem w words); split; intros H;
    try discriminate; try reflexivity; try (intros H'; discriminate).
  exfalso. now apply H.
Qed.

Lemma to_set_In (w : text) (tokens : list text) : In w (to_set tokens) <-> In w tokens.
Proof.
  induction tokens as [|x tokens IH]; simpl; [tauto|].
  destruct (mem x tokens) eqn:E.
  - rewrite IH. apply mem_In in E. split; [tauto|].
    intros [<- | H]; assumption.
  - simpl. rewrite IH. tauto.
Qed.

Lemma to_set_NoDup (tokens : list text) : NoDup (to_set tokens).
Proof.
  induction tokens as [|x tokens IH]; simpl; [constructor|].
  destruct (mem x tokens) eqn:E; [exact IH|].
  constructor; [|exact IH].
  rewrite to_set_In. now apply mem_false.
Qed.




Lemma filter_all (A : Type) (f : A -> bool) (l : list A) :
  (forall x, In x l -> f x = true) -> filter f l = l.
Proof.
  induction l as [|x l IH]; intros H; simpl; [reflexivity|].
  rewrite H by now left. rewrite IH; [reflexivity|].
  intros y Hy. apply H. now right.
Qed.






Lemma tokenize_empty : tokenize [] = [].
Proof. reflexivity. Qed.

(** A text has no token exactly when every word found in it is a stop word
    (words of one character are not found at all). *)
Lemma tokenize_nil_iff (t : text) :
  tokenize t = []
  <-> Forall (fun w => mem w STOP_WORDS = true) (findall_words [] (lower t)).
Proof.
  unfold tokenize.
  induction (findall_words [] (lower t)) as [|w ws IH].
  - split; [constructor | reflexivity].
  - cbn [filter]. destruct (mem w STOP_WORDS) eqn:E; cbn [negb].
    + split.
      * intros H. constructor; [exact E | apply IH; exact H].
      * intros H. inversion H as [|? ? _ Hws]. apply IH. exact Hws.
    + split; [discriminate|]. intros H. inversion H as [|? ? Hw _].
      rewrite E in Hw. discriminate.
Qed.

End AnalyzerFacts.

Section JsonFacts.

Import Py Json.

Lemma dict_get_set_same (k : text) (v : value) (d : dict) :
  dict_get k (dict_set k v d) = Some v.
Proof.
  induction d as [|[k' v'] d IH]; simpl.
  - now rewrite text_eqb_refl.
  - destruct (text_eqb k k') eqn:E; simpl; rewrite ?text_eqb_refl, ?E; auto.
Qed.

Lemma dict_get_set_other (k k' : text) (v : value) (d : dict) :
  k' <> k -> dict_get k' (dict_set k v d) = dict_get k' d.
Proof.
  intros Hne. apply text_eqb_neq in Hne.
  induction d as [|[k0 v0] d IH]; simpl.
  - now rewrite Hne.
  - destruct (text_eqb k k0) eqn:E; simpl.
    + apply text_eqb_eq in E. subst k0. now rewrite Hne.
    + now rewrite IH.
Qed.

(** *** [json.loads] after [json.dumps] *)

Local Open Scope N_scope.


Lemma is_digit_offset (m : N) : m < 10 -> is_digit (48 + m) = true.
Proof.
  intros H. unfold is_digit. apply andb_true_iff.
  split; apply N.leb_le; lia.
Qed.

Lemma digits_aux_spec (fuel : nat) :
  forall (n : N) (acc : text),
    (N.to_nat (N.log2 n) < fuel)%nat ->
    exists ds : text,
      digits_aux fuel n acc = ds ++ acc
      /\ forallb is_digit ds = true
      /\ (forall a : Z, fold_left digit_step ds a
                        = (a * 10 ^ Z.of_nat (List.length ds) + Z.of_N n)%Z)
      /\ (exists d ds', ds = d :: ds' /\ (n <> 0 -> d <> 48)).
Proof.
  induction fuel as [|fuel IH]; intros n acc Hlog; [lia|].
  cbn [digits_aux]. cbv zeta.
  assert (Hmod : n mod 10 < 10) by (apply N.mod_lt; lia).
  destruct (n / 10 =? 0) eqn:Hdiv.
  - apply N.eqb_eq in Hdiv.
    assert (Hn : n = n mod 10).
    { pose proof (N.div_mod n 10 ltac:(lia)) as H. rewrite Hdiv in H. lia. }
    exists [48 + n mod 10]. repeat split.
    + cbn [forallb]. now rewrite is_digit_offset.
    + intros a. cbn [fold_left List.length]. unfold digit_step.
      replace (48 + n mod 10 - 48) with n by lia. lia.
    + exists (48 + n mod 10), []. split; [reflexivity|]. lia.
  - apply N.eqb_neq in Hdiv.
    assert (Hlog' : (N.to_nat (N.log2 (n / 10)) < fuel)%nat).
    { assert (Hn : 10 <= n).
      { destruct (N.lt_ge_cases n 10) as [Hlt|Hge]; [|exact Hge].
        rewrite N.div_small in Hdiv by exact Hlt. contradiction. }
      assert (Hle : N.log2 (n / 10) <= N.log2 (n / 2)).
      { apply N.log2_le_mono. apply N.div_le_compat_l. lia. }
      assert (Hhalf : N.log2 (n / 2) = N.log2 n - 1).
      { rewrite <- N.div2_div, N.div2_spec. apply N.log2_shiftr. }
      assert (Hpos : 0 < N.log2 n) by (apply N.log2_pos; lia).
      lia. }
    destruct (IH (n / 10) ((48 + n mod 10) :: acc) Hlog')
      as (ds & Heq & Hdig & Hval & d & ds' & Hds & Hhead).
    exists (ds ++ [48 + n mod 10]). repeat split.
    + rewrite Heq, <- app_assoc. reflexivity.
    + rewrite forallb_app, Hdig. cbn [forallb]. now rewrite is_digit_offset.
    + intros a. rewrite fold_left_app, Hval. cbn [fold_left]. unfold digit_step.
      rewrite length_app. cbn [List.length].
      replace (Z.of_nat (List.length ds + 1)) with (Z.succ (Z.of_nat (List.length ds))) by lia.
      rewrite Z.pow_succ_r by lia.
      replace (48 + n mod 10 - 48) with (n mod 10)
        by (rewrite N.add_comm; symmetry; apply N.add_sub).
      pose proof (N.div_mod n 10 ltac:(lia)) as H10.
      assert (Hz : Z.of_N n = (10 * Z.of_N (n / 10) + Z.of_N (n mod 10))%Z)
        by (rewrite H10 at 1; rewrite N2Z.inj_add, N2Z.inj_mul; reflexivity).
      rewrite Hz. ring.
    + exists d, (ds' ++ [48 + n mod 10]). split; [rewrite Hds; reflexivity|].
      intros _. apply Hhead. exact Hdiv.
Qed.

Lemma str_of_N_spec (n : N) :
  exists (d : N) (ds : text),
    str_of_N n = d :: ds
    /\ forallb is_digit (d :: ds) = true
    /\ digits_value (d :: ds) = Z.of_N n
    /\ (n <> 0 -> d <> 48).
Proof.
  destruct (@digits_aux_spec (S (N.to_nat (N.log2 n))) n [] ltac:(lia))
    as (ds & Heq & Hdig & Hval & d & ds' & Hds & Hhead).
  subst ds. rewrite app_nil_r in Heq.
  exists d, ds'. repeat split; auto.
  unfold digits_value. change (fold_left digit_step (d :: ds') 0%Z = Z.of_N n).
  rewrite Hval. lia.
Qed.

Lemma stops_follows (rest : text) : stops rest -> follows rest.
Proof.
  destruct rest as [|c rest]; [auto|].
  intros [-> | [-> | ->]]; split; reflexivity.
Qed.

Lemma take_digits_app (ds rest : text) :
  forallb is_digit ds = true -> follows rest -> take_digits (ds ++ rest) = (ds, rest).
Proof.
  intros Hds Hrest. induction ds as [|d ds IH].
  - destruct rest as [|c rest]; [reflexivity|].
    destruct Hrest as [Hc _]. cbn [app take_digits]. now rewrite Hc.
  - cbn [forallb] in Hds. apply andb_true_iff in Hds as [Hd Hds].
    cbn [app take_digits]. rewrite Hd, (IH Hds). reflexivity.
Qed.

Lemma is_digit_not_minus (c : N) : is_digit c = true -> (c =? 45) = false.
Proof.
  unfold is_digit. intros H. apply andb_true_iff in H as [H1 H2].
  apply N.leb_le in H1. apply N.eqb_neq. lia.
Qed.

Lemma parse_digits (neg : bool) (d : N) (ds rest : text) :
  forallb is_digit (d :: ds) = true ->
  (d = 48 -> ds = []) ->
  follows rest ->
  match d :: ds ++ rest with
  | c :: r =>
      if is_digit c then
        let '(ds, rest) := if c =? 48 then ([c], r) else take_digits (d :: ds ++ rest) in
        match rest with
        | c' :: _ =>
            if (c' =? 46) || (c' =? 101) || (c' =? 69) then PFloat
            else POk (JInt (if neg then - digits_value ds else digits_value ds)%Z) rest
        | [] => POk (JInt (if neg then - digits_value ds else digits_value ds)%Z) rest
        end
      else if neg && starts_with (u "Infinity") (d :: ds ++ rest) then PFloat
      else PError
  | [] => PError
  end
  = POk (JInt (if neg then - digits_value (d :: ds) else digits_value (d :: ds))%Z) rest.
Proof.
  intros Hds Hzero Hrest.
  assert (Hd : is_digit d = true)
    by (cbn [forallb] in Hds; apply andb_true_iff in Hds; tauto).
  cbv beta iota. rewrite Hd.
  assert (Hpair : (if d =? 48 then ([d], ds ++ rest) else take_digits (d :: ds ++ rest))
                  = (d :: ds, rest)).
  { destruct (d =? 48) eqn:E.
    - apply N.eqb_eq in E. rewrite (Hzero E). reflexivity.
    - exact (@take_digits_app (d :: ds) rest Hds Hrest). }
  rewrite Hpair.
  destruct rest as [|c' rest']; [reflexivity|].
  destruct Hrest as [_ Hc]. now rewrite Hc.
Qed.

Lemma parse_number_str_of_Z (z : Z) (rest : text) :
  follows rest -> parse_number (str_of_Z z ++ rest) = POk (JInt z) rest.
Proof.
  intros Hrest. destruct z as [|p|p].
  - cbn [str_of_Z app]. unfold parse_number.
    change (48 =? 45) with false. cbv iota beta.
    exact (@parse_digits false 48 [] rest eq_refl (fun _ => eq_refl) Hrest).
  - cbn [str_of_Z].
    destruct (str_of_N_spec (N.pos p)) as (d & ds & Heq & Hds & Hval & Hhead).
    rewrite Heq. cbn [app]. unfold parse_number.
    assert (Hd : is_digit d = true)
      by (cbn [forallb] in Hds; apply andb_true_iff in Hds; tauto).
    rewrite (is_digit_not_minus _ Hd). cbv iota beta.
    assert (Hz : d = 48 -> ds = [])
      by (intros E; exfalso; apply Hhead; [discriminate | exact E]).
    rewrite (@parse_digits false d ds rest Hds Hz Hrest).
    now rewrite Hval.
  - cbn [str_of_Z].
    destruct (str_of_N_spec (N.pos p)) as (d & ds & Heq & Hds & Hval & Hhead).
    rewrite Heq. cbn [app]. unfold parse_number.
    change (45 =? 45) with true. cbv iota beta.
    assert (Hz : d = 48 -> ds = [])
      by (intros E; exfalso; apply Hhead; [discriminate | exact E]).
    rewrite (@parse_digits true d ds rest Hds Hz Hrest).
    now rewrite Hval.
Qed.

Lemma parse_escape (c : N) (tail : text) :
  parse_chars (escape_char c ++ tail)
  = pbind (parse_chars tail) (fun t rest => POk (c :: t) rest).
Proof.
  destruct (c <? 32) eqn:Hlow.
  - apply N.ltb_lt in Hlow.
    assert (Hc : c = N.of_nat (N.to_nat c)) by (symmetry; apply N2Nat.id).
    assert (Hn : (N.to_nat c < 32)%nat) by lia.
    revert Hc Hn. generalize (N.to_nat c). intros n -> Hn.
    do 32 (destruct n as [|n]; [reflexivity|]).
    lia.
  - apply N.ltb_ge in Hlow.
    destruct (c =? 34) eqn:H34; [apply N.eqb_eq in H34; subst c; reflexivity|].
    destruct (c =? 92) eqn:H92; [apply N.eqb_eq in H92; subst c; reflexivity|].
    unfold escape_char. rewrite H34, H92.
    replace (c =? 10) with false by (symmetry; apply N.eqb_neq; lia).
    replace (c =? 13) with false by (symmetry; apply N.eqb_neq; lia).
    replace (c =? 9) with false by (symmetry; apply N.eqb_neq; lia).
    replace (c =? 8) with false by (symmetry; apply N.eqb_neq; lia).
    replace (c =? 12) with false by (symmetry; apply N.eqb_neq; lia).
    replace (c <? 32) with false by (symmetry; apply N.ltb_ge; lia).
    cbn [app parse_chars]. rewrite H34, H92.
    replace (c <? 32) with false by (symmetry; apply N.ltb_ge; lia).
    reflexivity.
Qed.

Lemma parse_chars_escaped (s rest : text) :
  parse_chars (flat_map escape_char s ++ 34 :: rest) = POk s rest.
Proof.
  induction s as [|c s IH]; [reflexivity|].
  cbn [flat_map]. rewrite <- app_assoc, parse_escape, IH. reflexivity.
Qed.

Lemma join_surrogates_plain (s : text) : plain_text s = true -> join_surrogates s = s.
Proof.
  induction s as [|hi s IH]; [reflexivity|].
  intros H. cbn [plain_text forallb] in H. apply andb_true_iff in H as [Hhi Hs].
  cbn [join_surrogates]. destruct s as [|lo s']; [reflexivity|].
  replace ((55296 <=? hi) && (hi <=? 56319) && (56320 <=? lo) && (lo <=? 57343))
    with false.
  - rewrite (IH Hs). reflexivity.
  - symmetry. apply negb_true_iff in Hhi. unfold is_surrogate in Hhi.
    apply andb_false_iff in Hhi as [Hhi | Hhi].
    + now rewrite Hhi.
    + apply N.leb_gt in Hhi.
      replace (hi <=? 56319) with false by (symmetry; apply N.leb_gt; lia).
      now rewrite andb_false_r.
Qed.

Lemma parse_string_quote (s rest : text) :
  plain_text s = true -> parse_string (flat_map escape_char s ++ 34 :: rest) = POk s rest.
Proof.
  intros H. unfold parse_string. rewrite parse_chars_escaped. cbn [pbind].
  now rewrite join_surrogates_plain.
Qed.

(** *** Dictionaries built from pairs *)

Lemma dict_set_fresh (k : text) (v : value) (d : dict) :
  existsb (text_eqb k) (List.map fst d) = false -> dict_set k v d = d ++ [(k, v)].
Proof.
  induction d as [|[k' v'] d IH]; [reflexivity|].
  cbn [List.map fst existsb dict_set app]. intros H.
  apply orb_false_iff in H as [Hk Hd]. rewrite Hk, (IH Hd). reflexivity.
Qed.

Lemma unique_keys_app (l : list text) (k : text) (l' : list text) :
  unique_keys (l ++ k :: l') = true ->
  existsb (text_eqb k) l = false /\ unique_keys ((l ++ [k]) ++ l') = true.
Proof.
  intros H. split.
  - induction l as [|a l IH]; [reflexivity|].
    cbn [app unique_keys] in H. apply andb_true_iff in H as [Ha Hl].
    cbn [existsb]. rewrite (IH Hl), orb_false_r.
    apply negb_true_iff in Ha. rewrite existsb_app in Ha.
    apply orb_false_iff in Ha as [_ Ha]. cbn [existsb] in Ha.
    apply orb_false_iff in Ha as [Ha _].
    apply text_eqb_neq. apply text_eqb_neq in Ha. congruence.
  - now rewrite <- app_assoc.
Qed.

Lemma dict_of_pairs_from (ps acc : list (text * value)) :
  unique_keys (List.map fst (acc ++ ps)) = true ->
  fold_left (fun a kv => dict_set (fst kv) (snd kv) a) ps acc = acc ++ ps.
Proof.
  revert acc. induction ps as [|[k v] ps IH]; intros acc H.
  - now rewrite app_nil_r.
  - cbn [fold_left fst snd].
    rewrite map_app in H. cbn [List.map fst] in H.
    apply unique_keys_app in H as [Hfresh Huniq].
    rewrite (@dict_set_fresh k v acc Hfresh).
    rewrite IH.
    + now rewrite <- app_assoc.
    + rewrite !map_app. exact Huniq.
Qed.

Lemma dict_of_pairs_unique (ps : list (text * value)) :
  unique_keys (List.map fst ps) = true -> dict_of_pairs ps = ps.
Proof. intros H. exact (@dict_of_pairs_from ps [] H). Qed.

(** *** The shape of an encoded value *)

Lemma opens_spec (c : N) :
  opens c = true ->
  json_ws c = false /\ (c =? 93) = false /\ (c =? 125) = false.
Proof.
  unfold opens, is_digit, json_ws. intros H.
  rewrite !orb_true_iff, andb_true_iff, !N.eqb_eq, !N.leb_le in H.
  assert (Hc : c <> 32 /\ c <> 9 /\ c <> 10 /\ c <> 13 /\ c <> 93 /\ c <> 125) by lia.
  destruct Hc as (H1 & H2 & H3 & H4 & H5 & H6).
  apply N.eqb_neq in H1, H2, H3, H4, H5, H6.
  now rewrite H1, H2, H3, H4, H5, H6.
Qed.

Lemma str_of_Z_head (z : Z) :
  exists c r, str_of_Z z = c :: r /\ (is_digit c = true \/ c = 45).
Proof.
  destruct z as [|p|p]; cbn [str_of_Z].
  - exists 48, []. auto.
  - destruct (str_of_N_spec (N.pos p)) as (d & ds & Heq & Hds & _).
    exists d, ds. split; [exact Heq|]. left.
    cbn [forallb] in Hds. apply andb_true_iff in Hds. tauto.
  - eexists 45, _. auto.
Qed.

Lemma dumps_head (v : value) : exists c r, dumps v = c :: r /\ opens c = true.
Proof.
  destruct v as [|[|]|z|s|l|d].
  - exists 110, [117; 108; 108]. auto.
  - exists 116, [114; 117; 101]. auto.
  - exists 102, [97; 108; 115; 101]. auto.
  - destruct (str_of_Z_head z) as (c & r & Heq & Hc).
    exists c, r. split; [exact Heq|]. unfold opens.
    destruct Hc as [-> | ->]; [|reflexivity]. now rewrite !orb_true_r.
  - eexists 34, _. split; [reflexivity|reflexivity].
  - eexists 91, _. split; [reflexivity|reflexivity].
  - eexists 123, _. split; [reflexivity|reflexivity].
Qed.

Lemma skip_ws_dumps (v : value) (tail : text) :
  skip_ws (dumps v ++ tail) = dumps v ++ tail.
Proof.
  destruct (dumps_head v) as (c & r & -> & Hc).
  apply opens_spec in Hc as [Hws _]. cbn [app skip_ws]. now rewrite Hws.
Qed.

Lemma dumps_first (v : value) (tail : text) :
  exists c r, dumps v ++ tail = c :: r /\ (c =? 93) = false /\ (c =? 125) = false.
Proof.
  destruct (dumps_head v) as (c & r & -> & Hc).
  apply opens_spec in Hc as (_ & H1 & H2). exists c, (r ++ tail). auto.
Qed.

Lemma join_item (p : text) (ps : list text) (close : N) (rest : text) :
  join (u ", ") (p :: ps) ++ close :: rest = p ++ after_item close ps rest.
Proof.
  destruct ps as [|p' ps]; [reflexivity|].
  cbn [join after_item]. rewrite <- !app_assoc. reflexivity.
Qed.

Lemma after_item_stops (close : N) (more : list text) (rest : text) :
  close = 93 \/ close = 125 -> stops (after_item close more rest).
Proof. destruct more; cbn; tauto. Qed.

Lemma dumps_list (l : list value) (rest : text) :
  dumps (JList l) ++ rest = 91 :: join (u ", ") (List.map dumps l) ++ 93 :: rest.
Proof. cbn [dumps app]. rewrite <- app_assoc. reflexivity. Qed.

Lemma dumps_dict (d : dict) (rest : text) :
  dumps (JDict d) ++ rest = 123 :: join (u ", ") (List.map member d) ++ 125 :: rest.
Proof. cbn [dumps app]. rewrite <- app_assoc. reflexivity. Qed.

Lemma dumps_str (s rest : text) :
  dumps (JStr s) ++ rest = 34 :: flat_map escape_char s ++ 34 :: rest.
Proof. cbn [dumps quote app]. rewrite <- app_assoc. reflexivity. Qed.

Lemma member_app (k : text) (v : value) (tail : text) :
  member (k, v) ++ tail
  = 34 :: flat_map escape_char k ++ 34 :: 58 :: 32 :: dumps v ++ tail.
Proof.
  unfold member, quote. cbn [fst snd app]. rewrite <- !app_assoc. reflexivity.
Qed.

(** *** The decoder, one step at a time *)

Lemma parse_value_str (f : nat) (r : text) :
  parse_value (S f) (34 :: r) = pbind (parse_string r) (fun t rest => POk (JStr t) rest).
Proof. reflexivity. Qed.

Lemma parse_value_list (f : nat) (r : text) :
  parse_value (S f) (91 :: r)
  = match skip_ws r with
    | c' :: r' =>
        if c' =? 93 then POk (JList []) r'
        else pbind (parse_elements f (c' :: r')) (fun vs rest => POk (JList vs) rest)
    | [] => PError
    end.
Proof. reflexivity. Qed.

Lemma parse_value_dict (f : nat) (r : text) :
  parse_value (S f) (123 :: r)
  = match skip_ws r with
    | c' :: r' =>
        if c' =? 125 then POk (JDict []) r'
        else pbind (parse_members f (c' :: r'))
                   (fun ps rest => POk (JDict (dict_of_pairs ps)) rest)
    | [] => PError
    end.
Proof. reflexivity. Qed.

Lemma parse_value_number (f : nat) (c : N) (r : text) :
  is_digit c = true \/ c = 45 -> parse_value (S f) (c :: r) = parse_number (c :: r).
Proof.
  intros H.
  assert (Hc : c = 45 \/ c = 48 \/ c = 49 \/ c = 50 \/ c = 51 \/ c = 52 \/ c = 53
               \/ c = 54 \/ c = 55 \/ c = 56 \/ c = 57).
  { destruct H as [H | H]; [|lia].
    unfold is_digit in H. apply andb_true_iff in H as [H1 H2].
    apply N.leb_le in H1, H2. lia. }
  repeat (destruct Hc as [-> | Hc]; [reflexivity|]).
  subst c. reflexivity.
Qed.

Lemma parse_elements_step (f : nat) (s : text) :
  parse_elements (S f) s
  = pbind (parse_value f s) (fun v rest =>
      match skip_ws rest with
      | c :: r =>
          if c =? 44 then
            pbind (parse_elements f (skip_ws r)) (fun vs rest' => POk (v :: vs) rest')
          else if c =? 93 then POk [v] r
          else PError
      | [] => PError
      end).
Proof. reflexivity. Qed.

Lemma parse_members_step (f : nat) (r : text) :
  parse_members (S f) (34 :: r)
  = pbind (parse_string r) (fun k rest =>
      match skip_ws rest with
      | c1 :: r1 =>
          if c1 =? 58 then
            pbind (parse_value f (skip_ws r1)) (fun v rest1 =>
              match skip_ws rest1 with
              | c2 :: r2 =>
                  if c2 =? 44 then
                    pbind (parse_members f (skip_ws r2))
                          (fun ps rest2 => POk ((k, v) :: ps) rest2)
                  else if c2 =? 125 then POk [(k, v)] r2
                  else PError
              | [] => PError
              end)
          else PError
      | [] => PError
      end).
Proof. reflexivity. Qed.

Lemma skip_ws_space (s : text) : skip_ws (32 :: s) = skip_ws s.
Proof. reflexivity. Qed.

(** The decoder reads back what the encoder wrote, given fuel for the size of
    the value. *)
Lemma parse_dumps (fuel : nat) :
  (forall (v : value) (rest : text),
      well_formed v = true -> (size v <= fuel)%nat -> stops rest ->
      parse_value fuel (dumps v ++ rest) = POk v rest)
  /\ (forall (v : value) (vs : list value) (rest : text),
        forallb well_formed (v :: vs) = true ->
        (elements_fuel (v :: vs) <= fuel)%nat ->
        parse_elements fuel (dumps v ++ after_item 93 (List.map dumps vs) rest)
        = POk (v :: vs) rest)
  /\ (forall (k : text) (v : value) (ps : dict) (rest : text),
        forallb member_ok ((k, v) :: ps) = true ->
        (members_fuel ((k, v) :: ps) <= fuel)%nat ->
        parse_members fuel (member (k, v) ++ after_item 125 (List.map member ps) rest)
        = POk ((k, v) :: ps) rest).
Proof.
  induction fuel as [|f (IHv & IHe & IHm)].
  { split; [|split].
    - intros v rest _ H. destruct v; cbn [size] in H; lia.
    - intros v vs rest _ H. unfold elements_fuel in H. cbn [List.map list_sum fold_right] in H. lia.
    - intros k v ps rest _ H. unfold members_fuel in H. cbn [List.map list_sum fold_right] in H. lia. }
  split; [|split].
  - intros v rest Hwf Hsize Hrest.
    destruct v as [|[|]|z|s|l|d].
    + reflexivity.
    + reflexivity.
    + reflexivity.
    + destruct (str_of_Z_head z) as (c & r & Heq & Hc).
      cbn [dumps]. pose proof (@parse_number_str_of_Z z rest (stops_follows _ Hrest)) as Hn.
      rewrite Heq in *. cbn [app] in *.
      rewrite (@parse_value_number f c (r ++ rest) Hc). exact Hn.
    + rewrite dumps_str, parse_value_str.
      cbn [well_formed] in Hwf. rewrite (@parse_string_quote s rest Hwf). reflexivity.
    + rewrite dumps_list, parse_value_list.
      destruct l as [|v vs]; [reflexivity|].
      cbn [List.map]. rewrite join_item, skip_ws_dumps.
      destruct (dumps_first v (after_item 93 (List.map dumps vs) rest))
        as (c & r & Heq & H93 & _).
      rewrite Heq, H93, <- Heq.
      rewrite IHe; [reflexivity | exact Hwf |].
      cbn [size] in Hsize. unfold elements_fuel. lia.
    + rewrite dumps_dict, parse_value_dict.
      cbn [well_formed] in Hwf. apply andb_true_iff in Hwf as [Hwf Hkeys].
      destruct d as [|[k v] ps]; [reflexivity|].
      cbn [List.map]. rewrite join_item.
      assert (Hq : exists r, member (k, v) ++ after_item 125 (List.map member ps) rest
                             = 34 :: r)
        by (rewrite member_app; eexists; reflexivity).
      destruct Hq as [r Heq].
      assert (Hskip : skip_ws (member (k, v) ++ after_item 125 (List.map member ps) rest)
                      = member (k, v) ++ after_item 125 (List.map member ps) rest)
        by (rewrite Heq; reflexivity).
      rewrite Hskip, Heq. change (34 =? 125) with false.
      cbv beta iota. rewrite <- Heq.
      rewrite IHm; [| exact Hwf |].
      * cbn [pbind]. now rewrite (dict_of_pairs_unique _ Hkeys).
      * cbn [size] in Hsize. unfold members_fuel. lia.
  - intros v vs rest Hwf Hfuel.
    cbn [forallb] in Hwf. apply andb_true_iff in Hwf as [Hv Hvs].
    unfold elements_fuel in Hfuel. cbn [List.map list_sum fold_right] in Hfuel.
    rewrite parse_elements_step.
    rewrite IHv; [| exact Hv | lia | apply after_item_stops; auto].
    cbn [pbind].
    destruct vs as [|v' vs']; [reflexivity|].
    cbn [List.map after_item].
    change (skip_ws (44 :: ?x)) with (44 :: x).
    change (skip_ws (44 :: 32 :: join (u ", ") (dumps v' :: List.map dumps vs') ++ 93 :: rest))
      with (44 :: 32 :: join (u ", ") (dumps v' :: List.map dumps vs') ++ 93 :: rest).
    change (44 =? 44) with true. cbv beta iota.
    rewrite skip_ws_space, join_item, skip_ws_dumps.
    rewrite IHe; [reflexivity | exact Hvs |].
    unfold elements_fuel. cbn [List.map list_sum fold_right] in Hfuel |- *. lia.
  - intros k v ps rest Hwf Hfuel.
    cbn [forallb] in Hwf. apply andb_true_iff in Hwf as [Hkv Hps].
    unfold member_ok in Hkv. cbn [fst snd] in Hkv.
    apply andb_true_iff in Hkv as [Hk Hv].
    unfold members_fuel in Hfuel. cbn [List.map list_sum fold_right snd] in Hfuel.
    rewrite member_app, parse_members_step.
    rewrite (@parse_string_quote k _ Hk). cbn [pbind].
    change (skip_ws (58 :: ?x)) with (58 :: x).
    change (58 =? 58) with true. cbv beta iota.
    rewrite skip_ws_space, skip_ws_dumps.
    rewrite IHv; [| exact Hv | lia | apply after_item_stops; auto].
    cbn [pbind].
    destruct ps as [|[k' v'] ps']; [reflexivity|].
    cbn [List.map after_item].
    change (skip_ws (44 :: 32 :: join (u ", ") (member (k', v') :: List.map member ps')
                       ++ 125 :: rest))
      with (44 :: 32 :: join (u ", ") (member (k', v') :: List.map member ps') ++ 125 :: rest).
    change (44 =? 44) with true. cbv beta iota.
    rewrite skip_ws_space, join_item.
    assert (Hq : exists r, member (k', v') ++ after_item 125 (List.map member ps') rest
                           = 34 :: r)
      by (rewrite member_app; eexists; reflexivity).
    destruct Hq as [r Heq].
    assert (Hskip : skip_ws (member (k', v') ++ after_item 125 (List.map member ps') rest)
                    = member (k', v') ++ after_item 125 (List.map member ps') rest)
      by (rewrite Heq; reflexivity).
    rewrite Hskip.
    rewrite IHm; [reflexivity | exact Hps |].
    unfold members_fuel. cbn [List.map list_sum fold_right snd] in Hfuel |- *. lia.
Qed.

(** *** The length of the text is fuel enough *)

Lemma join_length_bound (A : Type) (sz : A -> nat) (txt : A -> text) (l : list A) :
  Forall (fun x => (sz x <= List.length (txt x))%nat) l ->
  (list_sum (List.map (fun x => S (sz x)) l)
   <= List.length (join (u ", ") (List.map txt l)) + 1)%nat.
Proof.
  induction 1 as [|x l Hx Hl IH]; [cbn; lia|].
  cbn [List.map list_sum fold_right] in IH |- *.
  destruct l as [|y l'].
  - cbn [List.map join list_sum fold_right]. lia.
  - cbn [List.map] in IH |- *.
    change (join (u ", ") (txt x :: txt y :: List.map txt l'))
      with (txt x ++ u ", " ++ join (u ", ") (txt y :: List.map txt l')).
    rewrite !length_app.
    change (List.length (u ", ")) with 2%nat.
    cbn [list_sum fold_right] in IH |- *. lia.
Qed.

Lemma item_size_le (A : Type) (sz : A -> nat) (l : list A) (x : A) :
  In x l -> (S (sz x) <= list_sum (List.map (fun x => S (sz x)) l))%nat.
Proof.
  induction l as [|y l IH]; [contradiction|].
  cbn [List.map list_sum fold_right]. intros [-> | Hin]; [lia|].
  specialize (IH Hin). unfold list_sum in IH. lia.
Qed.

Lemma size_le_length (n : nat) :
  forall v : value, (size v <= n)%nat -> (size v <= List.length (dumps v))%nat.
Proof.
  induction n as [|n IH]; intros v Hn.
  { destruct v; cbn [size] in Hn; lia. }
  destruct v as [|[|]|z|s|l|d]; try (cbn; lia).
  - destruct (str_of_Z_head z) as (c & r & Heq & _).
    cbn [size dumps]. rewrite Heq. cbn [List.length]. lia.
  - cbn [size] in Hn |- *.
    assert (Hall : Forall (fun x => (size x <= List.length (dumps x))%nat) l).
    { apply Forall_forall. intros x Hin. apply IH.
      pose proof (@item_size_le _ size l x Hin). lia. }
    pose proof (join_length_bound size dumps Hall) as Hb.
    cbn [dumps]. rewrite !length_app. cbn [List.length]. lia.
  - cbn [size] in Hn |- *.
    assert (Hall : Forall (fun kv => (size (snd kv) <= List.length (member kv))%nat) d).
    { apply Forall_forall. intros [k v] Hin.
      pose proof (@item_size_le _ (fun kv => size (snd kv)) d (k, v) Hin) as Hle.
      cbn [snd] in Hle |- *.
      assert (Hv : (size v <= List.length (dumps v))%nat) by (apply IH; lia).
      unfold member. cbn [snd]. rewrite !length_app. lia. }
    pose proof (join_length_bound (fun kv => size (snd kv)) member Hall) as Hb.
    change (dumps (JDict d)) with ([123] ++ join (u ", ") (List.map member d) ++ [125]).
    rewrite !length_app. cbn [List.length]. lia.
Qed.

(** [json.loads(json.dumps(v, ensure_ascii=False))] is [v], for every value
    with distinct keys and no surrogate code point. *)
Lemma loads_dumps (v : value) : well_formed v = true -> loads (dumps v) = Loaded v.
Proof.
  intros Hwf. unfold loads.
  pose proof (skip_ws_dumps v []) as Hskip. rewrite app_nil_r in Hskip.
  rewrite Hskip.
  destruct (parse_dumps (S (List.length (dumps v)))) as [Hv _].
  specialize (Hv v [] Hwf). rewrite app_nil_r in Hv.
  rewrite Hv; [reflexivity | | exact I].
  pose proof (@size_le_length (size v) v (Nat.le_refl _)). lia.
Qed.

End JsonFacts.

Section ContinuityFacts.

Import Py Extended Extended.TextAnalyzer Extended.ContinuityAuditor.

Lemma Qltb_lt (a b : Q) : Qltb a b = true <-> a < b.
Proof.
  unfold Qltb. rewrite negb_true_iff. split.
  - intros H. apply Qnot_le_lt. intros Hle.
    apply Qle_bool_iff in Hle. rewrite Hle in H. discriminate.
  - intros H. destruct (Qle_bool b a) eqn:E; [|reflexivity].
    apply Qle_bool_iff in E. exfalso. exact (Qlt_not_le _ _ H E).
Qed.


(** A flag on the earlier card does not change what the loop does next. *)
Lemma audit_pair_prev_flag (thr : Q) (prev curr : card) (st : audit_state) :
  audit_pair thr (flag_gap prev) curr st = audit_pair thr prev curr st.
Proof. reflexivity. Qed.

(** C10. A pair of adjacent cards one of which has no token is passed over, at
    any threshold: the current card, the gaps and the overlaps are left as they
    were, and the loop goes on from the current card.  An empty text has no
    token, and neither has a text in which every word found is a stop word. *)
Theorem empty_token_pairs_excluded
    (thr : Q) (prev curr : card) (rest : list card) (st : audit_state) :
  tokenize (get_segment prev) = [] \/ tokenize (get_segment curr) = [] ->
  audit_pair thr prev curr st = (curr, st)
  /\ audit_loop thr prev (curr :: rest) st
     = (curr :: fst (audit_loop thr curr rest st), snd (audit_loop thr curr rest st))
  /\ tokenize [] = []
  /\ (forall t : text,
        Forall (fun w => mem w STOP_WORDS = true) (findall_words [] (lower t)) ->
        tokenize t = []).
Proof.
  intros Hempty.
  assert (Hpair : audit_pair thr prev curr st = (curr, st)).
  { unfold audit_pair.
    destruct (marked_duplicate curr); [reflexivity|].
    destruct Hempty as [-> | ->]; [reflexivity|].
    destruct (tokenize (get_segment prev)); reflexivity. }
  split; [exact Hpair|].
  split.
  - cbn [audit_loop]. rewrite Hpair.
    destruct (audit_loop thr curr rest st) as [out st']. reflexivity.
  - split; [reflexivity|]. intros t Ht. now apply tokenize_nil_iff.
Qed.


End ContinuityFacts.

Lemma empty_token_pairs_excluded_witness :
  (Extended.TextAnalyzer.tokenize (Extended.get_segment (Scenarios.page 1 Scenarios.fox_text))
   = []
   \/ Extended.TextAnalyzer.tokenize
        (Extended.get_segment (Scenarios.page 2 "the and of it   a b 7")) = [])
  /\ Extended.ContinuityAuditor.audit_pair (1 # 10)
       (Scenarios.page 1 Scenarios.fox_text)
       (Scenarios.page 2 "the and of it   a b 7")
       {| Extended.ContinuityAuditor.gaps := []; Extended.ContinuityAuditor.overlaps := [] |}
     = (Scenarios.page 2 "the and of it   a b 7",
        {| Extended.ContinuityAuditor.gaps := [];
           Extended.ContinuityAuditor.overlaps := [] |}).
Proof.
  assert (H : Extended.TextAnalyzer.tokenize
                (Extended.get_segment (Scenarios.page 1 Scenarios.fox_text)) = []
              \/ Extended.TextAnalyzer.tokenize
                   (Extended.get_segment (Scenarios.page 2 "the and of it   a b 7")) = [])
    by (right; vm_compute; reflexivity).
  split; [exact H|].
  exact (proj1 (@empty_token_pairs_excluded (1 # 10)
                  (Scenarios.page 1 Scenarios.fox_text)
                  (Scenarios.page 2 "the and of it   a b 7") []
                  {| Extended.ContinuityAuditor.gaps := [];
                     Extended.ContinuityAuditor.overlaps := [] |} H)).
Defined.



(** ** Duplicate detection and marking *)

Section DuplicateFacts.

Import Py Extended Extended.TextAnalyzer Extended.DuplicateDetector.

Abbreviation keys := (List.map (@fst text (list Z))).
Abbreviation hash_of := (fun c : card => text_hash (get_segment c)).

Lemma find_pages_record (h h' : text) (p : Z) (seen : list (text * list Z)) :
  find_pages h' (record_page h p seen)
  = if text_eqb h' h then find_pages h seen ++ [p] else find_pages h' seen.
Proof.
  induction seen as [|[k ps] seen IH]; simpl.
  - destruct (text_eqb h' h); reflexivity.
  - destruct (text_eqb h k) eqn:Ehk; simpl.
    + apply text_eqb_eq in Ehk. subst k.
      destruct (text_eqb h' h); reflexivity.
    + destruct (text_eqb h' k) eqn:Ehk'.
      * apply text_eqb_eq in Ehk'. subst k.
        destruct (text_eqb h' h) eqn:E; [|reflexivity].
        apply text_eqb_eq in E. subst h'. rewrite text_eqb_refl in Ehk. discriminate.
      * exact IH.
Qed.

Lemma keys_record (h : text) (p : Z) (seen : list (text * list Z)) :
  keys (record_page h p seen)
  = keys seen ++ (if mem h (keys seen) then [] else [h]).
Proof.
  induction seen as [|[k ps] seen IH]; simpl.
  - reflexivity.
  - destruct (text_eqb h k) eqn:E; simpl.
    + now rewrite app_nil_r.
    + now rewrite IH.
Qed.

Lemma keys_record_NoDup (h : text) (p : Z) (seen : list (text * list Z)) :
  NoDup (keys seen) -> NoDup (keys (record_page h p seen)).
Proof.
  intros Hnd. rewrite keys_record.
  destruct (mem h (keys seen)) eqn:E.
  - now rewrite app_nil_r.
  - apply mem_false in E.
    apply NoDup_app; [exact Hnd | repeat constructor; intros [] |].
    intros x Hx [<- | []]. contradiction.
Qed.

Lemma find_pages_entry (seen : list (text * list Z)) (h : text) (ps : list Z) :
  NoDup (keys seen) -> In (h, ps) seen -> find_pages h seen = ps.
Proof.
  induction seen as [|[k qs] seen IH]; simpl; intros Hnd Hin; [contradiction|].
  inversion Hnd as [|? ? Hk Hnd']; subst.
  destruct Hin as [Heq | Hin].
  - injection Heq as -> ->. now rewrite text_eqb_refl.
  - destruct (text_eqb h k) eqn:E.
    + apply text_eqb_eq in E. subst k. exfalso. apply Hk.
      apply in_map_iff. exists (h, ps). split; [reflexivity | exact Hin].
    + apply IH; assumption.
Qed.

Lemma pages_for_app (h : text) (a b : list card) :
  pages_for h (a ++ b) = pages_for h a ++ pages_for h b.
Proof. unfold pages_for. now rewrite filter_app, map_app. Qed.

(** What the first pass leaves in [seen_hashes]. *)
Lemma first_pass_fold (cards : list card) :
  forall seen : list (text * list Z),
    NoDup (keys seen) ->
    let seen' :=
      fold_left
        (fun seen c =>
           let t := get_segment c in
           if (len (strip t) <? 50)%Z then seen
           else record_page (text_hash t) (get_page_num c) seen)
        cards seen in
    NoDup (keys seen')
    /\ forall h, find_pages h seen' = find_pages h seen ++ pages_for h cards.
Proof.
  induction cards as [|c cards IH]; intros seen Hnd; cbn [fold_left].
  - split; [exact Hnd|]. intros h. unfold pages_for. simpl. now rewrite app_nil_r.
  - destruct (len (strip (get_segment c)) <? 50)%Z eqn:Eshort.
    + destruct (IH seen Hnd) as [Hk Hf]. split; [exact Hk|].
      intros h. rewrite Hf. unfold pages_for. cbn [filter].
      unfold long_enough. rewrite Eshort. reflexivity.
    + destruct (IH (record_page (text_hash (get_segment c)) (get_page_num c) seen)
                   (@keys_record_NoDup _ _ seen Hnd)) as [Hk Hf].
      split; [exact Hk|].
      intros h. rewrite Hf, find_pages_record.
      assert (Hcons : pages_for h (c :: cards)
                      = (if text_eqb (text_hash (get_segment c)) h
                         then [get_page_num c] else []) ++ pages_for h cards).
      { unfold pages_for. cbn [filter]. unfold long_enough. rewrite Eshort.
        cbn [negb andb].
        destruct (text_eqb (text_hash (get_segment c)) h); reflexivity. }
      rewrite Hcons.
      destruct (text_eqb h (text_hash (get_segment c))) eqn:E.
      * apply text_eqb_eq in E. subst h. rewrite text_eqb_refl.
        now rewrite <- app_assoc.
      * assert (E' : text_eqb (text_hash (get_segment c)) h = false).
        { apply text_eqb_neq. intros Heq. subst h. rewrite text_eqb_refl in E. discriminate. }
        rewrite E'. reflexivity.
Qed.

Lemma first_pass_spec (cards : list card) :
  NoDup (keys (first_pass cards))
  /\ (forall h, find_pages h (first_pass cards) = pages_for h cards)
  /\ (forall h ps, In (h, ps) (first_pass cards) -> ps = pages_for h cards).
Proof.
  destruct (@first_pass_fold cards [] (NoDup_nil _)) as [Hk Hf].
  fold (first_pass cards) in Hk, Hf.
  split; [exact Hk|]. split; [exact Hf|].
  intros h ps Hin. rewrite <- (@find_pages_entry _ _ _ Hk Hin). exact (Hf h).
Qed.

(** [sorted(pages)] is the sorted rearrangement of [pages]. *)
Lemma insert_page_perm (p : Z) (sorted : list Z) :
  Permutation (insert_page p sorted) (p :: sorted).
Proof.
  induction sorted as [|q sorted IH]; simpl; [reflexivity|].
  destruct (q <? p)%Z; [|reflexivity].
  rewrite IH. apply perm_swap.
Qed.

Lemma sorted_pages_perm (ps : list Z) : Permutation (sorted_pages ps) ps.
Proof.
  induction ps as [|p ps IH]; simpl; [reflexivity|].
  unfold sorted_pages in *. simpl. rewrite insert_page_perm. now constructor.
Qed.

Lemma insert_page_sorted (p : Z) (sorted : list Z) :
  StronglySorted Z.le sorted -> StronglySorted Z.le (insert_page p sorted).
Proof.
  induction 1 as [|q sorted Hs IH Hq]; simpl.
  - repeat constructor.
  - destruct (q <? p)%Z eqn:E.
    + apply Z.ltb_lt in E. constructor; [exact IH|].
      rewrite Forall_forall. intros x Hx.
      apply (Permutation_in _ (insert_page_perm p sorted)) in Hx.
      destruct Hx as [<- | Hx]; [lia|].
      rewrite Forall_forall in Hq. now apply Hq.
    + apply Z.ltb_ge in E. constructor; [now constructor|].
      constructor; [exact E|].
      rewrite Forall_forall in *. intros x Hx. specialize (Hq x Hx). lia.
Qed.

Lemma sorted_pages_sorted (ps : list Z) : StronglySorted Z.le (sorted_pages ps).
Proof.
  induction ps as [|p ps IH]; [constructor|].
  unfold sorted_pages in *. simpl. now apply insert_page_sorted.
Qed.

(** In a sorted list without repetition the first page is the lowest. *)
Lemma sorted_head_lowest (first : Z) (rest : list Z) :
  StronglySorted Z.le (first :: rest) -> NoDup (first :: rest) ->
  forall p, In p rest -> (first < p)%Z.
Proof.
  intros Hs Hnd p Hp.
  inversion Hs as [|? ? _ Hall]; subst. inversion Hnd as [|? ? Hnot _]; subst.
  rewrite Forall_forall in Hall. specialize (Hall p Hp).
  assert (first <> p) by (intros ->; contradiction). lia.
Qed.

Lemma pages_for_In (h : text) (cards : list card) (p : Z) :
  In p (pages_for h cards)
  <-> exists c, In c cards /\ long_enough c = true /\ hash_of c = h /\ get_page_num c = p.
Proof.
  unfold pages_for. rewrite in_map_iff. split.
  - intros (c & Hp & Hc). apply filter_In in Hc as [Hin Hc].
    apply andb_true_iff in Hc as [Hl Hh]. apply text_eqb_eq in Hh.
    exists c. auto.
  - intros (c & Hin & Hl & Hh & Hp). exists c. split; [exact Hp|].
    apply filter_In. split; [exact Hin|].
    rewrite Hl. simpl. now apply text_eqb_eq.
Qed.

Lemma NoDup_map_filter (A B : Type) (f : A -> B) (g : A -> bool) (l : list A) :
  NoDup (List.map f l) -> NoDup (List.map f (filter g l)).
Proof.
  induction l as [|x l IH]; simpl; intros Hnd; [constructor|].
  inversion Hnd as [|? ? Hx Hnd']; subst.
  destruct (g x); [|now apply IH].
  simpl. constructor; [|now apply IH].
  intros Hin. apply Hx. apply in_map_iff in Hin as (y & Hy & Hin).
  apply filter_In in Hin as [Hin _]. apply in_map_iff. now exists y.
Qed.

Lemma NoDup_map_inj (A B : Type) (f : A -> B) (l : list A) (x y : A) :
  NoDup (List.map f l) -> In x l -> In y l -> f x = f y -> x = y.
Proof.
  induction l as [|z l IH]; simpl; intros Hnd Hx Hy Hf; [contradiction|].
  inversion Hnd as [|? ? Hz Hnd']; subst.
  destruct Hx as [-> | Hx], Hy as [-> | Hy]; auto.
  - exfalso. apply Hz. rewrite Hf. now apply in_map.
  - exfalso. apply Hz. rewrite <- Hf. now apply in_map.
Qed.

(** The groups the detector returns: one for every hash with more than one
    page, holding the sorted pages of that hash. *)
Lemma detect_duplicates_In (cards : list card) (g : dup_group) :
  In g (detect_duplicates cards)
  <-> exists h,
        In h (keys (first_pass cards))
        /\ (1 < List.length (pages_for h cards))%nat
        /\ g = {| pages := sorted_pages (pages_for h cards);
                  similarity := 1; group_type := u "exact" |}.
Proof.
  destruct (first_pass_spec cards) as (Hk & Hf & He).
  unfold detect_duplicates. rewrite in_flat_map. split.
  - intros ([h ps] & Hin & Hg). simpl in Hg.
    destruct (1 <? List.length ps)%nat eqn:E; [|contradiction].
    destruct Hg as [<- | []]. apply Nat.ltb_lt in E.
    rewrite (He h ps Hin) in *.
    exists h. repeat split; auto.
    apply in_map_iff. exists (h, ps). split; [reflexivity | exact Hin].
  - intros (h & Hin & Hlen & ->).
    apply in_map_iff in Hin as ([h' ps] & Hh & Hin). simpl in Hh. subst h'.
    exists (h, ps). split; [exact Hin|]. simpl.
    rewrite (He h ps Hin). apply Nat.ltb_lt in Hlen. rewrite Hlen. now left.
Qed.

Lemma first_pass_key (cards : list card) (c : card) :
  In c cards -> long_enough c = true -> In (hash_of c) (keys (first_pass cards)).
Proof.
  intros Hin Hl.
  destruct (first_pass_spec cards) as (_ & Hf & _).
  assert (Hp : In (get_page_num c) (find_pages (hash_of c) (first_pass cards))).
  { rewrite Hf. apply pages_for_In. exists c. auto. }
  revert Hp. generalize (first_pass cards). intros seen.
  induction seen as [|[k ps] seen IH]; simpl; [contradiction|].
  destruct (text_eqb (hash_of c) k) eqn:E.
  - apply text_eqb_eq in E. now left.
  - intros Hp. right. now apply IH.
Qed.

Lemma mem_page_In (p : Z) (ps : list Z) : mem_page p ps = true <-> In p ps.
Proof.
  unfold mem_page. rewrite existsb_exists. split.
  - intros (x & Hin & Heq). apply Z.eqb_eq in Heq. now subst.
  - intros Hin. exists p. split; [exact Hin | apply Z.eqb_refl].
Qed.

Lemma mem_page_false (p : Z) (ps : list Z) : mem_page p ps = false <-> ~ In p ps.
Proof.
  rewrite <- mem_page_In. destruct (mem_page p ps); split; intros H;
    try discriminate; try reflexivity; try (intros H'; discriminate).
  exfalso. now apply H.
Qed.

Lemma duplicate_pages_In (p : Z) (groups : list dup_group) :
  In p (duplicate_pages groups) <-> exists g, In g groups /\ In p (tl (pages g)).
Proof. unfold duplicate_pages. apply in_flat_map. Qed.

Lemma In_tl (A : Type) (x : A) (l : list A) : In x (tl l) -> In x l.
Proof. destruct l; simpl; auto. Qed.

(** With page numbers that are pairwise distinct, a page is in one group at
    most. *)
Lemma groups_unique (cards : list card) (g g' : dup_group) (p : Z) :
  NoDup (List.map get_page_num cards) ->
  In g (detect_duplicates cards) -> In g' (detect_duplicates cards) ->
  In p (pages g) -> In p (pages g') -> g = g'.
Proof.
  intros Hnd Hg Hg' Hp Hp'.
  apply detect_duplicates_In in Hg as (h & _ & _ & ->).
  apply detect_duplicates_In in Hg' as (h' & _ & _ & ->).
  cbn [pages] in Hp, Hp'.
  apply (Permutation_in _ (sorted_pages_perm _)) in Hp.
  apply (Permutation_in _ (sorted_pages_perm _)) in Hp'.
  apply pages_for_In in Hp as (c & Hc & _ & Hh & Hn).
  apply pages_for_In in Hp' as (c' & Hc' & _ & Hh' & Hn').
  assert (c = c') by (apply (NoDup_map_inj get_page_num cards); congruence).
  subst c'. congruence.
Qed.

Lemma canonical_of_unique (groups : list dup_group) (g : dup_group) (p : Z) :
  (forall g', In g' groups -> In p (pages g') -> g' = g) ->
  In g groups -> In p (pages g) ->
  canonical_of p groups = hd_error (pages g).
Proof.
  induction groups as [|g0 groups IH]; intros Huniq Hin Hp; [contradiction|].
  simpl. destruct (mem_page p (pages g0)) eqn:E.
  - apply mem_page_In in E. rewrite (Huniq g0 (or_introl eq_refl) E). reflexivity.
  - apply mem_page_false in E. destruct Hin as [-> | Hin]; [contradiction|].
    apply IH; auto. intros g' Hg'. apply Huniq. now right.
Qed.

Lemma two_members_length (ps : list Z) (p q : Z) :
  In p ps -> In q ps -> p <> q -> (1 < List.length ps)%nat.
Proof.
  destruct ps as [|a [|b ps]]; simpl; intros Hp Hq Hne; try contradiction; [|lia].
  destruct Hp as [<- | []], Hq as [<- | []]. contradiction.
Qed.

(** [mark_card] touches [is_duplicate] and [duplicate_of] only. *)
Lemma mark_card_frame (groups : list dup_group) (c : card) :
  page_num (mark_card groups c) = page_num c
  /\ segment (mark_card groups c) = segment c
  /\ flags (mark_card groups c) = flags c
  /\ other_fields (mark_card groups c) = other_fields c.
Proof.
  unfold mark_card.
  destruct (mem_page (get_page_num c) (duplicate_pages groups)); repeat split.
Qed.

(** C8, as the code has it: for cards whose page numbers are pairwise distinct.
    Two different cards whose texts are long enough and equal after
    normalization are in one group, and every group is an exact one of
    similarity 1.0.  In every group the first page is the lowest; the card of
    that page is left as it is, and the card of every other page of the group
    gets [is_duplicate = True] and [duplicate_of] = that first page.  A card of
    no group is left as it is.  The marked list is the original list card by
    card, and marking changes no other field. *)
Theorem duplicate_marking (cards : list card) :
  NoDup (List.map get_page_num cards) ->
  let groups := detect_duplicates cards in
  (forall c1 c2,
      In c1 cards -> In c2 cards -> c1 <> c2 ->
      (50 <= len (strip (get_segment c1)))%Z ->
      (50 <= len (strip (get_segment c2)))%Z ->
      normalized (get_segment c1) = normalized (get_segment c2) ->
      exists g,
        In g groups
        /\ In (get_page_num c1) (pages g) /\ In (get_page_num c2) (pages g))
  /\ (forall g, In g groups ->
        similarity g = 1 /\ group_type g = u "exact"
        /\ exists first rest,
             pages g = first :: rest /\ rest <> []
             /\ (forall p, In p rest -> (first < p)%Z)
             /\ (forall c, In c cards -> get_page_num c = first ->
                           mark_card groups c = c)
             /\ (forall c, In c cards -> In (get_page_num c) rest ->
                           mark_card groups c
                           = {| page_num := page_num c;
                                segment := segment c;
                                is_duplicate := Some true;
                                duplicate_of := Some first;
                                flags := flags c;
                                other_fields := other_fields c |}))
  /\ (forall c, In c cards ->
                (forall g, In g groups -> ~ In (get_page_num c) (pages g)) ->
                mark_card groups c = c)
  /\ fst (mark_duplicates cards groups) = List.map (mark_card groups) cards
  /\ List.length (fst (mark_duplicates cards groups)) = List.length cards
  /\ (forall c,
        page_num (mark_card groups c) = page_num c
        /\ segment (mark_card groups c) = segment c
        /\ flags (mark_card groups c) = flags c
        /\ other_fields (mark_card groups c) = other_fields c).
Proof.
  intros Hnd groups.
  split; [|split; [|split; [|split; [|split]]]].
  - intros c1 c2 H1 H2 Hne Hl1 Hl2 Hnorm.
    assert (Hlong : forall c, (50 <= len (strip (get_segment c)))%Z -> long_enough c = true).
    { intros c Hc. unfold long_enough. apply negb_true_iff, Z.ltb_ge. exact Hc. }
    assert (Hh : hash_of c2 = hash_of c1).
    { unfold text_hash. now rewrite Hnorm. }
    set (h := hash_of c1) in *.
    assert (Hp1 : In (get_page_num c1) (pages_for h cards))
      by (apply pages_for_In; exists c1; auto).
    assert (Hp2 : In (get_page_num c2) (pages_for h cards))
      by (apply pages_for_In; exists c2; auto).
    assert (Hpn : get_page_num c1 <> get_page_num c2).
    { intros Heq. apply Hne. now apply (NoDup_map_inj get_page_num cards). }
    exists {| pages := sorted_pages (pages_for h cards);
              similarity := 1; group_type := u "exact" |}.
    split.
    + apply detect_duplicates_In. exists h. repeat split.
      * apply first_pass_key; auto.
      * exact (two_members_length _ Hp1 Hp2 Hpn).
    + cbn [pages].
      split; apply (Permutation_in _ (Permutation_sym (sorted_pages_perm _))); assumption.
  - intros g Hg.
    pose proof Hg as Hg0.
    apply detect_duplicates_In in Hg0 as (h & _ & Hlen & Hgeq).
    assert (Hpages : pages g = sorted_pages (pages_for h cards)) by (now subst g).
    split; [now subst g|]. split; [now subst g|].
    assert (Hperm : Permutation (pages g) (pages_for h cards))
      by (rewrite Hpages; apply sorted_pages_perm).
    assert (Hndp : NoDup (pages g)).
    { apply (Permutation_NoDup (Permutation_sym Hperm)).
      unfold pages_for. now apply NoDup_map_filter. }
    assert (Hsorted : StronglySorted Z.le (pages g))
      by (rewrite Hpages; apply sorted_pages_sorted).
    rewrite <- (Permutation_length Hperm) in Hlen.
    destruct (pages g) as [|first [|second rest]] eqn:Epages; simpl in Hlen; try lia.
    exists first, (second :: rest).
    split; [reflexivity|]. split; [discriminate|].
    split; [exact (sorted_head_lowest Hsorted Hndp)|].
    assert (Huniq : forall g', In g' groups -> forall p, In p (pages g) ->
                               In p (pages g') -> g' = g).
    { intros g' Hg' p Hp Hp'. exact (@groups_unique cards g' g p Hnd Hg' Hg Hp' Hp). }
    rewrite Epages in Huniq.
    split.
    + intros c Hc Hfirst. unfold mark_card.
      assert (Hnot : mem_page (get_page_num c) (duplicate_pages groups) = false).
      { apply mem_page_false. intros Hin.
        apply duplicate_pages_In in Hin as (g' & Hg' & Hin).
        assert (g' = g).
        { apply (Huniq g' Hg' first); [now left|]. rewrite <- Hfirst. now apply In_tl. }
        subst g'. rewrite Epages in Hin. simpl in Hin.
        apply NoDup_cons_iff in Hndp as [Hnotin _]. apply Hnotin.
        rewrite <- Hfirst. exact Hin. }
      now rewrite Hnot.
    + intros c Hc Hrest. unfold mark_card.
      assert (Hyes : mem_page (get_page_num c) (duplicate_pages groups) = true).
      { apply mem_page_In, duplicate_pages_In. exists g. split; [exact Hg|].
        rewrite Epages. exact Hrest. }
      rewrite Hyes.
      rewrite (@canonical_of_unique groups g (get_page_num c)).
      * rewrite Epages. reflexivity.
      * intros g' Hg' Hp'. apply (Huniq g' Hg' (get_page_num c)); [now right | exact Hp'].
      * exact Hg.
      * rewrite Epages. now right.
  - intros c Hc Hnone. unfold mark_card.
    assert (Hnot : mem_page (get_page_num c) (duplicate_pages groups) = false).
    { apply mem_page_false. intros Hin.
      apply duplicate_pages_In in Hin as (g' & Hg' & Hin).
      apply (Hnone g' Hg'). now apply In_tl. }
    now rewrite Hnot.
  - reflexivity.
  - unfold mark_duplicates. cbn [fst]. apply length_map.
  - intros c. apply mark_card_frame.
Qed.

End DuplicateFacts.

Lemma duplicate_marking_witness :
  NoDup (List.map Extended.get_page_num Scenarios.book_with_copy)
  /\ exists g,
       In g (Extended.DuplicateDetector.detect_duplicates Scenarios.book_with_copy)
       /\ In 1%Z (Extended.pages g) /\ In 2%Z (Extended.pages g).
Proof.
  assert (Hnd : NoDup (List.map Extended.get_page_num Scenarios.book_with_copy)).
  { cbn. repeat constructor; cbn; intuition discriminate. }
  split; [exact Hnd|].
  apply (proj1 (@duplicate_marking Scenarios.book_with_copy Hnd)
           (Scenarios.page 1 Scenarios.fox_text)
           (Scenarios.page 2 Scenarios.fox_text_respaced)).
  - left. reflexivity.
  - right. left. reflexivity.
  - discriminate.
  - vm_compute. discriminate.
  - vm_compute. discriminate.
  - vm_compute. reflexivity.
Defined.

(** C8, the claim as stated fails on a card list in which two cards carry the
    same page number: the group is [1, 1], page 1 is its lowest page, and both
    cards of page 1 are marked as duplicates of page 1; no card of the group
    is left unmarked. *)
Lemma shared_page_number_marks_canonical :
  let groups := Extended.DuplicateDetector.detect_duplicates Scenarios.same_page_twice in
  groups = [{| Extended.pages := [1; 1]%Z; Extended.similarity := 1;
               Extended.group_type := Py.u "exact" |}]
  /\ List.map (fun c => (Extended.page_num c, Extended.is_duplicate c, Extended.duplicate_of c))
       (fst (Extended.DuplicateDetector.mark_duplicates Scenarios.same_page_twice groups))
     = [(Some 1%Z, Some true, Some 1%Z); (Some 1%Z, Some true, Some 1%Z)].
Proof.
  cbv zeta. split; vm_compute; reflexivity.
Qed.

(** ** The dataset store: the file format *)

Section TextSearchFacts.

Import Py.

Lemma starts_with_app (p x : text) : starts_with p (p ++ x) = true.
Proof.
  induction p as [|a p IH]; simpl; [reflexivity|].
  now rewrite N.eqb_refl.
Qed.

Lemma skipn_length_app (A : Type) (p x : list A) : skipn (List.length p) (p ++ x) = x.
Proof. induction p as [|a p IH]; simpl; auto. Qed.

Lemma split1_at_head (p x : text) : split1 p (p ++ x) = Some ([], x).
Proof.
  destruct p as [|a p].
  - destruct x; reflexivity.
  - cbn [app split1]. change (a :: (p ++ x)) with ((a :: p) ++ x).
    rewrite starts_with_app, skipn_length_app. reflexivity.
Qed.

(** A prefix that does not hold the character [c] and matches [b ++ c :: more]
    already matches within [b]. *)
Lemma starts_with_within (p b more : text) (c : N) :
  ~ In c p -> starts_with p (b ++ c :: more) = true -> starts_with p b = true.
Proof.
  revert b. induction p as [|a p IH]; intros b Hc H; [reflexivity|].
  destruct b as [|y b]; simpl in *.
  - apply andb_true_iff in H as [Ha _]. apply N.eqb_eq in Ha. subst.
    exfalso. apply Hc. now left.
  - apply andb_true_iff in H as [Ha Hp]. rewrite Ha. simpl.
    apply IH; [|exact Hp]. intros Hin. apply Hc. now right.
Qed.

Lemma contains_false_cons (p : text) (c : N) (l : text) :
  contains p (c :: l) = false ->
  starts_with p (c :: l) = false /\ contains p l = false.
Proof.
  unfold contains. cbn [split1].
  destruct (starts_with p (c :: l)); [discriminate|].
  destruct (split1 p l) as [[x y]|]; [discriminate|]. auto.
Qed.

(** Stepping over one line: a separator that holds no line feed and does not
    occur in [l] is first found in [l ++ "\n" ++ more] where it is first found
    in [more]. *)
Lemma split1_skip_line (p l more : text) :
  p <> [] -> ~ In 10%N p -> contains p l = false ->
  split1 p (l ++ 10%N :: more)
  = match split1 p more with
    | Some (x, y) => Some (l ++ 10%N :: x, y)
    | None => None
    end.
Proof.
  intros Hp H10. induction l as [|c l IH]; intros Hl.
  - cbn [app split1].
    assert (Hs : starts_with p (10%N :: more) = false).
    { destruct p as [|a p]; [contradiction|]. simpl.
      destruct (a =? 10)%N eqn:E; [|reflexivity].
      apply N.eqb_eq in E. subst a. exfalso. apply H10. now left. }
    rewrite Hs. destruct (split1 p more) as [[x y]|]; reflexivity.
  - apply contains_false_cons in Hl as [Hs Hl].
    cbn [app split1].
    assert (Hs' : starts_with p (c :: l ++ 10%N :: more) = false).
    { destruct (starts_with p (c :: l ++ 10%N :: more)) eqn:E; [|reflexivity].
      change (c :: l ++ 10%N :: more) with ((c :: l) ++ 10%N :: more) in E.
      apply starts_with_within in E; [|exact H10]. rewrite E in Hs. discriminate. }
    rewrite Hs', (IH Hl).
    destruct (split1 p more) as [[x y]|]; reflexivity.
Qed.

Lemma split1_skip_lines (p : text) (lines : list text) (more : text) :
  p <> [] -> ~ In 10%N p ->
  Forall (fun l => contains p l = false) lines ->
  split1 p (flat_map (fun l => l ++ [10%N]) lines ++ more)
  = match split1 p more with
    | Some (x, y) => Some (flat_map (fun l => l ++ [10%N]) lines ++ x, y)
    | None => None
    end.
Proof.
  intros Hp H10. induction 1 as [|l lines Hl _ IH]; cbn [flat_map app].
  - destruct (split1 p more) as [[x y]|]; reflexivity.
  - rewrite <- !app_assoc. cbn [app].
    rewrite split1_skip_line by assumption. rewrite IH.
    destruct (split1 p more) as [[x y]|]; [|reflexivity].
    now rewrite <- !app_assoc.
Qed.

Lemma contains_app (p a b : text) : contains p b = true -> contains p (a ++ b) = true.
Proof.
  unfold contains. induction a as [|c a IH]; intros H; [exact H|].
  cbn [app split1]. destruct (starts_with p (c :: a ++ b)); [reflexivity|].
  specialize (IH H). destruct (split1 p (a ++ b)) as [[x y]|]; [reflexivity | discriminate].
Qed.

(** Reading with universal newlines changes nothing when there is no carriage
    return. *)
Lemma universal_newlines_id (s : text) :
  ~ In 13%N s -> Common.DatasetIO.universal_newlines s = s.
Proof.
  induction s as [|c s IH]; intros H; [reflexivity|].
  cbn [Common.DatasetIO.universal_newlines].
  destruct (c =? 13)%N eqn:E.
  - apply N.eqb_eq in E. subst c. exfalso. apply H. now left.
  - rewrite IH; [reflexivity|]. intros Hin. apply H. now right.
Qed.

Lemma lstrip_keeps (c : N) (t : text) : is_space c = false -> lstrip (c :: t) = c :: t.
Proof. intros H. simpl. now rewrite H. Qed.

Lemma rstrip_keeps (c : N) (t : text) : is_space c = false -> rstrip (t ++ [c]) = t ++ [c].
Proof.
  intros H. unfold rstrip. rewrite rev_app_distr. simpl. rewrite H.
  change (c :: rev t) with (rev [c] ++ rev t). rewrite <- rev_app_distr.
  apply rev_involutive.
Qed.

Lemma rstrip_drops (c : N) (t : text) : is_space c = true -> rstrip (t ++ [c]) = rstrip t.
Proof.
  intros H. unfold rstrip. rewrite rev_app_distr. simpl. now rewrite H.
Qed.

(** [splitlines] on a line without boundary followed by a line feed. *)
Lemma splitlines_line (l rest : text) :
  forallb (fun c => negb (is_linebreak c)) l = true ->
  splitlines (l ++ 10%N :: rest) = l :: splitlines rest.
Proof.
  induction l as [|c l IH]; intros H.
  - cbn [app splitlines]. change (is_linebreak 10) with true. cbv iota.
    destruct rest as [|c' rest']; reflexivity.
  - cbn [forallb] in H. apply andb_true_iff in H as [Hc Hl].
    apply negb_true_iff in Hc.
    cbn [app splitlines]. rewrite Hc, (IH Hl). reflexivity.
Qed.

Lemma splitlines_last (l : text) :
  l <> [] -> forallb (fun c => negb (is_linebreak c)) l = true -> splitlines l = [l].
Proof.
  induction l as [|c l IH]; intros Hne H; [contradiction|].
  cbn [forallb] in H. apply andb_true_iff in H as [Hc Hl].
  apply negb_true_iff in Hc. cbn [splitlines]. rewrite Hc.
  destruct l as [|c' l']; [reflexivity|].
  rewrite IH by (auto; discriminate). reflexivity.
Qed.

End TextSearchFacts.

Section LoadFacts.

Import Py Json Common Common.DatasetIO.

Abbreviation nl := (fun l : text => l ++ [10%N]).

Lemma end_marker_nonempty : DATASET_END <> [].
Proof. discriminate. Qed.

Lemma end_marker_one_line : ~ In 10%N DATASET_END.
Proof. vm_compute. intuition discriminate. Qed.

Lemma markers_no_cr : ~ In 13%N DATASET_BEGIN /\ ~ In 13%N DATASET_END.
Proof. split; vm_compute; intuition discriminate. Qed.

(** A dictionary is written between braces. *)
Lemma dumps_dict_shape (d : dict) :
  exists mid, dumps (JDict d) = 123%N :: mid ++ [125%N].
Proof. eexists. cbn [dumps]. reflexivity. Qed.

Lemma clean_line_spec (line : text) :
  clean_line line = true ->
  forallb (fun c => negb (is_linebreak c)) line = true
  /\ contains DATASET_END line = false.
Proof.
  unfold clean_line. intros H. apply andb_true_iff in H as [H1 H2].
  apply negb_true_iff in H2. auto.
Qed.

Lemma clean_line_no_cr (line : text) : clean_line line = true -> ~ In 13%N line.
Proof.
  intros H Hin. apply clean_line_spec in H as [H _].
  rewrite forallb_forall in H. specialize (H _ Hin). discriminate H.
Qed.

Lemma strip_dict_line (d : dict) : strip (dumps (JDict d)) = dumps (JDict d).
Proof.
  destruct (dumps_dict_shape d) as [mid ->].
  unfold strip. rewrite lstrip_keeps by reflexivity.
  change (123%N :: mid ++ [125%N]) with ((123%N :: mid) ++ [125%N]).
  now rewrite rstrip_keeps.
Qed.

(** The lines of the body, each closed by a line feed, are the lines joined by
    line feeds, plus the final line feed. *)
Lemma flat_map_nl_join (ls : list text) (last : text) :
  flat_map nl (ls ++ [last]) = join [10%N] (ls ++ [last]) ++ [10%N].
Proof.
  induction ls as [|l ls IH]; cbn [app flat_map join].
  - now rewrite app_nil_r.
  - rewrite IH. destruct (ls ++ [last]) as [|x xs] eqn:E.
    + destruct ls; discriminate E.
    + now rewrite <- !app_assoc.
Qed.

Lemma splitlines_join (ls : list text) (last : text) :
  Forall (fun l => forallb (fun c => negb (is_linebreak c)) l = true) (ls ++ [last]) ->
  last <> [] ->
  splitlines (join [10%N] (ls ++ [last])) = ls ++ [last].
Proof.
  intros Hall Hlast. induction ls as [|l ls IH]; cbn [app join].
  - apply splitlines_last; [exact Hlast|]. now inversion Hall.
  - inversion Hall as [|? ? Hl Hrest]; subst.
    destruct (ls ++ [last]) as [|x xs] eqn:E; [destruct ls; discriminate E|].
    cbn [app]. rewrite splitlines_line by exact Hl. now rewrite IH.
Qed.

Lemma join_head (l : text) (c : N) (ls : list text) :
  exists rest, join [10%N] ((c :: l) :: ls) = c :: rest.
Proof. destruct ls; cbn [join app]; eexists; reflexivity. Qed.

Lemma join_last (ls : list text) (l : text) (c : N) :
  exists front, join [10%N] (ls ++ [l ++ [c]]) = front ++ [c].
Proof.
  induction ls as [|x ls [front IH]]; cbn [app join].
  - now exists l.
  - destruct (ls ++ [l ++ [c]]) as [|y ys] eqn:E; [destruct ls; discriminate E|].
    rewrite IH. exists (x ++ [10%N] ++ front). now rewrite <- !app_assoc.
Qed.

(** One turn of the parsing loop on a line [save] wrote. *)
Lemma load_line_dict (acc : loaded_dataset) (d : dict) :
  storable d ->
  load_line acc (dumps (JDict d))
  = match dict_get (u "segment_id") d with
    | Some (JStr sid) =>
        if text_eqb sid HEADER_ID then
          inr {| l_header := d; l_cards := l_cards acc;
                 l_audit := l_audit acc; l_footer := l_footer acc |}
        else if text_eqb sid AUDIT_ID then
          inr {| l_header := l_header acc; l_cards := l_cards acc;
                 l_audit := d; l_footer := l_footer acc |}
        else if text_eqb sid FOOTER_ID then
          inr {| l_header := l_header acc; l_cards := l_cards acc;
                 l_audit := l_audit acc; l_footer := d |}
        else
          inr {| l_header := l_header acc; l_cards := l_cards acc ++ [d];
                 l_audit := l_audit acc; l_footer := l_footer acc |}
    | _ =>
        inr {| l_header := l_header acc; l_cards := l_cards acc ++ [d];
               l_audit := l_audit acc; l_footer := l_footer acc |}
    end.
Proof.
  intros [_ Hwf]. pose proof (loads_dumps _ Hwf) as Hloads.
  unfold load_line. rewrite strip_dict_line.
  assert (Hne : dumps (JDict d) <> [])
    by (destruct (dumps_dict_shape d) as [mid ->]; discriminate).
  destruct (dumps (JDict d)) as [|c0 l0] eqn:E; [contradiction|].
  rewrite Hloads. reflexivity.
Qed.

Lemma load_line_card (acc : loaded_dataset) (d : dict) :
  storable d -> plain_id d = true ->
  load_line acc (dumps (JDict d))
  = inr {| l_header := l_header acc; l_cards := l_cards acc ++ [d];
           l_audit := l_audit acc; l_footer := l_footer acc |}.
Proof.
  intros Hs Hid. rewrite load_line_dict by exact Hs.
  unfold plain_id in Hid.
  destruct (dict_get (u "segment_id") d) as [[| | |sid| |]|]; try reflexivity.
  apply negb_true_iff in Hid. cbn [is_reserved] in Hid.
  apply orb_false_iff in Hid as [Hid Hf]. apply orb_false_iff in Hid as [Hh Ha].
  now rewrite Hh, Ha, Hf.
Qed.

Lemma load_lines_cards (cards : list dict) (rest : list text) :
  Forall storable cards -> forallb plain_id cards = true ->
  forall acc : loaded_dataset,
    load_lines acc (List.map (fun c => dumps (JDict c)) cards ++ rest)
    = load_lines {| l_header := l_header acc; l_cards := l_cards acc ++ cards;
                    l_audit := l_audit acc; l_footer := l_footer acc |} rest.
Proof.
  induction cards as [|c cards IH]; intros Hs Hid acc.
  - cbn [List.map app]. rewrite app_nil_r. now destruct acc.
  - inversion Hs as [|? ? Hc Hcs]; subst.
    cbn [forallb] in Hid. apply andb_true_iff in Hid as [Hi His].
    cbn [List.map app load_lines]. rewrite load_line_card by assumption.
    rewrite IH by assumption. cbn [l_header l_cards l_audit l_footer].
    now rewrite <- app_assoc.
Qed.

Lemma plain_id_sort_key (cards : list dict) :
  forallb plain_id cards = true ->
  forallb (fun c => match sort_key c with Some _ => true | None => false end) cards = true.
Proof.
  rewrite !forallb_forall. intros H c Hc. specialize (H c Hc).
  unfold plain_id in H. unfold sort_key.
  destruct (dict_get (u "segment_id") c) as [[| | |sid| |]|]; try discriminate; reflexivity.
Qed.

(** [load] on a file laid out as [save] lays it out, whatever the footer says. *)
Lemma load_render (hdr : dict) (cards : list dict) (audit : option dict) (footer : dict) :
  storable hdr -> Forall storable cards ->
  (forall a, audit = Some a -> storable a) -> storable footer ->
  dict_get (u "segment_id") hdr = Some (JStr HEADER_ID) ->
  (forall a, audit = Some a -> dict_get (u "segment_id") a = Some (JStr AUDIT_ID)) ->
  dict_get (u "segment_id") footer = Some (JStr FOOTER_ID) ->
  forallb plain_id cards = true ->
  load (Some (render ([dumps (JDict hdr)]
                        ++ List.map (fun c => dumps (JDict c)) cards
                        ++ match audit with
                           | Some a => [dumps (JDict a)]
                           | None => []
                           end)
                     (dumps (JDict footer))))
  = inr {| l_header := hdr; l_cards := sort_cards cards;
           l_audit := match audit with Some a => a | None => [] end;
           l_footer := footer |}.
Proof.
  intros Hh Hc Ha Hf Hhid Haid Hfid Hids.
  set (audit_lines := match audit with Some a => [dumps (JDict a)] | None => [] end).
  set (mid_lines := List.map (fun c => dumps (JDict c)) cards ++ audit_lines).
  set (fl := dumps (JDict footer)).
  set (hl := dumps (JDict hdr)).
  assert (Hclean : Forall (fun l => clean_line l = true) (hl :: mid_lines ++ [fl])).
  { constructor; [apply Hh|]. unfold mid_lines. rewrite <- app_assoc.
    apply Forall_app. split.
    - rewrite Forall_forall. intros l Hl. apply in_map_iff in Hl as (c & <- & Hin).
      rewrite Forall_forall in Hc. apply (Hc c Hin).
    - apply Forall_app. split; [|constructor; [apply Hf | constructor]].
      unfold audit_lines. destruct audit as [a|]; [|constructor].
      constructor; [apply (Ha a eq_refl) | constructor]. }
  assert (Hlb : Forall (fun l => forallb (fun c => negb (is_linebreak c)) l = true)
                       (hl :: mid_lines ++ [fl])).
  { eapply Forall_impl; [|exact Hclean]. intros l Hl. now apply clean_line_spec. }
  assert (Hno : Forall (fun l => contains DATASET_END l = false) (hl :: mid_lines ++ [fl])).
  { eapply Forall_impl; [|exact Hclean]. intros l Hl. now apply clean_line_spec. }
  set (J := join [10%N] ((hl :: mid_lines) ++ [fl])).
  assert (Hrender : render ([hl] ++ mid_lines) fl
                    = DATASET_BEGIN ++ 10%N :: (J ++ [10%N]) ++ DATASET_END ++ [10%N]).
  { unfold render, J. rewrite <- flat_map_nl_join.
    change ((hl :: mid_lines) ++ [fl]) with ([hl] ++ mid_lines ++ [fl]).
    rewrite !flat_map_app.
    cbn [flat_map app]. rewrite ?app_nil_r, <- ?app_assoc. cbn [app]. reflexivity. }
  assert (Hflat : J ++ [10%N] = flat_map nl (hl :: mid_lines ++ [fl])).
  { unfold J. now rewrite <- flat_map_nl_join. }
  rewrite Hrender. unfold load.
  assert (Hcr : ~ In 13%N (DATASET_BEGIN ++ 10%N :: (J ++ [10%N]) ++ DATASET_END ++ [10%N])).
  { destruct markers_no_cr as [Hb He]. intros Hin.
    apply in_app_or in Hin as [Hin | [Hin | Hin]]; [contradiction | discriminate |].
    apply in_app_or in Hin as [Hin | Hin].
    - rewrite Hflat in Hin. apply in_flat_map in Hin as (l & Hl & Hin).
      apply in_app_or in Hin as [Hin | [Hin | []]]; [|discriminate].
      rewrite Forall_forall in Hclean. exact (@clean_line_no_cr l (Hclean l Hl) Hin).
    - apply in_app_or in Hin as [Hin | [Hin | []]]; [contradiction | discriminate]. }
  rewrite (@universal_newlines_id _ Hcr), split1_at_head.
  assert (Hcontains : contains DATASET_END
                        (DATASET_BEGIN ++ 10%N :: (J ++ [10%N]) ++ DATASET_END ++ [10%N])
                      = true).
  { apply contains_app.
    change (10%N :: (J ++ [10%N]) ++ DATASET_END ++ [10%N])
      with ((10%N :: J ++ [10%N]) ++ DATASET_END ++ [10%N]).
    apply contains_app. unfold contains. now rewrite split1_at_head. }
  rewrite Hcontains. cbn [negb].
  assert (Hsplit : split1 DATASET_END (10%N :: (J ++ [10%N]) ++ DATASET_END ++ [10%N])
                   = Some (10%N :: J ++ [10%N], [10%N])).
  { change (10%N :: (J ++ [10%N]) ++ DATASET_END ++ [10%N])
      with ([] ++ 10%N :: ((J ++ [10%N]) ++ DATASET_END ++ [10%N])).
    rewrite split1_skip_line
      by (auto using end_marker_nonempty, end_marker_one_line).
    rewrite Hflat, split1_skip_lines
      by (auto using end_marker_nonempty, end_marker_one_line).
    rewrite split1_at_head, app_nil_r. reflexivity. }
  rewrite Hsplit.
  assert (Hstrip : strip (10%N :: J ++ [10%N]) = J).
  { destruct (dumps_dict_shape hdr) as [hm Hhm].
    destruct (dumps_dict_shape footer) as [fm Hfm].
    destruct (join_head (hm ++ [125%N]) 123%N (mid_lines ++ [fl])) as [r Hr].
    destruct (join_last (hl :: mid_lines) (123%N :: fm) 125%N) as [front Hfront].
    assert (HJ1 : J = 123%N :: r) by (unfold J, hl; rewrite Hhm; exact Hr).
    assert (HJ2 : J = front ++ [125%N]) by (unfold J, fl; rewrite Hfm; exact Hfront).
    unfold strip. cbn [lstrip]. change (is_space 10) with true. cbv iota.
    rewrite HJ1. cbn [app]. rewrite lstrip_keeps by reflexivity.
    change (123%N :: r ++ [10%N]) with ((123%N :: r) ++ [10%N]).
    rewrite <- HJ1, rstrip_drops by reflexivity.
    rewrite HJ2. now apply rstrip_keeps. }
  rewrite Hstrip.
  assert (Hlines : splitlines J = (hl :: mid_lines) ++ [fl]).
  { unfold J. apply splitlines_join; [exact Hlb|].
    unfold fl. destruct (dumps_dict_shape footer) as [fm ->]. discriminate. }
  rewrite Hlines. cbn [app load_lines].
  rewrite (@load_line_dict _ hdr Hh), Hhid, text_eqb_refl.
  unfold mid_lines. rewrite <- app_assoc, load_lines_cards by assumption.
  cbn [l_header l_cards l_audit l_footer app].
  assert (Hfooter : forall acc,
             load_line acc fl
             = inr {| l_header := l_header acc; l_cards := l_cards acc;
                      l_audit := l_audit acc; l_footer := footer |}).
  { intros acc. unfold fl. rewrite (@load_line_dict _ footer Hf), Hfid.
    reflexivity. }
  unfold audit_lines. destruct audit as [a|].
  - cbn [app load_lines]. rewrite (@load_line_dict _ a (Ha a eq_refl)), (Haid a eq_refl).
    change (text_eqb AUDIT_ID HEADER_ID) with false. rewrite text_eqb_refl. cbv iota.
    rewrite Hfooter. cbn [l_header l_cards l_audit l_footer].
    rewrite (@plain_id_sort_key cards Hids). reflexivity.
  - cbn [app load_lines]. rewrite Hfooter. cbn [l_header l_cards l_audit l_footer].
    rewrite (@plain_id_sort_key cards Hids). reflexivity.
Qed.

Lemma dict_get_set_default_other (k k' : text) (v : value) (d : dict) :
  k' <> k -> dict_get k' (dict_set_default k v d) = dict_get k' d.
Proof.
  intros Hne. unfold dict_set_default.
  destruct (dict_get k d); now apply dict_get_set_other.
Qed.

Lemma stamp_header_id (now : text) (header : dict) :
  dict_get (u "segment_id") (stamp_header now header) = Some (JStr HEADER_ID).
Proof.
  unfold stamp_header.
  rewrite !dict_get_set_default_other by (vm_compute; discriminate).
  apply dict_get_set_same.
Qed.

Lemma stamp_audit_id (now : text) (audit : dict) :
  dict_get (u "segment_id") (stamp_audit now audit) = Some (JStr AUDIT_ID).
Proof.
  unfold stamp_audit.
  rewrite dict_get_set_default_other by (vm_compute; discriminate).
  apply dict_get_set_same.
Qed.

(** The footer [save] writes: it carries the reserved identifier and the
    manifest hash, whether a footer was passed in or not. *)
Lemma footer_fields (mf now : text) (n : nat) (footer : option dict) :
  let footer' := match footer with
                 | Some f => dict_update f (footer_data mf now n)
                 | None => footer_data mf now n
                 end in
  dict_get (u "segment_id") footer' = Some (JStr FOOTER_ID)
  /\ dict_get (u "manifest_sha256") footer' = Some (JStr mf).
Proof.
  destruct footer as [f|]; cbv zeta.
  - unfold dict_update, footer_data. cbn [fold_left fst snd]. split.
    + rewrite !dict_get_set_other by (vm_compute; discriminate).
      apply dict_get_set_same.
    + rewrite !dict_get_set_other by (vm_compute; discriminate).
      apply dict_get_set_same.
  - split; reflexivity.
Qed.





End LoadFacts.



Section HeaderCheck.

Import Py Json Common Common.DatasetIO.

Lemma header_errors_closed (header : dict) :
  header_errors header
  = match header with
    | [] => [u "Missing header"]
    | _ => if dict_has (u "book") header || dict_has (u "title") header then []
           else [u "Header missing both 'book' and 'title'"]
    end.
Proof.
  unfold header_errors. destruct header as [|kv header]; [reflexivity|].
  set (h := kv :: header). cbn [flat_map].
  rewrite !text_eqb_refl.
  change (text_eqb (u "title") (u "book")) with false.
  change (text_eqb (u "source_file") (u "book")) with false.
  rewrite !andb_false_r. cbn [app].
  destruct (dict_has (u "book") h), (dict_has (u "title") h); reflexivity.
Qed.

(** X1. The header part of [validate_structure] in closed form: an empty header
    is reported as missing; any other header is reported once, and only when it
    has neither ['book'] nor ['title'].  ['source_file'], which the loop also
    visits, is never asked for. *)
Theorem validate_structure_header_check
    (header : dict) (cards : list dict) (stage : option text) :
  validate_structure header cards stage
  = match header with
    | [] => [u "Missing header"]
    | _ => if dict_has (u "book") header || dict_has (u "title") header then []
           else [u "Header missing both 'book' and 'title'"]
    end
    ++ match cards with
       | [] => [u "No cards found"]
       | _ => cards_errors (required_fields_for stage) 0 cards
       end.
Proof.
  unfold validate_structure. now rewrite header_errors_closed.
Qed.

End HeaderCheck.

Section TruncateFacts.

Import Py CommonLib.

Lemma len_app (a b : text) : len (a ++ b) = (len a + len b)%Z.
Proof. unfold len. rewrite length_app. lia. Qed.

(** X2. [truncate_text] returns a text that fits as it is; a longer text is cut
    to exactly [max_length] characters, suffix included, as long as the suffix
    itself fits.  When the suffix is longer than [max_length] the slice bound is
    negative and counts from the end: the result is longer than [max_length],
    and even longer than the text it was to shorten when [max_length] is
    positive. *)
Theorem truncate_text_length (t : text) (max_length : Z) (suffix : text) :
  ((len t <= max_length)%Z -> truncate_text t max_length suffix = t)
  /\ ((len suffix <= max_length < len t)%Z ->
      truncate_text t max_length suffix
      = firstn (Z.to_nat (max_length - len suffix)) t ++ suffix
      /\ len (truncate_text t max_length suffix) = max_length)
  /\ ((max_length < len suffix)%Z -> (max_length < len t)%Z ->
      (len suffix <= len t + max_length)%Z ->
      len (truncate_text t max_length suffix) = (len t + max_length)%Z).
Proof.
  unfold truncate_text, slice_to. split; [|split].
  - intros H. apply Z.leb_le in H. now rewrite H.
  - intros [Hs Ht].
    replace (len t <=? max_length)%Z with false by (symmetry; apply Z.leb_gt; lia).
    replace (max_length - len suffix <? 0)%Z with false by (symmetry; apply Z.ltb_ge; lia).
    split; [reflexivity|].
    rewrite len_app. unfold len in *. rewrite length_firstn. lia.
  - intros Hs Ht Hl.
    replace (len t <=? max_length)%Z with false by (symmetry; apply Z.leb_gt; lia).
    replace (max_length - len suffix <? 0)%Z with true by (symmetry; apply Z.ltb_lt; lia).
    rewrite len_app. unfold len in *. rewrite length_firstn. lia.
Qed.

End TruncateFacts.

Lemma truncate_text_length_witness :
  CommonLib.truncate_text (Py.u "abcdefgh") 5 (Py.u "...") = Py.u "ab..."
  /\ Py.len (CommonLib.truncate_text (Py.u "abcdefgh") 2 (Py.u "...")) = 10%Z.
Proof.
  destruct (truncate_text_length (Py.u "abcdefgh") 5 (Py.u "...")) as (_ & H2 & _).
  destruct (truncate_text_length (Py.u "abcdefgh") 2 (Py.u "...")) as (_ & _ & H3).
  split.
  - rewrite (proj1 (H2 ltac:(vm_compute; split; [discriminate | reflexivity]))).
    reflexivity.
  - rewrite H3; [reflexivity | reflexivity | reflexivity | vm_compute; discriminate].
Defined.

Section ConfigFacts.

Import Py Json CommonLib CommonLib.ConfigLoader.
Local Open Scope N_scope.

Lemma split_parts_app (sep : N) (p q : text) :
  split_parts sep (p ++ sep :: q)
  = (fst (split_parts sep p), snd (split_parts sep p) ++ split sep q).
Proof.
  induction p as [|c p IH].
  - cbn [app split_parts]. rewrite N.eqb_refl. unfold split.
    destruct (split_parts sep q) as [a l]. reflexivity.
  - cbn [app split_parts]. rewrite IH.
    destruct (split_parts sep p) as [a l]. cbn [fst snd].
    destruct (c =? sep); reflexivity.
Qed.

Lemma split_app (sep : N) (p q : text) :
  split sep (p ++ sep :: q) = split sep p ++ split sep q.
Proof.
  unfold split at 1 2. rewrite split_parts_app.
  destruct (split_parts sep p) as [a l]. reflexivity.
Qed.

Lemma descend_app (ks1 ks2 : list text) :
  forall v : value,
    descend (ks1 ++ ks2) v
    = match descend ks1 v with
      | Some v' => descend ks2 v'
      | None => None
      end.
Proof.
  induction ks1 as [|k ks1 IH]; intros v; [reflexivity|].
  cbn [app descend]. destruct v as [| | | | |d]; try reflexivity.
  destruct (dict_get k d) as [v'|]; [apply IH | reflexivity].
Qed.

Lemma split_parts_no_sep (sep : N) (s : text) :
  ~ In sep (fst (split_parts sep s))
  /\ Forall (fun k => ~ In sep k) (snd (split_parts sep s)).
Proof.
  induction s as [|c s [IH1 IH2]]; [cbn; auto|].
  cbn [split_parts]. destruct (split_parts sep s) as [a l]. cbn [fst snd] in *.
  destruct (c =? sep) eqn:E; cbn [fst snd].
  - split; [auto | constructor; assumption].
  - apply N.eqb_neq in E. split; [|assumption].
    intros [H | H]; [congruence | contradiction].
Qed.

Lemma split_no_sep (sep : N) (s : text) : Forall (fun k => ~ In sep k) (split sep s).
Proof.
  unfold split. pose proof (split_parts_no_sep sep s) as [H1 H2].
  destruct (split_parts sep s) as [a l]. constructor; assumption.
Qed.

(** X3. [ConfigLoader.get] walks one key per dot: the value under [p.q] is the
    value under [q] in what [p] reaches, and the default as soon as a step
    meets a missing key or something that is no mapping.  The empty path is the
    key [''], not the configuration itself; [get_stage_config] is the walk
    under ['pipeline']. *)
Theorem config_get_composes (config default : value) (p q : text) :
  get config (p ++ [46] ++ q) default
  = match descend (split 46 p) config with
    | Some v => get v q default
    | None => default
    end
  /\ get config [] default
     = match config with
       | JDict d => match dict_get [] d with Some v => v | None => default end
       | _ => default
       end
  /\ get_stage_config config q
     = match config with
       | JDict d =>
           match dict_get (u "pipeline") d with
           | Some v => get v q (JDict [])
           | None => JDict []
           end
       | _ => JDict []
       end.
Proof.
  split; [|split].
  - unfold get. cbn [app]. rewrite split_app, descend_app.
    destruct (descend (split 46 p) config); reflexivity.
  - unfold get. cbn. destruct config as [| | | | |d]; try reflexivity.
    destruct (dict_get [] d); reflexivity.
  - unfold get_stage_config, get.
    change (u "pipeline." ++ q) with (u "pipeline" ++ 46 :: q).
    rewrite split_app, descend_app.
    change (split 46 (u "pipeline")) with [u "pipeline"]. cbn [descend].
    destruct config as [| | | | |d]; try reflexivity.
    destruct (dict_get (u "pipeline") d); reflexivity.
Qed.

(** X4. A key that contains a dot cannot be reached by [ConfigLoader.get]:
    setting such a key at the top of the configuration changes the answer to no
    query. *)
Theorem config_get_dotted_key_unreachable
    (k : text) (v : value) (d : dict) (key_path : text) (default : value) :
  In 46 k ->
  get (JDict (dict_set k v d)) key_path default = get (JDict d) key_path default.
Proof.
  intros Hdot. unfold get.
  pose proof (split_no_sep 46 key_path) as Hparts.
  unfold split in *. destruct (split_parts 46 key_path) as [k1 ks].
  inversion Hparts as [|? ? Hk1 _]; subst.
  cbn [descend].
  rewrite dict_get_set_other; [reflexivity|].
  intros ->. contradiction.
Qed.

End ConfigFacts.

Lemma config_get_dotted_key_unreachable_witness :
  CommonLib.ConfigLoader.get
    (Json.JDict (Json.dict_set (Py.u "ocr.enabled") (Json.JBool false)
                   [(Py.u "ocr", Json.JDict [(Py.u "enabled", Json.JBool true)])]))
    (Py.u "ocr.enabled") Json.JNull
  = Json.JBool true.
Proof.
  rewrite (@config_get_dotted_key_unreachable (Py.u "ocr.enabled") (Json.JBool false)
             [(Py.u "ocr", Json.JDict [(Py.u "enabled", Json.JBool true)])]
             (Py.u "ocr.enabled") Json.JNull).
  - reflexivity.
  - vm_compute. right. right. right. left. reflexivity.
Defined.

Section ValidatorFacts.

Import Py Json Common Common.DatasetIO CommonLib CommonLib.Validators.

Lemma flat_map_guard_nil (A B : Type) (P : A -> bool) (g : A -> B) (l : list A) :
  flat_map (fun x => if P x then [] else [g x]) l = [] <-> forallb P l = true.
Proof.
  induction l as [|x l IH]; [cbn; tauto|].
  cbn [flat_map forallb]. destruct (P x); cbn [app andb].
  - exact IH.
  - split; discriminate.
Qed.

Lemma dict_has_set (k k' : text) (v : value) (d : dict) :
  dict_has k' d = true -> dict_has k' (dict_set k v d) = true.
Proof.
  unfold dict_has. destruct (text_eq_dec k' k) as [-> | Hne].
  - now rewrite dict_get_set_same.
  - now rewrite dict_get_set_other.
Qed.

Lemma dict_has_set_iff (k k' : text) (v : value) (d : dict) :
  dict_has k d = true -> dict_has k' (dict_set k v d) = dict_has k' d.
Proof.
  intros Hk. unfold dict_has in *. destruct (text_eq_dec k' k) as [-> | Hne].
  - rewrite dict_get_set_same. destruct (dict_get k d); [reflexivity | discriminate].
  - now rewrite dict_get_set_other.
Qed.

(** X5. A card [Validators.validate_card] accepts also passes the card test of
    [DatasetIO.validate_structure] for the same stage, provided its
    [segment_id], when a string, is one [is_valid_segment_id] accepts; and its
    [page_num] and [segment], when present, are an [int] and a [str].
    [validate_card] itself never looks at the value of [segment_id]: a card it
    accepts is still accepted with a reserved identifier in its place. *)
Theorem validate_card_covers_structure (card : dict) (stage : text) (i : nat) :
  validate_card card stage = [] ->
  (forall sid, dict_get (u "segment_id") card = Some (JStr sid) ->
               is_valid_segment_id sid = true) ->
  card_errors (required_fields_for (Some stage)) i card = []
  /\ (forall v, dict_get (u "page_num") card = Some v -> is_int v = true)
  /\ (forall v, dict_get (u "segment") card = Some v -> is_str v = true)
  /\ (dict_has (u "segment_id") card = true ->
      validate_card (dict_set (u "segment_id") (JStr HEADER_ID) card) stage = []).
Proof.
  unfold validate_card. intros Hok Hsid.
  apply app_eq_nil in Hok as [Hfields Hok]. apply app_eq_nil in Hok as [Hpage Hseg].
  apply flat_map_guard_nil in Hfields.
  split; [|split; [|split]].
  - unfold card_errors. apply app_eq_nil_iff || idtac.
    replace (flat_map _ (required_fields_for (Some stage))) with (@nil text)
      by (symmetry; apply flat_map_guard_nil; exact Hfields).
    cbn [app].
    destruct (dict_get (u "segment_id") card) as [sid|] eqn:E; [|reflexivity].
    destruct sid as [| | |t| |]; try reflexivity.
    specialize (Hsid t eq_refl). unfold is_valid_segment_id in Hsid.
    destruct t as [|c t]; [reflexivity|].
    apply negb_true_iff in Hsid. now rewrite Hsid.
  - intros v Hv. rewrite Hv in Hpage. destruct (is_int v); [reflexivity | discriminate].
  - intros v Hv. rewrite Hv in Hseg. destruct (is_str v); [reflexivity | discriminate].
  - intros Hhas.
    rewrite !dict_get_set_other by (intros H; vm_compute in H; discriminate).
    rewrite Hpage, Hseg, app_nil_r. apply flat_map_guard_nil.
    rewrite forallb_forall in *. intros f Hf.
    rewrite dict_has_set_iff by exact Hhas. auto.
Qed.

End ValidatorFacts.

Lemma validate_card_covers_structure_witness :
  Common.DatasetIO.card_errors
    (Common.DatasetIO.required_fields_for (Some (Py.u "structural"))) 0
    [(Py.u "segment_id", Json.JStr (Py.u "00001"));
     (Py.u "segment", Json.JStr (Py.u "First page"));
     (Py.u "page_num", Json.JInt 1)]
  = [].
Proof.
  refine (proj1 (@validate_card_covers_structure
                   [(Py.u "segment_id", Json.JStr (Py.u "00001"));
                    (Py.u "segment", Json.JStr (Py.u "First page"));
                    (Py.u "page_num", Json.JInt 1)]
                   (Py.u "structural") 0 _ _)).
  - reflexivity.
  - intros sid H. vm_compute in H. injection H as <-. reflexivity.
Defined.

Section OrderFacts.

Import Py.
Local Open Scope N_scope.





End OrderFacts.

Section LoadInvariants.

Import Py Json Common Common.DatasetIO CommonLib.








End LoadInvariants.


Section LoadLines.

Import Py Json Common Common.DatasetIO.



End LoadLines.


Section SaveFacts.

Import Py Json Common Common.DatasetIO CommonLib.

Lemma dict_get_set_default_same (k : text) (v : value) (d : dict) :
  dict_get k (dict_set_default k v d)
  = Some (match dict_get k d with Some v' => v' | None => v end).
Proof.
  unfold dict_set_default.
  destruct (dict_get k d) as [v'|]; apply dict_get_set_same.
Qed.

Lemma utf8_encode_lines (lines : list text) :
  utf8_encode (flat_map (fun line => line ++ [10%N]) lines)
  = flat_map (fun line => utf8_encode line ++ [10%N]) lines.
Proof.
  induction lines as [|line lines IH]; [reflexivity|].
  cbn [flat_map]. unfold utf8_encode in *. rewrite !flat_map_app, IH. reflexivity.
Qed.

(** X8. What [DatasetIO.save] stamps.  In the header it forces [segment_id] and
    fills [version], [product] and [created_at] only where the caller left them
    out; every other key of the header is written as given.  In the footer its
    own six values, the card count among them, replace whatever the caller's
    footer said, and the caller's other keys are kept. *)
Theorem save_stamps
    (now_header now_audit now_footer : text)
    (header : dict) (cards : list dict) (audit footer : option dict) (validate : bool)
    (s : saved) :
  save now_header now_audit now_footer header cards audit footer validate = inr s ->
  let kept (k : text) (fallback : value) :=
    Some (match dict_get k header with Some v => v | None => fallback end) in
  dict_get (u "segment_id") (header_after s) = Some (JStr HEADER_ID)
  /\ dict_get (u "version") (header_after s) = kept (u "version") (JStr VERSION)
  /\ dict_get (u "product") (header_after s) = kept (u "product") (JStr PRODUCT_NAME)
  /\ dict_get (u "created_at") (header_after s) = kept (u "created_at") (JStr now_header)
  /\ (forall k, ~ In k header_stamps ->
                dict_get k (header_after s) = dict_get k header)
  /\ List.map (fun k => dict_get k (footer_after s)) footer_stamps
     = [Some (JStr FOOTER_ID);
        Some (JStr (manifest_sha256 (body_lines now_header now_audit header cards audit)));
        Some (JStr now_footer); Some (JStr VERSION); Some (JStr PRODUCT_NAME);
        Some (JInt (Z.of_nat (List.length cards)))]
  /\ (forall k, ~ In k footer_stamps ->
                dict_get k (footer_after s)
                = match footer with Some f => dict_get k f | None => None end).
Proof.
  intros Hsave. cbv zeta. unfold save in Hsave.
  destruct (if validate then validate_structure header cards None else [])
    as [|e errors]; [|discriminate].
  injection Hsave as <-. cbn [header_after footer_after].
  unfold stamp_header.
  split; [|split; [|split; [|split; [|split; [|split]]]]].
  - rewrite !dict_get_set_default_other by (vm_compute; discriminate).
    apply dict_get_set_same.
  - rewrite !dict_get_set_default_other by (vm_compute; discriminate).
    rewrite dict_get_set_default_same.
    rewrite dict_get_set_other by (vm_compute; discriminate). reflexivity.
  - rewrite !dict_get_set_default_other by (vm_compute; discriminate).
    rewrite dict_get_set_default_same.
    rewrite !dict_get_set_default_other by (vm_compute; discriminate).
    rewrite dict_get_set_other by (vm_compute; discriminate). reflexivity.
  - rewrite dict_get_set_default_same.
    rewrite !dict_get_set_default_other by (vm_compute; discriminate).
    rewrite dict_get_set_other by (vm_compute; discriminate). reflexivity.
  - intros k Hk. unfold header_stamps in Hk. cbn [In] in Hk.
    rewrite !dict_get_set_default_other by (intros ->; tauto).
    apply dict_get_set_other. intros ->; tauto.
  - destruct footer as [f|]; [|reflexivity].
    unfold dict_update, footer_data. cbn [fold_left fst snd List.map footer_stamps].
    repeat (rewrite ?dict_get_set_same;
            rewrite ?dict_get_set_other by (vm_compute; discriminate)).
    reflexivity.
  - intros k Hk. unfold footer_stamps in Hk. cbn [In] in Hk.
    destruct footer as [f|].
    + unfold dict_update, footer_data. cbn [fold_left fst snd].
      rewrite !dict_get_set_other by (intros ->; tauto). reflexivity.
    + unfold footer_data. cbn [dict_get].
      repeat match goal with
             | |- context [text_eqb k ?x] =>
                 replace (text_eqb k x) with false
                   by (symmetry; apply text_eqb_neq; intros ->; tauto)
             end.
      reflexivity.
Qed.

(** X9. The manifest [save] writes into the footer is the SHA-256 of the bytes
    that stand in the file between the begin marker's line and the footer's
    line: the UTF-8 encoding of the header, card and audit lines, each with its
    line feed. *)
Theorem save_manifest_covers_body
    (now_header now_audit now_footer : text)
    (header : dict) (cards : list dict) (audit footer : option dict) (validate : bool)
    (s : saved) :
  save now_header now_audit now_footer header cards audit footer validate = inr s ->
  exists body : text,
    file_content s
    = DATASET_BEGIN ++ [10%N] ++ body ++ dumps (JDict (footer_after s)) ++ [10%N]
      ++ DATASET_END ++ [10%N]
    /\ body = flat_map (fun line => line ++ [10%N])
                (body_lines now_header now_audit header cards audit)
    /\ dict_get (u "manifest_sha256") (footer_after s)
       = Some (JStr (Hashlib.sha256_hexdigest (utf8_encode body))).
Proof.
  unfold save. intros Hsave.
  destruct (if validate then validate_structure header cards None else [])
    as [|e errors]; [|discriminate].
  injection Hsave as <-. cbn [file_content footer_after].
  exists (flat_map (fun line => line ++ [10%N])
            (body_lines now_header now_audit header cards audit)).
  split; [|split; [reflexivity|]].
  - reflexivity.
  - rewrite utf8_encode_lines.
    exact (proj2 (footer_fields _ now_footer (List.length cards) footer)).
Qed.

End SaveFacts.

Lemma save_stamps_witness :
  Json.dict_get (Py.u "segment_id")
    (Common.DatasetIO.header_after (Scenarios.written Scenarios.cards_in_order))
  = Some (Json.JStr Common.HEADER_ID).
Proof.
  refine (proj1 (@save_stamps Scenarios.stamp Scenarios.stamp Scenarios.stamp
                   Scenarios.sample_header Scenarios.cards_in_order
                   (Some Scenarios.sample_audit) None true _ _)).
  vm_compute. reflexivity.
Defined.

Lemma save_manifest_covers_body_witness :
  exists body : Py.text,
    Json.dict_get (Py.u "manifest_sha256")
      (Common.DatasetIO.footer_after (Scenarios.written Scenarios.cards_in_order))
    = Some (Json.JStr (Hashlib.sha256_hexdigest (Py.utf8_encode body))).
Proof.
  destruct (@save_manifest_covers_body Scenarios.stamp Scenarios.stamp Scenarios.stamp
              Scenarios.sample_header Scenarios.cards_in_order
              (Some Scenarios.sample_audit) None true
              (Scenarios.written Scenarios.cards_in_order))
    as (body & _ & _ & H).
  - vm_compute. reflexivity.
  - exists body. exact H.
Defined.

Section MergeFacts.

Import Py Json Common Common.DatasetIO CommonLib.

Lemma dict_has_set_eq (k a : text) (v : value) (d : dict) :
  dict_has k (dict_set a v d) = text_eqb k a || dict_has k d.
Proof.
  unfold dict_has. destruct (text_eqb k a) eqn:E.
  - apply text_eqb_eq in E. subst a. now rewrite dict_get_set_same.
  - apply text_eqb_neq in E. now rewrite dict_get_set_other.
Qed.

Lemma dict_set_nonempty (a : text) (v : value) (d : dict) : dict_set a v d <> [].
Proof.
  destruct d as [|[k w] d]; cbn [dict_set]; [discriminate|].
  destruct (text_eqb a k); discriminate.
Qed.

Lemma merged_header_errors (now_merged : text) (l1 l2 : list dataset) (mh : bool)
    (base : dataset) :
  header_errors (merged_header now_merged l1 mh base)
  = header_errors (merged_header now_merged l2 mh base).
Proof.
  unfold merged_header. destruct mh; [|reflexivity].
  rewrite !header_errors_closed.
  destruct (dict_set (u "merged_at") (JStr now_merged)
              (dict_set (u "merged_from") (JList (List.map (fun d => JStr (d_path d)) l1))
                 (d_header base))) eqn:E1;
    [exfalso; exact (dict_set_nonempty _ _ _ E1)|].
  destruct (dict_set (u "merged_at") (JStr now_merged)
              (dict_set (u "merged_from") (JList (List.map (fun d => JStr (d_path d)) l2))
                 (d_header base))) eqn:E2;
    [exfalso; exact (dict_set_nonempty _ _ _ E2)|].
  rewrite <- E1, <- E2, !dict_has_set_eq. reflexivity.
Qed.

Lemma length_flat_map_cards (datasets : list dataset) :
  List.length (flat_map d_cards datasets)
  = list_sum (List.map (fun d => List.length (d_cards d)) datasets).
Proof.
  induction datasets as [|d ds IH]; [reflexivity|].
  cbn [flat_map List.map list_sum fold_right]. rewrite length_app, IH. reflexivity.
Qed.

(** X10. [DatasetIO.merge_datasets] fails with [IndexError] on an empty list.
    Otherwise it saves, with validation, the card lists laid end to end in the
    order of the datasets, under the header of the first one: when it
    succeeds the footer's [card_count] is the sum of the datasets' card
    counts, and the audits and footers of the inputs are dropped.  The
    validation looks at each card alone: merging the same datasets twice over
    succeeds whenever merging them once does, so a [segment_id] that several
    inputs share goes unnoticed. *)
Theorem merge_datasets_result
    (now_merged now_header now_audit now_footer : text) (merge_headers : bool) :
  merge_datasets now_merged now_header now_audit now_footer [] merge_headers = IndexError
  /\ (forall (datasets : list dataset) (s : saved),
        merge_datasets now_merged now_header now_audit now_footer datasets merge_headers
        = Merged (inr s) ->
        dict_get (u "card_count") (footer_after s)
        = Some (JInt (Z.of_nat (list_sum (List.map (fun d => List.length (d_cards d))
                                            datasets))))
        /\ audit_after s = None
        /\ (exists base rest,
              datasets = base :: rest
              /\ file_content s
                 = render (dumps (JDict (header_after s))
                           :: List.map (fun card => dumps (JDict card))
                                (flat_map d_cards datasets))
                          (dumps (JDict (footer_after s))))
        /\ exists s',
             merge_datasets now_merged now_header now_audit now_footer
               (datasets ++ datasets) merge_headers
             = Merged (inr s')).
Proof.
  split; [reflexivity|].
  intros datasets s H.
  destruct datasets as [|base rest]; [discriminate|].
  assert (Hsave : save now_header now_audit now_footer
                    (merged_header now_merged (base :: rest) merge_headers base)
                    (flat_map d_cards (base :: rest)) None None true = inr s)
    by (injection H as H; exact H).
  assert (Hgoal : forall x,
             save now_header now_audit now_footer
               (merged_header now_merged ((base :: rest) ++ base :: rest) merge_headers base)
               (flat_map d_cards ((base :: rest) ++ base :: rest)) None None true = x ->
             merge_datasets now_merged now_header now_audit now_footer
               ((base :: rest) ++ base :: rest) merge_headers = Merged x)
    by (intros x <-; reflexivity).
  clear H.
  remember (merged_header now_merged (base :: rest) merge_headers base) as hdr eqn:Ehdr.
  remember (flat_map d_cards (base :: rest)) as all eqn:Eall.
  unfold save in Hsave.
  destruct (validate_structure hdr all None) as [|e errs] eqn:Hval; [|discriminate].
  injection Hsave as <-.
  cbn [footer_after audit_after file_content header_after option_map].
  split; [|split; [reflexivity|split]].
  - subst all. rewrite <- length_flat_map_cards. reflexivity.
  - exists base, rest. split; [reflexivity|].
    unfold body_lines. rewrite app_nil_r. reflexivity.
  - unfold validate_structure in Hval. apply app_eq_nil in Hval as [Hh Hc].
    assert (Hval2 : validate_structure
                      (merged_header now_merged ((base :: rest) ++ base :: rest)
                         merge_headers base)
                      (flat_map d_cards ((base :: rest) ++ base :: rest)) None = []).
    { unfold validate_structure.
      rewrite flat_map_app, <- Eall.
      rewrite (merged_header_errors now_merged _ (base :: rest)), <- Ehdr, Hh.
      destruct all as [|c all']; [discriminate|].
      pose proof (cards_errors_forall _ _ _ Hc) as Hall.
      change ((c :: all') ++ c :: all') with (c :: (all' ++ c :: all')).
      cbv iota. change (c :: (all' ++ c :: all')) with ((c :: all') ++ c :: all').
      apply forall_cards_errors. apply Forall_app. split; exact Hall. }
    eexists. apply Hgoal. unfold save. rewrite Hval2. reflexivity.
Qed.

End MergeFacts.

Lemma merge_datasets_result_witness :
  let d := {| CommonLib.d_path := Py.u "a.jsonl";
              CommonLib.d_header := Scenarios.sample_header;
              CommonLib.d_cards := Scenarios.cards_in_order;
              CommonLib.d_audit := []; CommonLib.d_footer := [] |} in
  exists s',
    CommonLib.merge_datasets Scenarios.stamp Scenarios.stamp Scenarios.stamp Scenarios.stamp
      [d; d] true
    = CommonLib.Merged (inr s').
Proof.
  cbv zeta.
  destruct (proj2 (@merge_datasets_result Scenarios.stamp Scenarios.stamp Scenarios.stamp
                     Scenarios.stamp true)
                  [{| CommonLib.d_path := Py.u "a.jsonl";
                      CommonLib.d_header := Scenarios.sample_header;
                      CommonLib.d_cards := Scenarios.cards_in_order;
                      CommonLib.d_audit := []; CommonLib.d_footer := [] |}]
                  _ ltac:(vm_compute; reflexivity))
    as (_ & _ & _ & s' & H).
  exists s'. exact H.
Defined.

Section SequenceFacts.

Import Orchestrator.
Local Open Scope string_scope.
Local Open Scope list_scope.

(** X11. [_get_stage_sequence] returns the stretch of [PipelineStage.ALL] from
    [start] to [end], both included: it is never empty, begins with [start] and
    ends with [end].  It raises exactly when one of the two names is no stage or
    [start] comes after [end]. *)
Theorem stage_sequence_is_a_stretch (start end_ : string) :
  match _get_stage_sequence start end_ with
  | Some stages =>
      exists i j : nat,
        index_of start ALL = Some i /\ index_of end_ ALL = Some j /\ (i <= j)%nat
        /\ ALL = firstn i ALL ++ stages ++ skipn (S j) ALL
        /\ hd_error stages = Some start
        /\ last stages start = end_
  | None =>
      ~ In start ALL \/ ~ In end_ ALL
      \/ exists i j : nat,
           index_of start ALL = Some i /\ index_of end_ ALL = Some j /\ (j < i)%nat
  end.
Proof.
  unfold _get_stage_sequence, ALL. cbn [index_of].
  destruct (String.eqb start STRUCTURAL) eqn:S1;
    [apply String.eqb_eq in S1|
  destruct (String.eqb start STRUCTURE_DETECT) eqn:S2;
    [apply String.eqb_eq in S2|
  destruct (String.eqb start SUMMARIZE) eqn:S3;
    [apply String.eqb_eq in S3|
  destruct (String.eqb start EXTENDED) eqn:S4;
    [apply String.eqb_eq in S4|
  destruct (String.eqb start FINALIZE) eqn:S5;
    [apply String.eqb_eq in S5|
  destruct (String.eqb start CHUNK) eqn:S6;
    [apply String.eqb_eq in S6|
  destruct (String.eqb start EMBED) eqn:S7;
    [apply String.eqb_eq in S7|]]]]]]];
  try (cbn; left; apply String.eqb_neq in S1, S2, S3, S4, S5, S6, S7;
       intros [H|[H|[H|[H|[H|[H|[H|[]]]]]]]]; congruence);
  (destruct (String.eqb end_ STRUCTURAL) eqn:E1;
    [apply String.eqb_eq in E1|
  destruct (String.eqb end_ STRUCTURE_DETECT) eqn:E2;
    [apply String.eqb_eq in E2|
  destruct (String.eqb end_ SUMMARIZE) eqn:E3;
    [apply String.eqb_eq in E3|
  destruct (String.eqb end_ EXTENDED) eqn:E4;
    [apply String.eqb_eq in E4|
  destruct (String.eqb end_ FINALIZE) eqn:E5;
    [apply String.eqb_eq in E5|
  destruct (String.eqb end_ CHUNK) eqn:E6;
    [apply String.eqb_eq in E6|
  destruct (String.eqb end_ EMBED) eqn:E7;
    [apply String.eqb_eq in E7|]]]]]]]);
  try (cbn; right; left; apply String.eqb_neq in E1, E2, E3, E4, E5, E6, E7;
       intros [H|[H|[H|[H|[H|[H|[H|[]]]]]]]]; congruence);
  subst start end_; cbn;
  first [ eexists; eexists; repeat split; try reflexivity; lia
        | right; right; eexists; eexists; repeat split; try reflexivity; lia ].
Qed.

End SequenceFacts.

Section RunFacts.

Import Orchestrator Pipeline.
Local Open Scope string_scope.
Local Open Scope list_scope.

Variable path : Type.
Variable _run_stage : string -> path -> stage_outcome path.
Variable _validate_output : string -> path -> validation_outcome.
Variable validate_stages : bool.

Abbreviation run := (run_stages _run_stage _validate_output validate_stages).
Abbreviation some_stage_fails := (Pipeline.some_stage_fails _run_stage).

Lemma errors_bound (stages : list string) :
  forall st : run_state path,
    (List.length (errors (run stages st)) <= List.length (errors st) + List.length stages)%nat.
Proof.
  induction stages as [|s stages IH]; intros st; cbn [run_stages List.length]; [lia|].
  destruct (_run_stage s (current_input st)) as [out|msg].
  - specialize (IH (on_success _validate_output validate_stages s out st)).
    cbn [on_success errors] in IH. lia.
  - destruct (_is_critical_stage s).
    + cbn [on_failure errors]. rewrite length_app. cbn [List.length]. lia.
    + specialize (IH (on_failure s msg st)).
      cbn [on_failure errors] in IH. rewrite length_app in IH. cbn [List.length] in IH. lia.
Qed.

Lemma errors_grow (stages : list string) :
  forall st : run_state path,
    exists more, errors (run stages st) = errors st ++ more.
Proof.
  induction stages as [|s stages IH]; intros st; cbn [run_stages].
  - exists []. now rewrite app_nil_r.
  - destruct (_run_stage s (current_input st)) as [out|msg].
    + destruct (IH (on_success _validate_output validate_stages s out st)) as [more Hm].
      exists more. exact Hm.
    + destruct (_is_critical_stage s).
      * exists [(s, msg)]. reflexivity.
      * destruct (IH (on_failure s msg st)) as [more Hm].
        exists ((s, msg) :: more). rewrite Hm. cbn [on_failure errors].
        now rewrite <- app_assoc.
Qed.

Lemma no_error_iff (stages : list string) :
  forall st : run_state path,
    errors st = [] ->
    (errors (run stages st) = [] <-> some_stage_fails stages (current_input st) = false).
Proof.
  induction stages as [|s stages IH]; intros st Hst; cbn [run_stages some_stage_fails].
  - tauto.
  - destruct (_run_stage s (current_input st)) as [out|msg].
    + apply (IH (on_success _validate_output validate_stages s out st)). exact Hst.
    + split; [|discriminate].
      intros H. exfalso.
      destruct (_is_critical_stage s).
      * cbn [on_failure errors] in H. rewrite Hst in H. discriminate.
      * destruct (errors_grow stages (on_failure s msg st)) as [more Hm].
        rewrite Hm in H. cbn [on_failure errors] in H. rewrite Hst in H. discriminate.
Qed.

(** X12. The status [run_single] reports.  It is ['completed'] exactly when no
    stage raised.  There are never more errors than stages, so ['failed'] means
    that every stage of the sequence was tried and raised.  When the first of
    several stages is critical and raises, the loop stops with one error and
    the status is ['partial'], although no stage has succeeded and the input is
    all there is. *)
Theorem run_single_status (stages : list string) (input : path) :
  let st := run stages (initial_state input) in
  (List.length (errors st) <= List.length stages)%nat
  /\ (determine_status stages st = Completed
      <-> some_stage_fails stages input = false)
  /\ (determine_status stages st = Failed
      <-> stages <> [] /\ List.length (errors st) = List.length stages)
  /\ (forall s next rest msg,
        stages = s :: next :: rest ->
        _is_critical_stage s = true ->
        _run_stage s input = StageRaises msg ->
        determine_status stages st = Partial
        /\ stages_done st = [(s, RecFailed path msg)]
        /\ current_input st = input).
Proof.
  intros st.
  assert (Hbound : (List.length (errors st) <= List.length stages)%nat).
  { pose proof (errors_bound stages (initial_state input)) as H.
    cbn [initial_state errors List.length] in H. exact H. }
  split; [exact Hbound|]. split; [|split].
  - pose proof (no_error_iff stages (initial_state input) eq_refl) as H.
    cbn [initial_state current_input] in H. fold st in H.
    unfold determine_status. rewrite <- H.
    destruct (errors st) as [|e es].
    + tauto.
    + split; [|discriminate].
      destruct (_ <? _)%nat; discriminate.
  - unfold determine_status.
    destruct (errors st) as [|e es] eqn:E.
    + split; [discriminate|]. intros [Hne Hlen]. cbn in Hlen.
      destruct stages; [contradiction | discriminate].
    + destruct (List.length (e :: es) <? List.length stages)%nat eqn:Hlt.
      * apply Nat.ltb_lt in Hlt. split; [discriminate | intros [_ Heq]; lia].
      * apply Nat.ltb_ge in Hlt. split; [|reflexivity]. intros _.
        split; [|lia]. intros ->. cbn in Hbound. lia.
  - intros s next rest msg -> Hcrit Hfail.
    unfold st. cbn [run_stages initial_state current_input].
    rewrite Hfail, Hcrit. cbn. auto.
Qed.

End RunFacts.

Lemma run_single_status_witness :
  Orchestrator.determine_status
    [Orchestrator.STRUCTURAL; Orchestrator.STRUCTURE_DETECT; Orchestrator.SUMMARIZE]
    (Orchestrator.run_stages (fun _ (_ : nat) => Orchestrator.StageRaises "unreadable")
       Scenarios.quiet_validator true
       [Orchestrator.STRUCTURAL; Orchestrator.STRUCTURE_DETECT; Orchestrator.SUMMARIZE]
       (Orchestrator.initial_state 0%nat))
  = Orchestrator.Partial.
Proof.
  refine (proj1 (proj2 (proj2 (proj2
            (@run_single_status nat (fun _ _ => Orchestrator.StageRaises "unreadable")
               Scenarios.quiet_validator true
               [Orchestrator.STRUCTURAL; Orchestrator.STRUCTURE_DETECT;
                Orchestrator.SUMMARIZE] 0%nat)))
            Orchestrator.STRUCTURAL Orchestrator.STRUCTURE_DETECT [Orchestrator.SUMMARIZE]
            "unreadable"%string eq_refl eq_refl eq_refl)).
Defined.

Section ValidationFacts.

Import Orchestrator Pipeline.
Local Open Scope string_scope.
Local Open Scope list_scope.

Variable path : Type.
Variable _run_stage : string -> path -> stage_outcome path.

Lemma same_run_stages
    (v1 v2 : string -> path -> validation_outcome) (f1 f2 : bool) (stages : list string) :
  forall a b : run_state path,
    same_run a b ->
    same_run (run_stages _run_stage v1 f1 stages a) (run_stages _run_stage v2 f2 stages b).
Proof.
  induction stages as [|s stages IH]; intros a b Hab; cbn [run_stages]; [exact Hab|].
  destruct Hab as (Hc & Hd & He & Hi). rewrite <- Hc.
  destruct (_run_stage s (current_input a)) as [out|msg].
  - apply IH. unfold same_run. cbn [on_success current_input stages_done errors invocations].
    rewrite Hc, Hd, He, Hi. auto.
  - assert (Hf : same_run (on_failure s msg a) (on_failure s msg b)).
    { unfold same_run. cbn [on_failure current_input stages_done errors invocations].
      rewrite Hc, Hd, He, Hi. auto. }
    destruct (_is_critical_stage s); [exact Hf | apply IH; exact Hf].
Qed.

Lemma warnings_origin (v : string -> path -> validation_outcome) (f : bool)
    (stages : list string) :
  forall (st : run_state path) (stage : string) (n : Z),
    In (stage, n) (warnings (run_stages _run_stage v f stages st)) ->
    In (stage, n) (warnings st)
    \/ (f = true /\ stage <> EMBED /\ In stage stages
        /\ exists out, v stage out = Validated false n).
Proof.
  induction stages as [|s stages IH]; intros st stage n H; cbn [run_stages] in H; [now left|].
  destruct (_run_stage s (current_input st)) as [out|msg].
  - apply IH in H. destruct H as [H | (Hf & Hne & Hin & Hv)].
    + cbn [on_success warnings] in H.
      destruct (f && negb (String.eqb s EMBED)) eqn:E; [|now left].
      apply andb_true_iff in E as [Ef Ee]. apply negb_true_iff, String.eqb_neq in Ee.
      destruct (v s out) as [[|] k|] eqn:Ev; try (now left).
      apply in_app_or in H as [H | [H | []]]; [now left|].
      injection H as <- <-. right. repeat split; auto; [now left | now exists out].
    + right. repeat split; auto. now right.
  - assert (Hf : In (stage, n) (warnings (on_failure s msg st)) -> In (stage, n) (warnings st))
      by auto.
    destruct (_is_critical_stage s); [left; exact (Hf H)|].
    apply IH in H. destruct H as [H | (Hf' & Hne & Hin & Hv)]; [left; exact (Hf H)|].
    right. repeat split; auto. now right.
Qed.

(** X13. Validation never steers a run.  Whatever [_validate_output] answers or
    raises, and whether [validate_stages] is set or not, [run_single] invokes
    the same stages on the same inputs, records the same results and errors and
    reports the same status: only the warnings differ.  A warning comes from a
    stage of the sequence other than [embed] whose validation answered
    [valid: false]. *)
Theorem validation_never_steers
    (v1 v2 : string -> path -> validation_outcome) (f1 f2 : bool)
    (stages : list string) (input : path) :
  let a := run_stages _run_stage v1 f1 stages (initial_state input) in
  let b := run_stages _run_stage v2 f2 stages (initial_state input) in
  same_run a b
  /\ determine_status stages a = determine_status stages b
  /\ (forall stage n,
        In (stage, n) (warnings a) ->
        f1 = true /\ stage <> EMBED /\ In stage stages
        /\ exists out, v1 stage out = Validated false n).
Proof.
  intros a b.
  assert (Hab : same_run a b).
  { apply same_run_stages. unfold same_run. auto. }
  split; [exact Hab|]. split.
  - unfold determine_status. destruct Hab as (_ & _ & He & _). now rewrite He.
  - intros stage n H. apply warnings_origin in H. destruct H as [[] | H]. exact H.
Qed.

End ValidationFacts.

Lemma validation_never_steers_witness :
  Orchestrator.warnings
    (Orchestrator.run_stages Scenarios.flaky_pipeline Scenarios.quiet_validator true
       [Orchestrator.STRUCTURAL; Orchestrator.EMBED] (Orchestrator.initial_state 0%nat))
  = [].
Proof.
  destruct (Orchestrator.warnings
              (Orchestrator.run_stages Scenarios.flaky_pipeline Scenarios.quiet_validator true
                 [Orchestrator.STRUCTURAL; Orchestrator.EMBED]
                 (Orchestrator.initial_state 0%nat))) as [|[stage n] ws] eqn:E; [reflexivity|].
  destruct (proj2 (proj2 (@validation_never_steers nat Scenarios.flaky_pipeline
                            Scenarios.quiet_validator Scenarios.quiet_validator true true
                            [Orchestrator.STRUCTURAL; Orchestrator.EMBED] 0%nat))
                  stage n) as (_ & _ & _ & out & Hv).
  - cbv zeta. rewrite E. left. reflexivity.
  - discriminate Hv.
Defined.

Section InvocationFacts.

Import Orchestrator Pipeline.
Local Open Scope string_scope.
Local Open Scope list_scope.

Variable path : Type.
Variable _run_stage : string -> path -> stage_outcome path.
Variable _validate_output : string -> path -> validation_outcome.
Variable validate_stages : bool.

Abbreviation run := (run_stages _run_stage _validate_output validate_stages).
Abbreviation alive := (survives _run_stage).
Abbreviation best := (best_input _run_stage).
Abbreviation names := (fun st : run_state path => List.map fst (invocations st)).

Lemma invoked_all (stages : list string) :
  forall st : run_state path,
    alive stages (current_input st) = true ->
    names (run stages st) = names st ++ stages.
Proof.
  induction stages as [|s stages IH]; intros st H; cbn [run_stages survives] in *.
  - now rewrite app_nil_r.
  - destruct (_run_stage s (current_input st)) as [out|msg].
    + rewrite IH by exact H. cbn [on_success invocations].
      rewrite map_app, <- app_assoc. reflexivity.
    + apply andb_true_iff in H as [Hcrit H]. apply negb_true_iff in Hcrit.
      rewrite Hcrit. rewrite IH by exact H. cbn [on_failure invocations].
      rewrite map_app, <- app_assoc. reflexivity.
Qed.

Lemma invoked_until (stages : list string) :
  forall st : run_state path,
    alive stages (current_input st) = false ->
    exists pre s post msg,
      stages = pre ++ s :: post
      /\ alive pre (current_input st) = true
      /\ _is_critical_stage s = true
      /\ _run_stage s (best pre (current_input st)) = StageRaises msg
      /\ names (run stages st) = names st ++ pre ++ [s]
      /\ In (s, msg) (errors (run stages st)).
Proof.
  induction stages as [|s stages IH]; intros st H; cbn [run_stages survives] in *;
    [discriminate|].
  destruct (_run_stage s (current_input st)) as [out|msg] eqn:Hs.
  - destruct (IH (on_success _validate_output validate_stages s out st) H)
      as (pre & s' & post & msg & -> & Hal & Hc & Hr & Hn & He).
    exists (s :: pre), s', post, msg. cbn [survives best_input app]. rewrite Hs.
    repeat split; auto.
    rewrite Hn. cbn [on_success invocations]. rewrite map_app, <- app_assoc. reflexivity.
  - destruct (_is_critical_stage s) eqn:Hcrit.
    + exists [], s, stages, msg. cbn [survives best_input app on_failure invocations errors].
      repeat split; auto.
      * now rewrite map_app.
      * apply in_or_app. right. now left.
    + cbn [negb andb] in H.
      destruct (IH (on_failure s msg st) H)
        as (pre & s' & post & msg' & -> & Hal & Hc & Hr & Hn & He).
      exists (s :: pre), s', post, msg'. cbn [survives best_input app]. rewrite Hs, Hcrit.
      repeat split; auto.
      rewrite Hn. cbn [on_failure invocations]. rewrite map_app, <- app_assoc. reflexivity.
Qed.

(** X14. [run_single] invokes the stages in the order of the sequence, each at
    most once.  It invokes every one of them unless a critical stage raises;
    then that stage is the last one invoked, its error is recorded, and the
    stages after it are never started. *)
Theorem run_single_invokes_in_order (stages : list string) (input : path) :
  let st := run stages (initial_state input) in
  (alive stages input = true -> List.map fst (invocations st) = stages)
  /\ (alive stages input = false ->
      exists pre s post msg,
        stages = pre ++ s :: post
        /\ _is_critical_stage s = true
        /\ _run_stage s (best pre input) = StageRaises msg
        /\ List.map fst (invocations st) = pre ++ [s]
        /\ In (s, msg) (errors st))
  /\ (NoDup stages -> NoDup (List.map fst (invocations st))).
Proof.
  intros st.
  assert (H1 : alive stages input = true -> List.map fst (invocations st) = stages).
  { intros H. exact (invoked_all stages (initial_state input) H). }
  assert (H2 : alive stages input = false ->
               exists pre s post msg,
                 stages = pre ++ s :: post
                 /\ _is_critical_stage s = true
                 /\ _run_stage s (best pre input) = StageRaises msg
                 /\ List.map fst (invocations st) = pre ++ [s]
                 /\ In (s, msg) (errors st)).
  { intros H.
    destruct (invoked_until stages (initial_state input) H)
      as (pre & s & post & msg & Hst & _ & Hc & Hr & Hn & He).
    exists pre, s, post, msg. auto. }
  split; [exact H1|]. split; [exact H2|].
  intros Hnd. destruct (alive stages input) eqn:E.
  - now rewrite H1.
  - destruct (H2 eq_refl) as (pre & s & post & msg & Hst & _ & _ & Hn & _).
    rewrite Hn. rewrite Hst in Hnd.
    replace (pre ++ s :: post) with ((pre ++ [s]) ++ post) in Hnd
      by (rewrite <- app_assoc; reflexivity).
    exact (NoDup_app_remove_r _ _ Hnd).
Qed.

End InvocationFacts.

Lemma run_single_invokes_in_order_witness :
  List.map fst
    (Orchestrator.invocations
       (Orchestrator.run_stages Scenarios.flaky_pipeline Scenarios.quiet_validator true
          [Orchestrator.STRUCTURAL; Orchestrator.STRUCTURE_DETECT; Orchestrator.SUMMARIZE]
          (Orchestrator.initial_state 0%nat)))
  = [Orchestrator.STRUCTURAL; Orchestrator.STRUCTURE_DETECT; Orchestrator.SUMMARIZE].
Proof.
  refine (proj1 (@run_single_invokes_in_order nat Scenarios.flaky_pipeline
                   Scenarios.quiet_validator true
                   [Orchestrator.STRUCTURAL; Orchestrator.STRUCTURE_DETECT;
                    Orchestrator.SUMMARIZE] 0%nat) _).
  reflexivity.
Defined.

Section BatchFacts.

Import Orchestrator Pipeline.
Local Open Scope string_scope.
Local Open Scope list_scope.

Variable path : Type.
Variable _run_stage : string -> path -> stage_outcome path.
Variable _validate_output : string -> path -> validation_outcome.
Variable validate_stages : bool.
Variable dry_run : bool.

Abbreviation loop := (batch_loop _run_stage _validate_output validate_stages).
Abbreviation batch := (run_batch _run_stage _validate_output validate_stages dry_run).
Abbreviation single :=
  (run_single _run_stage _validate_output validate_stages false).

Lemma single_returns (f : path) (start_stage end_stage : string) :
  _get_stage_sequence start_stage end_stage <> None ->
  exists status st, single f start_stage end_stage = Some (ResRun status st).
Proof.
  unfold run_single. intros H.
  destruct (_get_stage_sequence start_stage end_stage) as [stages|]; [|contradiction].
  eexists. eexists. reflexivity.
Qed.

Lemma single_raises (f : path) (start_stage end_stage : string) :
  _get_stage_sequence start_stage end_stage = None ->
  single f start_stage end_stage = None.
Proof. unfold run_single. now intros ->. Qed.

Lemma accounted_step (acc acc' : batch_results path) (f : path) (files : list path) :
  Permutation (accounted acc') (f :: accounted acc) ->
  Permutation (accounted acc' ++ files) (accounted acc ++ f :: files).
Proof.
  intros H. rewrite H. cbn [app]. apply Permutation_middle.
Qed.

Lemma loop_accounts (coe : bool) (start_stage end_stage : string) (files : list path) :
  coe = true \/ _get_stage_sequence start_stage end_stage <> None ->
  forall acc : batch_results path,
    Permutation (accounted (loop coe start_stage end_stage files acc))
                (accounted acc ++ files)
    /\ total_files (loop coe start_stage end_stage files acc) = total_files acc.
Proof.
  intros Hok. induction files as [|f files IH]; intros acc; cbn [batch_loop].
  - rewrite app_nil_r. split; reflexivity.
  - assert (Hstep : forall acc',
              total_files acc' = total_files acc ->
              Permutation (accounted acc') (f :: accounted acc) ->
              Permutation (accounted (loop coe start_stage end_stage files acc'))
                          (accounted acc ++ f :: files)
              /\ total_files (loop coe start_stage end_stage files acc') = total_files acc).
    { intros acc' Ht Hp. destruct (IH acc') as [Hp' Ht']. split; [|congruence].
      rewrite Hp'. apply accounted_step. exact Hp. }
    assert (Hraised :
      coe = true ->
      Permutation
        (accounted
           (if coe
            then loop coe start_stage end_stage files
                   {| total_files := total_files acc; processed := processed acc;
                      failed := failed acc ++ [(f, Raised)]; partial := partial acc |}
            else {| total_files := total_files acc; processed := processed acc;
                    failed := failed acc ++ [(f, Raised)]; partial := partial acc |}))
        (accounted acc ++ f :: files)
      /\ total_files
           (if coe
            then loop coe start_stage end_stage files
                   {| total_files := total_files acc; processed := processed acc;
                      failed := failed acc ++ [(f, Raised)]; partial := partial acc |}
            else {| total_files := total_files acc; processed := processed acc;
                    failed := failed acc ++ [(f, Raised)]; partial := partial acc |})
         = total_files acc).
    { intros ->. apply Hstep; [reflexivity|].
      unfold accounted. cbn [processed partial failed].
      rewrite map_app. cbn [List.map fst]. rewrite !app_assoc.
      rewrite <- Permutation_cons_append. reflexivity. }
    destruct (single f start_stage end_stage) as [[stages|status st]|] eqn:Hs.
    + destruct Hok as [Hcoe | Hseq]; [exact (Hraised Hcoe)|].
      destruct (@single_returns f _ _ Hseq) as (status & st & Hr). congruence.
    + destruct status; apply Hstep; try reflexivity; unfold accounted;
        cbn [processed partial failed]; rewrite ?map_app; cbn [List.map fst].
      * rewrite <- app_assoc. cbn [app]. symmetry. apply Permutation_middle.
      * rewrite <- !app_assoc. cbn [app].
        symmetry. rewrite !app_assoc. apply Permutation_middle.
      * rewrite !app_assoc. rewrite <- Permutation_cons_append. reflexivity.
    + destruct Hok as [Hcoe | Hseq]; [exact (Hraised Hcoe)|].
      destruct (@single_returns f _ _ Hseq) as (status & st & Hr). congruence.
Qed.

Lemma loop_all_raise (start_stage end_stage : string) (files : list path) :
  _get_stage_sequence start_stage end_stage = None ->
  forall acc : batch_results path,
    loop true start_stage end_stage files acc
    = {| total_files := total_files acc; processed := processed acc;
         failed := failed acc ++ List.map (fun f => (f, Raised)) files;
         partial := partial acc |}.
Proof.
  intros Hseq. induction files as [|f files IH]; intros acc; cbn [batch_loop].
  - cbn [List.map]. rewrite app_nil_r. now destruct acc.
  - rewrite (@single_raises f _ _ Hseq), IH.
    cbn [total_files processed failed partial List.map].
    rewrite <- app_assoc. reflexivity.
Qed.

(** X15. [run_batch] accounts for every file.  With no input file it returns
    the error dictionary, and in a dry run the list of files, without running
    anything.  Otherwise [total_files] is the number of input files, and as
    long as no exception stops the loop each file lands on exactly one of
    [processed], [partial] and [failed].  When the stage names are invalid
    every run raises: all files are listed as failed, or only the first one
    when [continue_on_error] is off and the loop breaks. *)
Theorem run_batch_accounting
    (input_files : list path) (start_stage end_stage : string) (continue_on_error : bool) :
  match batch input_files start_stage end_stage continue_on_error with
  | NoInputFiles _ => input_files = []
  | BatchDryRun files => dry_run = true /\ files = input_files /\ input_files <> []
  | BatchDone r =>
      dry_run = false
      /\ total_files r = List.length input_files
      /\ (continue_on_error = true \/ _get_stage_sequence start_stage end_stage <> None ->
          Permutation (accounted r) input_files)
      /\ (_get_stage_sequence start_stage end_stage = None ->
          processed r = [] /\ partial r = []
          /\ failed r = List.map (fun f => (f, Raised))
                          (if continue_on_error then input_files
                           else firstn 1 input_files))
  end.
Proof.
  unfold run_batch. destruct input_files as [|f0 files]; [reflexivity|].
  destruct dry_run; [repeat split; discriminate|].
  set (acc0 := {| total_files := List.length (f0 :: files); processed := [];
                  failed := []; partial := [] |}).
  split; [reflexivity|]. split; [|split].
  - destruct continue_on_error.
    + exact (proj2 (@loop_accounts true start_stage end_stage (f0 :: files)
                      (or_introl eq_refl) acc0)).
    + cbn [batch_loop].
      destruct (single f0 start_stage end_stage) as [[stages|[| |] st]|] eqn:Hs;
        try reflexivity;
        (assert (Hv : _get_stage_sequence start_stage end_stage <> None)
           by (intros Hseq; rewrite (@single_raises f0 _ _ Hseq) in Hs; discriminate));
        match goal with
        | |- context [loop false _ _ files ?a] =>
            exact (proj2 (@loop_accounts false start_stage end_stage files
                            (or_intror Hv) a))
        end.
  - intros Hok. exact (proj1 (@loop_accounts continue_on_error start_stage end_stage
                                (f0 :: files) Hok acc0)).
  - intros Hseq. destruct continue_on_error.
    + rewrite (@loop_all_raise _ _ (f0 :: files) Hseq acc0). cbn. auto.
    + cbn [batch_loop]. rewrite (@single_raises f0 _ _ Hseq). cbn. auto.
Qed.

End BatchFacts.

Lemma run_batch_accounting_witness :
  match Pipeline.run_batch Scenarios.flaky_pipeline Scenarios.quiet_validator true false
          [0%nat; 5%nat] Orchestrator.STRUCTURAL Orchestrator.SUMMARIZE true with
  | Pipeline.BatchDone r => Permutation (Pipeline.accounted r) [0%nat; 5%nat]
  | _ => False
  end.
Proof.
  pose proof (@run_batch_accounting nat Scenarios.flaky_pipeline Scenarios.quiet_validator
                true false [0%nat; 5%nat] Orchestrator.STRUCTURAL Orchestrator.SUMMARIZE
                true) as H.
  destruct (Pipeline.run_batch Scenarios.flaky_pipeline Scenarios.quiet_validator true false
              [0%nat; 5%nat] Orchestrator.STRUCTURAL Orchestrator.SUMMARIZE true)
    as [|files|r]; [discriminate H | destruct H as [H _]; discriminate H|].
  destruct H as (_ & _ & H & _). apply H. left. reflexivity.
Defined.

Section BlankFacts.

Import Py Structural.
Local Open Scope Z_scope.

(** X16. [BlankPageDetector.needs_ocr] in closed form: OCR is asked for exactly
    when the stripped length of the preview is positive, at least
    [min_chars_valid], below [min_chars_ocr] and, on one of the first six pages
    with [skip_front_matter] set, at least 20.  So a detector configured with
    [min_chars_ocr <= min_chars_valid] never asks for OCR, and no text is both
    truly blank and in need of OCR. *)
Theorem needs_ocr_window (self : BlankPageDetector) (t : text) (page_num : Z) :
  let n := len (strip t) in
  (needs_ocr self t page_num = true
   <-> 0 < n /\ min_chars_valid self <= n < min_chars_ocr self
       /\ (skip_front_matter self = true -> page_num <= 5 -> 20 <= n))
  /\ (min_chars_ocr self <= min_chars_valid self -> needs_ocr self t page_num = false)
  /\ (needs_ocr self t page_num = true -> is_truly_blank self t page_num = false).
Proof.
  intros n.
  assert (Hn : 0 <= n) by (unfold n, len; lia).
  assert (Hiff : needs_ocr self t page_num = true
                 <-> 0 < n /\ min_chars_valid self <= n < min_chars_ocr self
                     /\ (skip_front_matter self = true -> page_num <= 5 -> 20 <= n)).
  { unfold needs_ocr, is_truly_blank. fold n.
    destruct (n =? 0) eqn:E0; [apply Z.eqb_eq in E0; split; [discriminate | lia]|].
    apply Z.eqb_neq in E0.
    destruct (skip_front_matter self); cbn [andb].
    - destruct (page_num <=? 5) eqn:E5; cbn [andb].
      + apply Z.leb_le in E5.
        destruct (n <? 20) eqn:E20.
        * apply Z.ltb_lt in E20. split; [discriminate|]. intros (_ & _ & H).
          specialize (H eq_refl E5). lia.
        * apply Z.ltb_ge in E20.
          destruct (n <? min_chars_valid self) eqn:Ev.
          -- apply Z.ltb_lt in Ev. split; [discriminate | lia].
          -- apply Z.ltb_ge in Ev. rewrite Z.ltb_lt. split; [intros; repeat split; lia | lia].
      + apply Z.leb_gt in E5.
        destruct (n <? min_chars_valid self) eqn:Ev.
        * apply Z.ltb_lt in Ev. split; [discriminate | lia].
        * apply Z.ltb_ge in Ev. rewrite Z.ltb_lt. split; [intros; repeat split; lia | lia].
    - destruct (n <? min_chars_valid self) eqn:Ev.
      + apply Z.ltb_lt in Ev. split; [discriminate | lia].
      + apply Z.ltb_ge in Ev. rewrite Z.ltb_lt.
        split; [intros; repeat split; try lia; discriminate | lia]. }
  split; [exact Hiff|]. split.
  - intros Hcfg. apply not_true_is_false. intros E. apply Hiff in E. lia.
  - unfold needs_ocr. destruct (is_truly_blank self t page_num); [discriminate | reflexivity].
Qed.

End BlankFacts.

Lemma needs_ocr_window_witness :
  Structural.needs_ocr
    {| Structural.min_chars_ocr := 10; Structural.min_chars_valid := 10;
       Structural.skip_front_matter := false |}
    (Py.u "A scanned page with hardly any text layer") 40
  = false.
Proof.
  refine (proj1 (proj2 (@needs_ocr_window
                          {| Structural.min_chars_ocr := 10; Structural.min_chars_valid := 10;
                             Structural.skip_front_matter := false |}
                          (Py.u "A scanned page with hardly any text layer") 40)) _).
  cbn. lia.
Defined.

Section CostFacts.

Import Py Structural Processor.

Variable normalize_text : text -> text.
Variable behaviour : extractor -> nat -> call_outcome.
Variable blank_detector : BlankPageDetector.
Variable extractors : list extractor.
Variable page_num : Z.

Abbreviation retry := (retry_loop normalize_text behaviour).
Abbreviation attempt_all := (try_with_retry normalize_text behaviour).
Abbreviation preview := (_try_non_ocr_preview behaviour extractors).
Abbreviation walk :=
  (extract_from normalize_text behaviour blank_detector extractors page_num).

Lemma call_count_app (a b : list event) :
  call_count (a ++ b) = (call_count a + call_count b)%nat.
Proof. unfold call_count. now rewrite filter_app, length_app. Qed.

Lemma total_sleep_app (a b : list event) :
  total_sleep (a ++ b) == total_sleep a + total_sleep b.
Proof.
  induction a as [|[n|d] a IH]; cbn [app total_sleep].
  - now rewrite Qplus_0_l.
  - exact IH.
  - rewrite IH. now rewrite Qplus_assoc.
Qed.

Lemma get_delay_nonneg (attempt : Z) : 0 <= RetryConfig.get_delay attempt.
Proof.
  unfold RetryConfig.get_delay. apply Q.min_glb; [|discriminate].
  unfold RetryConfig.INITIAL_DELAY, RetryConfig.BACKOFF_FACTOR.
  rewrite Qmult_1_l. apply Qpower_pos. discriminate.
Qed.

Lemma sleep_budget_nonneg (left : nat) : forall attempt, 0 <= sleep_budget left attempt.
Proof.
  induction left as [|left IH]; intros attempt; cbn [sleep_budget]; [discriminate|].
  replace 0 with (0 + 0) by reflexivity. apply Qplus_le_compat; [|apply IH].
  destruct (_ <? _)%Z; [apply get_delay_nonneg | discriminate].
Qed.

Lemma total_sleep_nonneg_calls (tr : list event) :
  forallb is_call tr = true -> total_sleep tr = 0.
Proof.
  induction tr as [|[n|d] tr IH]; cbn; auto. discriminate.
Qed.

Lemma retry_cost (n : extractor) (left : nat) :
  forall (attempt : Z) (tr : list event),
    exists more,
      snd (retry n left attempt tr) = tr ++ more
      /\ (call_count more <= left)%nat
      /\ total_sleep more <= sleep_budget left attempt.
Proof.
  induction left as [|left IH]; intros attempt tr; cbn [retry_loop].
  - exists []. rewrite app_nil_r. repeat split; [reflexivity | discriminate].
  - unfold call.
    assert (Hone : exists more,
               tr ++ [Call n] = tr ++ more
               /\ (call_count more <= S left)%nat
               /\ total_sleep more <= sleep_budget (S left) attempt).
    { exists [Call n]. repeat split; [cbn; lia|].
      cbn [total_sleep]. apply sleep_budget_nonneg. }
    destruct (behaviour n (calls_of n tr)) as [|[[t c]|]]; [|
      destruct (match t with [] => t | _ => normalize_text t end);
      [exact Hone | destruct (10 <=? len (strip _))%Z; exact Hone] | exact Hone].
    cbn [sleep_budget].
    destruct (attempt <? Z.of_nat RetryConfig.MAX_RETRIES - 1)%Z.
    + destruct (IH (attempt + 1)%Z ((tr ++ [Call n]) ++ [Sleep (RetryConfig.get_delay attempt)]))
        as (more & Hm & Hc & Hs).
      exists (Call n :: Sleep (RetryConfig.get_delay attempt) :: more).
      rewrite Hm, <- !app_assoc. repeat split.
      * change (call_count (Call n :: Sleep (RetryConfig.get_delay attempt) :: more))
          with (S (call_count more)). lia.
      * cbn [total_sleep]. apply Qplus_le_compat; [apply Qle_refl | exact Hs].
    + destruct (IH (attempt + 1)%Z (tr ++ [Call n])) as (more & Hm & Hc & Hs).
      exists (Call n :: more). rewrite Hm, <- !app_assoc. repeat split.
      * change (call_count (Call n :: more)) with (S (call_count more)). lia.
      * cbn [total_sleep]. rewrite Qplus_0_l. exact Hs.
Qed.

Lemma preview_cost (chain : list extractor) :
  forall tr : list event,
    exists more,
      snd (preview_from behaviour chain tr) = tr ++ more
      /\ (call_count more <= List.length (natives chain))%nat
      /\ total_sleep more = 0.
Proof.
  induction chain as [|n chain IH]; intros tr; cbn [preview_from].
  - exists []. rewrite app_nil_r. repeat split. cbn. lia.
  - unfold natives. cbn [filter]. fold (natives chain).
    destruct (is_ocr n); cbn [negb].
    + exact (IH tr).
    + unfold call. cbn [List.length].
      assert (Hstep : exists more,
                 snd (preview_from behaviour chain (tr ++ [Call n])) = tr ++ more
                 /\ (call_count more <= S (List.length (natives chain)))%nat
                 /\ total_sleep more = 0).
      { destruct (IH (tr ++ [Call n])) as (more & Hm & Hc & Hs).
        exists (Call n :: more). rewrite Hm, <- app_assoc. repeat split.
        - change (call_count (Call n :: more)) with (S (call_count more)). lia.
        - exact Hs. }
      destruct (behaviour n (calls_of n tr)) as [|[[t c]|]]; [exact Hstep | | exact Hstep].
      exists [Call n]. repeat split. cbn. lia.
Qed.

Lemma cap_succ (n : nat) :
  inject_Z (Z.of_nat (3 * S n)) == 3 + inject_Z (Z.of_nat (3 * n)).
Proof.
  rewrite <- (inject_Z_plus 3). apply inject_Z_injective. lia.
Qed.

Lemma budget_three : sleep_budget RetryConfig.MAX_RETRIES 0 <= 3.
Proof. vm_compute. discriminate. Qed.

Lemma walk_cost (chain : list extractor) :
  forall tr : list event,
    exists more,
      snd (walk chain tr) = tr ++ more
      /\ (call_count more
          <= 3 * List.length chain
             + List.length (ocr_entries chain) * List.length (natives extractors))%nat
      /\ total_sleep more <= inject_Z (Z.of_nat (3 * List.length chain)).
Proof.
  induction chain as [|n chain IH]; intros tr.
  - exists []. cbn [extract_from snd]. rewrite app_nil_r. repeat split; [cbn; lia | discriminate].
  - assert (Hgo : forall tr0 more0,
               tr0 = tr ++ more0 ->
               (call_count more0
                <= (if is_ocr n then List.length (natives extractors) else 0))%nat ->
               total_sleep more0 = 0 ->
               exists more,
                 snd (match attempt_all n tr0 with
                      | (Some r, tr') => (r, tr')
                      | (None, tr') => walk chain tr'
                      end) = tr ++ more
                 /\ (call_count more
                     <= 3 * List.length (n :: chain)
                        + List.length (ocr_entries (n :: chain))
                          * List.length (natives extractors))%nat
                 /\ total_sleep more <= inject_Z (Z.of_nat (3 * List.length (n :: chain)))).
    { intros tr0 more0 -> Hc0 Hs0.
      destruct (retry_cost n RetryConfig.MAX_RETRIES 0 (tr ++ more0)) as (m1 & Hm1 & Hc1 & Hs1).
      fold (attempt_all n (tr ++ more0)) in Hm1.
      assert (Hs1' : total_sleep m1 <= 3) by (eapply Qle_trans; [exact Hs1 | apply budget_three]).
      unfold RetryConfig.MAX_RETRIES in Hc1.
      assert (Hocr : (List.length (ocr_entries (n :: chain))
                      = (if is_ocr n then 1 else 0) + List.length (ocr_entries chain))%nat).
      { unfold ocr_entries. cbn [filter]. destruct (is_ocr n); reflexivity. }
      destruct (attempt_all n (tr ++ more0)) as [[r|] tr'] eqn:E; cbn [snd] in Hm1; subst tr'.
      - exists (more0 ++ m1). rewrite <- app_assoc. split; [reflexivity|]. split.
        + rewrite call_count_app, Hocr. cbn [List.length]. destruct (is_ocr n); nia.
        + rewrite total_sleep_app, Hs0, Qplus_0_l.
          eapply Qle_trans; [exact Hs1'|].
          cbn [List.length]. rewrite cap_succ.
          rewrite <- (Qplus_0_r 3) at 1. apply Qplus_le_compat; [apply Qle_refl|].
          change 0 with (inject_Z 0). rewrite <- Zle_Qle. lia.
      - destruct (IH ((tr ++ more0) ++ m1)) as (m2 & Hm2 & Hc2 & Hs2).
        exists (more0 ++ m1 ++ m2). rewrite Hm2, <- !app_assoc. split; [reflexivity|]. split.
        + rewrite !call_count_app, Hocr. cbn [List.length]. destruct (is_ocr n); nia.
        + rewrite !total_sleep_app, Hs0, Qplus_0_l.
          cbn [List.length]. rewrite cap_succ.
          apply Qplus_le_compat; assumption. }
    cbn [extract_from].
    destruct (is_ocr n) eqn:Hn.
    + destruct (preview_cost extractors tr) as (m0 & Hm0 & Hc0 & Hs0).
      fold (preview tr) in Hm0.
      destruct (preview tr) as [pv tr1] eqn:Epv. cbn [snd] in Hm0. subst tr1.
      destruct (negb (needs_ocr blank_detector pv page_num)).
      * exists m0. split; [destruct pv; reflexivity|]. split.
        -- unfold ocr_entries. cbn [filter List.length]. rewrite Hn. cbn [List.length]. nia.
        -- rewrite Hs0. change 0 with (inject_Z 0). rewrite <- Zle_Qle. lia.
      * apply (Hgo (tr ++ m0) m0 eq_refl); [exact Hc0 | exact Hs0].
    + apply (Hgo tr [] (eq_sym (app_nil_r tr))); [cbn; lia | reflexivity].
Qed.

(** X17. What one page can cost.  On every chain [TextExtractorChain.__init__]
    builds, whatever the strategies do, [extract] makes at most
    [4 * len(extractors) - 1] strategy calls (three per strategy in the retry
    loop, and one more per native strategy for the preview when OCR is in the
    chain) and sleeps at most [3 * len(extractors)] seconds: at most 15 calls
    and 12 seconds with all four strategies. *)
Theorem extract_cost_bound (a b c d e : bool) :
  build_chain a b c d e = Some extractors ->
  let tr := snd (extract normalize_text behaviour blank_detector extractors page_num) in
  (call_count tr <= 4 * List.length extractors - 1)%nat
  /\ (call_count tr <= 15)%nat
  /\ total_sleep tr <= inject_Z (Z.of_nat (3 * List.length extractors))
  /\ total_sleep tr <= 12.
Proof.
  intros Hchain tr.
  destruct (walk_cost extractors []) as (more & Hm & Hc & Hs).
  fold (extract normalize_text behaviour blank_detector extractors page_num) in Hm.
  fold tr in Hm. cbn [app] in Hm. subst more.
  assert (Hlen : (List.length (ocr_entries extractors) * List.length (natives extractors)
                  < List.length extractors)%nat
                 /\ (List.length extractors <= 4)%nat).
  { destruct a, b, c, d, e; cbn in Hchain; try discriminate;
      injection Hchain as <-; cbn; lia. }
  destruct Hlen as [Hlt Hle4].
  split; [lia|]. split; [lia|]. split; [exact Hs|].
  eapply Qle_trans; [exact Hs|].
  change 12 with (inject_Z 12). rewrite <- Zle_Qle. lia.
Qed.

End CostFacts.

Lemma extract_cost_bound_witness :
  (Processor.call_count
     (snd (Structural.extract Scenarios.plain_normalizer Scenarios.damaged_page
             Structural.default_detector Scenarios.chain_natives 0)) <= 15)%nat.
Proof.
  refine (proj1 (proj2 (@extract_cost_bound Scenarios.plain_normalizer Scenarios.damaged_page
                          Structural.default_detector Scenarios.chain_natives 0%Z
                          true true true false true _))).
  reflexivity.
Defined.

Section TableFacts.

Import Py Structural Processor.

Variable table : Type.
Variable table_behaviour : nat -> table_outcome table.

(** X18. [TableExtractorChain.extract] never raises and calls the extractor at
    most [MAX_RETRIES] times.  A call that returns, with tables or without,
    ends the loop: what it returned is the result.  A call that raises is
    followed by a sleep of [get_delay(attempt)] and the next attempt, and after
    the third failure the result is the empty list.  A chain that is disabled
    or has no extractor calls nothing. *)
Theorem table_chain_retries (self : TableExtractorChain) :
  let out := extract_tables table_behaviour self in
  let d0 := TableSleep (RetryConfig.get_delay 0) in
  let d1 := TableSleep (RetryConfig.get_delay 1) in
  (table_calls (snd out) <= RetryConfig.MAX_RETRIES)%nat
  /\ (enabled self && pdfplumber_available self = false -> out = ([], []))
  /\ (enabled self && pdfplumber_available self = true ->
      match table_behaviour 0 with
      | TablesReturn ts => out = (ts, [TableCall])
      | TablesRaise =>
          match table_behaviour 1 with
          | TablesReturn ts => out = (ts, [TableCall; d0; TableCall])
          | TablesRaise =>
              match table_behaviour 2 with
              | TablesReturn ts => out = (ts, [TableCall; d0; TableCall; d1; TableCall])
              | TablesRaise => out = ([], [TableCall; d0; TableCall; d1; TableCall])
              end
          end
      end).
Proof.
  unfold extract_tables. cbv zeta.
  destruct (enabled self), (pdfplumber_available self); cbn [negb orb andb];
    try (split; [cbn; lia | split; [intros _; reflexivity | discriminate]]).
  unfold RetryConfig.MAX_RETRIES. cbn -[RetryConfig.get_delay].
  destruct (table_behaviour 0) as [|[|t0 ts0]];
    try (split; [cbn; lia | split; [discriminate | intros _; reflexivity]]).
  cbn -[RetryConfig.get_delay].
  destruct (table_behaviour 1) as [|[|t1 ts1]];
    try (split; [cbn; lia | split; [discriminate | intros _; reflexivity]]).
  cbn -[RetryConfig.get_delay].
  destruct (table_behaviour 2) as [|[|t2 ts2]];
    (split; [cbn; lia | split; [discriminate | intros _; reflexivity]]).
Qed.

End TableFacts.

Lemma table_chain_retries_witness :
  Processor.extract_tables (fun _ : nat => @Processor.TablesRaise nat)
    {| Processor.enabled := false; Processor.pdfplumber_available := true |}
  = ([], []).
Proof.
  refine (proj1 (proj2 (@table_chain_retries nat (fun _ => @Processor.TablesRaise nat)
                          {| Processor.enabled := false;
                             Processor.pdfplumber_available := true |})) _).
  reflexivity.
Defined.

Section PageLoopFacts.

Import Py Structural Processor.

Variable table : Type.

Abbreviation pcount := (@count table).
Abbreviation names_method := (@Processor.names_method table).

Lemma count_app (P : card table -> bool) (a b : list (card table)) :
  pcount P (a ++ b) = (pcount P a + pcount P b)%nat.
Proof. unfold count. now rewrite filter_app, length_app. Qed.

Lemma count_le (P R : card table -> bool) (l : list (card table)) :
  (forall c, In c l -> P c = true -> R c = true) -> (pcount P l <= pcount R l)%nat.
Proof.
  unfold count. induction l as [|c l IH]; intros H; [reflexivity|].
  cbn [filter].
  assert (IH' : (List.length (filter P l) <= List.length (filter R l))%nat)
    by (apply IH; intros c' Hc'; apply H; now right).
  destruct (P c) eqn:Ep.
  - rewrite (H c (or_introl eq_refl) Ep). cbn [List.length]. lia.
  - destruct (R c); cbn [List.length]; lia.
Qed.

Lemma bump_sum (k : text) (d : list (text * nat)) :
  list_sum (List.map snd (bump k d)) = S (list_sum (List.map snd d)).
Proof.
  induction d as [|[k' n] d IH]; [reflexivity|].
  cbn [bump]. destruct (text_eqb k k').
  - reflexivity.
  - change (list_sum (List.map snd ((k', n) :: bump k d)))
      with (n + list_sum (List.map snd (bump k d)))%nat.
    rewrite IH.
    change (list_sum (List.map snd ((k', n) :: d))) with (n + list_sum (List.map snd d))%nat.
    lia.
Qed.

Lemma names_method_processed (file_name : text) (page_num : Z)
    (extracted : extraction) (tabs : list table) :
  names_method (_process_page file_name page_num extracted tabs)
  = negb (method_eqb (snd (fst extracted)) NONE).
Proof.
  destruct extracted as [[t m] q]. unfold names_method. cbn.
  destruct m; reflexivity.
Qed.

(** What the loop keeps true, from any state it is entered in. *)
Lemma process_pages_invariant (file_name : text) (pages : list (page_outcome table)) :
  forall (page_num : Z) (cards : list (card table)) (st : extraction_stats),
    let out := process_pages file_name page_num pages cards st in
    exists new,
      fst out = cards ++ new
      /\ List.length new = List.length pages
      /\ (success (snd out) + failed (snd out)
          = success st + failed st + List.length pages)%nat
      /\ failed (snd out) = (failed st + pcount (@has_error table) new)%nat
      /\ stats_ocr_used (snd out) = (stats_ocr_used st + pcount (fun c => ocr_used c) new)%nat
      /\ list_sum (List.map snd (methods (snd out)))
         = (list_sum (List.map snd (methods st)) + pcount names_method new)%nat
      /\ (forall c, In c new -> has_error c = true -> segment c = [])
      /\ (forall i c, nth_error new i = Some c ->
                      card_page_num c = (page_num + Z.of_nat i + 1)%Z
                      /\ segment_id c = format_05d (page_num + Z.of_nat i + 1)).
Proof.
  induction pages as [|p pages IH]; intros page_num cards st; cbn [process_pages].
  - exists []. cbv zeta. cbn [fst snd]. rewrite app_nil_r.
    split; [reflexivity|]. split; [reflexivity|].
    split; [cbn; lia|]. split; [cbn; lia|]. split; [cbn; lia|]. split; [cbn; lia|].
    split; [intros c []|]. intros [|i] c Hc; discriminate.
  - destruct p as [|extracted tabs].
    + destruct (IH (page_num + 1)%Z (cards ++ [_create_error_card table page_num file_name])
                  {| success := success st; failed := S (failed st);
                     stats_ocr_used := stats_ocr_used st; tables_found := tables_found st;
                     methods := methods st |})
        as (new & Hf & Hl & Hs & He & Ho & Hm & Hseg & Hid).
      exists (_create_error_card table page_num file_name :: new).
      cbv zeta in *. rewrite Hf, <- app_assoc. cbn [success failed stats_ocr_used methods] in *.
      change (_create_error_card table page_num file_name :: new)
        with ([_create_error_card table page_num file_name] ++ new).
      rewrite !count_app. cbn [List.length app].
      split; [reflexivity|]. split; [lia|]. split; [lia|]. split; [cbn; lia|].
      split; [cbn; lia|]. split; [cbn; lia|]. split.
      * intros c [<- | Hc]; [reflexivity | exact (Hseg c Hc)].
      * intros [|i] c Hc; cbn [nth_error] in Hc.
        -- injection Hc as <-. cbn. rewrite Z.add_0_r. auto.
        -- destruct (Hid i c Hc) as [H1 H2]. rewrite H1, H2.
           replace (page_num + 1 + Z.of_nat i + 1)%Z with (page_num + Z.of_nat (S i) + 1)%Z
             by lia. auto.
    + destruct (IH (page_num + 1)%Z
                  (cards ++ [_process_page file_name page_num extracted tabs])
                  (count_page extracted tabs st))
        as (new & Hf & Hl & Hs & He & Ho & Hm & Hseg & Hid).
      exists (_process_page file_name page_num extracted tabs :: new).
      cbv zeta in *. rewrite Hf, <- app_assoc.
      cbn [count_page success failed stats_ocr_used methods] in *.
      change (_process_page file_name page_num extracted tabs :: new)
        with ([_process_page file_name page_num extracted tabs] ++ new).
      rewrite !count_app. cbn [List.length app].
      assert (Herr : has_error (_process_page file_name page_num extracted tabs) = false)
        by (destruct extracted as [[t m] q]; reflexivity).
      assert (Hocr : ocr_used (_process_page file_name page_num extracted tabs)
                     = method_eqb (snd (fst extracted)) OCR)
        by (destruct extracted as [[t m] q]; reflexivity).
      pose proof (names_method_processed file_name page_num extracted tabs) as Hname.
      split; [reflexivity|]. split; [lia|]. split; [lia|].
      split; [unfold count at 1; cbn [filter]; rewrite Herr; cbn; lia|].
      split.
      { unfold count at 1. cbn [filter]. rewrite Hocr.
        destruct (method_eqb (snd (fst extracted)) OCR); cbn [List.length]; lia. }
      split.
      { unfold count at 1. cbn [filter]. rewrite Hname.
        destruct (method_eqb (snd (fst extracted)) NONE); cbn [negb List.length].
        - lia.
        - rewrite bump_sum in Hm. lia. }
      split.
      * intros c [<- | Hc]; [rewrite Herr; discriminate | exact (Hseg c Hc)].
      * intros [|i] c Hc; cbn [nth_error] in Hc.
        -- injection Hc as <-. destruct extracted as [[t m] q]. cbn.
           rewrite Z.add_0_r. auto.
        -- destruct (Hid i c Hc) as [H1 H2]. rewrite H1, H2.
           replace (page_num + 1 + Z.of_nat i + 1)%Z with (page_num + Z.of_nat (S i) + 1)%Z
             by lia. auto.
Qed.

(** X19. The page loop of [process_pdf] and the audit built from it.  There is
    one card per page, in page order, the card of page [i] (from 0) carrying
    [page_num = i + 1] and the five-digit [segment_id] of that number.  In the
    audit, [success_pages + failed_pages] is the number of cards; the failed
    pages are exactly the cards with [error], and each of them counts as an
    empty page; [ocr_used_count] is the number of cards with [ocr_used]; and
    the per-method counts add up to the number of cards whose
    [extraction_method] is not ["none"]. *)
Theorem process_pdf_accounting
    (file_name now : text) (pages : list (page_outcome table)) :
  let out := process_pages file_name 0 pages [] (@initial_stats) in
  let cards := fst out in
  let a := _build_audit now cards (snd out) in
  total_cards a = List.length pages
  /\ (success_pages a + failed_pages a = total_cards a)%nat
  /\ failed_pages a = error_pages a
  /\ (error_pages a <= empty_pages a)%nat
  /\ ocr_used_count a = pcount (fun c => ocr_used c) cards
  /\ list_sum (List.map snd (extraction_methods a)) = pcount names_method cards
  /\ (forall i c, nth_error cards i = Some c ->
                  card_page_num c = (Z.of_nat i + 1)%Z
                  /\ segment_id c = format_05d (Z.of_nat i + 1)).
Proof.
  intros out cards a.
  destruct (process_pages_invariant file_name pages 0 [] initial_stats)
    as (new & Hf & Hl & Hs & He & Ho & Hm & Hseg & Hid).
  cbv zeta in *. fold out in Hf, Hs, He, Ho, Hm. cbn [app] in Hf.
  cbn [initial_stats success failed stats_ocr_used methods List.map list_sum fold_right] in *.
  unfold a. cbn [_build_audit total_cards success_pages failed_pages error_pages empty_pages
                 ocr_used_count extraction_methods].
  unfold cards. rewrite Hf.
  split; [exact Hl|]. split; [lia|]. split; [exact He|]. split.
  - apply count_le. intros c Hc Herr. now rewrite (Hseg c Hc Herr).
  - split; [exact Ho|]. split; [exact Hm|].
    intros i c Hc. exact (Hid i c Hc).
Qed.

End PageLoopFacts.

Lemma process_pdf_accounting_witness :
  let pages := [ Processor.PageDone (Py.u "A page of text", Structural.PDFMINER, None)
                                    (@nil unit);
                 Processor.PageRaises ] in
  exists c,
    nth_error (fst (Processor.process_pages (Py.u "book.pdf") 0 pages []
                      Processor.initial_stats)) 1 = Some c
    /\ Structural.segment_id c = Py.u "00002".
Proof.
  cbv zeta.
  destruct (nth_error
              (fst (Processor.process_pages (Py.u "book.pdf") 0
                      [ Processor.PageDone (Py.u "A page of text", Structural.PDFMINER, None)
                                           (@nil unit);
                        Processor.PageRaises ] []
                      Processor.initial_stats)) 1) as [c|] eqn:Hc;
    [|vm_compute in Hc; discriminate].
  exists c. split; [reflexivity|].
  destruct (proj2 (proj2 (proj2 (proj2 (proj2 (proj2
              (@process_pdf_accounting unit (Py.u "book.pdf") (Py.u "now")
                 [ Processor.PageDone (Py.u "A page of text", Structural.PDFMINER, None)
                                      (@nil unit);
                   Processor.PageRaises ]))))))
             1%nat c Hc) as [_ H].
  rewrite H. reflexivity.
Defined.

Section SegmentIdFacts.

Import Py Json Structural.
Local Open Scope Z_scope.







End SegmentIdFacts.


Section ErrorDatasetFacts.

Import Py Json Common Common.DatasetIO Structural Processor.

(** X21. The dataset [_create_error_dataset] writes holds no card, so
    [validate_structure] reports it; written without validation, it is a file
    that [load] reads: no card, the error message in the header and in the
    audit, and a footer whose [product] and [created_at] are the ones [save]
    wrote over those of [_build_footer]. *)
Theorem error_dataset_loads (stem name error_msg : text) (t : clock) (s : saved) :
  _create_error_dataset stem name error_msg t = inr s ->
  storable (header_after s) ->
  (forall a, audit_after s = Some a -> storable a) ->
  storable (footer_after s) ->
  validate_structure (error_header stem name error_msg (t_header t)) [] None
  = [u "No cards found"]
  /\ exists d,
       load (Some (file_content s)) = inr d
       /\ l_cards d = []
       /\ dict_get (u "error") (l_header d) = Some (JStr error_msg)
       /\ dict_get (u "total_cards") (l_header d) = Some (JInt 0)
       /\ dict_get (u "created_at") (l_header d) = Some (JStr (t_header t))
       /\ dict_get (u "error") (l_audit d) = Some (JStr error_msg)
       /\ dict_get (u "card_count") (l_footer d) = Some (JInt 0)
       /\ dict_get (u "product") (l_footer d) = Some (JStr Common.PRODUCT_NAME)
       /\ dict_get (u "created_at") (l_footer d) = Some (JStr (t_save_footer t)).
Proof.
  intros Hsave Hh Ha Hf.
  split; [vm_compute; reflexivity|].
  unfold _create_error_dataset, save in Hsave. cbv iota in Hsave.
  injection Hsave as <-.
  cbn [file_content header_after audit_after footer_after option_map List.length] in *.
  set (body := body_lines _ _ _ _ _) in *.
  set (mf := manifest_sha256 body) in *. clearbody mf.
  set (hdr := stamp_header _ _) in *.
  set (aud := stamp_audit _ _) in *.
  pose (ftr := dict_update (_build_footer (t_footer t))
                            (footer_data mf (t_save_footer t) 0)).
  change (storable ftr) in Hf.
  change (dict_update _ _) with ftr.
  exists {| l_header := hdr; l_cards := sort_cards [];
            l_audit := aud; l_footer := ftr |}.
  split.
  - assert (Hbody : body = [dumps (JDict hdr)]
                           ++ List.map (fun c => dumps (JDict c)) []
                           ++ match Some aud with
                              | Some a => [dumps (JDict a)]
                              | None => []
                              end) by reflexivity.
    rewrite Hbody.
    apply (@load_render hdr [] (Some aud) ftr Hh (Forall_nil _)).
    + intros a [= <-]. apply Ha. reflexivity.
    + exact Hf.
    + apply stamp_header_id.
    + intros a [= <-]. apply stamp_audit_id.
    + apply (proj1 (footer_fields mf (t_save_footer t) 0 (Some (_build_footer (t_footer t))))).
    + reflexivity.
  - cbn [l_cards l_header l_audit l_footer sort_cards].
    subst hdr aud ftr.
    repeat split; vm_compute; reflexivity.
Qed.

End ErrorDatasetFacts.

Lemma error_dataset_loads_witness :
  let t := {| Processor.t_header := Py.u "2024-05-01T10:00:00Z";
              Processor.t_audit := Py.u "2024-05-01T10:00:00Z";
              Processor.t_footer := Py.u "2024-05-01T10:00:00Z";
              Processor.t_save_header := Py.u "2024-05-01T10:00:01Z";
              Processor.t_save_audit := Py.u "2024-05-01T10:00:01Z";
              Processor.t_save_footer := Py.u "2024-05-01T10:00:01Z" |} in
  exists s d,
    Processor._create_error_dataset (Py.u "My Book") (Py.u "My Book.pdf")
      (Py.u "cannot open") t = inr s
    /\ Common.DatasetIO.load (Some (Common.DatasetIO.file_content s)) = inr d
    /\ Common.DatasetIO.l_cards d = []
    /\ Json.dict_get (Py.u "error") (Common.DatasetIO.l_header d)
       = Some (Json.JStr (Py.u "cannot open")).
Proof.
  cbv zeta.
  set (t := {| Processor.t_header := Py.u "2024-05-01T10:00:00Z";
               Processor.t_audit := Py.u "2024-05-01T10:00:00Z";
               Processor.t_footer := Py.u "2024-05-01T10:00:00Z";
               Processor.t_save_header := Py.u "2024-05-01T10:00:01Z";
               Processor.t_save_audit := Py.u "2024-05-01T10:00:01Z";
               Processor.t_save_footer := Py.u "2024-05-01T10:00:01Z" |}).
  destruct (Processor._create_error_dataset (Py.u "My Book") (Py.u "My Book.pdf")
              (Py.u "cannot open") t) as [errs|s] eqn:Hsave;
    [vm_compute in Hsave; discriminate|].
  assert (Hh : Common.DatasetIO.storable (Common.DatasetIO.header_after s)).
  { vm_compute in Hsave. injection Hsave as <-. split; vm_compute; reflexivity. }
  assert (Ha : forall a, Common.DatasetIO.audit_after s = Some a ->
                         Common.DatasetIO.storable a).
  { vm_compute in Hsave. injection Hsave as <-.
    intros a [= <-]. split; vm_compute; reflexivity. }
  assert (Hf : Common.DatasetIO.storable (Common.DatasetIO.footer_after s)).
  { vm_compute in Hsave. injection Hsave as <-. split; vm_compute; reflexivity. }
  destruct (proj2 (@error_dataset_loads _ _ _ _ _ Hsave Hh Ha Hf))
    as (d & Hload & Hcards & Herr & _).
  exists s, d. repeat split; assumption.
Defined.

Section NavigationFacts.

Import Py Json Common Common.DatasetIO Extended ExtendedStage.

Lemma replace_at_length (i : nat) (c : dict) (l : list dict) :
  List.length (replace_at i c l) = List.length l.
Proof.
  revert i. induction l as [|x l IH]; intros [|i]; cbn; auto.
Qed.

Lemma replace_at_nth (l : list dict) :
  forall (i j : nat) (c : dict),
    (i < List.length l)%nat ->
    nth_error (replace_at i c l) j = if (j =? i)%nat then Some c else nth_error l j.
Proof.
  induction l as [|x l IH]; intros [|i] [|j] c Hi; cbn in *; try lia; auto.
  apply IH. lia.
Qed.

Lemma link_to_set (k : text) (v : value) (c : dict) :
  k <> u "page_num" -> k <> u "segment_id" ->
  link_to (dict_set k v c) = link_to c.
Proof.
  intros H1 H2. unfold link_to, get_or_none.
  rewrite !dict_get_set_other by (intros E; symmetry in E; contradiction).
  reflexivity.
Qed.

Lemma link_to_linked (cards : list dict) (i : nat) (c : dict) :
  link_to (linked cards i c) = link_to c.
Proof.
  unfold linked.
  destruct (nth_error cards (S i)) as [n|];
    [rewrite link_to_set by (vm_compute; discriminate)|];
    (destruct i as [|j]; [reflexivity|]);
    (destruct (nth_error cards j) as [p|]; [|reflexivity]);
    apply link_to_set; vm_compute; discriminate.
Qed.

(** The state of the list after the first [n] turns: the cards before [n] are
    linked, the others are as they were. *)
Lemma link_loop_state (cards : list dict) (n : nat) :
  (n <= List.length cards)%nat ->
  let st := fold_left link_card (seq 0 n) cards in
  List.length st = List.length cards
  /\ forall j, nth_error st j
               = if (j <? n)%nat then option_map (linked cards j) (nth_error cards j)
                 else nth_error cards j.
Proof.
  induction n as [|n IH]; intros Hn; cbv zeta.
  - cbn [seq fold_left]. split; [reflexivity|]. intros j. reflexivity.
  - rewrite seq_S, fold_left_app. cbn [fold_left Nat.add].
    destruct IH as [Hlen Hnth]; [lia|].
    set (st := fold_left link_card (seq 0 n) cards) in *.
    assert (Hn' : (n < List.length cards)%nat) by lia.
    destruct (nth_error cards n) as [card|] eqn:Ecard;
      [|apply nth_error_None in Ecard; lia].
    assert (Hcur : nth_error st n = Some card).
    { rewrite Hnth, Nat.ltb_irrefl. exact Ecard. }
    assert (Hstep : link_card st n = replace_at n (linked cards n card) st).
    { unfold link_card. rewrite Hcur. cbv zeta. f_equal.
      unfold linked. rewrite Hlen.
      assert (Hnext : nth_error st (n + 1) = nth_error cards (S n)).
      { rewrite Hnth. replace (n + 1)%nat with (S n) by lia.
        destruct (S n <? n)%nat eqn:E; [apply Nat.ltb_lt in E; lia | reflexivity]. }
      assert (Hprev : match n with
                      | O => card
                      | S j => match nth_error cards j with
                               | Some prev_card =>
                                   dict_set (u "prev_page") (link_to prev_card) card
                               | None => card
                               end
                      end
                      = if (0 <? n)%nat then
                          match nth_error st (n - 1) with
                          | Some prev_card =>
                              dict_set (u "prev_page") (link_to prev_card) card
                          | None => card
                          end
                        else card).
      { destruct n as [|j]; [reflexivity|].
        change (0 <? S j)%nat with true. cbv iota.
        replace (S j - 1)%nat with j by lia.
        rewrite Hnth.
        destruct (j <? S j)%nat eqn:E; [|apply Nat.ltb_ge in E; lia].
        destruct (nth_error cards j) as [p|]; cbn [option_map]; [|reflexivity].
        now rewrite link_to_linked. }
      rewrite Hprev, Hnext.
      destruct (n <? List.length cards - 1)%nat eqn:E.
      - reflexivity.
      - apply Nat.ltb_ge in E.
        destruct (nth_error cards (S n)) eqn:En; [|reflexivity].
        assert (S n < List.length cards)%nat
          by (apply nth_error_Some; rewrite En; discriminate).
        lia. }
    rewrite Hstep. split; [rewrite replace_at_length; exact Hlen|].
    intros j. rewrite replace_at_nth by lia.
    destruct (Nat.eqb_spec j n) as [-> | Hne].
    + destruct (n <? S n)%nat eqn:E; [|apply Nat.ltb_ge in E; lia].
      rewrite Ecard. reflexivity.
    + rewrite Hnth.
      destruct (j <? n)%nat eqn:E1, (j <? S n)%nat eqn:E2; try reflexivity;
        [apply Nat.ltb_lt in E1; apply Nat.ltb_ge in E2; lia
        |apply Nat.ltb_ge in E1; apply Nat.ltb_lt in E2; lia].
Qed.

Lemma add_navigation_links_nth (cards : list dict) (i : nat) :
  nth_error (_add_navigation_links cards) i
  = option_map (linked cards i) (nth_error cards i).
Proof.
  unfold _add_navigation_links.
  destruct (@link_loop_state cards (List.length cards) (Nat.le_refl _)) as [_ Hnth].
  rewrite Hnth.
  destruct (i <? List.length cards)%nat eqn:E; [reflexivity|].
  apply Nat.ltb_ge in E.
  assert (Hnone : nth_error cards i = None) by (apply nth_error_None; exact E).
  rewrite Hnone. reflexivity.
Qed.

Lemma linked_spec (cards : list dict) (i : nat) (card : dict) :
  nth_error cards i = Some card ->
  let card' := linked cards i card in
  (forall k, k <> u "prev_page" -> k <> u "next_page" ->
             dict_get k card' = dict_get k card)
  /\ dict_get (u "prev_page") card'
     = match i with
       | O => dict_get (u "prev_page") card
       | S j => option_map link_to (nth_error cards j)
       end
  /\ dict_get (u "next_page") card'
     = match nth_error cards (S i) with
       | Some next_card => Some (link_to next_card)
       | None => dict_get (u "next_page") card
       end.
Proof.
  intros Hcard. cbv zeta.
  assert (Hprev_some : forall j, i = S j -> exists p, nth_error cards j = Some p).
  { intros j ->. destruct (nth_error cards j) eqn:E; [eauto|].
    apply nth_error_None in E.
    assert (S j < List.length cards)%nat
      by (apply nth_error_Some; rewrite Hcard; discriminate).
    lia. }
  unfold linked. split; [|split].
  - intros k Hp Hn.
    destruct (nth_error cards (S i)) as [n|];
      [rewrite dict_get_set_other by assumption|];
      (destruct i as [|j]; [reflexivity|]);
      (destruct (nth_error cards j) as [p|]; [|reflexivity]);
      apply dict_get_set_other; assumption.
  - destruct (nth_error cards (S i)) as [n|];
      [rewrite dict_get_set_other by (vm_compute; discriminate)|];
      (destruct i as [|j]; [reflexivity|]);
      (destruct (Hprev_some j eq_refl) as [p Hp]; rewrite Hp);
      apply dict_get_set_same.
  - destruct (nth_error cards (S i)) as [n|]; [apply dict_get_set_same|].
    destruct i as [|j]; [reflexivity|].
    destruct (nth_error cards j) as [p|]; [|reflexivity].
    apply dict_get_set_other. vm_compute. discriminate.
Qed.

Lemma add_navigation_links_length (cards : list dict) :
  List.length (_add_navigation_links cards) = List.length cards.
Proof.
  unfold _add_navigation_links.
  exact (proj1 (@link_loop_state cards (List.length cards) (Nat.le_refl _))).
Qed.

(** X22. [_add_navigation_links] keeps the cards and their order and touches
    two keys only.  After it, every card but the first holds under
    ['prev_page'] the page number and the identifier of the card before it,
    and every card but the last holds under ['next_page'] those of the card
    after it ([None] for a key the neighbour lacks).  The first card gets no
    ['prev_page'] and the last no ['next_page']: what they held under these
    keys before, if anything, stays. *)
Theorem navigation_links (cards : list dict) (i : nat) (card : dict) :
  nth_error cards i = Some card ->
  exists card',
    nth_error (_add_navigation_links cards) i = Some card'
    /\ List.length (_add_navigation_links cards) = List.length cards
    /\ (forall k, k <> u "prev_page" -> k <> u "next_page" ->
                  dict_get k card' = dict_get k card)
    /\ dict_get (u "prev_page") card'
       = match i with
         | O => dict_get (u "prev_page") card
         | S j => option_map link_to (nth_error cards j)
         end
    /\ dict_get (u "next_page") card'
       = match nth_error cards (S i) with
         | Some next_card => Some (link_to next_card)
         | None => dict_get (u "next_page") card
         end.
Proof.
  intros Hcard. exists (linked cards i card).
  split; [rewrite add_navigation_links_nth, Hcard; reflexivity|].
  split; [apply add_navigation_links_length|].
  exact (linked_spec cards i Hcard).
Qed.

Lemma cards_errors_at (fields : list text) (cards : list dict) :
  forall (i j : nat) (card : dict),
    nth_error cards i = Some card ->
    card_errors fields 0 card <> [] ->
    cards_errors fields j cards <> [].
Proof.
  intros i j card Hnth Hne Hnil.
  pose proof (cards_errors_forall _ _ _ Hnil) as Hall.
  rewrite Forall_forall in Hall.
  apply Hne, Hall. eapply nth_error_In; eassumption.
Qed.

Lemma missing_field_reported (field : text) (fields : list text) (n : nat) (card : dict) :
  In field fields -> dict_has field card = false ->
  In (u "Card " ++ str_of_N (N.of_nat n) ++ u ": missing required field '" ++ field ++ u "'")
     (card_errors fields n card)
  /\ In (u "Missing required field: " ++ field)
        (flat_map (fun f => if dict_has f card then []
                            else [u "Missing required field: " ++ f]) fields).
Proof.
  intros Hin Hno. split.
  - unfold card_errors. apply in_or_app. left.
    apply in_flat_map. exists field. split; [exact Hin|].
    rewrite Hno. left. reflexivity.
  - apply in_flat_map. exists field. split; [exact Hin|].
    rewrite Hno. left. reflexivity.
Qed.

(** X23. The cards [_add_navigation_links] returns do not meet the required
    fields of the stage they leave: unless the first card came with a
    ['prev_page'] of its own, [validate_structure] for the stage ['extended']
    reports it as card 0, and [Validators.validate_card] rejects it; and unless
    the last card came with a ['next_page'], both reject the last card too. *)
Theorem navigation_links_miss_required_fields
    (header : dict) (cards : list dict) (first last : dict) :
  hd_error cards = Some first ->
  nth_error cards (List.length cards - 1) = Some last ->
  let out := _add_navigation_links cards in
  let errors := validate_structure header out (Some (u "extended")) in
  (dict_has (u "prev_page") first = false ->
   In (u "Card 0: missing required field 'prev_page'") errors
   /\ exists first',
        hd_error out = Some first'
        /\ In (u "Missing required field: prev_page")
              (CommonLib.Validators.validate_card first' (u "extended")))
  /\ (dict_has (u "next_page") last = false ->
      errors <> []
      /\ exists last',
           nth_error out (List.length out - 1) = Some last'
           /\ In (u "Missing required field: next_page")
                 (CommonLib.Validators.validate_card last' (u "extended"))).
Proof.
  intros Hfirst Hlast out errors.
  assert (Hfields : required_fields_for (Some (u "extended"))
                    = [u "segment_id"; u "segment"; u "page_num"; u "prev_page";
                       u "next_page"]) by reflexivity.
  assert (H0 : nth_error cards 0 = Some first)
    by (destruct cards; [discriminate | exact Hfirst]).
  set (n := (List.length cards - 1)%nat) in *.
  assert (Hpos : (0 < List.length cards)%nat)
    by (destruct cards; [discriminate | cbn; lia]).
  assert (Hlen : List.length out = List.length cards)
    by apply add_navigation_links_length.
  assert (Hout0 : nth_error out 0 = Some (linked cards 0 first)).
  { unfold out. rewrite add_navigation_links_nth, H0. reflexivity. }
  assert (HoutL : nth_error out n = Some (linked cards n last)).
  { unfold out. rewrite add_navigation_links_nth, Hlast. reflexivity. }
  assert (Herrors : errors = header_errors header
                             ++ cards_errors (required_fields_for (Some (u "extended"))) 0 out).
  { unfold errors, validate_structure. destruct out; [discriminate | reflexivity]. }
  split.
  - intros Hno.
    assert (Hno' : dict_has (u "prev_page") (linked cards 0 first) = false).
    { unfold dict_has in *.
      rewrite (proj1 (proj2 (linked_spec cards 0 H0))). exact Hno. }
    destruct (@missing_field_reported (u "prev_page")
                (required_fields_for (Some (u "extended"))) 0 _
                ltac:(rewrite Hfields; cbn; tauto) Hno') as [E1 E2].
    split.
    + rewrite Herrors. apply in_or_app. right.
      destruct out as [|o0 orest]; [discriminate|].
      injection Hout0 as ->.
      cbn [cards_errors]. apply in_or_app. left. exact E1.
    + exists (linked cards 0 first). split.
      * destruct out; [discriminate | exact Hout0].
      * unfold CommonLib.Validators.validate_card. apply in_or_app. left. exact E2.
  - intros Hno.
    assert (Hno' : dict_has (u "next_page") (linked cards n last) = false).
    { unfold dict_has in *.
      rewrite (proj2 (proj2 (linked_spec cards n Hlast))).
      assert (Hnone : nth_error cards (S n) = None)
        by (apply nth_error_None; unfold n; lia).
      rewrite Hnone. exact Hno. }
    destruct (@missing_field_reported (u "next_page")
                (required_fields_for (Some (u "extended"))) 0 _
                ltac:(rewrite Hfields; cbn; tauto) Hno') as [E1 E2].
    split.
    + rewrite Herrors. intros Hnil.
      apply app_eq_nil in Hnil as [_ Hnil].
      refine (@cards_errors_at _ _ _ 0 _ HoutL _ Hnil).
      intros E. rewrite E in E1. contradiction.
    + rewrite Hlen. fold n. eexists. split; [exact HoutL|].
      unfold CommonLib.Validators.validate_card. apply in_or_app. left. exact E2.
Qed.

End NavigationFacts.

Lemma navigation_links_witness :
  let cards := [ Scenarios.sample_card "00001" "First segment" 1;
                 Scenarios.sample_card "00002" "Second segment" 2 ] in
  exists card',
    nth_error (ExtendedStage._add_navigation_links cards) 1 = Some card'
    /\ Json.dict_get (Py.u "prev_page") card'
       = Some (Json.JDict [ (Py.u "page_num", Json.JInt 1);
                            (Py.u "segment_id", Json.JStr (Py.u "00001")) ])
    /\ Json.dict_get (Py.u "next_page") card' = None.
Proof.
  cbv zeta.
  destruct (@navigation_links
              [ Scenarios.sample_card "00001" "First segment" 1;
                Scenarios.sample_card "00002" "Second segment" 2 ] 1 _ eq_refl)
    as (card' & Hnth & _ & _ & Hprev & Hnext).
  exists card'. split; [exact Hnth|]. split.
  - rewrite Hprev. reflexivity.
  - rewrite Hnext. reflexivity.
Defined.

Lemma navigation_links_miss_required_fields_witness :
  let cards := [ Scenarios.sample_card "00001" "First segment" 1;
                 Scenarios.sample_card "00002" "Second segment" 2 ] in
  In (Py.u "Card 0: missing required field 'prev_page'")
     (Common.DatasetIO.validate_structure Scenarios.sample_header
        (ExtendedStage._add_navigation_links cards) (Some (Py.u "extended"))).
Proof.
  cbv zeta.
  refine (proj1 (proj1 (@navigation_links_miss_required_fields Scenarios.sample_header
                          [ Scenarios.sample_card "00001" "First segment" 1;
                            Scenarios.sample_card "00002" "Second segment" 2 ]
                          _ _ eq_refl eq_refl) _)).
  reflexivity.
Defined.

Section JaccardFacts.

Import Py Extended Extended.TextAnalyzer.
Local Open Scope Q_scope.

Abbreviation common a b := (filter (fun w => mem w (to_set b)) (to_set a)).
Abbreviation union a b := (to_set (to_set a ++ to_set b)).

Lemma common_In (a b : list text) (w : text) :
  In w (common a b) <-> In w a /\ In w b.
Proof. rewrite filter_In, mem_In, !to_set_In. tauto. Qed.

Lemma union_In (a b : list text) (w : text) :
  In w (union a b) <-> In w a \/ In w b.
Proof. rewrite to_set_In, in_app_iff, !to_set_In. tauto. Qed.

Lemma same_members_length (l l' : list text) :
  NoDup l -> NoDup l' -> (forall w, In w l <-> In w l') ->
  List.length l = List.length l'.
Proof.
  intros H1 H2 H. apply Permutation_length, NoDup_Permutation; assumption.
Qed.

Lemma common_le_union (a b : list text) :
  (List.length (common a b) <= List.length (union a b))%nat.
Proof.
  apply NoDup_incl_length.
  - apply NoDup_filter, to_set_NoDup.
  - intros w Hw. apply union_In. apply common_In in Hw. tauto.
Qed.

Lemma union_positive (a b : list text) :
  a <> [] -> (0 < List.length (union a b))%nat.
Proof.
  intros Ha. destruct a as [|x a]; [contradiction|].
  assert (Hin : In x (union (x :: a) b)) by (apply union_In; left; now left).
  destruct (union (x :: a) b); [contradiction | cbn; lia].
Qed.

Lemma Zpos_of_nat (n : nat) : (0 < n)%nat -> Z.pos (Pos.of_nat n) = Z.of_nat n.
Proof.
  intros Hn. rewrite <- positive_nat_Z, Nat2Pos.id by lia. reflexivity.
Qed.

(** The similarity of two lists that both hold a token: the quotient of the
    two counts. *)
Lemma jaccard_quotient (a b : list text) :
  a <> [] -> b <> [] ->
  jaccard_similarity a b
  = Qred (Qmake (Z.of_nat (List.length (common a b)))
                (Pos.of_nat (List.length (union a b)))).
Proof.
  intros Ha Hb. pose proof (union_positive b Ha) as Hpos.
  destruct a as [|x a]; [contradiction|]. destruct b as [|y b]; [contradiction|].
  unfold jaccard_similarity. cbv zeta.
  apply Nat.ltb_lt in Hpos. rewrite Hpos. reflexivity.
Qed.

(** The similarity is a number between 0 and 1. *)
Lemma jaccard_bounds (a b : list text) : 0 <= jaccard_similarity a b <= 1.
Proof.
  destruct a as [|x a'] eqn:Ea; destruct b as [|y b'] eqn:Eb;
    try (cbn; split; unfold Qle; cbn; lia).
  rewrite <- Ea, <- Eb.
  assert (Ha : a <> []) by (rewrite Ea; discriminate).
  assert (Hb : b <> []) by (rewrite Eb; discriminate).
  rewrite (jaccard_quotient Ha Hb), Qred_correct.
  pose proof (common_le_union a b) as Hle.
  pose proof (union_positive b Ha) as Hpos.
  unfold Qle. cbn [Qnum Qden]. rewrite Zpos_of_nat by exact Hpos. lia.
Qed.

(** X24. [jaccard_similarity] does not depend on the order of its arguments
    and lies between 0 and 1.  It is 1 exactly when the two lists hold the
    same tokens, whatever their order and repetitions (two empty lists
    included), and 0 exactly when they share no token and are not both
    empty. *)
Theorem jaccard_similarity_properties (a b : list text) :
  jaccard_similarity a b = jaccard_similarity b a
  /\ 0 <= jaccard_similarity a b <= 1
  /\ (jaccard_similarity a b == 1 <-> (forall w, In w a <-> In w b))
  /\ (jaccard_similarity a b == 0
      <-> (a <> [] \/ b <> []) /\ (forall w, In w a -> ~ In w b)).
Proof.
  destruct a as [|x a'] eqn:Ea; destruct b as [|y b'] eqn:Eb.
  - change (jaccard_similarity [] []) with 1.
    split; [reflexivity|]. split; [split; unfold Qle; cbn; lia|].
    split; [split; [tauto | reflexivity]|].
    split; [intros H; discriminate H | intros [[H | H] _]; contradiction].
  - change (jaccard_similarity [] (y :: b')) with 0.
    change (jaccard_similarity (y :: b') []) with 0.
    split; [reflexivity|]. split; [split; unfold Qle; cbn; lia|].
    split.
    + split; [intros H; discriminate H|].
      intros H. exfalso. apply (proj2 (H y)). now left.
    + split; [|reflexivity].
      intros _. split; [right; discriminate | intros w []].
  - change (jaccard_similarity [] (x :: a')) with 0.
    change (jaccard_similarity (x :: a') []) with 0.
    split; [reflexivity|]. split; [split; unfold Qle; cbn; lia|].
    split.
    + split; [intros H; discriminate H|].
      intros H. exfalso. apply (proj1 (H x)). now left.
    + split; [|reflexivity].
      intros _. split; [left; discriminate | intros w _ []].
  - rewrite <- Ea, <- Eb.
    assert (Ha : a <> []) by (rewrite Ea; discriminate).
    assert (Hb : b <> []) by (rewrite Eb; discriminate).
    clear Ea Eb.
    rewrite (jaccard_quotient Ha Hb), (jaccard_quotient Hb Ha).
    assert (Hi : List.length (common a b) = List.length (common b a)).
    { apply same_members_length; try (apply NoDup_filter, to_set_NoDup).
      intros w. rewrite !common_In. tauto. }
    assert (Hu : List.length (union a b) = List.length (union b a)).
    { apply same_members_length; try apply to_set_NoDup.
      intros w. rewrite !union_In. tauto. }
    pose proof (common_le_union a b) as Hle.
    pose proof (union_positive b Ha) as Hpos.
    set (i := List.length (common a b)) in *.
    set (n := List.length (union a b)) in *.
    assert (Hval : Qred (Qmake (Z.of_nat i) (Pos.of_nat n))
                   == Qmake (Z.of_nat i) (Pos.of_nat n)) by apply Qred_correct.
    split; [rewrite <- Hi, <- Hu; reflexivity|].
    split; [unfold i, n; rewrite <- (jaccard_quotient Ha Hb); apply jaccard_bounds|].
    split.
    + rewrite Hval. unfold Qeq. cbn [Qnum Qden]. rewrite Zpos_of_nat by exact Hpos.
      split.
      * intros Heq. assert (Hin : i = n) by lia.
        assert (Hincl : incl (union a b) (common a b)).
        { apply NoDup_length_incl.
          - apply NoDup_filter, to_set_NoDup.
          - fold i. fold n. lia.
          - intros w Hw. apply union_In. apply common_In in Hw. tauto. }
        intros w. split; intros Hw.
        -- assert (In w (common a b)) by (apply Hincl, union_In; tauto).
           apply common_In in H. tauto.
        -- assert (In w (common a b)) by (apply Hincl, union_In; tauto).
           apply common_In in H. tauto.
      * intros Hsame.
        assert (i = n); [|lia].
        apply same_members_length;
          [apply NoDup_filter, to_set_NoDup | apply to_set_NoDup|].
        intros w. rewrite common_In, union_In.
        specialize (Hsame w). tauto.
    + rewrite Hval. unfold Qeq. cbn [Qnum Qden].
      split.
      * intros Heq. assert (Hz : i = 0%nat) by lia.
        split; [left; exact Ha|].
        intros w Hwa Hwb.
        assert (Hin : In w (common a b)) by (apply common_In; tauto).
        unfold i in Hz. apply length_zero_iff_nil in Hz. rewrite Hz in Hin. contradiction.
      * intros [_ Hdis].
        assert (Hnil : common a b = []).
        { destruct (common a b) as [|w l] eqn:E; [reflexivity|].
          assert (Hin : In w (common a b)) by (rewrite E; now left).
          apply common_In in Hin. exfalso. apply (Hdis w); tauto. }
        unfold i. rewrite Hnil. cbn. lia.
Qed.

End JaccardFacts.

Section ContinuityInvariants.

Import Py Extended Extended.TextAnalyzer Extended.ContinuityAuditor.
Local Open Scope Q_scope.

Abbreviation unit_interval q := (0 <= q /\ q <= 1).

(** [round(x, 3)] keeps a number of the unit interval in it. *)
Lemma round3_unit (q : Q) : unit_interval q -> unit_interval (round3 q).
Proof.
  intros [H0 H1]. unfold round3. cbv zeta.
  unfold Qle in H0, H1. cbn [Qnum Qden] in H0, H1.
  set (n := (Qnum q * 1000)%Z).
  set (d := Z.pos (Qden q)) in *.
  assert (Hd : (0 < d)%Z) by (unfold d; lia).
  pose proof (Z.div_mod n d ltac:(lia)) as Hdm.
  pose proof (Z.mod_pos_bound n d Hd) as Hr.
  set (fl := (n / d)%Z) in *. set (r := (n mod d)%Z) in *.
  assert (Hn : (0 <= n <= 1000 * d)%Z) by (unfold n; lia).
  assert (Hfl : (0 <= fl <= 1000)%Z) by nia.
  assert (Hk : (0 <= (if (2 * r <? d)%Z then fl
                      else if (d <? 2 * r)%Z then fl + 1
                           else if Z.even fl then fl else fl + 1) <= 1000)%Z).
  { destruct (2 * r <? d)%Z eqn:E1; [lia|].
    apply Z.ltb_ge in E1.
    assert (fl <= 999)%Z by nia.
    destruct (d <? 2 * r)%Z; [lia|]. destruct (Z.even fl); lia. }
  rewrite Qred_correct. unfold Qle. cbn [Qnum Qden]. lia.
Qed.

Lemma fold_Qplus_bounds (l : list Q) :
  Forall (fun x => unit_interval x) l ->
  forall acc : Q,
    acc <= fold_left Qplus l acc
    /\ fold_left Qplus l acc <= acc + inject_Z (Z.of_nat (List.length l)).
Proof.
  induction 1 as [|x l [Hx0 Hx1] _ IH]; intros acc.
  - cbn. split; [apply Qle_refl|]. rewrite Qplus_0_r. apply Qle_refl.
  - cbn [fold_left List.length]. destruct (IH (acc + x)) as [Hlo Hhi]. split.
    + eapply Qle_trans; [|exact Hlo].
      rewrite <- (Qplus_0_r acc) at 1. apply Qplus_le_compat; [apply Qle_refl | exact Hx0].
    + eapply Qle_trans; [exact Hhi|].
      rewrite Nat2Z.inj_succ. unfold Z.succ. rewrite inject_Z_plus.
      rewrite (Qplus_comm (inject_Z (Z.of_nat (List.length l))) (inject_Z 1)).
      rewrite Qplus_assoc.
      apply Qplus_le_compat; [|apply Qle_refl].
      apply Qplus_le_compat; [apply Qle_refl | exact Hx1].
Qed.

Lemma average_unit (l : list Q) :
  l <> [] -> Forall (fun x => unit_interval x) l ->
  unit_interval (Qsum l / inject_Z (Z.of_nat (List.length l))).
Proof.
  intros Hne Hall. destruct (fold_Qplus_bounds Hall 0) as [Hlo Hhi].
  rewrite Qplus_0_l in Hhi. fold (Qsum l) in Hlo, Hhi.
  assert (Hpos : 0 < inject_Z (Z.of_nat (List.length l))).
  { change 0 with (inject_Z 0). rewrite <- Zlt_Qlt.
    destruct l; [contradiction | cbn [List.length]; lia]. }
  split.
  - apply Qle_shift_div_l; [exact Hpos|]. rewrite Qmult_0_l. exact Hlo.
  - apply Qle_shift_div_r; [exact Hpos|]. rewrite Qmult_1_l. exact Hhi.
Qed.

(** What one turn of the loop adds. *)
Lemma audit_pair_adds (thr : Q) (prev curr : card) (st : audit_state) :
  let c' := fst (audit_pair thr prev curr st) in
  let st' := snd (audit_pair thr prev curr st) in
  (c' = curr \/ c' = flag_gap curr)
  /\ exists gs os,
       gaps st' = gaps st ++ gs /\ overlaps st' = overlaps st ++ os
       /\ (List.length gs <= List.length os <= 1)%nat
       /\ Forall (fun g => unit_interval (overlap g)) gs
       /\ Forall (fun x => unit_interval x) os
       /\ (thr <= 0 -> gs = [] /\ c' = curr).
Proof.
  cbv zeta. unfold audit_pair.
  assert (Hnone : (curr = curr \/ curr = flag_gap curr)
                  /\ exists gs os : list _,
                       gaps st = gaps st ++ gs /\ overlaps st = overlaps st ++ os
                       /\ (List.length gs <= List.length os <= 1)%nat
                       /\ Forall (fun g => unit_interval (overlap g)) gs
                       /\ Forall (fun x => unit_interval x) os
                       /\ (thr <= 0 -> gs = [] /\ curr = curr)).
  { split; [now left|]. exists [], []. rewrite !app_nil_r.
    repeat split; auto. }
  destruct (marked_duplicate curr); [exact Hnone|].
  destruct (tokenize (get_segment prev)) as [|p ps] eqn:Ep; [exact Hnone|].
  destruct (tokenize (get_segment curr)) as [|q qs] eqn:Eq; [exact Hnone|].
  pose proof (jaccard_bounds (p :: ps) (q :: qs)) as Hb.
  destruct (Qltb _ thr) eqn:Elt; cbn [fst snd gaps overlaps].
  - split; [now right|].
    eexists [_], [_]. split; [reflexivity|]. split; [reflexivity|].
    split; [cbn; lia|].
    split; [constructor; [cbn [overlap]; apply round3_unit; exact Hb | constructor]|].
    split; [constructor; [exact Hb | constructor]|].
    intros Hthr. exfalso. apply Qltb_lt in Elt.
    apply (Qlt_irrefl 0). eapply Qle_lt_trans; [apply Hb|].
    eapply Qlt_le_trans; [exact Elt | exact Hthr].
  - split; [now left|].
    exists [], [jaccard_similarity (p :: ps) (q :: qs)].
    rewrite app_nil_r. split; [reflexivity|]. split; [reflexivity|].
    split; [cbn; lia|].
    split; [constructor|].
    split; [constructor; [exact Hb | constructor]|].
    intros _. split; reflexivity.
Qed.

Lemma audit_loop_adds (thr : Q) (rest : list card) :
  forall (prev : card) (st : audit_state),
    let out := fst (audit_loop thr prev rest st) in
    let st' := snd (audit_loop thr prev rest st) in
    Forall2 (fun c c' => c' = c \/ c' = flag_gap c) rest out
    /\ exists gs os,
         gaps st' = gaps st ++ gs /\ overlaps st' = overlaps st ++ os
         /\ (List.length gs <= List.length os <= List.length rest)%nat
         /\ Forall (fun g => unit_interval (overlap g)) gs
         /\ Forall (fun x => unit_interval x) os
         /\ (thr <= 0 -> gs = [] /\ out = rest).
Proof.
  induction rest as [|curr rest IH]; intros prev st; cbv zeta.
  - cbn. split; [constructor|]. exists [], []. rewrite !app_nil_r.
    repeat split; auto.
  - cbn [audit_loop].
    destruct (audit_pair_adds thr prev curr st)
      as (Hc & gs1 & os1 & Hg1 & Ho1 & Hl1 & Hgb1 & Hob1 & Hthr1).
    destruct (audit_pair thr prev curr st) as [c' st1]. cbn [fst snd] in *.
    specialize (IH c' st1). cbv zeta in IH.
    destruct IH as (Hf & gs2 & os2 & Hg2 & Ho2 & Hl2 & Hgb2 & Hob2 & Hthr2).
    destruct (audit_loop thr c' rest st1) as [out st2]. cbn [fst snd] in *.
    split; [constructor; assumption|].
    exists (gs1 ++ gs2), (os1 ++ os2).
    split; [rewrite Hg2, Hg1, app_assoc; reflexivity|].
    split; [rewrite Ho2, Ho1, app_assoc; reflexivity|].
    split; [rewrite !length_app; cbn [List.length]; lia|].
    split; [apply Forall_app; split; assumption|].
    split; [apply Forall_app; split; assumption|].
    intros Hthr. destruct (Hthr1 Hthr) as [-> ->]. destruct (Hthr2 Hthr) as [-> ->].
    split; reflexivity.
Qed.

(** X25. [audit_continuity] keeps every card in its place and changes nothing
    but the flag.  The first card is never flagged.  [gap_count] is the length
    of [gaps] and at most [len(cards) - 1]; [gap_ratio], [avg_overlap] and the
    overlap of every gap lie between 0 and 1.  With a threshold of 0 or less no
    gap is found and no card is flagged. *)
Theorem audit_continuity_invariants (thr : Q) (cards : list card) :
  let rep := fst (audit_continuity thr cards) in
  let out := snd (audit_continuity thr cards) in
  Forall2 (fun c c' => c' = c \/ c' = flag_gap c) cards out
  /\ hd_error out = hd_error cards
  /\ gap_count rep = List.length (r_gaps rep)
  /\ (gap_count rep <= List.length cards - 1)%nat
  /\ unit_interval (gap_ratio rep)
  /\ unit_interval (avg_overlap rep)
  /\ Forall (fun g => unit_interval (overlap g)) (r_gaps rep)
  /\ (thr <= 0 -> r_gaps rep = [] /\ out = cards).
Proof.
  cbv zeta. unfold audit_continuity.
  destruct cards as [|first rest].
  - cbn. repeat split; try constructor; try (unfold Qle; cbn; lia).
  - pose proof (audit_loop_adds thr rest first {| gaps := []; overlaps := [] |}) as H.
    cbv zeta in H.
    destruct H as (Hf & gs & os & Hg & Ho & Hl & Hgb & Hob & Hthr).
    destruct (audit_loop thr first rest {| gaps := []; overlaps := [] |}) as [out st].
    cbn [fst snd gaps overlaps app] in *.
    unfold make_report. cbn [r_gaps gap_count gap_ratio avg_overlap].
    rewrite Hg, Ho.
    split; [constructor; [now left | exact Hf]|].
    split; [reflexivity|].
    split; [reflexivity|].
    split; [cbn [List.length]; lia|].
    split.
    { rewrite Qred_correct. unfold Qle. cbn [Qnum Qden List.length].
      rewrite Zpos_of_nat by lia. split; lia. }
    split.
    { destruct os as [|o os'].
      - split; unfold Qle; cbn; lia.
      - apply round3_unit, average_unit; [discriminate | exact Hob]. }
    split; [exact Hgb|].
    intros Hle. destruct (Hthr Hle) as [-> ->]. split; reflexivity.
Qed.

End ContinuityInvariants.

Section DedupAccounting.

Import Py Extended Extended.TextAnalyzer Extended.DuplicateDetector ExtendedStage.

Abbreviation keys := (List.map (@fst text (list Z))).
Abbreviation hash_of := (fun c : card => text_hash (get_segment c)).
Abbreviation group_of :=
  (fun entry : text * list Z =>
     if (1 <? List.length (snd entry))%nat
     then [{| pages := sorted_pages (snd entry); similarity := 1; group_type := u "exact" |}]
     else []).

Lemma NoDup_app_disjoint (A : Type) (l1 l2 : list A) (a : A) :
  NoDup (l1 ++ l2) -> In a l1 -> ~ In a l2.
Proof.
  induction l1 as [|x l1 IH]; cbn; intros Hnd Hin; [contradiction|].
  inversion Hnd as [|? ? Hx Hnd']; subst.
  destruct Hin as [-> | Hin]; [|now apply IH].
  intros H. apply Hx, in_or_app. now right.
Qed.

Lemma NoDup_flat_map_sub (A B : Type) (f g : A -> list B) (l : list A) :
  NoDup (flat_map f l) ->
  (forall x, In x l -> NoDup (g x) /\ incl (g x) (f x)) ->
  NoDup (flat_map g l).
Proof.
  induction l as [|x l IH]; cbn; intros Hnd H; [constructor|].
  destruct (H x (or_introl eq_refl)) as [Hg Hincl].
  apply NoDup_app.
  - exact Hg.
  - apply IH; [eapply NoDup_app_remove_l; exact Hnd|].
    intros y Hy. apply H. now right.
  - intros a Ha Hin. apply (NoDup_app_disjoint _ _ a Hnd); [now apply Hincl|].
    apply in_flat_map in Hin as (y & Hy & Hay). apply in_flat_map.
    exists y. split; [exact Hy|]. apply (proj2 (H y (or_intror Hy))). exact Hay.
Qed.

Lemma NoDup_tl (A : Type) (l : list A) : NoDup l -> NoDup (tl l).
Proof. destruct l; cbn; intros H; [constructor | now inversion H]. Qed.

Lemma pages_for_NoDup (cards : list card) (h : text) :
  NoDup (List.map get_page_num cards) -> NoDup (pages_for h cards).
Proof. intros Hnd. unfold pages_for. now apply NoDup_map_filter. Qed.

Lemma sorted_pages_NoDup (ps : list Z) : NoDup ps -> NoDup (sorted_pages ps).
Proof.
  intros H. eapply Permutation_NoDup; [|exact H].
  apply Permutation_sym, sorted_pages_perm.
Qed.

(** With page numbers that are pairwise distinct, no page stands twice in the
    groups. *)
Lemma entries_pages_NoDup (cards : list card) (es : list (text * list Z)) :
  NoDup (List.map get_page_num cards) ->
  NoDup (keys es) ->
  (forall h ps, In (h, ps) es -> ps = pages_for h cards) ->
  NoDup (flat_map pages (flat_map group_of es)).
Proof.
  intros Hnd. induction es as [|[h ps] es IH]; intros Hk Hps; [constructor|].
  cbn [flat_map]. rewrite flat_map_app.
  inversion Hk as [|? ? Hh Hk']; subst.
  assert (Hrest : NoDup (flat_map pages (flat_map group_of es))).
  { apply IH; [exact Hk'|]. intros h' ps' Hin. apply Hps. now right. }
  cbn [snd]. destruct (1 <? List.length ps)%nat; [|exact Hrest].
  cbn [flat_map pages]. rewrite app_nil_r.
  assert (Eps : ps = pages_for h cards) by (apply Hps; now left).
  apply NoDup_app; [apply sorted_pages_NoDup; rewrite Eps; exact (@pages_for_NoDup cards h Hnd)
                   | exact Hrest |].
  intros p Hp Hin.
  apply (Permutation_in _ (sorted_pages_perm _)) in Hp. rewrite Eps in Hp.
  apply pages_for_In in Hp as (c & Hc & _ & Hhc & Hpc).
  apply in_flat_map in Hin as (g & Hg & Hpg).
  apply in_flat_map in Hg as ([h' ps'] & He & Hg). cbn [snd] in Hg.
  destruct (1 <? List.length ps')%nat; [|contradiction].
  destruct Hg as [<- | []]. cbn [pages] in Hpg.
  apply (Permutation_in _ (sorted_pages_perm _)) in Hpg.
  rewrite (Hps h' ps' (or_intror He)) in Hpg.
  apply pages_for_In in Hpg as (c' & Hc' & _ & Hhc' & Hpc').
  assert (c = c') by (apply (NoDup_map_inj get_page_num cards); congruence).
  subst c'. apply Hh. replace h with h' by congruence.
  apply in_map_iff. exists (h', ps'). split; [reflexivity | exact He].
Qed.

Lemma groups_pages_NoDup (cards : list card) :
  NoDup (List.map get_page_num cards) ->
  NoDup (flat_map pages (detect_duplicates cards)).
Proof.
  intros Hnd. destruct (first_pass_spec cards) as (Hk & _ & He).
  unfold detect_duplicates. exact (@entries_pages_NoDup cards _ Hnd Hk He).
Qed.

Lemma group_pages (cards : list card) (g : dup_group) :
  In g (detect_duplicates cards) ->
  (1 < List.length (pages g))%nat
  /\ forall p, In p (pages g) -> In p (List.map get_page_num cards).
Proof.
  intros Hg. apply detect_duplicates_In in Hg as (h & _ & Hlen & ->). cbn [pages].
  split.
  - rewrite (Permutation_length (sorted_pages_perm _)). exact Hlen.
  - intros p Hp. apply (Permutation_in _ (sorted_pages_perm _)) in Hp.
    apply pages_for_In in Hp as (c & Hc & _ & _ & <-). now apply in_map.
Qed.

Lemma sum_pages_less_one (groups : list dup_group) :
  (forall g, In g groups -> (0 < List.length (pages g))%nat) ->
  forall acc : Z,
    fold_left Z.add (List.map (fun d => (len_pages d - 1)%Z) groups) acc
    = (acc + Z.of_nat (List.length (DuplicateDetector.duplicate_pages groups)))%Z
    /\ (List.length (flat_map pages groups)
        = List.length (DuplicateDetector.duplicate_pages groups) + List.length groups)%nat.
Proof.
  induction groups as [|g groups IH]; intros Hpos acc.
  - cbn. split; lia.
  - cbn [List.map fold_left flat_map List.length]. unfold DuplicateDetector.duplicate_pages in *.
    cbn [flat_map]. rewrite !length_app.
    destruct (IH (fun g' H => Hpos g' (or_intror H)) (acc + (len_pages g - 1))%Z)
      as [E1 E2].
    rewrite E1, E2. pose proof (Hpos g (or_introl eq_refl)) as Hg.
    unfold len_pages. destruct (pages g) as [|p ps]; cbn [List.length tl] in *; [lia|].
    split; lia.
Qed.

(** The cards whose page stands in a list of pairwise distinct pages of the
    cards are as many as the pages of the list. *)
Lemma count_pages (cards : list card) (ps : list Z) :
  NoDup (List.map get_page_num cards) -> NoDup ps ->
  (forall p, In p ps -> In p (List.map get_page_num cards)) ->
  List.length (filter (fun c => mem_page (get_page_num c) ps) cards) = List.length ps.
Proof.
  intros Hnd Hps Hincl.
  rewrite <- (length_map get_page_num).
  apply Permutation_length, NoDup_Permutation; [now apply NoDup_map_filter | exact Hps |].
  intros p. rewrite in_map_iff. split.
  - intros (c & <- & Hc). apply filter_In in Hc as [_ Hc]. now apply mem_page_In.
  - intros Hp. destruct (proj1 (in_map_iff _ _ _) (Hincl p Hp)) as (c & <- & Hc).
    exists c. split; [reflexivity|]. apply filter_In. split; [exact Hc|].
    now apply mem_page_In.
Qed.

Lemma first_pass_map (f : card -> card) (cards : list card) :
  (forall c, get_segment (f c) = get_segment c /\ get_page_num (f c) = get_page_num c) ->
  first_pass (List.map f cards) = first_pass cards.
Proof.
  intros Hf. unfold first_pass. generalize (@nil (text * list Z)).
  induction cards as [|c cards IH]; intros seen; [reflexivity|].
  cbn [List.map fold_left]. destruct (Hf c) as [-> ->]. apply IH.
Qed.

Lemma mark_card_reads (groups : list dup_group) (c : card) :
  get_segment (mark_card groups c) = get_segment c
  /\ get_page_num (mark_card groups c) = get_page_num c.
Proof.
  destruct (mark_card_frame groups c) as (Hp & Hs & _).
  unfold get_segment, get_page_num. now rewrite Hp, Hs.
Qed.

Lemma mark_card_twice (groups : list dup_group) (c : card) :
  mark_card groups (mark_card groups c) = mark_card groups c.
Proof.
  unfold mark_card at 1. rewrite (proj2 (mark_card_reads groups c)).
  destruct (mem_page (get_page_num c) (DuplicateDetector.duplicate_pages groups)) eqn:E; [|reflexivity].
  unfold mark_card. rewrite E. cbn.
  destruct (canonical_of (get_page_num c) groups); reflexivity.
Qed.

(** X26. The deduplication step, for cards whose page numbers are pairwise
    distinct.  The number [mark_duplicates] returns is the [duplicate_pages]
    of the stage audit, the sum of [len(pages) - 1] over the groups; marked
    pages and groups together are at most as many as the cards.  And for any
    cards: detection reads nothing that marking writes, so detecting again
    after marking finds the same groups, and marking again changes no card and
    returns the same number. *)
Theorem dedup_accounting
    (now : text) (cards : list card) (report : option ContinuityAuditor.report)
    (extracted_count : nat) :
  let groups := detect_duplicates cards in
  let marked := mark_duplicates cards groups in
  let a := _build_audit now (fst marked) groups report extracted_count in
  (NoDup (List.map get_page_num cards) ->
   duplicate_pages a = Z.of_nat (snd marked)
   /\ (snd marked + duplicate_groups a <= total_cards a)%nat)
  /\ total_cards a = List.length cards
  /\ detect_duplicates (fst marked) = groups
  /\ mark_duplicates (fst marked) groups = marked.
Proof.
  cbv zeta. unfold mark_duplicates, _build_audit.
  cbn [fst snd total_cards duplicate_groups ExtendedStage.duplicate_pages].
  set (groups := detect_duplicates cards).
  split; [|split; [apply length_map | split]].
  - intros Hnd.
    assert (Hpos : forall g, In g groups -> (0 < List.length (pages g))%nat).
    { intros g Hg. destruct (group_pages cards g Hg) as [H _]. lia. }
    destruct (sum_pages_less_one groups Hpos 0) as [Hsum Hlen].
    assert (HD : NoDup (DuplicateDetector.duplicate_pages groups)).
    { unfold DuplicateDetector.duplicate_pages.
      apply (@NoDup_flat_map_sub _ _ pages); [exact (@groups_pages_NoDup cards Hnd)|].
      intros g Hg. split; [|intros p; apply In_tl].
      apply NoDup_tl. apply detect_duplicates_In in Hg as (h & _ & _ & ->). cbn [pages].
      apply sorted_pages_NoDup. exact (@pages_for_NoDup cards h Hnd). }
    assert (Hincl : forall p, In p (DuplicateDetector.duplicate_pages groups) ->
                              In p (List.map get_page_num cards)).
    { intros p Hp. apply duplicate_pages_In in Hp as (g & Hg & Hp).
      apply (proj2 (group_pages cards g Hg)). now apply In_tl. }
    rewrite (@count_pages cards _ Hnd HD Hincl), Hsum. split; [lia|].
    rewrite length_map.
    assert (Hle : (List.length (flat_map pages groups) <= List.length cards)%nat).
    { rewrite <- (length_map get_page_num cards).
      apply NoDup_incl_length; [exact (@groups_pages_NoDup cards Hnd)|].
      intros p Hp. apply in_flat_map in Hp as (g & Hg & Hp).
      now apply (proj2 (group_pages cards g Hg)). }
    lia.
  - unfold detect_duplicates. rewrite first_pass_map by apply mark_card_reads.
    reflexivity.
  - f_equal.
    + rewrite map_map. apply map_ext. intros c. apply mark_card_twice.
    + clearbody groups. induction cards as [|c cards' IH]; [reflexivity|].
      cbn [List.map filter]. rewrite (proj2 (mark_card_reads groups c)).
      destruct (mem_page _ _); cbn [List.length]; rewrite IH; reflexivity.
Qed.

End DedupAccounting.

Lemma dedup_accounting_witness :
  let groups := Extended.DuplicateDetector.detect_duplicates Scenarios.book_with_copy in
  let marked := Extended.DuplicateDetector.mark_duplicates Scenarios.book_with_copy groups in
  ExtendedStage.duplicate_pages
    (ExtendedStage._build_audit (Py.u "2024-05-01T10:00:00Z") (fst marked) groups None 0)
  = Z.of_nat (snd marked).
Proof.
  cbv zeta.
  refine (proj1 (proj1 (@dedup_accounting (Py.u "2024-05-01T10:00:00Z")
                          Scenarios.book_with_copy None 0%nat) _)).
  cbn. repeat constructor; cbn; intuition discriminate.
Defined.

Section KeyTermFacts.

Import Py Extended Extended.TextAnalyzer ExtendedStage.

Abbreviation term_keys := (List.map (@fst text nat)).
Abbreviation long w := (3 <? len w)%Z.
Abbreviation by_count := (fun x y : text * nat => (snd y <= snd x)%nat).

Lemma freq_get_bump (w w' : text) (freq : list (text * nat)) :
  freq_get w' (bump w freq)
  = (freq_get w' freq + if text_eqb w' w then 1 else 0)%nat.
Proof.
  induction freq as [|[k n] freq IH]; cbn [bump freq_get].
  - destruct (text_eqb w' w); reflexivity.
  - destruct (text_eqb w k) eqn:E; cbn [freq_get].
    + apply text_eqb_eq in E. subst k.
      destruct (text_eqb w' w); lia.
    + destruct (text_eqb w' k) eqn:E'; [|exact IH].
      apply text_eqb_eq in E'. subst k.
      assert (Hne : text_eqb w' w = false).
      { apply text_eqb_neq. intros ->. rewrite text_eqb_refl in E. discriminate. }
      rewrite Hne. lia.
Qed.

Lemma keys_bump (w k : text) (freq : list (text * nat)) :
  In k (term_keys (bump w freq)) <-> k = w \/ In k (term_keys freq).
Proof.
  induction freq as [|[k0 n] freq IH]; cbn [bump List.map fst In].
  - intuition.
  - destruct (text_eqb w k0) eqn:E; cbn [List.map fst In].
    + apply text_eqb_eq in E. subst k0. intuition.
    + rewrite IH. intuition.
Qed.

Lemma keys_bump_NoDup (w : text) (freq : list (text * nat)) :
  NoDup (term_keys freq) -> NoDup (term_keys (bump w freq)).
Proof.
  induction freq as [|[k0 n] freq IH]; cbn [bump List.map fst]; intros Hnd.
  - repeat constructor. intros [].
  - inversion Hnd as [|? ? Hk Hnd']; subst.
    destruct (text_eqb w k0) eqn:E; cbn [List.map fst].
    + constructor; assumption.
    + constructor; [|now apply IH].
      rewrite keys_bump. intros [-> | Hin]; [|contradiction].
      rewrite text_eqb_refl in E. discriminate.
Qed.

Lemma freq_get_In (w : text) (freq : list (text * nat)) :
  freq_get w freq <> 0%nat -> In (w, freq_get w freq) freq.
Proof.
  induction freq as [|[k n] freq IH]; cbn [freq_get]; intros H; [contradiction|].
  destruct (text_eqb w k) eqn:E.
  - apply text_eqb_eq in E. subst k. now left.
  - right. now apply IH.
Qed.

Lemma In_freq_get (k : text) (n : nat) (freq : list (text * nat)) :
  NoDup (term_keys freq) -> In (k, n) freq -> freq_get k freq = n.
Proof.
  induction freq as [|[k0 n0] freq IH]; cbn [freq_get List.map fst];
    intros Hnd Hin; [contradiction|].
  inversion Hnd as [|? ? Hk Hnd']; subst.
  destruct (text_eqb k k0) eqn:E.
  - apply text_eqb_eq in E. subst k0.
    destruct Hin as [[= ->] | Hin]; [reflexivity|].
    exfalso. apply Hk. apply in_map_iff. exists (k, n). auto.
  - destruct Hin as [[= -> ->] | Hin]; [rewrite text_eqb_refl in E; discriminate|].
    now apply IH.
Qed.

(** The dictionary of the counting loop: one entry per long token, holding
    the number of its occurrences. *)
Lemma count_loop (tokens : list text) :
  forall acc : list (text * nat),
    let freq := fold_left (fun freq token => if long token then bump token freq else freq)
                          tokens acc in
    (forall w, freq_get w freq
               = (freq_get w acc + if long w then occurrences w tokens else 0)%nat)
    /\ (NoDup (term_keys acc) -> NoDup (term_keys freq))
    /\ (Forall (fun item => long (fst item) = true) acc ->
        Forall (fun item => long (fst item) = true) freq).
Proof.
  induction tokens as [|t tokens IH]; intros acc; cbv zeta.
  - cbn [fold_left]. split; [|split; auto].
    intros w. unfold occurrences. cbn. destruct (long w); lia.
  - cbn [fold_left].
    destruct (IH (if long t then bump t acc else acc)) as (Hget & Hnd & Hlong).
    split; [|split].
    + intros w. rewrite Hget. unfold occurrences. cbn [filter].
      destruct (long t) eqn:Et.
      * rewrite freq_get_bump.
        destruct (text_eqb w t) eqn:E; cbn [List.length].
        -- apply text_eqb_eq in E. subst t. rewrite Et. lia.
        -- destruct (long w); lia.
      * destruct (text_eqb w t) eqn:E; cbn [List.length]; [|reflexivity].
        apply text_eqb_eq in E. subst t. rewrite Et. lia.
    + intros H. apply Hnd. destruct (long t); [now apply keys_bump_NoDup | exact H].
    + intros H. apply Hlong. destruct (long t) eqn:Et; [|exact H].
      clear - H Et. induction acc as [|[k n] acc IHa]; cbn [bump].
      * constructor; [exact Et | constructor].
      * inversion H as [|? ? Hk Hacc]; subst.
        destruct (text_eqb t k); constructor; auto.
Qed.

Lemma insert_term_perm (x : text * nat) (l : list (text * nat)) :
  Permutation (insert_term x l) (x :: l).
Proof.
  induction l as [|y l IH]; cbn [insert_term]; [reflexivity|].
  destruct (snd x <? snd y)%nat; [|reflexivity].
  rewrite IH. apply perm_swap.
Qed.

Lemma sort_terms_perm (l : list (text * nat)) : Permutation (sort_terms l) l.
Proof.
  induction l as [|x l IH]; cbn; [constructor|].
  rewrite insert_term_perm. now constructor.
Qed.

Lemma insert_term_sorted (x : text * nat) (l : list (text * nat)) :
  StronglySorted by_count l -> StronglySorted by_count (insert_term x l).
Proof.
  induction l as [|y l IH]; cbn [insert_term]; intros Hs.
  - repeat constructor.
  - inversion Hs as [|? ? Hl Hall]; subst.
    destruct (snd x <? snd y)%nat eqn:E.
    + apply Nat.ltb_lt in E. constructor; [now apply IH|].
      apply (Permutation_Forall (Permutation_sym (insert_term_perm x l))).
      constructor; [cbn; lia | exact Hall].
    + apply Nat.ltb_ge in E. constructor; [exact Hs|].
      constructor; [exact E|].
      eapply Forall_impl; [|exact Hall]. cbn. intros z Hz. lia.
Qed.

Lemma sort_terms_sorted (l : list (text * nat)) : StronglySorted by_count (sort_terms l).
Proof.
  induction l as [|x l IH]; cbn; [constructor | now apply insert_term_sorted].
Qed.

Lemma sorted_app (A : Type) (R : A -> A -> Prop) (l1 l2 : list A) :
  StronglySorted R (l1 ++ l2) ->
  StronglySorted R l1 /\ forall x y, In x l1 -> In y l2 -> R x y.
Proof.
  induction l1 as [|a l1 IH]; cbn; intros Hs.
  - split; [constructor | intros x y []].
  - inversion Hs as [|? ? Hl Hall]; subst. destruct (IH Hl) as [H1 H2].
    rewrite Forall_app in Hall. destruct Hall as [Ha1 Ha2]. split.
    + constructor; assumption.
    + intros x y [<- | Hx] Hy; [|now apply H2].
      rewrite Forall_forall in Ha2. now apply Ha2.
Qed.

Lemma sorted_filter (A : Type) (R : A -> A -> Prop) (f : A -> bool) (l : list A) :
  StronglySorted R l -> StronglySorted R (filter f l).
Proof.
  induction 1 as [|a l Hl IH Hall]; cbn; [constructor|].
  destruct (f a); [|exact IH]. constructor; [exact IH|].
  rewrite Forall_forall in *. intros x Hx. apply Hall.
  apply filter_In in Hx. tauto.
Qed.

Lemma sorted_map_fst (occ : text -> nat) (l : list (text * nat)) :
  StronglySorted by_count l ->
  (forall item, In item l -> snd item = occ (fst item)) ->
  StronglySorted (fun w w' => (occ w' <= occ w)%nat) (List.map fst l).
Proof.
  induction 1 as [|a l Hl IH Hall]; cbn; intros Hocc; [constructor|].
  constructor; [apply IH; intros item Hin; apply Hocc; now right|].
  rewrite Forall_forall in *. intros w Hw.
  apply in_map_iff in Hw as (item & <- & Hin).
  rewrite <- (Hocc a (or_introl eq_refl)), <- (Hocc item (or_intror Hin)).
  now apply Hall.
Qed.

(** X27. [_extract_key_terms] returns at most ten terms, no term twice, each
    a token of more than three characters that stands at least twice in the
    text, in the order of their numbers of occurrences, the most frequent
    first.  They are the most frequent ones: a token of that kind which is
    missing from the result is missing because ten terms were returned, none
    of which stands less often in the text than it does. *)
Theorem key_terms_are_the_most_frequent (t : text) :
  let occ := fun w => occurrences w (tokenize t) in
  let terms := _extract_key_terms t in
  (List.length terms <= 10)%nat
  /\ NoDup terms
  /\ (forall w, In w terms -> (3 < len w)%Z /\ (2 <= occ w)%nat)
  /\ StronglySorted (fun w w' => (occ w' <= occ w)%nat) terms
  /\ (forall w, (3 < len w)%Z -> (2 <= occ w)%nat -> ~ In w terms ->
                List.length terms = 10%nat
                /\ forall w', In w' terms -> (occ w <= occ w')%nat).
Proof.
  cbv zeta. unfold _extract_key_terms. cbv zeta.
  destruct (count_loop (tokenize t) []) as (Hget & Hnd & Hlong).
  fold (count_terms (tokenize t)) in Hget, Hnd, Hlong.
  specialize (Hnd (NoDup_nil _)). specialize (Hlong (Forall_nil _)).
  set (freq := count_terms (tokenize t)) in *.
  set (sorted := sort_terms freq).
  set (top := firstn 10 sorted).
  assert (Hperm : Permutation sorted freq) by apply sort_terms_perm.
  assert (Hsorted : StronglySorted by_count sorted) by apply sort_terms_sorted.
  assert (Hsplit : sorted = top ++ skipn 10 sorted)
    by (symmetry; apply firstn_skipn).
  assert (Hitem : forall item, In item sorted ->
                               long (fst item) = true
                               /\ snd item = occurrences (fst item) (tokenize t)).
  { intros [k n] Hin. apply (Permutation_in _ Hperm) in Hin. cbn [fst snd].
    rewrite Forall_forall in Hlong. pose proof (Hlong _ Hin) as Hk. cbn [fst] in Hk.
    split; [exact Hk|].
    rewrite <- (@In_freq_get k n freq Hnd Hin), Hget, Hk. reflexivity. }
  assert (Htop : forall item, In item top -> In item sorted).
  { intros item Hin. rewrite Hsplit. apply in_or_app. now left. }
  assert (Hkeys : NoDup (term_keys top)).
  { assert (Hall : NoDup (term_keys sorted)).
    { eapply Permutation_NoDup; [|exact Hnd].
      apply Permutation_map, Permutation_sym, Hperm. }
    rewrite Hsplit, map_app in Hall. eapply NoDup_app_remove_r. exact Hall. }
  rewrite Hsplit in Hsorted. destruct (@sorted_app _ _ _ _ Hsorted) as [Hs1 Hs2].
  split; [|split; [|split; [|split]]].
  - rewrite length_map.
    eapply Nat.le_trans; [apply filter_length_le|]. apply firstn_le_length.
  - now apply NoDup_map_filter.
  - intros w Hw. apply in_map_iff in Hw as ([k n] & <- & Hin).
    apply filter_In in Hin as [Hin Hn]. cbn [fst snd] in *.
    destruct (Hitem _ (Htop _ Hin)) as [Hk Ho]. cbn [fst snd] in *.
    apply Z.ltb_lt in Hk. apply Nat.ltb_lt in Hn. split; [exact Hk | lia].
  - apply sorted_map_fst; [now apply sorted_filter|].
    intros item Hin. apply filter_In in Hin as [Hin _].
    exact (proj2 (Hitem _ (Htop _ Hin))).
  - intros w Hw Ho Hout.
    assert (Hin : In (w, occurrences w (tokenize t)) sorted).
    { apply (Permutation_in _ (Permutation_sym Hperm)).
      assert (Hg : freq_get w freq = occurrences w (tokenize t)).
      { rewrite Hget. apply Z.ltb_lt in Hw. rewrite Hw. reflexivity. }
      rewrite <- Hg. apply freq_get_In. lia. }
    rewrite Hsplit in Hin. apply in_app_or in Hin as [Hin | Hin].
    { exfalso. apply Hout. apply in_map_iff.
      exists (w, occurrences w (tokenize t)). split; [reflexivity|].
      apply filter_In. split; [exact Hin|]. cbn [snd]. apply Nat.ltb_lt. lia. }
    assert (Hall : forall item, In item top ->
                                (occurrences w (tokenize t) <= snd item)%nat).
    { intros item Hi. exact (Hs2 _ _ Hi Hin). }
    assert (Hkeep : filter (fun item => (1 <? snd item)%nat) top = top).
    { apply filter_all. intros item Hi. apply Nat.ltb_lt. specialize (Hall _ Hi). lia. }
    rewrite Hkeep. split.
    + rewrite length_map. unfold top. apply firstn_length_le.
      destruct (Nat.le_gt_cases 10 (List.length sorted)) as [Hle | Hgt]; [exact Hle|].
      rewrite skipn_all2 in Hin by lia. contradiction.
    + intros w' Hw'. apply in_map_iff in Hw' as (item & <- & Hi).
      rewrite <- (proj2 (Hitem _ (Htop _ Hi))). now apply Hall.
Qed.

End KeyTermFacts.

Section FlattenFacts.

Import Py Json Extended ExtendedStage.

Lemma section_of_none (k : text) (data : dict) :
  section_of k data = None
  <-> exists v, dict_get k data = Some v /\ forall d, v <> JDict d.
Proof.
  unfold section_of. destruct (dict_get k data) as [v|].
  - destruct v; split; intros H;
      try discriminate H; try reflexivity;
      try (eexists; split; [reflexivity | discriminate]).
    destruct H as (v & [= <-] & H). exfalso. exact (H _ eq_refl).
  - split; [discriminate | intros (v & H & _); discriminate].
Qed.

(** X28. [_flatten_lm_response] raises [AttributeError] exactly when the
    answer is no object, or holds under one of the four section keys a value
    that is no object ([null] and a list included; a missing section is
    fine).  Otherwise it returns the same 25 keys in the same order whatever
    the answer holds, so every key of the flat dictionary can be read. *)
Theorem flatten_lm_response_shape (response : value) :
  (_flatten_lm_response response = None
   <-> (forall data, response <> JDict data)
       \/ exists data k v,
            response = JDict data /\ In k SECTIONS
            /\ dict_get k data = Some v /\ forall d, v <> JDict d)
  /\ (forall flat, _flatten_lm_response response = Some flat ->
                   List.map fst flat = FLAT_KEYS
                   /\ forall k, In k FLAT_KEYS -> dict_has k flat = true).
Proof.
  destruct response as [| b | z | str | l | data];
    try (split; [split; [intros _; left; discriminate | reflexivity] | discriminate]).
  unfold _flatten_lm_response.
  pose proof (section_of_none (u "entities") data) as H1.
  pose proof (section_of_none (u "technical_content") data) as H2.
  pose proof (section_of_none (u "actionable_content") data) as H3.
  pose proof (section_of_none (u "business_content") data) as H4.
  assert (Hbad : forall k,
             In k SECTIONS ->
             (exists v, dict_get k data = Some v /\ forall d, v <> JDict d) ->
             section_of (u "entities") data = None
             \/ section_of (u "technical_content") data = None
             \/ section_of (u "actionable_content") data = None
             \/ section_of (u "business_content") data = None).
  { intros k [<- | [<- | [<- | [<- | []]]]] H; tauto. }
  assert (Hfound : forall k, In k SECTIONS -> section_of k data = None ->
                             exists data' k' v,
                               JDict data = JDict data' /\ In k' SECTIONS
                               /\ dict_get k' data' = Some v /\ forall d, v <> JDict d).
  { intros k Hk Hn. apply section_of_none in Hn as (v & Hv & Hd).
    exists data, k, v. auto. }
  assert (Hin : In (u "entities") SECTIONS /\ In (u "technical_content") SECTIONS
                /\ In (u "actionable_content") SECTIONS
                /\ In (u "business_content") SECTIONS)
    by (unfold SECTIONS; cbn [In]; tauto).
  destruct Hin as (I1 & I2 & I3 & I4).
  destruct (section_of (u "entities") data) as [entities|] eqn:E1;
    [|split; [split; [intros _; right; exact (Hfound _ I1 E1) | reflexivity]
             | discriminate]].
  destruct (section_of (u "technical_content") data) as [technical|] eqn:E2;
    [|split; [split; [intros _; right; exact (Hfound _ I2 E2) | reflexivity]
             | discriminate]].
  destruct (section_of (u "actionable_content") data) as [actionable|] eqn:E3;
    [|split; [split; [intros _; right; exact (Hfound _ I3 E3) | reflexivity]
             | discriminate]].
  destruct (section_of (u "business_content") data) as [business|] eqn:E4;
    [|split; [split; [intros _; right; exact (Hfound _ I4 E4) | reflexivity]
             | discriminate]].
  split.
  - split; [discriminate|].
    intros [Hno | (data' & k & v & [= <-] & Hk & Hv & Hd)].
    + exfalso. exact (Hno data eq_refl).
    + exfalso. destruct (Hbad k Hk (ex_intro _ v (conj Hv Hd))) as [H | [H | [H | H]]];
        discriminate.
  - intros flat [= <-]. split; [reflexivity|].
    intros k Hk. unfold FLAT_KEYS in Hk. cbn [List.map In] in Hk.
    repeat (destruct Hk as [<- | Hk]; [reflexivity|]). contradiction.
Qed.

End FlattenFacts.

Section TokenFacts.

Import Py Extended Extended.TextAnalyzer.

Lemma close_run_shape (cur w : text) :
  forallb is_word_char cur = true -> In w (close_run cur) ->
  (2 <= List.length w)%nat /\ forallb is_word_char w = true.
Proof.
  intros Hcur Hin. unfold close_run in Hin.
  destruct cur as [|a [|b cur']]; try contradiction.
  destruct Hin as [<- | []]. split.
  - rewrite length_rev. cbn. lia.
  - apply forallb_forall. intros c Hc. apply in_rev in Hc.
    exact (proj1 (forallb_forall _ _) Hcur c Hc).
Qed.

Lemma findall_words_shape (t : text) :
  forall (cur w : text),
    forallb is_word_char cur = true -> In w (findall_words cur t) ->
    (2 <= List.length w)%nat /\ forallb is_word_char w = true.
Proof.
  induction t as [|c t IH]; intros cur w Hcur Hin; cbn [findall_words] in Hin.
  - exact (@close_run_shape cur w Hcur Hin).
  - destruct (is_word_char c) eqn:Ec.
    + apply (IH (c :: cur)); [cbn [forallb]; now rewrite Ec | exact Hin].
    + apply in_app_or in Hin as [Hin | Hin];
        [exact (@close_run_shape cur w Hcur Hin) | exact (IH [] w eq_refl Hin)].
Qed.

(** X29. Every token [tokenize] returns has at least two characters, all of
    them letters or digits of the classes [WORD_RE] names, and is no stop
    word.  The letter [ё] is in none of these classes, so the words the
    pattern finds never are the stop words ['ещё'] and ['всё']: these two
    entries of [STOP_WORDS] filter nothing. *)
Theorem tokens_shape (t : text) :
  (forall w, In w (tokenize t) ->
             (2 <= len w)%Z /\ forallb is_word_char w = true /\ ~ In w STOP_WORDS)
  /\ (forall s w, In s [u "ещё"; u "всё"] ->
                  In s STOP_WORDS /\ (In w (findall_words [] (lower t)) -> w <> s)).
Proof.
  split.
  - intros w Hw. unfold tokenize in Hw. apply filter_In in Hw as [Hin Hstop].
    destruct (@findall_words_shape (lower t) [] w eq_refl Hin) as [Hlen Hchars].
    split; [unfold len; lia|]. split; [exact Hchars|].
    apply mem_false. now apply negb_true_iff.
  - intros s w Hs. split.
    + apply mem_In. destruct Hs as [<- | [<- | []]]; vm_compute; reflexivity.
    + intros Hin Heq. destruct (@findall_words_shape (lower t) [] w eq_refl Hin) as [_ Hchars].
      subst w. destruct Hs as [<- | [<- | []]]; vm_compute in Hchars; discriminate.
Qed.

End TokenFacts.
